(** * keras/engine/training_arrays.py: the array-data training loops

    A shallow embedding of [fit_loop], [predict_loop], [evaluate_loop],
    [get_batch_generator] and [get_batch_size] of
    [keras/engine/training_arrays.py].

    Conventions of the embedding.
    - Python integers that count samples, steps and epochs are [nat];
      an argument that may be [None] is an [option].
    - A Python float is an IEEE 754 binary64 number ([pyfloat]): sums,
      products and quotients round as the processor rounds them, overflow
      to an infinity and are compared with [=]; an integer operand of a
      float operation is converted first, and [OverflowError] is raised
      for one that is too large.
    - A numpy array has a dtype, a shape and its elements in row-major
      order; a slice assignment broadcasts the value to the slice and casts
      it to the dtype of the array, as numpy does.  How numpy casts one
      element, and which dtype it gives a concatenation of arrays of
      several dtypes, is left to the collaborators.
    - An exception is a value of [exn]; a computation that may raise returns
      a [result].
    - The model, its compute functions, the random number generator and the
      callbacks are opaque: they are the fields of a [Collaborators]
      instance, acting on a store that holds the stop flags.
    - The loops run in a state-and-exception monad whose state also carries
      a chronological trace of the calls the loops made. *)

From Stdlib Require Import String Ascii.
From Stdlib Require Import List Arith Lia Bool ZArith Permutation.
From Stdlib Require Floats.
Import ListNotations.

Set Warnings "-register-all".

Set Implicit Arguments.
Local Open Scope string_scope.
Local Open Scope list_scope.
Local Open Scope nat_scope.

(** ** Exceptions and results *)

Inductive exn : Type :=
| ValueError (msg : string)
| TypeError (msg : string)
| IndexError
| AttributeError
| ZeroDivisionError
| OverflowError
| OtherError (msg : string).

Inductive result (A : Type) : Type :=
| Ok (a : A)
| Raise (e : exn).
Arguments Ok {A} a.
Arguments Raise {A} e.

Definition is_ok {A} (r : result A) : bool :=
  match r with Ok _ => true | Raise _ => false end.

(** [mapR f l]: a list comprehension whose element expression may raise;
    the elements are evaluated left to right and the first exception
    propagates. *)
Fixpoint mapR {A B} (f : A -> result B) (l : list A) : result (list B) :=
  match l with
  | [] => Ok []
  | x :: t =>
      match f x with
      | Raise e => Raise e
      | Ok y => match mapR f t with
                | Raise e => Raise e
                | Ok ys => Ok (y :: ys)
                end
      end
  end.

(** ** Python floats *)

(** The values of a Python [float]: binary64, with the signed zeros, the
    infinities and the NaN. *)
Definition pyfloat : Type := PrimFloat.float.

(** [0.] *)
Definition fzero : pyfloat := PrimFloat.zero.

(** [x + y], [x * y] and [x / y] for a divisor that is not zero. *)
Definition fadd (x y : pyfloat) : pyfloat := PrimFloat.add x y.
Definition fmul (x y : pyfloat) : pyfloat := PrimFloat.mul x y.
Definition fdiv (x y : pyfloat) : pyfloat := PrimFloat.div x y.

(** The binary64 number nearest to an integer, ties to even; an infinity
    beyond the largest one. *)
Definition float_of_nat (n : nat) : pyfloat :=
  FloatOps.SF2Prim
    (SpecFloat.binary_normalize FloatOps.prec FloatOps.emax (Z.of_nat n) 0 false).

(** The conversion of the integer operand of [x * n] and [x / n]. *)
Definition float_of_int (n : nat) : result pyfloat :=
  let x := float_of_nat n in
  if PrimFloat.is_infinity x
  then Raise OverflowError
  else Ok x.

(** ** numpy arrays *)

(** The element types: numpy's boolean, integer and floating-point
    dtypes, by their width in bits. *)
Inductive np_dtype : Type :=
| DBool
| DInt (bits : nat)
| DUInt (bits : nat)
| DFloat (bits : nat).

Definition float64 : np_dtype := DFloat 64.
Definition int64 : np_dtype := DInt 64.

Definition dtype_eq_dec (a b : np_dtype) : {a = b} + {a <> b}.
Proof. decide equality; apply Nat.eq_dec. Defined.

(** An element of an array.  A [float16] or [float32] element is the
    binary64 number equal to it. *)
Inductive scalar : Type :=
| SBool (b : bool)
| SInt (z : Z)
| SFloat (x : pyfloat).

(** The element [np.zeros] fills an array with. *)
Definition zero_of (d : np_dtype) : scalar :=
  match d with
  | DBool => SBool false
  | DInt _ | DUInt _ => SInt 0
  | DFloat _ => SFloat fzero
  end.

(** A numpy array with at least one axis: its dtype, the shape of a row
    and its rows along the leading (sample) axis, each row flattened in
    row-major order. *)
Record ndarray : Type := mkArray {
  dtype : np_dtype;
  trailing : list nat;
  rows : list (list scalar)
}.

(** [a.shape] *)
Definition shape (a : ndarray) : list nat := length (rows a) :: trailing a.

(** The number of elements of an array of a given shape. *)
Definition size_of (shape : list nat) : nat := fold_right Nat.mul 1 shape.

(** ** Python values held by an input bundle *)

(** The elements of [ins]: a Python float (the learning-phase flag), a
    numpy array, or any other container, known only by the leading
    dimension it reports (if it has a [shape]) and by what indexing it
    with a list of indices does. *)
Inductive pyval : Type :=
| PFloat (x : pyfloat)
| PArray (a : ndarray)
| PObject (shape0 : option nat) (getitem : list nat -> result pyval).

(** An input bundle: a Python list, or [None]. *)
Definition bundle : Type := option (list pyval).

(** [isinstance(x, float)] *)
Definition is_float (x : pyval) : bool :=
  match x with PFloat _ => true | _ => false end.

(** [hasattr(x, 'shape')] *)
Definition has_shape (x : pyval) : bool :=
  match x with
  | PFloat _ => false
  | PArray _ => true
  | PObject s _ => match s with Some _ => true | None => false end
  end.

(** [x.shape[0]] *)
Definition shape0_of (x : pyval) : result nat :=
  match x with
  | PFloat _ => Raise AttributeError
  | PArray a => Ok (length (rows a))
  | PObject (Some n) _ => Ok n
  | PObject None _ => Raise AttributeError
  end.

(** Rows of an array at a list of positions (numpy integer-array
    indexing); [None] when a position is out of bounds. *)
Fixpoint take_rows {A} (rs : list A) (ids : list nat) : option (list A) :=
  match ids with
  | [] => Some []
  | i :: t =>
      match nth_error rs i, take_rows rs t with
      | Some r, Some l => Some (r :: l)
      | _, _ => None
      end
  end.

Definition float_not_subscriptable : string :=
  "'float' object is not subscriptable".

(** [x[ids]] for a list of indices [ids]. *)
Definition py_getitem (x : pyval) (ids : list nat) : result pyval :=
  match x with
  | PFloat _ => Raise (TypeError float_not_subscriptable)
  | PArray a =>
      match take_rows (rows a) ids with
      | Some rs => Ok (PArray (mkArray (dtype a) (trailing a) rs))
      | None => Raise IndexError
      end
  | PObject _ g => g ids
  end.

(** [l[a:b]] on a Python sequence: out-of-range bounds are clipped. *)
Definition py_slice {A} (l : list A) (a b : nat) : list A :=
  firstn (b - a) (skipn a l).

(** Modelled from the spec: [slice_arrays] of [utils/generic_utils.py] is
    not among the sources.  The spec: slicing [ins] by a batch's index
    range yields a batch bundle of the same arity; a slicing failure
    (incompatible container) is an error.  Every element is indexed by
    the batch's index array, in order. *)
Definition slice_arrays (arrays : list pyval) (start : list nat)
  : result (list pyval) :=
  mapR (fun x => py_getitem x start) arrays.

(** Modelled from the spec: [make_batches] of [training_utils.py] is not
    among the sources.  The spec: [ceil(num_samples/batch_size)] batches
    whose index ranges partition [[0, num_samples)]; batch [i] starts at
    [i * batch_size] and holds [batch_size] indices, the last one what is
    left.  A batch is its [(batch_start, batch_end)] pair. *)
Definition ceil_div (n b : nat) : nat := (n + b - 1) / b.

Definition make_batches (size batch_size : nat) : result (list (nat * nat)) :=
  match batch_size with
  | 0 => Raise ZeroDivisionError
  | _ => Ok (map (fun i => (i * batch_size, Nat.min size ((i + 1) * batch_size)))
                 (seq 0 (ceil_div size batch_size)))
  end.

(** Consecutive chunks of [b] elements ([reshape((count, b))] of a list
    whose length is [count * b]). *)
Fixpoint chunks {A} (count b : nat) (l : list A) : list (list A) :=
  match count with
  | 0 => []
  | S c => firstn b l :: chunks c b (skipn b l)
  end.

Inductive shuffle_mode : Type :=
| ShuffleFalse
| ShuffleTrue
| ShuffleBatch.

(** ** Logs, notifications and events *)

(** A value of a logs dictionary: the integers [batch] and [size], or a
    metric. *)
Inductive logval : Type :=
| LInt (n : nat)
| LFloat (x : pyfloat).

(** A logs dictionary: keys in insertion order. *)
Definition dict : Type := list (string * logval).

Fixpoint dict_set (d : dict) (k : string) (v : logval) : dict :=
  match d with
  | [] => [(k, v)]
  | (k', v') :: t =>
      if String.eqb k k' then (k, v) :: t else (k', v') :: dict_set t k v
  end.

(** [for l, o in zip(labels, outs): logs[prefix + l] = o] *)
Fixpoint log_outputs (prefix : string) (labels : list string)
  (outs : list pyfloat) (logs : dict) : dict :=
  match labels, outs with
  | l :: ls, o :: os =>
      log_outputs prefix ls os (dict_set logs (prefix ++ l)%string (LFloat o))
  | _, _ => logs
  end.

(** The values of the dictionary given to [callbacks.set_params]. *)
Inductive param : Type :=
| ParamInt (n : option nat)
| ParamBool (b : bool)
| ParamNames (l : list string).

(** What the loops tell the callback list.  [ResetStates] is the loop over
    [model.stateful_metric_functions]; [SetValidationData] the loop that
    assigns [cbk.validation_data]. *)
Inductive notification : Type :=
| NewCallbackList (verbose : nat) (count_mode : string)
| SetModel
| SetParams (p : list (string * param))
| SetValidationData (ins : bundle)
| ResetStates
| OnTrainBegin
| OnTrainEnd
| OnEpochBegin (epoch : nat)
| OnEpochEnd (epoch : nat) (logs : dict)
| OnFitBatchBegin (index : nat) (logs : dict)
| OnFitBatchEnd (index : nat) (logs : dict)
| OnEvaluateBatchBegin (index : nat) (logs : dict)
| OnEvaluateBatchEnd (index : nat) (logs : dict)
| OnPredictBatchBegin (index : nat) (logs : dict)
| OnPredictBatchEnd (index : nat) (logs : dict).

(** Where a loop reads a stop flag. *)
Inductive poll_site : Type :=
| AfterFitBatch
| AfterEpoch
| AfterEvaluateBatch
| AfterPredictBatch.

(** What a loop did, in the order it did it. *)
Inductive event : Type :=
| EvPrint (train_samples val_samples : nat)
| EvNotify (n : notification)
| EvTrain (ins : bundle) (r : result (list pyfloat))
| EvTest (ins : bundle) (r : result (list pyfloat))
| EvPredict (ins : bundle) (r : result (list ndarray))
| EvPoll (site : poll_site) (flag : bool).

(** ** The store and the collaborators *)

(** The mutable state the loops share with the callbacks: the three stop
    flags of [callback_model], the list object [model.metrics_names], and
    whatever else the model, the callbacks and the random generator
    keep ([ext]). *)
Record store (T : Type) : Type := mkStore {
  stop_training : bool;
  stop_evaluating : bool;
  stop_predicting : bool;
  metrics_names : list string;
  ext : T
}.

(** The code [training_arrays.py] calls and does not define.
    [check_num_samples] ([training_utils.py]) and the callback classes
    ([callbacks.py]) are not among the sources and are taken as they
    come.  Of numpy: [np_astype d x] is the element [x] cast to the
    dtype [d] as an assignment casts it, and [np_result_type] the dtype
    of a concatenation of arrays of these dtypes, not all the same. *)
Class Collaborators (T : Type) : Type := {
  has_metrics : bool;
  stateful_metric_names : list string;
  notify : notification -> store T -> result unit * store T;
  train_function : bundle -> store T -> result (list pyfloat) * store T;
  test_function : bundle -> store T -> result (list pyfloat) * store T;
  predict_function : bundle -> store T -> result (list ndarray) * store T;
  get_sparse_conversion_indices : bundle -> bool -> list nat;
  toarray : pyval -> result pyval;
  check_num_samples :
    bundle -> option nat -> option nat -> string -> result (option nat);
  np_random_shuffle : forall A : Type, list A -> T -> list A * T;
  np_astype : np_dtype -> scalar -> scalar;
  np_result_type : list np_dtype -> np_dtype
}.

(** [np.random.shuffle] reorders and neither drops nor repeats. *)
Definition shuffle_permutes {T} (C : Collaborators T) : Prop :=
  forall (A : Type) (l : list A) (s : T),
    Permutation (fst (np_random_shuffle l s)) l.

Record world (T : Type) : Type := mkWorld {
  st : store T;
  trace : list event
}.

(** The events a run added to the trace. *)
Definition new_events {T} (w w' : world T) : list event :=
  skipn (length (trace w)) (trace w').

(** ** The monad of the loops *)

Definition M (T A : Type) : Type := world T -> result A * world T.

Definition ret {T A} (a : A) : M T A := fun w => (Ok a, w).

Definition bind {T A B} (m : M T A) (k : A -> M T B) : M T B :=
  fun w => match m w with
           | (Ok a, w') => k a w'
           | (Raise e, w') => (Raise e, w')
           end.

Definition raise {T A} (e : exn) : M T A := fun w => (Raise e, w).

Definition liftR {T A} (r : result A) : M T A := fun w => (r, w).

Declare Scope monad_scope.
Delimit Scope monad_scope with monad.
Notation "x <- m ;; k" := (bind m (fun x => k))
  (at level 61, m at next level, right associativity) : monad_scope.
Notation "m ;; k" := (bind m (fun _ => k))
  (at level 61, right associativity) : monad_scope.
Local Open Scope monad_scope.

Definition emit {T} (e : event) : M T unit :=
  fun w => (Ok tt, mkWorld (st w) (trace w ++ [e])).

Definition read {T A} (f : store T -> A) : M T A :=
  fun w => (Ok (f (st w)), w).

Definition write {T} (f : store T -> store T) : M T unit :=
  fun w => (Ok tt, mkWorld (f (st w)) (trace w)).

Definition set_stop_training {T} (b : bool) (s : store T) : store T :=
  mkStore b (stop_evaluating s) (stop_predicting s) (metrics_names s) (ext s).
Definition set_stop_evaluating {T} (b : bool) (s : store T) : store T :=
  mkStore (stop_training s) b (stop_predicting s) (metrics_names s) (ext s).
Definition set_stop_predicting {T} (b : bool) (s : store T) : store T :=
  mkStore (stop_training s) (stop_evaluating s) b (metrics_names s) (ext s).
Definition set_metrics_names {T} (l : list string) (s : store T) : store T :=
  mkStore (stop_training s) (stop_evaluating s) (stop_predicting s) l (ext s).
Definition set_ext {T} (x : T) (s : store T) : store T :=
  mkStore (stop_training s) (stop_evaluating s) (stop_predicting s)
          (metrics_names s) x.

(** [if callback_model.stop_...: break]: the flag, as the loop reads it. *)
Definition poll {T} (site : poll_site) (f : store T -> bool) : M T bool :=
  fun w => (Ok (f (st w)),
            mkWorld (st w) (trace w ++ [EvPoll site (f (st w))])).

Section Loops.

Context {T : Type} {C : Collaborators T}.

(** A call of a callback-list method, or of the loops over the callbacks
    and over the stateful metric functions. *)
Definition tell (n : notification) : M T unit :=
  fun w => let (r, s) := notify n (st w) in
           (r, mkWorld s (trace w ++ [EvNotify n])).

Definition call_train (ins : bundle) : M T (list pyfloat) :=
  fun w => let (r, s) := train_function ins (st w) in
           (r, mkWorld s (trace w ++ [EvTrain ins r])).

Definition call_test (ins : bundle) : M T (list pyfloat) :=
  fun w => let (r, s) := test_function ins (st w) in
           (r, mkWorld s (trace w ++ [EvTest ins r])).

Definition call_predict (ins : bundle) : M T (list ndarray) :=
  fun w => let (r, s) := predict_function ins (st w) in
           (r, mkWorld s (trace w ++ [EvPredict ins r])).

Definition random_shuffle {A} (l : list A) : M T (list A) :=
  fun w => let (l', x) := np_random_shuffle l (ext (st w)) in
           (Ok l', mkWorld (set_ext x (st w)) (trace w)).

(** An integer argument that is [None] where arithmetic needs it. *)
Definition none_is_not_a_number : string :=
  "unsupported operand type(s): 'NoneType'".

Definition as_int (x : option nat) : M T nat :=
  match x with
  | Some n => ret n
  | None => raise (TypeError none_is_not_a_number)
  end.

(** ** [get_batch_generator] *)

(** Modelled from the spec: [batch_shuffle] of [training_utils.py] is not
    among the sources.  The spec: block-shuffle permutes batch-sized
    contiguous chunks of indices rather than individual indices; only
    whole batches are permuted and the order within a chunk is kept.  The
    indices beyond the last whole batch stay at the end. *)
Definition batch_shuffle (index_array : list nat) (batch_size : nat)
  : M T (list nat) :=
  match batch_size with
  | 0 => raise ZeroDivisionError
  | _ =>
      let batch_count := length index_array / batch_size in
      let last_batch := skipn (batch_count * batch_size) index_array in
      let blocks :=
        chunks batch_count batch_size
               (firstn (batch_count * batch_size) index_array) in
      blocks' <- random_shuffle blocks ;;
      ret (concat blocks' ++ last_batch)
  end.

Definition dquote : string := String (ascii_of_nat 34) EmptyString.

Definition batch_type_error : string :=
  ("TypeError while preparing batch. " ++
   "If using HDF5 input data, " ++
   "pass shuffle=" ++ dquote ++ "batch" ++ dquote ++ ".")%string.

(** The body of the [try]: [ins[-1]] is tested, then all of [ins], or all
    but the trailing float, is sliced. *)
Definition slice_ins (ins : bundle) (batch_ids : list nat)
  : result (list pyval) :=
  match ins with
  | None => Raise (TypeError "'NoneType' object is not subscriptable")
  | Some l =>
      match last (map Some l) None with
      | None => Raise IndexError
      | Some flag =>
          if is_float flag then
            match slice_arrays (removelast l) batch_ids with
            | Ok sliced => Ok (sliced ++ [flag])
            | Raise e => Raise e
            end
          else slice_arrays l batch_ids
      end
  end.

(** The [try ... except TypeError] around it. *)
Definition batch_ins_of (ins : bundle) (batch_ids : list nat)
  : result (list pyval) :=
  match slice_ins ins batch_ids with
  | Raise (TypeError _) => Raise (TypeError batch_type_error)
  | r => r
  end.

(** [index_array] after the optional shuffle. *)
Definition shuffled_index_array (num_samples batch_size : option nat)
  (shuffle : shuffle_mode) : M T (list nat) :=
  n <- as_int num_samples ;;
  let index_array := seq 0 n in
  match shuffle with
  | ShuffleBatch =>
      b <- as_int batch_size ;;
      batch_shuffle index_array b
  | ShuffleTrue => random_shuffle index_array
  | ShuffleFalse => ret index_array
  end.

(** The index arrays [batch_ids] of the batches, in order. *)
Definition batch_ids_of (index_array : list nat) (batches : list (nat * nat))
  : list (list nat) :=
  map (fun batch => py_slice index_array (fst batch) (snd batch)) batches.

(** The generator, as the list of what its successive resumptions do:
    yield a batch bundle ([Ok]) or raise.  A consumer reads this list
    from the left and never beyond a [Raise]. *)
Definition get_batch_generator (ins : bundle) (num_samples batch_size : option nat)
  (shuffle : shuffle_mode) : M T (list (result (list pyval))) :=
  index_array <- shuffled_index_array num_samples batch_size shuffle ;;
  n <- as_int num_samples ;;
  b <- as_int batch_size ;;
  batches <- liftR (make_batches n b) ;;
  ret (map (batch_ins_of ins) (batch_ids_of index_array batches)).

(** The bundles a consumer that runs the generator to its end receives,
    and the exception that ends it, if any. *)
Fixpoint yielded {A} (items : list (result A)) : list A :=
  match items with
  | Ok x :: t => x :: yielded t
  | _ => []
  end.

Fixpoint raised {A} (items : list (result A)) : option exn :=
  match items with
  | [] => None
  | Ok _ :: t => raised t
  | Raise e :: _ => Some e
  end.

(** [get_batch_size] *)
Definition get_batch_size (batch_ins : list pyval) : result nat :=
  match batch_ins with
  | [] => Raise IndexError
  | x :: _ => shape0_of x
  end.

(** ** Helpers shared by the loops *)

(** [l[i] = v] for [i] in range. *)
Fixpoint list_set {A} (l : list A) (i : nat) (v : A) : list A :=
  match l, i with
  | [], _ => []
  | _ :: t, 0 => v :: t
  | x :: t, S j => x :: list_set t j v
  end.

(** [i in stateful_metric_indices] *)
Definition is_in (i : nat) (l : list nat) : bool := existsb (Nat.eqb i) l.

(** [[i for i, name in enumerate(model.metrics_names)
      if str(name) in model.stateful_metric_names]], or [[]] for a model
    without [metrics]. *)
Definition stateful_metric_indices (names : list string) : list nat :=
  if has_metrics then
    map fst
        (filter (fun p => existsb (String.eqb (snd p)) stateful_metric_names)
                (combine (seq 0 (length names)) names))
  else [].

(** [for i in indices_for_conversion_to_dense:
       batch_ins[i] = batch_ins[i].toarray()] *)
Fixpoint densify (indices : list nat) (batch_ins : list pyval)
  : result (list pyval) :=
  match indices with
  | [] => Ok batch_ins
  | i :: t =>
      match nth_error batch_ins i with
      | None => Raise IndexError
      | Some x =>
          match toarray x with
          | Raise e => Raise e
          | Ok y => densify t (list_set batch_ins i y)
          end
      end
  end.

(** [batch_logs = {}; batch_logs['batch'] = index; batch_logs['size'] = size] *)
Definition new_batch_logs (index size : nat) : dict :=
  dict_set (dict_set [] "batch" (LInt index)) "size" (LInt size).

(** ** [evaluate_loop] *)

(** [for i, batch_out in enumerate(batch_outs): outs[i] = f i outs[i] batch_out],
    from position [i] on. *)
Fixpoint update_outs (f : nat -> pyfloat -> pyfloat -> result pyfloat) (i : nat)
  (batch_outs outs : list pyfloat) : result (list pyfloat) :=
  match batch_outs with
  | [] => Ok outs
  | o :: t =>
      match nth_error outs i with
      | None => Raise IndexError
      | Some cur =>
          match f i cur o with
          | Raise e => Raise e
          | Ok v => update_outs f (S i) t (list_set outs i v)
          end
      end
  end.

(** Step mode: [outs[i] = float(batch_out)] or [outs[i] += batch_out]. *)
Definition step_update (stateful : list nat) (i : nat) (cur o : pyfloat)
  : result pyfloat :=
  if is_in i stateful then Ok o else Ok (fadd cur o).

(** Sample mode: [outs[i] = batch_out] or [outs[i] += batch_out * size]. *)
Definition sample_update (stateful : list nat) (size : nat) (i : nat)
  (cur o : pyfloat) : result pyfloat :=
  if is_in i stateful then Ok o
  else match float_of_int size with
       | Raise e => Raise e
       | Ok s => Ok (fadd cur (fmul o s))
       end.

(** [if index == 0: for _ in batch_outs: outs.append(0.)] *)
Definition init_outs (index : nat) (batch_outs outs : list pyfloat)
  : list pyfloat :=
  if index =? 0 then outs ++ map (fun _ => fzero) batch_outs else outs.

(** [for step in range(steps): ...] of the step mode, over the steps that
    are left. *)
Fixpoint evaluate_steps (stateful : list nat) (ins : bundle)
  (out_labels : list string) (steps_left : list nat) (outs : list pyfloat)
  : M T (list pyfloat) :=
  match steps_left with
  | [] => ret outs
  | step :: rest =>
      let batch_logs := new_batch_logs step 1 in
      tell (OnEvaluateBatchBegin step batch_logs) ;;
      batch_outs <- call_test ins ;;
      let batch_logs := log_outputs "" out_labels batch_outs batch_logs in
      tell (OnEvaluateBatchEnd step batch_logs) ;;
      let outs := init_outs step batch_outs outs in
      outs <- liftR (update_outs (step_update stateful) 0 batch_outs outs) ;;
      stop <- poll AfterEvaluateBatch (@stop_evaluating T) ;;
      if stop then ret outs
      else evaluate_steps stateful ins out_labels rest outs
  end.

(** [for batch_index, batch_ins in enumerate(batch_generator): ...] of the
    sample mode, over what the generator has left. *)
Fixpoint evaluate_batches (stateful indices : list nat)
  (out_labels : list string) (batch_index : nat)
  (items : list (result (list pyval))) (outs : list pyfloat)
  : M T (list pyfloat) :=
  match items with
  | [] => ret outs
  | item :: rest =>
      batch_ins <- liftR item ;;
      size <- liftR (get_batch_size batch_ins) ;;
      let batch_logs := new_batch_logs batch_index size in
      tell (OnEvaluateBatchBegin batch_index batch_logs) ;;
      batch_ins <- liftR (densify indices batch_ins) ;;
      batch_outs <- call_test (Some batch_ins) ;;
      let batch_logs := log_outputs "" out_labels batch_outs batch_logs in
      tell (OnEvaluateBatchEnd batch_index batch_logs) ;;
      let outs := init_outs batch_index batch_outs outs in
      outs <- liftR (update_outs (sample_update stateful size) 0 batch_outs outs) ;;
      stop <- poll AfterEvaluateBatch (@stop_evaluating T) ;;
      if stop then ret outs
      else evaluate_batches stateful indices out_labels (S batch_index) rest outs
  end.

(** [for i in range(len(outs)):
       if i not in stateful_metric_indices: outs[i] /= d] *)
Definition divide_one (stateful : list nat) (d : option nat)
  (p : nat * pyfloat) : result pyfloat :=
  if is_in (fst p) stateful then Ok (snd p)
  else match d with
       | None => Raise (TypeError none_is_not_a_number)
       | Some 0 => Raise ZeroDivisionError
       | Some n =>
           match float_of_int n with
           | Raise e => Raise e
           | Ok y => Ok (fdiv (snd p) y)
           end
       end.

Definition divide_outs (stateful : list nat) (outs : list pyfloat)
  (d : option nat) : result (list pyfloat) :=
  mapR (divide_one stateful d) (combine (seq 0 (length outs)) outs).

Definition evaluate_loop (ins : bundle) (batch_size : option nat)
  (verbose : nat) (steps : option nat) : M T (list pyfloat) :=
  stateful <-
    (if has_metrics then
       tell ResetStates ;;
       names <- read (@metrics_names T) ;;
       ret (stateful_metric_indices names)
     else ret []) ;;
  num_samples <- liftR (check_num_samples ins batch_size steps "steps") ;;
  let count_param :=
    match steps with Some _ => "val_steps" | None => "val_samples" end in
  names <- read (@metrics_names T) ;;
  let out_labels := map (String.append "val_") names in
  tell (NewCallbackList verbose count_param) ;;
  tell SetModel ;;
  tell (SetParams [("batch_size", ParamInt batch_size);
                   ("val_steps", ParamInt steps);
                   ("val_samples", ParamInt num_samples);
                   ("val_metrics", ParamNames out_labels);
                   ("verbose", ParamInt (Some verbose))]) ;;
  write (set_stop_evaluating false) ;;
  tell (SetValidationData ins) ;;
  let indices := get_sparse_conversion_indices ins false in
  match steps with
  | Some steps =>
      outs <- evaluate_steps stateful ins out_labels (seq 0 steps) [] ;;
      liftR (divide_outs stateful outs (Some steps))
  | None =>
      batch_generator <-
        get_batch_generator ins num_samples batch_size ShuffleFalse ;;
      outs <- evaluate_batches stateful indices out_labels 0 batch_generator [] ;;
      liftR (divide_outs stateful outs num_samples)
  end.

(** ** [predict_loop] *)

Definition same_trailing (a b : ndarray) : bool :=
  if list_eq_dec Nat.eq_dec (trailing a) (trailing b) then true else false.

Definition same_dtype (a b : ndarray) : bool :=
  if dtype_eq_dec (dtype a) (dtype b) then true else false.

(** Rows of dtype [from] as rows of dtype [to]: as they are when the
    dtypes are the same, else cast element by element. *)
Definition cast_rows (from to : np_dtype) (rs : list (list scalar))
  : list (list scalar) :=
  if dtype_eq_dec from to then rs else map (map (np_astype to)) rs.

(** The dtype of a concatenation: that of the arrays when they have the
    same one, else the one numpy promotes them to. *)
Definition result_type (arrays : list ndarray) : np_dtype :=
  match arrays with
  | [] => float64
  | a :: t =>
      if forallb (same_dtype a) t then dtype a
      else np_result_type (map dtype arrays)
  end.

(** [np.concatenate(arrays, axis=0)]: the arrays need the same shape but
    for the first axis; their rows are cast to the common dtype. *)
Definition np_concatenate (arrays : list ndarray) : result ndarray :=
  match arrays with
  | [] => Raise (ValueError "need at least one array to concatenate")
  | a :: t =>
      if forallb (same_trailing a) t
      then
        let d := result_type arrays in
        Ok (mkArray d (trailing a)
              (concat (map (fun x => cast_rows (dtype x) d (rows x)) arrays)))
      else Raise (ValueError "all the input array dimensions except for the concatenation axis must match exactly")
  end.

(** [np.zeros((n,) + shape, dtype=d)] *)
Definition np_zeros (n : nat) (shape : list nat) (d : np_dtype) : ndarray :=
  mkArray d shape (repeat (repeat (zero_of d) (size_of shape)) n).

Definition could_not_broadcast : string := "could not broadcast input array".

(** How numpy lines up the shape of a value with a target of [n] axes:
    the shapes are aligned at their last axes, a value with fewer axes
    gets leading axes of length 1, and leading axes of length 1 that the
    value has in excess are dropped. *)
Fixpoint align_shape (vs : list nat) (n : nat) : option (list nat) :=
  if length vs <=? n then Some (repeat 1 (n - length vs) ++ vs)
  else match vs with
       | 1 :: vs' => align_shape vs' n
       | _ => None
       end.

(** Broadcasting row-major data of shape [vs] to the shape [ts] of as
    many axes: along an axis the value has the length of the target, or
    has length 1 and its one item is repeated. *)
Fixpoint broadcast_data {A} (vs ts : list nat) (data : list A)
  : result (list A) :=
  match vs, ts with
  | [], [] => Ok data
  | dv :: vs', dt :: ts' =>
      match mapR (broadcast_data vs' ts') (chunks dv (size_of vs') data) with
      | Raise e => Raise e
      | Ok items =>
          if dv =? dt then Ok (concat items)
          else if dv =? 1 then Ok (concat (repeat (concat items) dt))
          else Raise (ValueError could_not_broadcast)
      end
  | _, _ => Raise (ValueError could_not_broadcast)
  end.

(** The value [v] broadcast to [n] rows of shape [row_shape]. *)
Definition broadcast_rows (v : ndarray) (n : nat) (row_shape : list nat)
  : result (list (list scalar)) :=
  match align_shape (shape v) (S (length row_shape)) with
  | None => Raise (ValueError could_not_broadcast)
  | Some vs =>
      match broadcast_data vs (n :: row_shape) (concat (rows v)) with
      | Raise e => Raise e
      | Ok data => Ok (chunks n (size_of row_shape) data)
      end
  end.

(** The rows numpy stores in a slice of [n] rows of the array [a] when the
    value [v] is assigned to it: [v] broadcast to the shape of the slice
    and cast to the dtype of [a]. *)
Definition stored_rows (a : ndarray) (n : nat) (v : ndarray)
  : result (list (list scalar)) :=
  match broadcast_rows v n (trailing a) with
  | Raise e => Raise e
  | Ok rs => Ok (cast_rows (dtype v) (dtype a) rs)
  end.

(** [a[start:stop] = v] for [start <= stop]: the bounds are clipped to
    the array. *)
Definition assign_slice (a : ndarray) (start stop : nat) (v : ndarray)
  : result ndarray :=
  let lo := Nat.min start (length (rows a)) in
  let hi := Nat.min stop (length (rows a)) in
  match stored_rows a (hi - lo) v with
  | Raise e => Raise e
  | Ok rs =>
      Ok (mkArray (dtype a) (trailing a)
            (firstn lo (rows a) ++ rs ++ skipn hi (rows a)))
  end.

(** [for i, batch_out in enumerate(batch_outs):
       unconcatenated_outs[i].append(batch_out)], from position [i] on. *)
Fixpoint append_outs (i : nat) (batch_outs : list ndarray)
  (unconcatenated_outs : list (list ndarray)) : result (list (list ndarray)) :=
  match batch_outs with
  | [] => Ok unconcatenated_outs
  | o :: t =>
      match nth_error unconcatenated_outs i with
      | None => Raise IndexError
      | Some l => append_outs (S i) t (list_set unconcatenated_outs i (l ++ [o]))
      end
  end.

(** [for i, batch_out in enumerate(batch_outs):
       outs[i][start:start + size] = batch_out], from position [i] on. *)
Fixpoint store_outs (start size : nat) (i : nat) (batch_outs outs : list ndarray)
  : result (list ndarray) :=
  match batch_outs with
  | [] => Ok outs
  | o :: t =>
      match nth_error outs i with
      | None => Raise IndexError
      | Some a =>
          match assign_slice a start (start + size) o with
          | Raise e => Raise e
          | Ok a' => store_outs start size (S i) t (list_set outs i a')
          end
      end
  end.

Fixpoint predict_steps (ins : bundle) (steps_left : list nat)
  (unconcatenated_outs : list (list ndarray)) : M T (list (list ndarray)) :=
  match steps_left with
  | [] => ret unconcatenated_outs
  | step :: rest =>
      let batch_logs := new_batch_logs step 1 in
      tell (OnPredictBatchBegin step batch_logs) ;;
      batch_outs <- call_predict ins ;;
      tell (OnPredictBatchEnd step batch_logs) ;;
      let unconcatenated_outs :=
        if step =? 0
        then unconcatenated_outs ++ map (fun _ => []) batch_outs
        else unconcatenated_outs in
      unconcatenated_outs <-
        liftR (append_outs 0 batch_outs unconcatenated_outs) ;;
      stop <- poll AfterPredictBatch (@stop_predicting T) ;;
      if stop then ret unconcatenated_outs
      else predict_steps ins rest unconcatenated_outs
  end.

(** [num_samples] and [batch_size] are read where the source reads them:
    in the two loops over a non-empty [batch_outs]. *)
Fixpoint predict_batches (indices : list nat) (num_samples batch_size : option nat)
  (batch_index : nat) (items : list (result (list pyval)))
  (outs : list ndarray) : M T (list ndarray) :=
  match items with
  | [] => ret outs
  | item :: rest =>
      batch_ins <- liftR item ;;
      size <- liftR (get_batch_size batch_ins) ;;
      let batch_logs := new_batch_logs batch_index size in
      tell (OnPredictBatchBegin batch_index batch_logs) ;;
      batch_ins <- liftR (densify indices batch_ins) ;;
      batch_outs <- call_predict (Some batch_ins) ;;
      tell (OnPredictBatchEnd batch_index batch_logs) ;;
      outs <-
        (if batch_index =? 0 then
           match batch_outs with
           | [] => ret outs
           | _ =>
               n <- as_int num_samples ;;
               ret (outs ++ map (fun o => np_zeros n (trailing o) (dtype o))
                                batch_outs)
           end
         else ret outs) ;;
      outs <-
        match batch_outs with
        | [] => ret outs
        | _ =>
            b <- as_int batch_size ;;
            liftR (store_outs (batch_index * b) size 0 batch_outs outs)
        end ;;
      stop <- poll AfterPredictBatch (@stop_predicting T) ;;
      if stop then ret outs
      else predict_batches indices num_samples batch_size (S batch_index) rest outs
  end.

Definition predict_loop (ins : bundle) (batch_size : option nat) (verbose : nat)
  (steps : option nat) : M T (list ndarray) :=
  num_samples <- liftR (check_num_samples ins batch_size steps "steps") ;;
  let count_param :=
    match steps with Some _ => "pred_steps" | None => "pred_samples" end in
  tell (NewCallbackList verbose count_param) ;;
  tell SetModel ;;
  tell (SetParams [("batch_size", ParamInt batch_size);
                   ("pred_steps", ParamInt steps);
                   ("pred_samples", ParamInt num_samples);
                   ("verbose", ParamInt (Some verbose))]) ;;
  write (set_stop_predicting false) ;;
  tell (SetValidationData ins) ;;
  let indices := get_sparse_conversion_indices ins true in
  match steps with
  | Some steps =>
      unconcatenated_outs <- predict_steps ins (seq 0 steps) [] ;;
      liftR (mapR np_concatenate unconcatenated_outs)
  | None =>
      batch_generator <-
        get_batch_generator ins num_samples batch_size ShuffleFalse ;;
      predict_batches indices num_samples batch_size 0 batch_generator []
  end.

(** ** [fit_loop] *)

(** Truth value of an integer argument that may be [None], and of a
    bundle. *)
Definition truthy_int (x : option nat) : bool :=
  match x with Some (S _) => true | _ => false end.

Definition truthy_bundle (x : bundle) : bool :=
  match x with Some (_ :: _) => true | _ => false end.

Definition validation_steps_error : string :=
  "Can only use `validation_steps` when doing step-wise training, i.e. `steps_per_epoch` must be set.".

Definition steps_per_epoch_error : string :=
  "Must specify `validation_steps` to perform validation when doing step-wise training.".

(** The [print] under [if val_ins:]. *)
Definition print_train_on (verbose : nat) (ins val_ins : bundle) : M T unit :=
  match ins, val_ins with
  | Some (x :: _), Some (v :: _) =>
      if (0 <? verbose) && has_shape x && has_shape v then
        n <- liftR (shape0_of x) ;;
        m <- liftR (shape0_of v) ;;
        emit (EvPrint n m)
      else ret tt
  | _, _ => ret tt
  end.

(** Lines 49-67: [do_validation], or the [ValueError]. *)
Definition check_validation (verbose : nat) (ins val_ins : bundle)
  (steps_per_epoch validation_steps : option nat) : M T bool :=
  do_validation <-
    (if truthy_bundle val_ins then
       print_train_on verbose ins val_ins ;; ret true
     else ret false) ;;
  if truthy_int validation_steps then
    match steps_per_epoch with
    | None => raise (ValueError validation_steps_error)
    | Some _ => ret true
    end
  else if do_validation then
    if truthy_int steps_per_epoch
    then raise (ValueError steps_per_epoch_error)
    else ret do_validation
  else ret do_validation.

(** [for step_index in range(steps_per_epoch): ...], over the steps that
    are left. *)
Fixpoint fit_steps (ins : bundle) (out_labels : list string)
  (steps_left : list nat) : M T unit :=
  match steps_left with
  | [] => ret tt
  | step_index :: rest =>
      let batch_logs := new_batch_logs step_index 1 in
      tell (OnFitBatchBegin step_index batch_logs) ;;
      batch_outs <- call_train ins ;;
      let batch_logs := log_outputs "" out_labels batch_outs batch_logs in
      tell (OnFitBatchEnd step_index batch_logs) ;;
      stop <- poll AfterFitBatch (@stop_training T) ;;
      if stop then ret tt else fit_steps ins out_labels rest
  end.

(** [for batch_index, batch_ins in enumerate(batch_generator): ...], over
    what the generator has left. *)
Fixpoint fit_batches (indices : list nat) (out_labels : list string)
  (batch_index : nat) (items : list (result (list pyval))) : M T unit :=
  match items with
  | [] => ret tt
  | item :: rest =>
      batch_ins <- liftR item ;;
      size <- liftR (get_batch_size batch_ins) ;;
      let batch_logs := new_batch_logs batch_index size in
      tell (OnFitBatchBegin batch_index batch_logs) ;;
      batch_ins <- liftR (densify indices batch_ins) ;;
      batch_outs <- call_train (Some batch_ins) ;;
      let batch_logs := log_outputs "" out_labels batch_outs batch_logs in
      tell (OnFitBatchEnd batch_index batch_logs) ;;
      stop <- poll AfterFitBatch (@stop_training T) ;;
      if stop then ret tt
      else fit_batches indices out_labels (S batch_index) rest
  end.

(** The body of [for epoch in range(initial_epoch, epochs)] up to the call
    of [on_epoch_end]: the batches, then the validation; the result is
    [epoch_logs]. *)
Definition fit_epoch_body (ins val_ins : bundle) (batch_size : option nat)
  (shuffle : shuffle_mode) (steps_per_epoch validation_steps : option nat)
  (do_validation : bool) (num_train_samples : option nat)
  (out_labels : list string) (indices : list nat) : M T dict :=
  let epoch_logs : dict := [] in
  match steps_per_epoch with
  | Some steps =>
      fit_steps ins out_labels (seq 0 steps) ;;
      if do_validation then
        val_outs <- evaluate_loop val_ins None 0 validation_steps ;;
        ret (log_outputs "val_" out_labels val_outs epoch_logs)
      else ret epoch_logs
  | None =>
      batch_generator <-
        get_batch_generator ins num_train_samples batch_size shuffle ;;
      fit_batches indices out_labels 0 batch_generator ;;
      if do_validation then
        val_outs <- evaluate_loop val_ins batch_size 0 None ;;
        ret (log_outputs "val_" out_labels val_outs epoch_logs)
      else ret epoch_logs
  end.

Fixpoint fit_epochs (ins val_ins : bundle) (batch_size : option nat)
  (shuffle : shuffle_mode) (steps_per_epoch validation_steps : option nat)
  (do_validation : bool) (num_train_samples : option nat)
  (out_labels : list string) (indices : list nat) (epochs_left : list nat)
  : M T unit :=
  match epochs_left with
  | [] => ret tt
  | epoch :: rest =>
      tell ResetStates ;;
      tell (OnEpochBegin epoch) ;;
      epoch_logs <-
        fit_epoch_body ins val_ins batch_size shuffle steps_per_epoch
                       validation_steps do_validation num_train_samples
                       out_labels indices ;;
      tell (OnEpochEnd epoch epoch_logs) ;;
      stop <- poll AfterEpoch (@stop_training T) ;;
      if stop then ret tt
      else fit_epochs ins val_ins batch_size shuffle steps_per_epoch
                      validation_steps do_validation num_train_samples
                      out_labels indices rest
  end.

(** [fit_loop].  [callback_metrics] and [out_labels] are the list object
    [model.metrics_names], which [+=] extends in place.  The [History]
    object the function returns lives in [ext]. *)
Definition fit_loop (ins : bundle) (batch_size : option nat) (epochs verbose : nat)
  (val_ins : bundle) (shuffle : shuffle_mode) (initial_epoch : nat)
  (steps_per_epoch validation_steps : option nat) : M T unit :=
  do_validation <-
    check_validation verbose ins val_ins steps_per_epoch validation_steps ;;
  num_train_samples <-
    liftR (check_num_samples ins batch_size steps_per_epoch "steps_per_epoch") ;;
  names <- read (@metrics_names T) ;;
  out_labels <-
    (if do_validation then
       let extended := names ++ map (String.append "val_") names in
       write (set_metrics_names extended) ;; ret extended
     else ret names) ;;
  let count_mode :=
    match steps_per_epoch with Some _ => "steps" | None => "samples" end in
  tell (NewCallbackList verbose count_mode) ;;
  tell SetModel ;;
  tell (SetParams [("batch_size", ParamInt batch_size);
                   ("epochs", ParamInt (Some epochs));
                   ("steps", ParamInt steps_per_epoch);
                   ("samples", ParamInt num_train_samples);
                   ("val_steps", ParamInt validation_steps);
                   ("verbose", ParamInt (Some verbose));
                   ("do_validation", ParamBool do_validation);
                   ("metrics", ParamNames out_labels)]) ;;
  tell OnTrainBegin ;;
  write (set_stop_training false) ;;
  tell (SetValidationData val_ins) ;;
  let indices := get_sparse_conversion_indices ins false in
  fit_epochs ins val_ins batch_size shuffle steps_per_epoch validation_steps
             do_validation num_train_samples out_labels indices
             (seq initial_epoch (epochs - initial_epoch)) ;;
  tell OnTrainEnd.

End Loops.

(** ** Scripted collaborators

    A concrete model and callback list, for running the loops: the
    compute functions answer by the number of the call, the callbacks set
    a stop flag at the end of chosen batches, nothing is sparse, and
    [np.random.shuffle] reverses.  [ext] counts the compute calls. *)

Record script : Type := mkScript {
  metric_outs : nat -> list pyfloat;
  predict_outs : nat -> bundle -> list ndarray;
  stop_fit_at : nat -> bool;
  stop_evaluate_at : nat -> bool;
  stop_predict_at : nat -> bool
}.

Definition scripted_notify (sc : script) (n : notification) (s : store nat)
  : result unit * store nat :=
  match n with
  | OnFitBatchEnd i _ =>
      (Ok tt, if stop_fit_at sc i then set_stop_training true s else s)
  | OnEvaluateBatchEnd i _ =>
      (Ok tt, if stop_evaluate_at sc i then set_stop_evaluating true s else s)
  | OnPredictBatchEnd i _ =>
      (Ok tt, if stop_predict_at sc i then set_stop_predicting true s else s)
  | _ => (Ok tt, s)
  end.

Definition scripted_metrics (sc : script) (ins : bundle) (s : store nat)
  : result (list pyfloat) * store nat :=
  (Ok (metric_outs sc (ext s)), set_ext (S (ext s)) s).

Definition scripted_predict (sc : script) (ins : bundle) (s : store nat)
  : result (list ndarray) * store nat :=
  (Ok (predict_outs sc (ext s) ins), set_ext (S (ext s)) s).

(** The number of samples of array data: unknown in step mode, else the
    leading dimension of the first input. *)
Definition scripted_num_samples (ins : bundle) (batch_size steps : option nat)
  (steps_name : string) : result (option nat) :=
  match steps with
  | Some _ => Ok None
  | None =>
      match ins with
      | Some (x :: _) =>
          match shape0_of x with
          | Ok n => Ok (Some n)
          | Raise _ => Ok None
          end
      | _ => Raise (ValueError "no input data")
      end
  end.

(** The integer part of a float that is not too large, 0 for an infinity
    or a NaN. *)
Definition truncate (x : pyfloat) : Z :=
  match FloatOps.Prim2SF x with
  | SpecFloat.S754_finite s m e =>
      let v := match e with
               | Z.neg k => Z.shiftr (Z.pos m) (Z.pos k)
               | _ => Z.shiftl (Z.pos m) e
               end in
      if s then Z.opp v else v
  | _ => 0%Z
  end.

Definition float_of_Z (z : Z) : pyfloat :=
  FloatOps.SF2Prim
    (SpecFloat.binary_normalize FloatOps.prec FloatOps.emax z 0 false).

(** Casts between [float64], [int64] and [bool] of values in range. *)
Definition scripted_astype (d : np_dtype) (x : scalar) : scalar :=
  match d, x with
  | DFloat _, SInt z => SFloat (float_of_Z z)
  | DFloat _, SBool b => SFloat (float_of_nat (if b then 1 else 0))
  | DInt _, SFloat f | DUInt _, SFloat f => SInt (truncate f)
  | DInt _, SBool b | DUInt _, SBool b => SInt (if b then 1 else 0)
  | DBool, SInt z => SBool (negb (Z.eqb z 0))
  | DBool, SFloat f => SBool (negb (Z.eqb (truncate f) 0))
  | _, _ => x
  end.

Definition is_floating (d : np_dtype) : bool :=
  match d with DFloat _ => true | _ => false end.

Definition scripted_result_type (ds : list np_dtype) : np_dtype :=
  if existsb is_floating ds then float64 else hd float64 ds.

Definition scripted (sc : script) : Collaborators nat := {|
  has_metrics := true;
  stateful_metric_names := ["acc"];
  notify := scripted_notify sc;
  train_function := scripted_metrics sc;
  test_function := scripted_metrics sc;
  predict_function := scripted_predict sc;
  get_sparse_conversion_indices := fun _ _ => [];
  toarray := fun x => Ok x;
  check_num_samples := scripted_num_samples;
  np_random_shuffle := fun A l x => (rev l, x);
  np_astype := scripted_astype;
  np_result_type := scripted_result_type
|}.

(** A model with the metrics [loss] and [acc], before any call. *)
Definition fresh_world : world nat :=
  mkWorld (mkStore false false false ["loss"; "acc"] 0) [].

(** A [float64] array of one column holding the given integers. *)
Definition column (l : list nat) : ndarray :=
  mkArray float64 [1] (map (fun i => [SFloat (float_of_nat i)]) l).

(** An array of [n] samples with one feature, sample [i] holding [i]. *)
Definition samples (n : nat) : pyval := PArray (column (seq 0 n)).

Definition quiet : script :=
  mkScript (fun _ => []) (fun _ _ => []) (fun _ => false) (fun _ => false)
           (fun _ => false).

(** An HDF5-like dataset of [n] samples: it reports a shape and can be
    indexed by a list of indices only when they increase. *)
Fixpoint increasing (ids : list nat) : bool :=
  match ids with
  | i :: ((j :: _) as t) => (i <? j) && increasing t
  | _ => true
  end.

Definition hdf5_like (n : nat) : pyval :=
  PObject (Some n)
          (fun ids => if increasing ids then py_getitem (samples n) ids
                      else Raise (TypeError "Indexing elements must be in increasing order")).

(** Every compute call returns 5 for both metrics. *)
Definition fives : script :=
  mkScript (fun _ => [float_of_nat 5; float_of_nat 5]) (fun _ _ => []) (fun _ => false)
           (fun _ => false) (fun _ => false).

(** The same, with a callback that stops the evaluation at the end of the
    second batch. *)
Definition fives_stopped : script :=
  mkScript (fun _ => [float_of_nat 5; float_of_nat 5]) (fun _ _ => []) (fun _ => false)
           (fun i => i =? 1) (fun _ => false).

(** The first compute call returns 10 and 1, the later ones 20 and 2. *)
Definition ten_twenty : script :=
  mkScript (fun k => if k =? 0 then [float_of_nat 10; float_of_nat 1]
                     else [float_of_nat 20; float_of_nat 2]) (fun _ _ => [])
           (fun _ => false) (fun _ => false) (fun _ => false).

(** The value a run returned, [[]] if it raised. *)
Definition returned {T A} (r : result (list A) * world T) : list A :=
  match fst r with
  | Ok a => a
  | Raise _ => []
  end.

(** Four evaluation steps returning 5. *)
Definition fives_run : result (list pyfloat) * world nat :=
  Eval vm_compute in
    evaluate_loop (C := scripted fives) (Some [samples 8]) None 0 (Some 4)
                  fresh_world.

(** Four evaluation steps returning 5, stopped after the second. *)
Definition fives_stopped_run : result (list pyfloat) * world nat :=
  Eval vm_compute in
    evaluate_loop (C := scripted fives_stopped) (Some [samples 8]) None 0
                  (Some 4) fresh_world.

(** Five samples evaluated in batches of three. *)
Definition ten_twenty_run : result (list pyfloat) * world nat :=
  Eval vm_compute in
    evaluate_loop (C := scripted ten_twenty) (Some [samples 5]) (Some 3) 0 None
                  fresh_world.

(** ** Vocabulary of the statements *)

(** Two worlds that differ at most by [ext]: what drawing random numbers
    changes. *)
Definition same_but_ext {T} (w w' : world T) : Prop :=
  trace w' = trace w /\
  stop_training (st w') = stop_training (st w) /\
  stop_evaluating (st w') = stop_evaluating (st w) /\
  stop_predicting (st w') = stop_predicting (st w) /\
  metrics_names (st w') = metrics_names (st w).

(** The advice an error message gives: the text [pass shuffle="batch"]. *)
Definition block_shuffle_advice : string :=
  "pass shuffle=" ++ dquote ++ "batch" ++ dquote.

Definition advises_block_shuffle (msg : string) : bool :=
  match String.index 0 block_shuffle_advice msg with
  | Some _ => true
  | None => false
  end.

(** The whole batch-sized blocks of [0 .. n-1], in order, and the indices
    left after the last whole block. *)
Definition whole_blocks (n b : nat) : list (list nat) :=
  map (fun k => seq (k * b) b) (seq 0 (n / b)).

Definition leftover (n b : nat) : list nat := seq (n / b * b) (n mod b).

Definition leftover_batch (n b : nat) : list (list nat) :=
  match leftover n b with
  | [] => []
  | l => [l]
  end.

(** The outputs the test function returned, call after call. *)
Fixpoint test_outputs (evs : list event) : list (list pyfloat) :=
  match evs with
  | [] => []
  | EvTest _ (Ok o) :: t => o :: test_outputs t
  | _ :: t => test_outputs t
  end.

Fixpoint dict_get (d : dict) (k : string) : option logval :=
  match d with
  | [] => None
  | (k', v) :: t => if String.eqb k k' then Some v else dict_get t k
  end.

(** The sample counts of the batches, as the evaluate loop gave them to
    [on_evaluate_batch_begin] under the key [size]. *)
Fixpoint reported_sizes (evs : list event) : list nat :=
  match evs with
  | [] => []
  | EvNotify (OnEvaluateBatchBegin _ logs) :: t =>
      match dict_get logs "size" with
      | Some (LInt n) => n
      | _ => 0
      end :: reported_sizes t
  | _ :: t => reported_sizes t
  end.

(** The sum of output [i] of the batches, added to [acc] one batch after
    the other, each addition rounded; a batch that has no output [i] is
    passed over. *)
Fixpoint plain_sum_from (i : nat) (acc : pyfloat)
  (batch_outs : list (list pyfloat)) : pyfloat :=
  match batch_outs with
  | [] => acc
  | o :: t =>
      plain_sum_from i
        (match nth_error o i with
         | Some v => fadd acc v
         | None => acc
         end) t
  end.

(** Sum over the batches of output [i], from [0.] on. *)
Definition plain_sum (i : nat) (batch_outs : list (list pyfloat)) : pyfloat :=
  plain_sum_from i fzero batch_outs.

(** The same for output [i] times the size of the batch: each product is
    rounded, then each addition. *)
Fixpoint weighted_sum_from (i : nat) (acc : pyfloat) (sizes : list nat)
  (batch_outs : list (list pyfloat)) : pyfloat :=
  match sizes, batch_outs with
  | size :: ss, o :: t =>
      weighted_sum_from i
        (match nth_error o i with
         | Some v => fadd acc (fmul v (float_of_nat size))
         | None => acc
         end) ss t
  | _, _ => acc
  end.

(** Sum over the batches of output [i] times the size of the batch, from
    [0.] on. *)
Definition weighted_sum (i : nat) (sizes : list nat)
  (batch_outs : list (list pyfloat)) : pyfloat :=
  weighted_sum_from i fzero sizes batch_outs.

(** Output [i] of the last batch that has one. *)
Fixpoint latest (i : nat) (batch_outs : list (list pyfloat))
  : option pyfloat :=
  match batch_outs with
  | [] => None
  | o :: t =>
      match latest i t with
      | Some v => Some v
      | None => nth_error o i
      end
  end.

(** The indices [evaluate_loop] entered in world [w] takes as stateful:
    those of the names in [model.metrics_names], read after the metric
    states were reset, that are among the stateful metric names. *)
Definition stateful_at {T} {C : Collaborators T} (w : world T) : list nat :=
  if has_metrics
  then stateful_metric_indices (metrics_names (snd (notify ResetStates (st w))))
  else [].

(** [w'] is [w] after the events [evs]. *)
Definition extends {T} (w w' : world T) (evs : list event) : Prop :=
  trace w' = trace w ++ evs.

(** The events [print_train_on] adds: the message, or nothing. *)
Definition train_on_message (verbose : nat) (ins val_ins : bundle)
  : list event :=
  match ins, val_ins with
  | Some (x :: _), Some (v :: _) =>
      if (0 <? verbose) && has_shape x && has_shape v then
        match shape0_of x, shape0_of v with
        | Ok n, Ok m => [EvPrint n m]
        | _, _ => []
        end
      else []
  | _, _ => []
  end.

(** The two combinations of arguments the spec calls invalid: a
    validation step count without step-based training, and step-based
    training with validation data and without a validation step count. *)
Definition invalid_validation_setup (val_ins : bundle)
  (steps_per_epoch validation_steps : option nat) : Prop :=
  (validation_steps <> None /\ steps_per_epoch = None) \/
  (steps_per_epoch <> None /\ truthy_bundle val_ins = true /\
   validation_steps = None).

(** The same for the truth values the source tests. *)
Definition rejected_validation_setup (val_ins : bundle)
  (steps_per_epoch validation_steps : option nat) : Prop :=
  (truthy_int validation_steps = true /\ steps_per_epoch = None) \/
  (truthy_int validation_steps = false /\ truthy_bundle val_ins = true /\
   truthy_int steps_per_epoch = true).

(** *** Traces accepted by an automaton *)

(** An automaton over events: [step q e] is the state after [e], or
    [None] when [e] is not allowed in [q]. *)
Fixpoint run_steps {Q} (step : Q -> event -> option Q) (q : Q)
  (evs : list event) : option Q :=
  match evs with
  | [] => Some q
  | e :: t =>
      match step q e with
      | Some q' => run_steps step q' t
      | None => None
      end
  end.

(** Started in [q], the computation [m] adds events the automaton
    accepts, and when it returns [a] the state reached satisfies
    [post a]. *)
Definition moves {T A Q} (step : Q -> event -> option Q) (q : Q) (m : M T A)
  (post : A -> Q -> Prop) : Prop :=
  forall w r w', m w = (r, w') ->
    exists evs q', extends w w' evs /\ run_steps step q evs = Some q' /\
                   forall a, r = Ok a -> post a q'.

(** What [evaluate_loop] does: its notifications, the test steps and the
    reading of its stop flag. *)
Definition validation_event (e : event) : bool :=
  match e with
  | EvNotify ResetStates
  | EvNotify (NewCallbackList _ _)
  | EvNotify SetModel
  | EvNotify (SetParams _)
  | EvNotify (SetValidationData _)
  | EvNotify (OnEvaluateBatchBegin _ _)
  | EvNotify (OnEvaluateBatchEnd _ _)
  | EvTest _ _
  | EvPoll AfterEvaluateBatch _ => true
  | _ => false
  end.

(** An observer that sets [stop_training] inside the batch-end
    notifications that [sets] picks, by the index and the logs of the
    batch. *)
Definition sets_flag {T} {C : Collaborators T} (sets : nat -> dict -> bool)
  : Prop :=
  forall i logs s,
    sets i logs = true ->
    stop_training (snd (notify (OnFitBatchEnd i logs) s)) = true.

(** Nothing clears [stop_training] once it is set: no callback and not
    the test function. *)
Definition flag_kept {T} (C : Collaborators T) : Prop :=
  (forall n s, stop_training s = true ->
               stop_training (snd (notify n s)) = true) /\
  (forall ins s, stop_training s = true ->
                 stop_training (snd (test_function ins s)) = true).

(** Where [fit_loop] stands with respect to that observer:
    - [Running]: no batch-end notification set the flag, or the flag was
      found clear after the epoch in which one did;
    - [FlagSet]: a batch-end notification has just set the flag;
    - [BatchesHalted]: then the flag was read set at the end of the batch;
    - [EpochEnding]: then [on_epoch_end] was called;
    - [Halted]: then the flag was read set after [on_epoch_end]. *)
Inductive phase : Type :=
| Running
| FlagSet
| BatchesHalted
| EpochEnding
| Halted.

(** What [fit_loop] may do in each phase.  After a batch-end
    notification that sets the flag, the flag is read set; then come the
    validation pass and [on_epoch_end], and no train step, batch
    notification or new epoch; then the flag is read again, and read
    set when nothing clears it ([kept]); then [on_train_end] and nothing
    else. *)
Definition stop_step (kept : bool) (sets : nat -> dict -> bool) (p : phase)
  (e : event) : option phase :=
  match p with
  | Running =>
      match e with
      | EvNotify (OnFitBatchEnd i logs) =>
          Some (if sets i logs then FlagSet else Running)
      | _ => Some Running
      end
  | FlagSet =>
      match e with
      | EvPoll AfterFitBatch true => Some BatchesHalted
      | _ => None
      end
  | BatchesHalted =>
      match e with
      | EvNotify (OnEpochEnd _ _) => Some EpochEnding
      | _ => if validation_event e then Some BatchesHalted else None
      end
  | EpochEnding =>
      match e with
      | EvPoll AfterEpoch true => Some Halted
      | EvPoll AfterEpoch false => if kept then None else Some Running
      | _ => None
      end
  | Halted =>
      match e with
      | EvNotify OnTrainEnd => Some Halted
      | _ => None
      end
  end.

(** What a phase says of the value of [stop_training]. *)
Definition flag_in (kept : bool) (p : phase) (flag : bool) : Prop :=
  match p with
  | FlagSet => flag = true
  | BatchesHalted | EpochEnding => kept = true -> flag = true
  | _ => True
  end.

(** Started in [q] with a store the invariant allows, the computation
    [m] adds events the automaton accepts and ends in a store the
    invariant allows for the state reached, which satisfies [post a]
    when [m] returns [a]. *)
Definition moves_with {T A Q} (step : Q -> event -> option Q)
  (inv : Q -> bool -> Prop) (q : Q) (m : M T A) (post : A -> Q -> Prop)
  : Prop :=
  forall w r w', inv q (stop_training (st w)) -> m w = (r, w') ->
    exists evs q', extends w w' evs /\ run_steps step q evs = Some q' /\
                   inv q' (stop_training (st w')) /\
                   forall a, r = Ok a -> post a q'.

(** Where the batch loop, and the epoch loop, can leave the training. *)
Definition batches_done (p : phase) : Prop := p = Running \/ p = BatchesHalted.
Definition epochs_done (p : phase) : Prop := p = Running \/ p = Halted.

(** What belongs to a batch of the training or starts an epoch: a train
    step, a batch notification, the call of [on_epoch_begin]. *)
Definition batch_event (e : event) : bool :=
  match e with
  | EvTrain _ _
  | EvNotify (OnFitBatchBegin _ _)
  | EvNotify (OnFitBatchEnd _ _)
  | EvNotify (OnEpochBegin _) => true
  | _ => false
  end.

(** The claim of the spec on a trace: after a batch-end notification in
    which the observer sets the flag, the batch loop breaks, the next
    thing is the call of [on_epoch_end], and no batch follows. *)
Definition stop_skips_to_epoch_end (sets : nat -> dict -> bool)
  (evs : list event) : Prop :=
  forall pre i logs post,
    evs = pre ++ EvNotify (OnFitBatchEnd i logs) :: post ->
    sets i logs = true ->
    exists epoch epoch_logs post',
      post = EvPoll AfterFitBatch true
             :: EvNotify (OnEpochEnd epoch epoch_logs) :: post' /\
      forall e, In e post' -> batch_event e = false.

(** What the code does in that epoch: after such a notification the
    flag is read set and the batch loop breaks; what follows up to the
    call of [on_epoch_end] is the validation pass and nothing else; and
    a run that returns ([returned]) does come to [on_epoch_end]. *)
Definition stop_reaches_epoch_end (sets : nat -> dict -> bool)
  (evs : list event) (returned : bool) : Prop :=
  forall pre i logs post,
    evs = pre ++ EvNotify (OnFitBatchEnd i logs) :: post ->
    sets i logs = true ->
    match post with
    | [] => returned = false
    | e :: post1 =>
        e = EvPoll AfterFitBatch true /\
        exists mid rest,
          post1 = mid ++ rest /\
          forallb validation_event mid = true /\
          match rest with
          | [] => returned = false
          | e' :: _ =>
              exists epoch epoch_logs,
                e' = EvNotify (OnEpochEnd epoch epoch_logs)
          end
    end.

(** And afterwards, when nothing clears the flag: no batch and no new
    epoch after such a notification. *)
Definition stop_ends_training (sets : nat -> dict -> bool)
  (evs : list event) : Prop :=
  forall pre i logs post,
    evs = pre ++ EvNotify (OnFitBatchEnd i logs) :: post ->
    sets i logs = true ->
    forall e, In e post -> batch_event e = false.

(** A callback that stops the training at the end of the first batch. *)
Definition stop_at_first_batch : script :=
  mkScript (fun _ => [float_of_nat 5; float_of_nat 5]) (fun _ _ => [])
           (fun i => i =? 0) (fun _ => false) (fun _ => false).

(** The batch-end notifications in which it does. *)
Definition first_batch (i : nat) (logs : dict) : bool := i =? 0.

(** Two epochs asked over four samples in batches of two, with two
    validation samples, stopped at the end of the first batch. *)
Definition stopped_fit_run : result unit * world nat :=
  Eval vm_compute in
    fit_loop (C := scripted stop_at_first_batch) (Some [samples 4]) (Some 2) 2 0
             (Some [samples 2]) ShuffleFalse 0 None None fresh_world.

(** The scripted collaborators with one more callback, which clears
    [stop_training] at the end of every epoch. *)
Definition resuming_notify (sc : script) (n : notification) (s : store nat)
  : result unit * store nat :=
  match n with
  | OnEpochEnd _ _ => (Ok tt, set_stop_training false s)
  | _ => scripted_notify sc n s
  end.

Definition resuming (sc : script) : Collaborators nat := {|
  has_metrics := true;
  stateful_metric_names := ["acc"];
  notify := resuming_notify sc;
  train_function := scripted_metrics sc;
  test_function := scripted_metrics sc;
  predict_function := scripted_predict sc;
  get_sparse_conversion_indices := fun _ _ => [];
  toarray := fun x => Ok x;
  check_num_samples := scripted_num_samples;
  np_random_shuffle := fun A l x => (rev l, x);
  np_astype := scripted_astype;
  np_result_type := scripted_result_type
|}.

(** The same two epochs without validation data, under that callback. *)
Definition resumed_fit_run : result unit * world nat :=
  Eval vm_compute in
    fit_loop (C := resuming stop_at_first_batch) (Some [samples 4]) (Some 2) 2 0
             None ShuffleFalse 0 None None fresh_world.

(** The outputs the predict function returned, call after call. *)
Fixpoint predict_outputs (evs : list event) : list (list ndarray) :=
  match evs with
  | [] => []
  | EvPredict _ (Ok o) :: t => o :: predict_outputs t
  | _ :: t => predict_outputs t
  end.

Definition empty_array : ndarray := mkArray float64 [] [].

(** An array whose rows have as many elements as its shape says. *)
Definition well_shaped (a : ndarray) : bool :=
  forallb (fun r => length r =? size_of (trailing a)) (rows a).

(** The value [v] is cut for a slice of [n] rows of the array [a]: it has
    the dtype of [a], the shape of a row of [a], and [n] rows. *)
Definition fits (a : ndarray) (n : nat) (v : ndarray) : bool :=
  same_dtype a v && same_trailing a v && (length (rows v) =? n)
  && well_shaped v.

(** The bundle [batch_ins] holds, of every array of [l] and at the place
    of that array, the rows at the positions [ids], in the order of
    [ids]: row [p] of the batch is row [ids[p]] of the array. *)
Definition holds_rows (l : list pyval) (ids : list nat)
  (batch_ins : list pyval) : Prop :=
  forall j x,
    nth_error l j = Some (PArray x) ->
    exists y,
      nth_error batch_ins j = Some (PArray y) /\
      dtype y = dtype x /\ trailing y = trailing x /\
      length (rows y) = length ids /\
      forall p i, nth_error ids p = Some i ->
        exists r, nth_error (rows x) i = Some r /\
                  nth_error (rows y) p = Some r.

(** The items of a generator from batch [k] on report the sizes of the
    index ranges of [make_batches n b]. *)
Definition batch_sized (n b k : nat) (items : list (result (list pyval)))
  : Prop :=
  forall i batch_ins,
    nth_error items i = Some (Ok batch_ins) ->
    get_batch_size batch_ins
    = Ok (Nat.min n ((k + i + 1) * b) - (k + i) * b).

(** Every prediction writes two columns: the sample index of the first
    row of the batch plus one, and the number of the call plus one. *)
Definition two_columns (call : nat) (ins : bundle) : list ndarray :=
  match ins with
  | Some (PArray a :: _) =>
      [mkArray float64 [2]
         (map (fun r => [match r with
                         | SFloat x :: _ => SFloat (fadd x (float_of_nat 1))
                         | _ => SFloat fzero
                         end;
                         SFloat (float_of_nat (call + 1))]) (rows a))]
  | _ => []
  end.

Definition predicting : script :=
  mkScript (fun _ => []) two_columns (fun _ => false) (fun _ => false)
           (fun _ => false).

(** Ten samples predicted in batches of four. *)
Definition predict_run : result (list ndarray) * world nat :=
  Eval vm_compute in
    predict_loop (C := scripted predicting) (Some [samples 10]) (Some 4) 0 None
                 fresh_world.

(** ** More scripted runs *)

(** The 10 and 20 model, with a callback that stops the evaluation at the
    end of the first batch. *)
Definition ten_twenty_stopped : script :=
  mkScript (fun k => if k =? 0 then [float_of_nat 10; float_of_nat 1]
                     else [float_of_nat 20; float_of_nat 2]) (fun _ _ => [])
           (fun _ => false) (fun i => i =? 0) (fun _ => false).

(** Five samples in batches of three, stopped after the first batch. *)
Definition ten_twenty_stopped_run : result (list pyfloat) * world nat :=
  Eval vm_compute in
    evaluate_loop (C := scripted ten_twenty_stopped) (Some [samples 5]) (Some 3)
                  0 None fresh_world.

(** An evaluation asked for no step. *)
Definition no_step_run : result (list pyfloat) * world nat :=
  Eval vm_compute in
    evaluate_loop (C := scripted fives) (Some [samples 8]) None 0 (Some 0)
                  fresh_world.

(** ** Runs that round, overflow, cast and broadcast *)

(** One tenth, two tenths, a half and seven tenths, as binary64 has
    them, and the binary64 number nearest to [10 ^ 308]. *)
Definition tenth : pyfloat := fdiv (float_of_nat 1) (float_of_nat 10).
Definition two_tenths : pyfloat := fdiv (float_of_nat 2) (float_of_nat 10).
Definition half : pyfloat := fdiv (float_of_nat 1) (float_of_nat 2).
Definition seven_tenths : pyfloat := fdiv (float_of_nat 7) (float_of_nat 10).
Definition ten_to_308 : pyfloat := float_of_Z (10 ^ 308).

(** The first test step returns 0.1, the later ones 0.2. *)
Definition tenths : script :=
  mkScript (fun k => if k =? 0 then [tenth] else [two_tenths]) (fun _ _ => [])
           (fun _ => false) (fun _ => false) (fun _ => false).

(** Six samples evaluated in batches of three. *)
Definition tenths_run : result (list pyfloat) * world nat :=
  Eval vm_compute in
    evaluate_loop (C := scripted tenths) (Some [samples 6]) (Some 3) 0 None
                  fresh_world.

(** Every test step returns [1e308]. *)
Definition huge : script :=
  mkScript (fun _ => [ten_to_308]) (fun _ _ => []) (fun _ => false)
           (fun _ => false) (fun _ => false).

(** Two evaluation steps. *)
Definition huge_run : result (list pyfloat) * world nat :=
  Eval vm_compute in
    evaluate_loop (C := scripted huge) (Some [samples 8]) None 0 (Some 2)
                  fresh_world.

(** The first prediction is the [int64] array [[1], [1]], the later ones
    the [float64] array [[0.5], [0.7]]. *)
Definition ints_then_floats (call : nat) (ins : bundle) : list ndarray :=
  if call =? 0
  then [mkArray int64 [1] [[SInt 1]; [SInt 1]]]
  else [mkArray float64 [1] [[SFloat half]; [SFloat seven_tenths]]].

Definition mixed : script :=
  mkScript (fun _ => []) ints_then_floats (fun _ => false) (fun _ => false)
           (fun _ => false).

(** Four samples predicted in batches of two. *)
Definition mixed_run : result (list ndarray) * world nat :=
  Eval vm_compute in
    predict_loop (C := scripted mixed) (Some [samples 4]) (Some 2) 0 None
                 fresh_world.

(** Every prediction is the one row [[7.]], whatever the batch. *)
Definition one_row : script :=
  mkScript (fun _ => [])
           (fun _ _ => [mkArray float64 [1] [[SFloat (float_of_nat 7)]]])
           (fun _ => false) (fun _ => false) (fun _ => false).

Definition one_row_run : result (list ndarray) * world nat :=
  Eval vm_compute in
    predict_loop (C := scripted one_row) (Some [samples 4]) (Some 2) 0 None
                 fresh_world.

(** Every prediction has three rows, whatever the batch. *)
Definition three_rows : script :=
  mkScript (fun _ => []) (fun _ _ => [column [7; 8; 9]])
           (fun _ => false) (fun _ => false) (fun _ => false).

Definition three_rows_run : result (list ndarray) * world nat :=
  Eval vm_compute in
    predict_loop (C := scripted three_rows) (Some [samples 4]) (Some 2) 0 None
                 fresh_world.

(** ** The order of the calls *)

(** The three loops over batches, and what is, for each, the call of
    [on_..._batch_begin], the call of the compute function (with whether
    it returned), the call of [on_..._batch_end] and the reading of the
    stop flag. *)
Inductive loop_kind : Type :=
| Training
| Evaluating
| Predicting.

Definition batch_begin (k : loop_kind) (e : event) : option nat :=
  match k, e with
  | Training, EvNotify (OnFitBatchBegin i _) => Some i
  | Evaluating, EvNotify (OnEvaluateBatchBegin i _) => Some i
  | Predicting, EvNotify (OnPredictBatchBegin i _) => Some i
  | _, _ => None
  end.

Definition computed (k : loop_kind) (e : event) : option bool :=
  match k, e with
  | Training, EvTrain _ r => Some (is_ok r)
  | Evaluating, EvTest _ r => Some (is_ok r)
  | Predicting, EvPredict _ r => Some (is_ok r)
  | _, _ => None
  end.

Definition batch_end (k : loop_kind) (e : event) : option nat :=
  match k, e with
  | Training, EvNotify (OnFitBatchEnd i _) => Some i
  | Evaluating, EvNotify (OnEvaluateBatchEnd i _) => Some i
  | Predicting, EvNotify (OnPredictBatchEnd i _) => Some i
  | _, _ => None
  end.

Definition flag_read (k : loop_kind) (e : event) : option bool :=
  match k, e with
  | Training, EvPoll AfterFitBatch b => Some b
  | Evaluating, EvPoll AfterEvaluateBatch b => Some b
  | Predicting, EvPoll AfterPredictBatch b => Some b
  | _, _ => None
  end.

(** Where a loop over batches stands:
    - [Expect i]: between batches, [i] batches done and the flag not
      read set;
    - [Begun i]: [on_..._batch_begin(i)] was called;
    - [Computed i]: then the compute function returned;
    - [Ended i]: then [on_..._batch_end(i)] was called;
    - [Stopped]: the flag was read set;
    - [Failed]: the compute function raised. *)
Inductive batch_phase : Type :=
| Expect (index : nat)
| Begun (index : nat)
| Computed (index : nat)
| Ended (index : nat)
| Stopped
| Failed.

Definition below (i : nat) (limit : option nat) : bool :=
  match limit with
  | Some n => i <? n
  | None => false
  end.

(** The batches of a loop that is to run [planned] batches: begin,
    compute, end, flag, with the indices counting from where the loop
    stands; a batch begins only below [planned]; nothing follows a flag
    read set or a compute function that raised. *)
Definition batch_step (k : loop_kind) (planned : option nat) (p : batch_phase)
  (e : event) : option batch_phase :=
  match p with
  | Expect i =>
      match batch_begin k e with
      | Some j => if (j =? i) && below i planned then Some (Begun i) else None
      | None => None
      end
  | Begun i =>
      match computed k e with
      | Some true => Some (Computed i)
      | Some false => Some Failed
      | None => None
      end
  | Computed i =>
      match batch_end k e with
      | Some j => if j =? i then Some (Ended i) else None
      | None => None
      end
  | Ended i =>
      match flag_read k e with
      | Some true => Some Stopped
      | Some false => Some (Expect (S i))
      | None => None
      end
  | Stopped => None
  | Failed => None
  end.

(** The batches are over: the flag was read set, or all the planned
    batches are done. *)
Definition batches_over (planned : option nat) (b : batch_phase) : bool :=
  match b with
  | Stopped => true
  | Expect i =>
      match planned with
      | Some n => i =? n
      | None => false
      end
  | _ => false
  end.

(** Where [evaluate_loop] or [predict_loop] stands: in its preparation
    (the stateful metrics reset, the callback list made, given the
    model, given the parameters), or in its batches. *)
Inductive pass_phase : Type :=
| PassStart
| PassReset
| PassListed
| PassModelSet
| PassParamsSet
| InBatches (b : batch_phase).

(** The preparation in its order, the metrics being reset by
    [evaluate_loop] only; the assignment of [validation_data] is the
    last thing before the batches. *)
Definition pass_step (k : loop_kind) (planned : option nat) (p : pass_phase)
  (e : event) : option pass_phase :=
  match p with
  | PassStart =>
      match e with
      | EvNotify ResetStates =>
          match k with
          | Evaluating => Some PassReset
          | _ => None
          end
      | EvNotify (NewCallbackList _ _) => Some PassListed
      | _ => None
      end
  | PassReset =>
      match e with
      | EvNotify (NewCallbackList _ _) => Some PassListed
      | _ => None
      end
  | PassListed =>
      match e with
      | EvNotify SetModel => Some PassModelSet
      | _ => None
      end
  | PassModelSet =>
      match e with
      | EvNotify (SetParams _) => Some PassParamsSet
      | _ => None
      end
  | PassParamsSet =>
      match e with
      | EvNotify (SetValidationData _) => Some (InBatches (Expect 0))
      | _ => None
      end
  | InBatches b => option_map InBatches (batch_step k planned b e)
  end.

Definition pass_over (planned : option nat) (p : pass_phase) : bool :=
  match p with
  | InBatches b => batches_over planned b
  | _ => false
  end.

(** The number of batches a loop is to run: [steps], or in sample mode
    the number of batches of [num_samples] samples. *)
Definition planned_batches {T} {C : Collaborators T} (ins : bundle)
  (batch_size steps : option nat) (steps_name : string) : option nat :=
  match steps with
  | Some s => Some s
  | None =>
      match check_num_samples ins batch_size None steps_name, batch_size with
      | Ok (Some n), Some b => Some (ceil_div n b)
      | _, _ => None
      end
  end.

(** What a call of [fit_loop] is to do: the epochs from [first_epoch] to
    [last_epoch - 1], [epoch_batches] batches in each, and after the
    batches of an epoch, when [validating], a validation pass of
    [validation_batches] batches. *)
Record plan : Type := mkPlan {
  first_epoch : nat;
  last_epoch : nat;
  epoch_batches : option nat;
  validating : bool;
  validation_batches : option nat
}.

Definition fit_plan {T} {C : Collaborators T} (ins : bundle)
  (batch_size : option nat) (epochs : nat) (val_ins : bundle)
  (initial_epoch : nat) (steps_per_epoch validation_steps : option nat) : plan :=
  mkPlan initial_epoch epochs
         (planned_batches ins batch_size steps_per_epoch "steps_per_epoch")
         (truthy_int validation_steps || truthy_bundle val_ins)
         (match steps_per_epoch with
          | Some _ => planned_batches val_ins None validation_steps "steps"
          | None => planned_batches val_ins batch_size None "steps"
          end).

(** Where [fit_loop] stands: in its preparation, between two epochs, in
    the batches of an epoch, in its validation pass, after
    [on_epoch_end], leaving the epochs because the flag was read set
    after [on_epoch_end], or after [on_train_end]. *)
Inductive fit_phase : Type :=
| FitStart
| FitAnnounced
| FitListed
| FitModelSet
| FitParamsSet
| FitBegun
| Between (epoch : nat)
| EpochReset (epoch : nat)
| Batches (epoch : nat) (b : batch_phase)
| Validating (epoch : nat) (p : pass_phase)
| EpochEnded (epoch : nat)
| Stopping
| Finished.

Definition epoch_end (epoch : nat) (e : event) : option fit_phase :=
  match e with
  | EvNotify (OnEpochEnd epoch' _) =>
      if epoch' =? epoch then Some (EpochEnded epoch) else None
  | _ => None
  end.

(** The calls of [fit_loop] in their order.  An epoch begins only below
    [last_epoch], and [on_train_end] comes only when no epoch is left or
    the flag was read set after [on_epoch_end].  In an epoch: the
    stateful metrics are reset, [on_epoch_begin], the batches; when they
    are over, the whole validation pass if there is one; then
    [on_epoch_end] with the number of the epoch, and the flag is read. *)
Definition fit_step (pl : plan) (p : fit_phase) (e : event) : option fit_phase :=
  match p with
  | FitStart =>
      match e with
      | EvPrint _ _ => Some FitAnnounced
      | EvNotify (NewCallbackList _ _) => Some FitListed
      | _ => None
      end
  | FitAnnounced =>
      match e with
      | EvNotify (NewCallbackList _ _) => Some FitListed
      | _ => None
      end
  | FitListed =>
      match e with
      | EvNotify SetModel => Some FitModelSet
      | _ => None
      end
  | FitModelSet =>
      match e with
      | EvNotify (SetParams _) => Some FitParamsSet
      | _ => None
      end
  | FitParamsSet =>
      match e with
      | EvNotify OnTrainBegin => Some FitBegun
      | _ => None
      end
  | FitBegun =>
      match e with
      | EvNotify (SetValidationData _) => Some (Between (first_epoch pl))
      | _ => None
      end
  | Between epoch =>
      match e with
      | EvNotify ResetStates =>
          if epoch <? last_epoch pl then Some (EpochReset epoch) else None
      | EvNotify OnTrainEnd =>
          if epoch <? last_epoch pl then None else Some Finished
      | _ => None
      end
  | EpochReset epoch =>
      match e with
      | EvNotify (OnEpochBegin epoch') =>
          if epoch' =? epoch then Some (Batches epoch (Expect 0)) else None
      | _ => None
      end
  | Batches epoch b =>
      match batch_step Training (epoch_batches pl) b e with
      | Some b' => Some (Batches epoch b')
      | None =>
          if batches_over (epoch_batches pl) b then
            if validating pl
            then option_map (Validating epoch)
                   (pass_step Evaluating (validation_batches pl) PassStart e)
            else epoch_end epoch e
          else None
      end
  | Validating epoch p =>
      match pass_step Evaluating (validation_batches pl) p e with
      | Some p' => Some (Validating epoch p')
      | None =>
          if pass_over (validation_batches pl) p then epoch_end epoch e
          else None
      end
  | EpochEnded epoch =>
      match e with
      | EvPoll AfterEpoch true => Some Stopping
      | EvPoll AfterEpoch false => Some (Between (S epoch))
      | _ => None
      end
  | Stopping =>
      match e with
      | EvNotify OnTrainEnd => Some Finished
      | _ => None
      end
  | Finished => None
  end.

(** An automaton that runs inside another: what the first accepts, the
    second accepts in the corresponding state. *)
Definition embeds {P Q} (sub : P -> event -> option P)
  (step : Q -> event -> option Q) (inj : P -> Q) : Prop :=
  forall p e p', sub p e = Some p' -> step (inj p) e = Some (inj p').

(** Where a loop leaves its batches when it returns. *)
Definition left_batches {Q} (inj : batch_phase -> Q) (N : nat) (p : Q) : Prop :=
  p = inj Stopped \/ p = inj (Expect N).

(** Where [evaluate_loop] and [predict_loop] stand when they return. *)
Definition left_pass {Q} (inj : pass_phase -> Q) (planned : option nat) (p : Q)
  : Prop :=
  p = inj (InBatches Stopped) \/
  exists N, planned = Some N /\ p = inj (InBatches (Expect N)).

(** ** The number of the calls *)

(** The calls of the compute function of a loop, returned or raised, and
    whether its stop flag was read set. *)
Definition is_compute (k : loop_kind) (e : event) : bool :=
  match computed k e with
  | Some _ => true
  | None => false
  end.

Definition compute_calls (k : loop_kind) (evs : list event) : nat :=
  length (filter (is_compute k) evs).

Definition is_stop (k : loop_kind) (e : event) : bool :=
  match flag_read k e with
  | Some true => true
  | _ => false
  end.

Definition stop_read (k : loop_kind) (evs : list event) : bool :=
  existsb (is_stop k) evs.

(** [stop_training] read set, after a batch or after [on_epoch_end]. *)
Definition is_training_stop (e : event) : bool :=
  match e with
  | EvPoll AfterFitBatch true => true
  | EvPoll AfterEpoch true => true
  | _ => false
  end.

Definition training_stopped (evs : list event) : bool :=
  existsb is_training_stop evs.

(** The most compute calls a loop of [N] batches can have made when it
    stands in a phase: the calls it has made, when no flag was read
    set. *)
Definition batch_bound (N : nat) (b : batch_phase) : nat :=
  match b with
  | Expect i => i
  | Begun i => i
  | Computed i => S i
  | Ended i => S i
  | Stopped => N
  | Failed => N
  end.

Definition batch_valid (N : nat) (b : batch_phase) : Prop :=
  match b with
  | Expect i => i <= N
  | Begun i => i < N
  | Computed i => i < N
  | Ended i => i < N
  | Stopped => True
  | Failed => True
  end.

Definition pass_bound (N : nat) (p : pass_phase) : nat :=
  match p with
  | InBatches b => batch_bound N b
  | _ => 0
  end.

Definition pass_valid (N : nat) (p : pass_phase) : Prop :=
  match p with
  | InBatches b => batch_valid N b
  | _ => True
  end.

Definition fit_bound (pl : plan) (N : nat) (p : fit_phase) : nat :=
  match p with
  | Between epoch => (epoch - first_epoch pl) * N
  | EpochReset epoch => (epoch - first_epoch pl) * N
  | Batches epoch b => (epoch - first_epoch pl) * N + batch_bound N b
  | Validating epoch _ => (S epoch - first_epoch pl) * N
  | EpochEnded epoch => (S epoch - first_epoch pl) * N
  | Stopping => (last_epoch pl - first_epoch pl) * N
  | Finished => (last_epoch pl - first_epoch pl) * N
  | _ => 0
  end.

Definition fit_valid (pl : plan) (N : nat) (p : fit_phase) : Prop :=
  match p with
  | Between epoch =>
      first_epoch pl <= epoch <= Nat.max (first_epoch pl) (last_epoch pl)
  | EpochReset epoch => first_epoch pl <= epoch < last_epoch pl
  | Batches epoch b => first_epoch pl <= epoch < last_epoch pl /\ batch_valid N b
  | Validating epoch _ => first_epoch pl <= epoch < last_epoch pl
  | EpochEnded epoch => first_epoch pl <= epoch < last_epoch pl
  | _ => True
  end.

(** The 4 steps of 5, as [predict_loop] runs them. *)
Definition four_predictions : result (list ndarray) * world nat :=
  Eval vm_compute in
    predict_loop (C := scripted predicting) (Some [samples 8]) None 0 (Some 4)
                 fresh_world.

(** Two epochs, from epoch 1 to epoch 2, over five samples in batches of
    two, without validation. *)
Definition plain_fit_run : result unit * world nat :=
  Eval vm_compute in
    fit_loop (C := scripted fives) (Some [samples 5]) (Some 2) 3 0 None
             ShuffleTrue 1 None None fresh_world.

(** The arrays the steps returned for output [j], in the order of the
    steps; a step that returned fewer outputs gives none. *)
Definition outputs_at (j : nat) (step_outs : list (list ndarray))
  : list ndarray :=
  flat_map (fun o => match nth_error o j with
                     | Some a => [a]
                     | None => []
                     end) step_outs.

(** The two-column model with a callback that stops the prediction at
    the end of the first batch. *)
Definition predicting_stopped : script :=
  mkScript (fun _ => []) two_columns (fun _ => false) (fun _ => false)
           (fun i => i =? 0).

(** Ten samples predicted in batches of four, stopped after the first
    batch. *)
Definition stopped_predict_run : result (list ndarray) * world nat :=
  Eval vm_compute in
    predict_loop (C := scripted predicting_stopped) (Some [samples 10]) (Some 4)
                 0 None fresh_world.

(** ** The list [model.metrics_names] *)

(** The callbacks and the train and test functions leave the list
    [model.metrics_names] as it is. *)
Definition names_kept {T} (C : Collaborators T) : Prop :=
  (forall n s, metrics_names (snd (notify n s)) = metrics_names s) /\
  (forall ins s, metrics_names (snd (train_function ins s)) = metrics_names s) /\
  (forall ins s, metrics_names (snd (test_function ins s)) = metrics_names s).

(** A computation that leaves the list as it is, however it ends. *)
Definition keeps_names {T A} (m : M T A) : Prop :=
  forall w r w', m w = (r, w') -> metrics_names (st w') = metrics_names (st w).

(** The sizes of the first [m] batches of [n] samples in batches of
    [b]. *)
Definition batch_sizes (n b m : nat) : list nat :=
  map (fun k => Nat.min n ((k + 1) * b) - k * b) (seq 0 m).

(** ** What the compute functions are given *)

(** The bundles the test function, and the predict function, were called
    on, call after call. *)
Fixpoint test_inputs (evs : list event) : list bundle :=
  match evs with
  | [] => []
  | EvTest ins _ :: t => ins :: test_inputs t
  | _ :: t => test_inputs t
  end.

Fixpoint predict_inputs (evs : list event) : list bundle :=
  match evs with
  | [] => []
  | EvPredict ins _ :: t => ins :: predict_inputs t
  | _ :: t => predict_inputs t
  end.

(** The rows of batch [k] of every array: from [k * b] up to
    [(k + 1) * b], or up to [n]. *)
Definition batch_rows (xs : list ndarray) (n b k : nat) : list pyval :=
  map (fun x => PArray (mkArray (dtype x) (trailing x)
                          (py_slice (rows x) (k * b) (Nat.min n ((k + 1) * b)))))
      xs.

(** The bundles the train function was called on, call after call. *)
Fixpoint train_inputs (evs : list event) : list bundle :=
  match evs with
  | [] => []
  | EvTrain ins _ :: t => ins :: train_inputs t
  | _ :: t => train_inputs t
  end.

(** The batches an epoch trained on: the slices of [ins] at the first
    consecutive ranges of one rearrangement of [0 .. n-1], in their
    order. *)
Definition epoch_of_batches (ins : bundle) (n b : nat)
  (fed : list (list pyval)) : Prop :=
  exists index_array batches,
    Permutation index_array (seq 0 n) /\
    make_batches n b = Ok batches /\
    length fed <= length batches /\
    map Ok fed
    = map (batch_ins_of ins)
          (firstn (length fed) (batch_ids_of index_array batches)).

(** Anything but a train step. *)
Definition no_train_step (q : unit) (e : event) : option unit :=
  match e with
  | EvTrain _ _ => None
  | _ => Some q
  end.

(** Three epochs over five samples in batches of two, reshuffled at
    each epoch, with two validation samples. *)
Definition shuffled_fit_run : result unit * world nat :=
  Eval vm_compute in
    fit_loop (C := scripted fives) (Some [samples 5]) (Some 2) 3 0
             (Some [samples 2]) ShuffleTrue 0 None None fresh_world.

(** * Properties *)

#[local] Arguments Nat.div : simpl never.
#[local] Arguments Nat.modulo : simpl never.

(** ** The monad *)

Ltac run_monad :=
  unfold bind, ret, raise, liftR, read, write, emit, poll, as_int in *;
  simpl in *.

(** ** Lists, slices and batches *)

Lemma ceil_div_bounds (n b : nat) :
  0 < b -> n <= ceil_div n b * b /\ ceil_div n b * b < n + b.
Proof.
  intros Hb. unfold ceil_div.
  pose proof (Nat.div_mod_eq (n + b - 1) b) as E.
  pose proof (Nat.mod_upper_bound (n + b - 1) b ltac:(lia)) as U.
  nia.
Qed.

Lemma firstn_plus {A} (a m : nat) (l : list A) :
  firstn (a + m) l = firstn a l ++ firstn m (skipn a l).
Proof.
  revert l. induction a as [|a IH]; intros [|x l]; simpl; auto.
  - now rewrite firstn_nil.
  - now rewrite IH.
Qed.

Lemma py_slice_extends {A} (l : list A) (a c : nat) :
  a <= c -> firstn a l ++ py_slice l a c = firstn c l.
Proof.
  intros H. unfold py_slice.
  replace c with (a + (c - a)) at 2 by lia. now rewrite firstn_plus.
Qed.

(** The slices cut by consecutive batches rebuild the sliced list. *)
Lemma concat_batch_slices {A} (l : list A) (b k : nat) :
  concat (map (fun i => py_slice l (i * b) (Nat.min (length l) ((i + 1) * b)))
              (seq 0 k))
  = firstn (k * b) l.
Proof.
  induction k as [|k IH].
  - reflexivity.
  - rewrite seq_S, map_app, concat_app, IH. simpl.
    rewrite app_nil_r.
    destruct (Nat.le_gt_cases (k * b) (length l)) as [Hle|Hgt].
    + rewrite py_slice_extends by lia.
      destruct (Nat.le_gt_cases ((k + 1) * b) (length l)) as [Hle'|Hgt'].
      * rewrite Nat.min_r by lia. f_equal. lia.
      * rewrite Nat.min_l by lia.
        rewrite !firstn_all2; auto; lia.
    + unfold py_slice. rewrite skipn_all2 by lia.
      rewrite firstn_nil, app_nil_r.
      rewrite !firstn_all2; auto; lia.
Qed.

Lemma make_batches_pos (n b : nat) :
  0 < b ->
  make_batches n b
  = Ok (map (fun i => (i * b, Nat.min n ((i + 1) * b))) (seq 0 (ceil_div n b))).
Proof. destruct b; [lia|reflexivity]. Qed.

Lemma batch_ids_concat (index_array : list nat) (n b : nat) batches :
  0 < b -> length index_array = n -> make_batches n b = Ok batches ->
  length (batch_ids_of index_array batches) = ceil_div n b /\
  concat (batch_ids_of index_array batches) = index_array.
Proof.
  intros Hb Hn Hm. rewrite make_batches_pos in Hm by assumption.
  injection Hm as <-. unfold batch_ids_of. rewrite map_map. simpl. split.
  - now rewrite length_map, length_seq.
  - subst n. rewrite concat_batch_slices.
    apply firstn_all2. apply (ceil_div_bounds (length index_array) Hb).
Qed.

Lemma Permutation_concat {A} (l l' : list (list A)) :
  Permutation l l' -> Permutation (concat l) (concat l').
Proof.
  induction 1; simpl.
  - constructor.
  - now apply Permutation_app_head.
  - rewrite !app_assoc. apply Permutation_app_tail, Permutation_app_comm.
  - etransitivity; eassumption.
Qed.

Lemma concat_chunks {A} (c b : nat) (l : list A) :
  concat (chunks c b l) = firstn (c * b) l.
Proof.
  revert l. induction c as [|c IH]; intros l; simpl.
  - reflexivity.
  - now rewrite IH, firstn_plus.
Qed.

Lemma mapR_length {A B} (f : A -> result B) (l : list A) (l' : list B) :
  mapR f l = Ok l' -> length l' = length l.
Proof.
  revert l'. induction l as [|x l IH]; simpl; intros l' H.
  - now injection H as <-.
  - destruct (f x); [|discriminate].
    destruct (mapR f l); [|discriminate].
    injection H as <-. simpl. f_equal. now apply IH.
Qed.

Lemma yielded_all {A} (items : list (result A)) :
  raised items = None -> length (yielded items) = length items.
Proof.
  induction items as [|[x|e] t IH]; simpl; intros H; auto; discriminate.
Qed.

(** ** The batch generator *)

Section GeneratorFacts.

Context {T : Type} {C : Collaborators T}.

Lemma same_but_ext_refl (w : world T) : same_but_ext w w.
Proof. repeat split. Qed.

Lemma random_shuffle_run {A} (l : list A) w :
  exists l' w', random_shuffle l w = (Ok l', w') /\
                l' = fst (np_random_shuffle l (ext (st w))) /\
                same_but_ext w w'.
Proof.
  unfold random_shuffle.
  destruct (np_random_shuffle l (ext (st w))) as [l' x] eqn:E.
  exists l', (mkWorld (set_ext x (st w)) (trace w)).
  repeat split.
Qed.

(** With integer arguments and a positive batch size the index array is
    always produced, and is a rearrangement of [0 .. n-1]. *)
Lemma shuffled_index_array_run (n b : nat) shuffle w :
  shuffle_permutes C -> 0 < b ->
  exists index_array w',
    shuffled_index_array (Some n) (Some b) shuffle w = (Ok index_array, w') /\
    Permutation index_array (seq 0 n) /\ same_but_ext w w'.
Proof.
  intros HP Hb. unfold shuffled_index_array. run_monad.
  destruct shuffle.
  - exists (seq 0 n), w. repeat split. apply Permutation_refl.
  - destruct (random_shuffle_run (seq 0 n) w) as (l' & w' & E & El & Hs).
    exists l', w'. rewrite E. repeat split; try apply Hs.
    subst l'. apply HP.
  - unfold batch_shuffle. destruct b as [|b']; [lia|]. run_monad.
    set (b := S b') in *. rewrite length_seq.
    destruct (random_shuffle_run
                (chunks (n / b) b (firstn (n / b * b) (seq 0 n))) w)
      as (l' & w' & E & El & Hs).
    rewrite E. eexists _, w'. split; [reflexivity|]. split; [|exact Hs].
    rewrite <- (firstn_skipn (n / b * b) (seq 0 n)) at 2.
    apply Permutation_app_tail.
    transitivity
      (concat (chunks (n / b) b (firstn (n / b * b) (seq 0 n)))).
    + apply Permutation_concat. subst l'. apply HP.
    + rewrite concat_chunks, firstn_firstn, Nat.min_id. reflexivity.
Qed.

End GeneratorFacts.

(** ** Claims on [get_batch_generator] *)

Lemma scripted_shuffle_permutes (sc : script) : shuffle_permutes (scripted sc).
Proof. intros A l s. simpl. symmetry. apply Permutation_rev. Qed.

Lemma last_snoc {A} (l : list A) (x d : A) : last (l ++ [x]) d = x.
Proof.
  induction l as [|y l IH]; simpl; auto.
  destruct (l ++ [x]) eqn:E; auto.
  destruct l; discriminate.
Qed.

(** *** What a batch bundle holds *)

Lemma take_rows_nth {A} (rs : list A) (ids : list nat) rs' :
  take_rows rs ids = Some rs' ->
  length rs' = length ids /\
  forall p i, nth_error ids p = Some i ->
    exists r, nth_error rs i = Some r /\ nth_error rs' p = Some r.
Proof.
  revert rs'. induction ids as [|i0 t IH]; simpl; intros rs' H.
  - injection H as <-. split; [reflexivity|]. intros [|p] i Hp; discriminate.
  - destruct (nth_error rs i0) as [r0|] eqn:E0; [|discriminate].
    destruct (take_rows rs t) as [l|]; [|discriminate].
    injection H as <-. destruct (IH l eq_refl) as [Hl Hn].
    split; [simpl; now rewrite Hl|].
    intros [|p] i Hp; simpl in *.
    + injection Hp as <-. now exists r0.
    + now apply Hn.
Qed.

Lemma mapR_nth_error {A B} (f : A -> result B) (l : list A) (l' : list B) :
  mapR f l = Ok l' ->
  forall j a, nth_error l j = Some a ->
    exists b, nth_error l' j = Some b /\ f a = Ok b.
Proof.
  revert l'. induction l as [|x l IH]; intros l' H j a Hj.
  - destruct j; discriminate.
  - simpl in H. destruct (f x) as [y|] eqn:Ex; [|discriminate].
    destruct (mapR f l) as [ys|]; [|discriminate].
    injection H as <-. destruct j as [|j]; simpl in *.
    + injection Hj as <-. now exists y.
    + now apply (IH ys eq_refl).
Qed.

(** Slicing the arrays takes their rows at the indices. *)
Lemma slice_arrays_holds (l : list pyval) (ids : list nat) sliced :
  slice_arrays l ids = Ok sliced -> holds_rows l ids sliced.
Proof.
  unfold slice_arrays. intros H j x Hj.
  destruct (mapR_nth_error _ _ H _ Hj) as (v & Hv & Hget).
  simpl in Hget.
  destruct (take_rows (rows x) ids) as [rs|] eqn:Et; [|discriminate].
  injection Hget as <-. destruct (take_rows_nth _ _ Et) as [Hl Hn].
  eexists. split; [exact Hv|]. simpl. now repeat split.
Qed.

(** So does the body of the [try], which leaves a trailing float out. *)
Lemma slice_ins_holds (l : list pyval) (ids : list nat) batch_ins :
  slice_ins (Some l) ids = Ok batch_ins -> holds_rows l ids batch_ins.
Proof.
  unfold slice_ins. intros H.
  destruct l as [|a0 l0] eqn:El; [discriminate|]. rewrite <- El in *.
  assert (Hne : l <> []) by (rewrite El; discriminate).
  destruct (exists_last Hne) as (front & flag & Hl). clear El Hne.
  rewrite Hl in H. rewrite map_app in H.
  change (map Some [flag]) with [Some flag] in H.
  rewrite last_snoc, removelast_last in H.
  destruct (is_float flag) eqn:Ef.
  - destruct (slice_arrays front ids) as [sliced|] eqn:Es; [|discriminate].
    injection H as <-. pose proof (slice_arrays_holds _ _ Es) as Hh.
    unfold slice_arrays in Es. apply mapR_length in Es.
    intros j x Hj. rewrite Hl in Hj.
    destruct (Nat.lt_ge_cases j (length front)) as [Hlt|Hge].
    + rewrite nth_error_app1 in Hj by assumption.
      destruct (Hh j x Hj) as (y & Hy & Hrest).
      exists y. split; [|exact Hrest].
      rewrite nth_error_app1; [exact Hy|]. now rewrite Es.
    + rewrite nth_error_app2 in Hj by assumption.
      destruct (j - length front) as [|d]; simpl in Hj.
      * injection Hj as ->. discriminate Ef.
      * destruct d; discriminate.
  - rewrite <- Hl in H. now apply slice_arrays_holds.
Qed.

Lemma batch_ins_of_holds (l : list pyval) (ids : list nat) batch_ins :
  batch_ins_of (Some l) ids = Ok batch_ins -> holds_rows l ids batch_ins.
Proof.
  unfold batch_ins_of. intros H. apply slice_ins_holds.
  destruct (slice_ins (Some l) ids) as [v|e]; [exact H|].
  destruct e; discriminate.
Qed.

Section GeneratorClaims.

Context {T : Type} {C : Collaborators T}.

Lemma get_batch_generator_run (ins : bundle) (n b : nat) shuffle w :
  shuffle_permutes C -> 0 < b ->
  exists index_array batches w',
    make_batches n b = Ok batches /\
    Permutation index_array (seq 0 n) /\
    same_but_ext w w' /\
    shuffled_index_array (Some n) (Some b) shuffle w = (Ok index_array, w') /\
    get_batch_generator ins (Some n) (Some b) shuffle w
    = (Ok (map (batch_ins_of ins) (batch_ids_of index_array batches)), w').
Proof.
  intros HP Hb.
  destruct (shuffled_index_array_run n shuffle w HP Hb)
    as (index_array & w' & E & Hperm & Hs).
  eexists index_array, _, w'. split; [apply make_batches_pos; exact Hb|].
  repeat split; try apply Hs; try assumption.
  unfold get_batch_generator, bind. rewrite E. run_monad.
  now rewrite make_batches_pos by assumption.
Qed.

(** C1.  For [batch_size <= num_samples] (and a batch size that is not
    zero) the generator has [ceil(num_samples / batch_size)] batches; the
    index arrays of the batches, put end to end, are a rearrangement of
    [0 .. num_samples - 1], so every sample index is in exactly one
    batch; a bundle that is yielded holds, of every array of [ins], the
    rows at the indices of its batch and no other, in their order; and
    when no slicing raises, that many bundles are yielded. *)
Theorem batch_generator_partitions (ins : bundle) (n b : nat) shuffle w :
  shuffle_permutes C -> 0 < b -> b <= n ->
  exists index_array batches w',
    make_batches n b = Ok batches /\
    let ids := batch_ids_of index_array batches in
    let items := map (batch_ins_of ins) ids in
    get_batch_generator ins (Some n) (Some b) shuffle w = (Ok items, w') /\
    length items = ceil_div n b /\
    Permutation (concat ids) (seq 0 n) /\
    NoDup (concat ids) /\
    (forall i, In i (concat ids) <-> i < n) /\
    (forall l k batch_ids batch_ins,
       ins = Some l ->
       nth_error ids k = Some batch_ids ->
       nth_error items k = Some (Ok batch_ins) ->
       holds_rows l batch_ids batch_ins) /\
    (raised items = None -> length (yielded items) = ceil_div n b).
Proof.
  intros HP Hb _.
  destruct (get_batch_generator_run ins n shuffle w HP Hb)
    as (index_array & batches & w' & Hm & Hperm & _ & _ & Hg).
  exists index_array, batches, w'. split; [exact Hm|]. cbv zeta.
  assert (Hn : length index_array = n)
    by (rewrite (Permutation_length Hperm); apply length_seq).
  destruct (batch_ids_concat index_array Hb Hn Hm) as [Hlen Hcat].
  assert (Hp : Permutation (concat (batch_ids_of index_array batches))
                           (seq 0 n)) by (now rewrite Hcat).
  split; [exact Hg|]. split; [now rewrite length_map|].
  split; [exact Hp|]. split.
  { apply (Permutation_NoDup (Permutation_sym Hp)), seq_NoDup. }
  split.
  { intros i. split.
    - intros Hi. apply (Permutation_in _ Hp), in_seq in Hi. lia.
    - intros Hi. apply (Permutation_in _ (Permutation_sym Hp)), in_seq. lia. }
  split.
  { intros l k batch_ids batch_ins -> Hk Hitem.
    rewrite nth_error_map, Hk in Hitem. simpl in Hitem.
    injection Hitem as Hitem. now apply batch_ins_of_holds. }
  intros Hr. rewrite (yielded_all _ Hr). now rewrite length_map.
Qed.

End GeneratorClaims.

(** Five samples in batches of two under a shuffle that reverses: the
    batches hold the samples 4 and 3, 2 and 1, and 0. *)
Lemma batch_generator_partitions_witness :
  shuffle_permutes (scripted quiet) /\ 0 < 2 /\ 2 <= 5 /\
  get_batch_generator (C := scripted quiet) (Some [samples 5]) (Some 5)
                      (Some 2) ShuffleTrue fresh_world
  = (Ok [Ok [PArray (column [4; 3])]; Ok [PArray (column [2; 1])];
         Ok [PArray (column [0])]], fresh_world) /\
  exists index_array batches w',
    make_batches 5 2 = Ok batches /\
    let ids := batch_ids_of index_array batches in
    let items := map (batch_ins_of (Some [samples 5])) ids in
    get_batch_generator (C := scripted quiet) (Some [samples 5]) (Some 5)
                        (Some 2) ShuffleTrue fresh_world = (Ok items, w') /\
    length items = ceil_div 5 2 /\
    Permutation (concat ids) (seq 0 5) /\
    NoDup (concat ids) /\
    (forall i, In i (concat ids) <-> i < 5) /\
    (forall l k batch_ids batch_ins,
       Some [samples 5] = Some l ->
       nth_error ids k = Some batch_ids ->
       nth_error items k = Some (Ok batch_ins) ->
       holds_rows l batch_ids batch_ins) /\
    (raised items = None -> length (yielded items) = ceil_div 5 2).
Proof.
  split; [apply scripted_shuffle_permutes|].
  split; [lia|]. split; [lia|]. split; [reflexivity|].
  apply (batch_generator_partitions (C := scripted quiet) (Some [samples 5])
           ShuffleTrue fresh_world (scripted_shuffle_permutes quiet));
    lia.
Defined.

Lemma raised_app {A} (l1 l2 : list (result A)) :
  raised l1 = None -> raised (l1 ++ l2) = raised l2.
Proof.
  induction l1 as [|[x|e] t IH]; simpl; intros H; auto; discriminate.
Qed.

Lemma yielded_until_raise {A} (l1 l2 : list (result A)) (e : exn) :
  raised l1 = None -> length (yielded (l1 ++ Raise e :: l2)) = length l1.
Proof.
  induction l1 as [|[x|e'] t IH]; simpl; intros H; auto; discriminate.
Qed.

Section SlicingClaims.

Context {T : Type} {C : Collaborators T}.

(** Whatever the arguments, the items of the generator are the slices of
    [ins] at a list of index arrays. *)
Lemma get_batch_generator_items (ins : bundle) num_samples batch_size shuffle
  w items w' :
  get_batch_generator ins num_samples batch_size shuffle w = (Ok items, w') ->
  exists ids, items = map (batch_ins_of ins) ids.
Proof.
  unfold get_batch_generator, bind.
  destruct (shuffled_index_array num_samples batch_size shuffle w)
    as [[index_array|e] w1]; [|discriminate].
  destruct num_samples as [n|]; [|discriminate].
  destruct batch_size as [b|]; [|discriminate].
  run_monad. destruct (make_batches n b) as [batches|e]; [|discriminate].
  intros H. injection H as <- _. eexists. reflexivity.
Qed.

(** C7.  When the slicing of a batch raises a [TypeError], the batches
    before it having been yielded, the generator raises there a
    [TypeError] whose message tells to pass [shuffle="batch"]; it slices
    that batch once and yields nothing more. *)
Theorem slicing_type_error_is_described (ins : bundle) (n b : nat) shuffle
  w index_array w' batches pre batch_ids post msg :
  shuffled_index_array (Some n) (Some b) shuffle w = (Ok index_array, w') ->
  make_batches n b = Ok batches ->
  batch_ids_of index_array batches = pre ++ batch_ids :: post ->
  raised (map (batch_ins_of ins) pre) = None ->
  slice_ins ins batch_ids = Raise (TypeError msg) ->
  exists items,
    get_batch_generator ins (Some n) (Some b) shuffle w = (Ok items, w') /\
    raised items = Some (TypeError batch_type_error) /\
    length (yielded items) = length pre /\
    advises_block_shuffle batch_type_error = true.
Proof.
  intros E Hm Hids Hpre Hslice.
  exists (map (batch_ins_of ins) (batch_ids_of index_array batches)).
  split.
  - unfold get_batch_generator, bind. rewrite E. run_monad. now rewrite Hm.
  - assert (Hitem : batch_ins_of ins batch_ids
                    = Raise (TypeError batch_type_error))
      by (unfold batch_ins_of; now rewrite Hslice).
    rewrite Hids, map_app. simpl. rewrite Hitem. repeat split.
    + now rewrite raised_app.
    + rewrite yielded_until_raise by assumption. apply length_map.
Qed.

(** C8.  When the last element of [ins] is a float, a yielded bundle is
    the slices of the elements before it followed by that float itself,
    and has as many elements as [ins]. *)
Theorem trailing_float_is_not_sliced (arrays : list pyval) (x : pyfloat)
  num_samples batch_size shuffle w items w' batch_ins :
  get_batch_generator (Some (arrays ++ [PFloat x])) num_samples batch_size
                      shuffle w = (Ok items, w') ->
  In (Ok batch_ins) items ->
  exists batch_ids sliced,
    slice_arrays arrays batch_ids = Ok sliced /\
    batch_ins = sliced ++ [PFloat x] /\
    length batch_ins = length (arrays ++ [PFloat x]).
Proof.
  intros Hg Hin.
  destruct (get_batch_generator_items _ _ _ _ _ Hg) as [ids ->].
  apply in_map_iff in Hin. destruct Hin as (batch_ids & Hb & _).
  exists batch_ids.
  unfold batch_ins_of, slice_ins in Hb.
  rewrite map_app in Hb.
  change (map Some [PFloat x]) with [Some (PFloat x)] in Hb.
  rewrite last_snoc, removelast_last in Hb. simpl in Hb.
  destruct (slice_arrays arrays batch_ids) as [sliced|e] eqn:Es.
  - injection Hb as <-. exists sliced. repeat split.
    rewrite !length_app. simpl. f_equal.
    unfold slice_arrays in Es. now apply mapR_length in Es.
  - destruct e; discriminate.
Qed.

End SlicingClaims.

Lemma slicing_type_error_is_described_witness :
  shuffled_index_array (C := scripted quiet) (Some 4) (Some 2) ShuffleTrue
                       fresh_world = (Ok [3; 2; 1; 0], fresh_world) /\
  make_batches 4 2 = Ok [(0, 2); (2, 4)] /\
  batch_ids_of [3; 2; 1; 0] [(0, 2); (2, 4)] = [] ++ [3; 2] :: [[1; 0]] /\
  raised (map (batch_ins_of (Some [hdf5_like 4])) []) = None /\
  slice_ins (Some [hdf5_like 4]) [3; 2]
  = Raise (TypeError "Indexing elements must be in increasing order") /\
  exists items,
    get_batch_generator (C := scripted quiet) (Some [hdf5_like 4]) (Some 4)
                        (Some 2) ShuffleTrue fresh_world
    = (Ok items, fresh_world) /\
    raised items = Some (TypeError batch_type_error) /\
    length (yielded items) = length (@nil (list nat)) /\
    advises_block_shuffle batch_type_error = true.
Proof.
  repeat (split; [reflexivity|]).
  apply (@slicing_type_error_is_described nat (scripted quiet)
           (Some [hdf5_like 4]) 4 2 ShuffleTrue fresh_world [3; 2; 1; 0]
           fresh_world [(0, 2); (2, 4)] [] [3; 2] [[1; 0]]
           "Indexing elements must be in increasing order");
    reflexivity.
Defined.

Lemma trailing_float_is_not_sliced_witness :
  get_batch_generator (C := scripted quiet)
                      (Some ([samples 4] ++ [PFloat (float_of_nat 1)])) (Some 4) (Some 2)
                      ShuffleFalse fresh_world
  = (Ok [Ok [PArray (column [0; 1]); PFloat (float_of_nat 1)];
         Ok [PArray (column [2; 3]); PFloat (float_of_nat 1)]],
     fresh_world) /\
  In (Ok [PArray (column [2; 3]); PFloat (float_of_nat 1)])
     [Ok [PArray (column [0; 1]); PFloat (float_of_nat 1)];
      Ok [PArray (column [2; 3]); PFloat (float_of_nat 1)]] /\
  exists batch_ids sliced,
    slice_arrays [samples 4] batch_ids = Ok sliced /\
    [PArray (column [2; 3]); PFloat (float_of_nat 1)]
    = sliced ++ [PFloat (float_of_nat 1)] /\
    length [PArray (column [2; 3]); PFloat (float_of_nat 1)]
    = length ([samples 4] ++ [PFloat (float_of_nat 1)]).
Proof.
  split; [reflexivity|]. split; [right; left; reflexivity|].
  apply (@trailing_float_is_not_sliced nat (scripted quiet) [samples 4]
           (float_of_nat 1)
           (Some 4) (Some 2) ShuffleFalse fresh_world
           [Ok [PArray (column [0; 1]); PFloat (float_of_nat 1)];
            Ok [PArray (column [2; 3]); PFloat (float_of_nat 1)]]
           fresh_world).
  - reflexivity.
  - right; left; reflexivity.
Defined.

(** ** Block shuffle *)

Lemma firstn_seq_le (k s m : nat) : k <= m -> firstn k (seq s m) = seq s k.
Proof.
  revert s m. induction k as [|k IH]; intros s [|m] H; simpl; auto; try lia.
  f_equal. apply IH. lia.
Qed.

Lemma chunks_seq (c b s m : nat) :
  c * b <= m ->
  chunks c b (seq s m) = map (fun k => seq (s + k * b) b) (seq 0 c).
Proof.
  revert s m. induction c as [|c IH]; intros s m H; simpl.
  - reflexivity.
  - rewrite firstn_seq_le by lia. rewrite Nat.add_0_r. f_equal.
    rewrite skipn_seq, IH by lia.
    rewrite <- seq_shift, map_map. apply map_ext. intros k.
    f_equal. lia.
Qed.

Lemma ceil_div_small (r b : nat) : 0 < r -> r < b -> ceil_div r b = 1.
Proof.
  intros H0 H1. pose proof (ceil_div_bounds r (b := b) ltac:(lia)) as [L U].
  nia.
Qed.

Lemma ceil_div_zero (b : nat) : 0 < b -> ceil_div 0 b = 0.
Proof.
  intros H. pose proof (ceil_div_bounds 0 (b := b) H) as [L U]. nia.
Qed.

Lemma ceil_div_succ (n b : nat) :
  0 < b -> ceil_div (b + n) b = S (ceil_div n b).
Proof.
  intros H. unfold ceil_div.
  replace (b + n + b - 1) with (1 * b + (n + b - 1)) by lia.
  rewrite Nat.div_add_l by lia. reflexivity.
Qed.

(** Cutting blocks of [b] elements followed by fewer than [b] elements
    into batches of [b] gives the blocks back, and the rest as the last
    batch when there is one. *)
Lemma batch_slices_of_blocks {A} (blocks : list (list A)) (rest : list A) (b : nat) :
  0 < b -> Forall (fun x => length x = b) blocks -> length rest < b ->
  map (fun i => py_slice (concat blocks ++ rest) (i * b)
                  (Nat.min (length (concat blocks ++ rest)) ((i + 1) * b)))
      (seq 0 (ceil_div (length (concat blocks ++ rest)) b))
  = blocks ++ match rest with [] => [] | _ => [rest] end.
Proof.
  intros Hb HF Hr. induction HF as [|blk bs Hlen HF IH].
  - change (concat [] ++ rest) with rest. change ([] ++ ?x) with x.
    destruct rest as [|x rest'].
    + simpl length. now rewrite ceil_div_zero.
    + remember (x :: rest') as R eqn:ER.
      assert (HR : 0 < length R) by (subst R; simpl; lia).
      rewrite ceil_div_small by lia. cbn [seq map].
      unfold py_slice. replace (0 * b) with 0 by lia.
      rewrite Nat.sub_0_r, Nat.min_l by lia.
      change (skipn 0 R) with R. rewrite firstn_all.
      subst R. reflexivity.
  - change (concat (blk :: bs)) with (blk ++ concat bs).
    rewrite <- app_assoc. set (L := concat bs ++ rest) in *.
    change ((blk :: bs) ++ ?x) with (blk :: (bs ++ x)).
    rewrite length_app, Hlen, ceil_div_succ by assumption.
    rewrite <- cons_seq. cbn [map]. f_equal.
    + unfold py_slice. replace (0 * b) with 0 by lia.
      rewrite Nat.sub_0_r, Nat.min_r by lia.
      change (skipn 0 (blk ++ L)) with (blk ++ L).
      rewrite firstn_app, Hlen.
      rewrite firstn_all2 by lia.
      replace ((0 + 1) * b - b) with 0 by lia.
      apply app_nil_r.
    + rewrite <- IH, <- seq_shift, map_map. apply map_ext. intros i.
      unfold py_slice. rewrite skipn_app, Hlen.
      rewrite (skipn_all2 blk) by lia. cbn [app].
      f_equal; [lia | f_equal; lia].
Qed.

Lemma seq_nil_iff (s m : nat) : seq s m = [] <-> m = 0.
Proof. destruct m; simpl; split; intros; auto; discriminate. Qed.

Section BlockShuffle.

Context {T : Type} {C : Collaborators T}.

(** C9.  With [shuffle="batch"] the index array is the whole batch-sized
    blocks of [0 .. num_samples - 1] in some order, each block unchanged,
    followed by the indices left after the last whole block; the batches
    of the generator are these blocks, then the leftover if there is
    one. *)
Theorem block_shuffle_permutes_whole_batches (ins : bundle) (n b : nat) w :
  shuffle_permutes C -> 0 < b ->
  exists blocks w',
    Permutation blocks (whole_blocks n b) /\
    shuffled_index_array (Some n) (Some b) ShuffleBatch w
    = (Ok (concat blocks ++ leftover n b), w') /\
    get_batch_generator ins (Some n) (Some b) ShuffleBatch w
    = (Ok (map (batch_ins_of ins) (blocks ++ leftover_batch n b)), w').
Proof.
  intros HP Hb.
  pose proof (Nat.div_mod_eq n b) as Hdiv.
  pose proof (Nat.mod_upper_bound n b ltac:(lia)) as Hmod.
  assert (Hchunks : chunks (n / b) b (firstn (n / b * b) (seq 0 n))
                    = whole_blocks n b).
  { rewrite firstn_seq_le by nia. rewrite chunks_seq by lia. reflexivity. }
  assert (Hlast : skipn (n / b * b) (seq 0 n) = leftover n b).
  { rewrite skipn_seq. unfold leftover. f_equal. nia. }
  destruct (random_shuffle_run (whole_blocks n b) w)
    as (blocks & w' & E & Eb & _).
  assert (Hperm : Permutation blocks (whole_blocks n b))
    by (subst blocks; apply HP).
  assert (Hidx : shuffled_index_array (Some n) (Some b) ShuffleBatch w
                 = (Ok (concat blocks ++ leftover n b), w')).
  { unfold shuffled_index_array, batch_shuffle.
    destruct b as [|b']; [lia|]. unfold bind, as_int, ret.
    rewrite length_seq, Hchunks, Hlast, E. reflexivity. }
  exists blocks, w'. split; [exact Hperm|]. split; [exact Hidx|].
  unfold get_batch_generator, bind. rewrite Hidx. unfold as_int, ret, liftR.
  rewrite make_batches_pos by assumption.
  assert (Hids : batch_ids_of (concat blocks ++ leftover n b)
                   (map (fun i => (i * b, Nat.min n ((i + 1) * b)))
                        (seq 0 (ceil_div n b)))
                 = blocks ++ leftover_batch n b); [|now rewrite Hids].
  unfold batch_ids_of. rewrite map_map. cbn [fst snd].
  assert (HF : Forall (fun x : list nat => length x = b) blocks).
  { eapply Permutation_Forall; [symmetry; exact Hperm|].
    unfold whole_blocks. apply Forall_forall. intros x Hx.
    apply in_map_iff in Hx. destruct Hx as (k & <- & _). apply length_seq. }
  assert (Hr : length (leftover n b) < b)
    by (unfold leftover; now rewrite length_seq).
  assert (Hn : length (concat blocks ++ leftover n b) = n).
  { rewrite length_app, (Permutation_length (Permutation_concat Hperm)).
    rewrite <- Hchunks, concat_chunks.
    rewrite firstn_firstn, Nat.min_id, length_firstn, length_seq.
    unfold leftover. rewrite length_seq. nia. }
  pose proof (@batch_slices_of_blocks _ blocks (leftover n b) b Hb HF Hr) as Hs.
  rewrite Hn in Hs. rewrite Hs. unfold leftover_batch.
  now destruct (leftover n b).
Qed.

End BlockShuffle.

Lemma block_shuffle_permutes_whole_batches_witness :
  shuffle_permutes (scripted quiet) /\ 0 < 2 /\
  exists blocks w',
    Permutation blocks (whole_blocks 5 2) /\
    shuffled_index_array (C := scripted quiet) (Some 5) (Some 2) ShuffleBatch
                         fresh_world
    = (Ok (concat blocks ++ leftover 5 2), w') /\
    get_batch_generator (C := scripted quiet) (Some [samples 5]) (Some 5)
                        (Some 2) ShuffleBatch fresh_world
    = (Ok (map (batch_ins_of (Some [samples 5]))
               (blocks ++ leftover_batch 5 2)), w').
Proof.
  split; [apply scripted_shuffle_permutes|]. split; [lia|].
  apply (@block_shuffle_permutes_whole_batches nat (scripted quiet)
           (Some [samples 5]) 5 2 fresh_world
           (scripted_shuffle_permutes quiet)).
  lia.
Defined.

(** ** Runs of the monad *)

Lemma extends_new_events {T} (w w' : world T) evs :
  extends w w' evs -> new_events w w' = evs.
Proof.
  unfold extends, new_events. intros ->.
  rewrite skipn_app, Nat.sub_diag, skipn_all. reflexivity.
Qed.

Lemma extends_refl {T} (w : world T) : extends w w [].
Proof. unfold extends. now rewrite app_nil_r. Qed.

Lemma extends_trans {T} (w1 w2 w3 : world T) e1 e2 :
  extends w1 w2 e1 -> extends w2 w3 e2 -> extends w1 w3 (e1 ++ e2).
Proof. unfold extends. intros H1 H2. now rewrite H2, H1, app_assoc. Qed.

Lemma bind_ok {T A B} (m : M T A) (k : A -> M T B) w b w' :
  bind m k w = (Ok b, w') ->
  exists a w1, m w = (Ok a, w1) /\ k a w1 = (Ok b, w').
Proof.
  unfold bind. destruct (m w) as [[a|e] w1]; intros H.
  - now exists a, w1.
  - discriminate.
Qed.

Lemma ret_ok {T A} (a b : A) (w w' : world T) :
  ret a w = (Ok b, w') -> b = a /\ w' = w.
Proof. unfold ret. intros H. now injection H as <- <-. Qed.

Lemma liftR_ok {T A} (r : result A) (a : A) (w w' : world T) :
  liftR r w = (Ok a, w') -> r = Ok a /\ w' = w.
Proof. unfold liftR. intros H. now injection H as <- <-. Qed.

Lemma read_ok {T A} (f : store T -> A) (a : A) (w w' : world T) :
  read f w = (Ok a, w') -> a = f (st w) /\ w' = w.
Proof. unfold read. intros H. now injection H as <- <-. Qed.

Lemma write_ok {T} (f : store T -> store T) u (w w' : world T) :
  write f w = (Ok u, w') -> st w' = f (st w) /\ extends w w' [].
Proof.
  unfold write. intros H. injection H as _ <-. split; [reflexivity|].
  unfold extends. simpl. now rewrite app_nil_r.
Qed.

Lemma poll_ok {T} site (f : store T -> bool) b (w w' : world T) :
  poll site f w = (Ok b, w') ->
  b = f (st w) /\ st w' = st w /\ extends w w' [EvPoll site b].
Proof. unfold poll. intros H. injection H as <- <-. now repeat split. Qed.

Section Runs.

Context {T : Type} {C : Collaborators T}.

Lemma tell_ok n u (w w' : world T) :
  tell n w = (Ok u, w') ->
  st w' = snd (notify n (st w)) /\ extends w w' [EvNotify n].
Proof.
  unfold tell. destruct (notify n (st w)) as [r s]. intros H.
  injection H as _ <-. now split.
Qed.

Lemma call_test_ok ins o (w w' : world T) :
  call_test ins w = (Ok o, w') -> extends w w' [EvTest ins (Ok o)].
Proof.
  unfold call_test. destruct (test_function ins (st w)) as [r s]. intros H.
  injection H as -> <-. reflexivity.
Qed.

Lemma call_train_ok ins o (w w' : world T) :
  call_train ins w = (Ok o, w') -> extends w w' [EvTrain ins (Ok o)].
Proof.
  unfold call_train. destruct (train_function ins (st w)) as [r s]. intros H.
  injection H as -> <-. reflexivity.
Qed.

Lemma call_predict_ok ins o (w w' : world T) :
  call_predict ins w = (Ok o, w') -> extends w w' [EvPredict ins (Ok o)].
Proof.
  unfold call_predict. destruct (predict_function ins (st w)) as [r s].
  intros H. injection H as -> <-. reflexivity.
Qed.

End Runs.

(** Takes the first step of a run that succeeded apart. *)
Ltac step_run H a w E :=
  apply bind_ok in H; destruct H as (a & w & E & H).

(** ** Lists updated by index *)

Lemma length_list_set {A} (l : list A) i v : length (list_set l i v) = length l.
Proof.
  revert i. induction l as [|x l IH]; intros [|i]; simpl; auto.
Qed.

Lemma nth_list_set {A} (l : list A) i j v d :
  nth j (list_set l i v) d
  = if (j =? i) && (i <? length l) then v else nth j l d.
Proof.
  revert i j. induction l as [|x l IH]; intros [|i] [|j]; simpl; auto;
    try (now rewrite andb_false_r).
Qed.

Lemma nth_error_lt {A} (l : list A) i x : nth_error l i = Some x -> i < length l.
Proof. intros H. apply nth_error_Some. congruence. Qed.

Lemma nth_error_nth_eq {A} (l : list A) i x d :
  nth_error l i = Some x -> nth i l d = x.
Proof. intros H. now apply nth_error_nth. Qed.

(** ** Accumulating the outputs of the evaluate loop *)

Lemma test_outputs_app (e1 e2 : list event) :
  test_outputs (e1 ++ e2) = test_outputs e1 ++ test_outputs e2.
Proof.
  induction e1 as [|e t IH]; simpl; auto.
  destruct e as [| | | ins [o|x] | |]; simpl; now rewrite IH.
Qed.

Lemma reported_sizes_app (e1 e2 : list event) :
  reported_sizes (e1 ++ e2) = reported_sizes e1 ++ reported_sizes e2.
Proof.
  induction e1 as [|e t IH]; simpl; auto.
  destruct e as [|n| | | |]; simpl; try now rewrite IH.
  destruct n; simpl; now rewrite IH.
Qed.

Lemma update_outs_spec (f : nat -> pyfloat -> pyfloat -> result pyfloat)
  (batch_outs : list pyfloat) :
  forall j outs outs',
    update_outs f j batch_outs outs = Ok outs' ->
    length outs' = length outs /\
    (batch_outs <> [] -> j + length batch_outs <= length outs) /\
    forall i,
      if (j <=? i) && (i <? j + length batch_outs)
      then f i (nth i outs fzero) (nth (i - j) batch_outs fzero)
           = Ok (nth i outs' fzero)
      else nth i outs' fzero = nth i outs fzero.
Proof.
  induction batch_outs as [|o t IH]; intros j outs outs' H; simpl in H.
  - injection H as <-. split; [reflexivity|]. split; [congruence|].
    intros i. simpl. rewrite Nat.add_0_r.
    destruct (Nat.leb_spec j i), (Nat.ltb_spec i j); simpl; auto; lia.
  - destruct (nth_error outs j) as [cur|] eqn:Ej; [|discriminate].
    pose proof (nth_error_lt _ _ Ej) as Hj.
    destruct (f j cur o) as [v|] eqn:Ev; [|discriminate].
    apply IH in H. destruct H as (Hl & Hb & Hn).
    rewrite length_list_set in Hl, Hb.
    split; [exact Hl|]. split.
    + intros _. destruct t as [|o' t'].
      * simpl. lia.
      * specialize (Hb ltac:(discriminate)). simpl in *. lia.
    + intros i. specialize (Hn i). rewrite nth_list_set in Hn.
      simpl length.
      destruct (Nat.leb_spec (S j) i), (Nat.ltb_spec i (S j + length t));
        destruct (Nat.leb_spec j i), (Nat.ltb_spec i (j + S (length t)));
        destruct (Nat.eqb_spec i j), (Nat.ltb_spec j (length outs));
        simpl in *; try lia; auto.
      * replace (i - j) with (S (i - S j)) by lia. exact Hn.
      * subst i. rewrite Nat.sub_diag. simpl.
        rewrite (nth_error_nth_eq _ _ fzero Ej), Hn. exact Ev.
Qed.

Lemma is_in_seq_nth {A} (l : list A) (d : A) (i : nat) :
  i < length l -> nth i (combine (seq 0 (length l)) l) (0, d) = (i, nth i l d).
Proof.
  intros H. rewrite combine_nth by apply length_seq.
  now rewrite seq_nth.
Qed.

Lemma mapR_nth {A B} (f : A -> result B) (l : list A) (l' : list B) da db i :
  mapR f l = Ok l' -> i < length l -> f (nth i l da) = Ok (nth i l' db).
Proof.
  revert l' i. induction l as [|x l IH]; intros l' i H Hi; simpl in *.
  - lia.
  - destruct (f x) as [y|] eqn:Ex; [|discriminate].
    destruct (mapR f l) as [ys|]; [|discriminate].
    injection H as <-. destruct i; simpl; auto. apply IH; auto. lia.
Qed.

(** An integer that was converted is the float nearest to it. *)
Lemma float_of_int_ok (n : nat) (x : pyfloat) :
  float_of_int n = Ok x -> x = float_of_nat n.
Proof.
  unfold float_of_int.
  destruct (PrimFloat.is_infinity (float_of_nat n)); [discriminate|].
  intros H. now injection H.
Qed.

(** The final division: stateful outputs are kept, the others divided. *)
Lemma divide_outs_spec (stateful : list nat) (outs outs' : list pyfloat)
  (d : nat) :
  divide_outs stateful outs (Some d) = Ok outs' ->
  length outs' = length outs /\
  forall i, i < length outs ->
    if is_in i stateful then nth i outs' fzero = nth i outs fzero
    else 0 < d /\
         nth i outs' fzero = fdiv (nth i outs fzero) (float_of_nat d).
Proof.
  unfold divide_outs. intros H.
  assert (Hl : length outs' = length outs).
  { apply mapR_length in H. rewrite H, length_combine, length_seq.
    apply Nat.min_id. }
  split; [exact Hl|]. intros i Hi.
  pose proof (mapR_nth _ _ (0, fzero) fzero (i := i) H) as Hn.
  rewrite length_combine, length_seq, Nat.min_id in Hn.
  specialize (Hn Hi). rewrite is_in_seq_nth in Hn by assumption.
  unfold divide_one in Hn. cbn [fst snd] in Hn.
  destruct (is_in i stateful).
  - now injection Hn as <-.
  - destruct d as [|d']; [discriminate|].
    destruct (float_of_int (S d')) as [y|] eqn:Ey; [|discriminate].
    apply float_of_int_ok in Ey. subst y.
    injection Hn as <-. split; [lia|reflexivity].
Qed.

Lemma step_accumulate (stateful : list nat) (o outs0 outs1 : list pyfloat) :
  update_outs (step_update stateful) 0 o outs0 = Ok outs1 ->
  length outs1 = length outs0 /\ length o <= length outs0 /\
  forall i,
    nth i outs1 fzero
    = if i <? length o
      then (if is_in i stateful then nth i o fzero
            else fadd (nth i outs0 fzero) (nth i o fzero))
      else nth i outs0 fzero.
Proof.
  intros H. apply update_outs_spec in H. destruct H as (Hl & Hb & Hn).
  split; [exact Hl|]. split.
  - destruct o; [simpl; lia|]. specialize (Hb ltac:(discriminate)). lia.
  - intros i. specialize (Hn i). cbn [Nat.leb andb Nat.add] in Hn.
    rewrite Nat.sub_0_r in Hn.
    destruct (i <? length o); [|exact Hn].
    unfold step_update in Hn.
    destruct (is_in i stateful); now injection Hn.
Qed.

Lemma sample_accumulate (stateful : list nat) (size : nat)
  (o outs0 outs1 : list pyfloat) :
  update_outs (sample_update stateful size) 0 o outs0 = Ok outs1 ->
  length outs1 = length outs0 /\ length o <= length outs0 /\
  forall i,
    nth i outs1 fzero
    = if i <? length o
      then (if is_in i stateful then nth i o fzero
            else fadd (nth i outs0 fzero)
                      (fmul (nth i o fzero) (float_of_nat size)))
      else nth i outs0 fzero.
Proof.
  intros H. apply update_outs_spec in H. destruct H as (Hl & Hb & Hn).
  split; [exact Hl|]. split.
  - destruct o; [simpl; lia|]. specialize (Hb ltac:(discriminate)). lia.
  - intros i. specialize (Hn i). cbn [Nat.leb andb Nat.add] in Hn.
    rewrite Nat.sub_0_r in Hn.
    destruct (i <? length o); [|exact Hn].
    unfold sample_update in Hn.
    destruct (is_in i stateful); [now injection Hn|].
    destruct (float_of_int size) as [s|] eqn:Es; [|discriminate].
    apply float_of_int_ok in Es. subst s. now injection Hn.
Qed.

Lemma latest_short (i : nat) (batch_outs : list (list pyfloat)) (m : nat) :
  Forall (fun o => length o <= m) batch_outs -> m <= i ->
  latest i batch_outs = None.
Proof.
  induction 1 as [|o t Ho Ht IH]; intros Hi; simpl; auto.
  rewrite IH by assumption. apply nth_error_None. lia.
Qed.

Lemma nth_error_case {A} (o : list A) (i : nat) (d : A) :
  nth_error o i = if i <? length o then Some (nth i o d) else None.
Proof.
  destruct (Nat.ltb_spec i (length o)) as [H|H].
  - now apply nth_error_nth'.
  - now apply nth_error_None.
Qed.

(** One more batch in a sum. *)
Lemma plain_sum_from_cons i acc o t :
  plain_sum_from i acc (o :: t)
  = plain_sum_from i (if i <? length o then fadd acc (nth i o fzero) else acc) t.
Proof.
  cbn [plain_sum_from]. rewrite (nth_error_case o i fzero).
  now destruct (i <? length o).
Qed.

Lemma weighted_sum_from_cons i acc size ss o t :
  weighted_sum_from i acc (size :: ss) (o :: t)
  = weighted_sum_from i
      (if i <? length o
       then fadd acc (fmul (nth i o fzero) (float_of_nat size))
       else acc) ss t.
Proof.
  cbn [weighted_sum_from]. rewrite (nth_error_case o i fzero).
  now destruct (i <? length o).
Qed.

Lemma latest_cons_case i (o : list pyfloat) t (d : pyfloat) :
  match latest i (o :: t) with Some v => v | None => d end
  = match latest i t with
    | Some v => v
    | None => if i <? length o then nth i o fzero else d
    end.
Proof.
  cbn [latest]. destruct (latest i t); [reflexivity|].
  rewrite (nth_error_case o i fzero). now destruct (i <? length o).
Qed.

Section EvaluateLoops.

Context {T : Type} {C : Collaborators T}.

(** One turn of the step loop that did not raise. *)
Lemma evaluate_steps_cons stateful ins labels step rest outs0 (w : world T)
  outs w' :
  evaluate_steps stateful ins labels (step :: rest) outs0 w = (Ok outs, w') ->
  exists o outs1 w1 evs,
    extends w w1 evs /\ test_outputs evs = [o] /\
    update_outs (step_update stateful) 0 o (init_outs step o outs0) = Ok outs1 /\
    if stop_evaluating (st w1) then outs = outs1 /\ w' = w1
    else evaluate_steps stateful ins labels rest outs1 w1 = (Ok outs, w').
Proof.
  intros H. simpl in H.
  step_run H u1 w1 E1. apply tell_ok in E1. destruct E1 as [_ X1].
  step_run H o w2 E2. apply call_test_ok in E2.
  step_run H u3 w3 E3. apply tell_ok in E3. destruct E3 as [_ X3].
  step_run H outs1 w4 E4. apply liftR_ok in E4. destruct E4 as [E4 ->].
  step_run H b w5 E5. apply poll_ok in E5. destruct E5 as (Eb & Es & X5).
  exists o, outs1, w5. eexists. split.
  - eapply extends_trans; [exact X1|].
    eapply extends_trans; [exact E2|].
    eapply extends_trans; [exact X3|exact X5].
  - split; [reflexivity|]. split; [exact E4|].
    rewrite Es, <- Eb. destruct b.
    + apply ret_ok in H. destruct H as [-> ->]. now split.
    + exact H.
Qed.

Lemma evaluate_steps_tail stateful ins labels steps_left :
  forall outs0 (w : world T) outs w',
    Forall (fun s => s <> 0) steps_left ->
    evaluate_steps stateful ins labels steps_left outs0 w = (Ok outs, w') ->
    exists evs,
      extends w w' evs /\
      length outs = length outs0 /\
      length (test_outputs evs) <= length steps_left /\
      (stop_evaluating (st w') = false ->
       length (test_outputs evs) = length steps_left) /\
      (length (test_outputs evs) < length steps_left ->
       stop_evaluating (st w') = true) /\
      Forall (fun o => length o <= length outs0) (test_outputs evs) /\
      forall i,
        (is_in i stateful = true ->
         nth i outs fzero
         = match latest i (test_outputs evs) with
           | Some v => v
           | None => nth i outs0 fzero
           end) /\
        (is_in i stateful = false ->
         nth i outs fzero
         = plain_sum_from i (nth i outs0 fzero) (test_outputs evs)).
Proof.
  induction steps_left as [|step rest IH]; intros outs0 w outs w' HF H.
  - apply ret_ok in H. destruct H as [-> ->]. exists [].
    split; [apply extends_refl|]. simpl. repeat split; auto; lia.
  - apply evaluate_steps_cons in H.
    destruct H as (o & outs1 & w1 & evs1 & X1 & Ho & Hu & H).
    inversion HF as [|? ? Hstep HF']; subst.
    unfold init_outs in Hu. rewrite (proj2 (Nat.eqb_neq step 0) Hstep) in Hu.
    apply step_accumulate in Hu. destruct Hu as (Hl1 & Hlo & Hn1).
    assert (Htail : exists evs2,
      extends w1 w' evs2 /\ length outs = length outs1 /\
      length (test_outputs evs2) <= length rest /\
      (stop_evaluating (st w') = false ->
       length (test_outputs evs2) = length rest) /\
      (length (test_outputs evs2) < length rest ->
       stop_evaluating (st w') = true) /\
      Forall (fun o => length o <= length outs1) (test_outputs evs2) /\
      forall i,
        (is_in i stateful = true ->
         nth i outs fzero
         = match latest i (test_outputs evs2) with
           | Some v => v
           | None => nth i outs1 fzero
           end) /\
        (is_in i stateful = false ->
         nth i outs fzero
         = plain_sum_from i (nth i outs1 fzero) (test_outputs evs2))).
    { destruct (stop_evaluating (st w1)) eqn:Estop.
      - destruct H as [-> ->]. exists [].
        split; [apply extends_refl|]. simpl.
        repeat split; auto; try lia; congruence.
      - apply IH in H; [exact H|exact HF']. }
    destruct Htail as (evs2 & X2 & Hl2 & Hle & Hall & Hfew & Hsh & Hn2).
    exists (evs1 ++ evs2). split; [eapply extends_trans; eassumption|].
    rewrite test_outputs_app, Ho. cbn [app length].
    split; [congruence|]. split; [lia|].
    split; [intros Hs; rewrite (Hall Hs); reflexivity|].
    split; [intros Hs; apply Hfew; lia|].
    split.
    { constructor; [lia|]. rewrite Hl1 in Hsh. exact Hsh. }
    intros i. destruct (Hn2 i) as [Hst Hns]. split.
    + intros Hs. rewrite latest_cons_case, (Hst Hs), Hn1, Hs. reflexivity.
    + intros Hs. rewrite plain_sum_from_cons, (Hns Hs), Hn1, Hs. reflexivity.
Qed.

End EvaluateLoops.

Lemma nth_zeros (o : list pyfloat) (i : nat) :
  nth i (map (fun _ : pyfloat => fzero) o) fzero = fzero.
Proof.
  revert i. induction o as [|x o IH]; intros [|i]; simpl; auto.
Qed.

Lemma latest_last (i : nat) (batch_outs : list (list pyfloat)) :
  i < length (last batch_outs []) ->
  latest i batch_outs = Some (nth i (last batch_outs []) fzero).
Proof.
  induction batch_outs as [|o t IH]; intros H.
  - simpl in H. lia.
  - destruct t as [|o' t'].
    + simpl in *. destruct (nth_error o i) eqn:E.
      * f_equal. symmetry. now apply nth_error_nth_eq.
      * apply nth_error_None in E. lia.
    + change (last (o :: o' :: t') []) with (last (o' :: t') []) in *.
      change (latest i (o :: o' :: t'))
        with (match latest i (o' :: t') with
              | Some v => Some v
              | None => nth_error o i
              end).
      now rewrite IH.
Qed.

(** The latest value of an output the first batch returned. *)
Lemma latest_found i (o : list pyfloat) t (x : pyfloat) :
  i < length o ->
  x = match latest i t with Some v => v | None => nth i o fzero end ->
  latest i (o :: t) = Some x.
Proof.
  intros Hi ->. cbn [latest]. destruct (latest i t); [reflexivity|].
  rewrite (nth_error_case o i fzero).
  now rewrite (proj2 (Nat.ltb_lt _ _) Hi).
Qed.

Section EvaluateSteps.

Context {T : Type} {C : Collaborators T}.

(** What [evaluate_loop] does before and after its loop, in step mode. *)
Lemma evaluate_loop_steps_run ins batch_size verbose steps (w : world T)
  outs w' :
  evaluate_loop ins batch_size verbose (Some steps) w = (Ok outs, w') ->
  exists labels w0 evs0 raw,
    extends w w0 evs0 /\ test_outputs evs0 = [] /\
    evaluate_steps (stateful_at w) ins labels (seq 0 steps) [] w0
    = (Ok raw, w') /\
    divide_outs (stateful_at w) raw (Some steps) = Ok outs.
Proof.
  unfold evaluate_loop, stateful_at. intros H.
  step_run H stateful w1 E1.
  assert (Hpre : exists e1, extends w w1 e1 /\ test_outputs e1 = [] /\
            stateful
            = if has_metrics
              then stateful_metric_indices
                     (metrics_names (snd (notify ResetStates (st w))))
              else []).
  { destruct has_metrics.
    - step_run E1 u wa Ea. apply tell_ok in Ea. destruct Ea as [Hst Xa].
      step_run E1 names wb Eb. apply read_ok in Eb. destruct Eb as [-> ->].
      apply ret_ok in E1. destruct E1 as [-> ->].
      eexists. split; [exact Xa|]. split; [reflexivity|]. now rewrite Hst.
    - apply ret_ok in E1. destruct E1 as [-> ->].
      exists []. split; [apply extends_refl|]. now split. }
  destruct Hpre as (e1 & X1 & Ht1 & ->).
  step_run H num_samples w2 E2. apply liftR_ok in E2. destruct E2 as [_ ->].
  step_run H names w3 E3. apply read_ok in E3. destruct E3 as [-> ->].
  step_run H u4 w4 E4. apply tell_ok in E4. destruct E4 as [_ X4].
  step_run H u5 w5 E5. apply tell_ok in E5. destruct E5 as [_ X5].
  step_run H u6 w6 E6. apply tell_ok in E6. destruct E6 as [_ X6].
  step_run H u7 w7 E7. apply write_ok in E7. destruct E7 as [_ X7].
  step_run H u8 w8 E8. apply tell_ok in E8. destruct E8 as [_ X8].
  step_run H raw w9 E9. apply liftR_ok in H. destruct H as [H ->].
  eexists _, w8, _, raw. split.
  - eapply extends_trans; [exact X1|].
    eapply extends_trans; [exact X4|].
    eapply extends_trans; [exact X5|].
    eapply extends_trans; [exact X6|].
    eapply extends_trans; [exact X7|exact X8].
  - rewrite test_outputs_app, Ht1. split; [reflexivity|].
    split; [exact E9|exact H].
Qed.

(** Step mode, stopped or not: the outputs that are not stateful are the
    sums of what the steps that ran returned, divided by [steps]; the
    stateful ones are the latest values. *)
Lemma evaluate_steps_sum ins batch_size verbose steps (w : world T) outs w' :
  evaluate_loop ins batch_size verbose (Some steps) w = (Ok outs, w') ->
  let batch_outs := test_outputs (new_events w w') in
  length batch_outs <= steps /\
  (length batch_outs < steps -> stop_evaluating (st w') = true) /\
  forall i, i < length outs ->
    if is_in i (stateful_at w)
    then latest i batch_outs = Some (nth i outs fzero)
    else nth i outs fzero
         = fdiv (plain_sum i batch_outs) (float_of_nat steps).
Proof.
  intros H. apply evaluate_loop_steps_run in H.
  destruct H as (labels & w0 & evs0 & raw & X0 & Ht0 & Hloop & Hdiv).
  apply divide_outs_spec in Hdiv. destruct Hdiv as [Hlen Hdiv].
  destruct steps as [|steps'].
  - apply ret_ok in Hloop. destruct Hloop as [-> ->].
    cbv zeta. rewrite (extends_new_events X0), Ht0. simpl in *.
    repeat split; try lia.
  - rewrite <- cons_seq in Hloop. apply evaluate_steps_cons in Hloop.
    destruct Hloop as (o & outs1 & w1 & evs1 & X1 & Ho & Hu & Hrest).
    apply step_accumulate in Hu. destruct Hu as (Hl1 & _ & Hn1).
    unfold init_outs in Hl1, Hn1. cbn [Nat.eqb app] in Hl1, Hn1.
    rewrite length_map in Hl1.
    assert (Htail : exists evs2,
      extends w1 w' evs2 /\ length raw = length outs1 /\
      length (test_outputs evs2) <= steps' /\
      (length (test_outputs evs2) < steps' -> stop_evaluating (st w') = true) /\
      forall i,
        (is_in i (stateful_at w) = true ->
         nth i raw fzero
         = match latest i (test_outputs evs2) with
           | Some v => v
           | None => nth i outs1 fzero
           end) /\
        (is_in i (stateful_at w) = false ->
         nth i raw fzero
         = plain_sum_from i (nth i outs1 fzero) (test_outputs evs2))).
    { destruct (stop_evaluating (st w1)) eqn:Estop.
      - destruct Hrest as [-> ->]. exists [].
        split; [apply extends_refl|]. simpl. repeat split; auto; lia.
      - apply evaluate_steps_tail in Hrest.
        + destruct Hrest as (evs2 & X2 & Hl2 & Hle & _ & Hfew & _ & Hn2).
          rewrite length_seq in Hle, Hfew. exists evs2. repeat split; auto;
            apply Hn2.
        + apply Forall_forall. intros s Hs. apply in_seq in Hs. lia. }
    destruct Htail as (evs2 & X2 & Hl2 & Hle & Hfew & Hn2).
    pose proof (extends_trans X0 (extends_trans X1 X2)) as X.
    cbv zeta. rewrite (extends_new_events X).
    rewrite !test_outputs_app, Ht0, Ho. cbn [app length].
    split; [lia|]. split; [intros Hs; apply Hfew; lia|].
    intros i Hi. specialize (Hdiv i ltac:(lia)).
    destruct (Hn2 i) as [Hst Hns]. specialize (Hn1 i).
    assert (Hio : (i <? length o) = true) by (apply Nat.ltb_lt; lia).
    rewrite Hio in Hn1.
    destruct (is_in i (stateful_at w)) eqn:Es.
    + apply latest_found; [now apply Nat.ltb_lt|].
      rewrite Hdiv, (Hst eq_refl), Hn1. reflexivity.
    + destruct Hdiv as [_ ->]. unfold plain_sum.
      rewrite plain_sum_from_cons, Hio, (Hns eq_refl), Hn1, nth_zeros.
      reflexivity.
Qed.


(** C10.  A step-mode run stopped after [k < steps] steps returns, for an
    output that is not stateful, the sum of the outputs of the [k] steps
    that ran divided by [steps], not by [k]; the stop flag is what ended
    it. *)
Theorem early_stop_still_divides_by_steps ins batch_size verbose steps k
  (w : world T) outs w' :
  evaluate_loop ins batch_size verbose (Some steps) w = (Ok outs, w') ->
  length (test_outputs (new_events w w')) = k ->
  k < steps ->
  stop_evaluating (st w') = true /\
  forall i, i < length outs -> is_in i (stateful_at w) = false ->
    nth i outs fzero
    = fdiv (plain_sum i (test_outputs (new_events w w'))) (float_of_nat steps).
Proof.
  intros H Hk Hlt. apply evaluate_steps_sum in H.
  destruct H as (_ & Hstop & H). split; [apply Hstop; lia|].
  intros i Hi Hs. specialize (H i Hi). now rewrite Hs in H.
Qed.

End EvaluateSteps.

Section EvaluateBatches.

Context {T : Type} {C : Collaborators T}.

(** One turn of the sample loop that did not raise. *)
Lemma evaluate_batches_cons stateful indices labels k item rest outs0
  (w : world T) outs w' :
  evaluate_batches stateful indices labels k (item :: rest) outs0 w
  = (Ok outs, w') ->
  exists size o outs1 w1 evs,
    extends w w1 evs /\ test_outputs evs = [o] /\
    reported_sizes evs = [size] /\
    update_outs (sample_update stateful size) 0 o (init_outs k o outs0)
    = Ok outs1 /\
    if stop_evaluating (st w1) then outs = outs1 /\ w' = w1
    else evaluate_batches stateful indices labels (S k) rest outs1 w1
         = (Ok outs, w').
Proof.
  intros H. simpl in H.
  step_run H batch_ins w0 E0. apply liftR_ok in E0. destruct E0 as [_ ->].
  step_run H size w0 E0. apply liftR_ok in E0. destruct E0 as [_ ->].
  step_run H u1 w1 E1. apply tell_ok in E1. destruct E1 as [_ X1].
  step_run H dense w1' E1'. apply liftR_ok in E1'. destruct E1' as [_ ->].
  step_run H o w2 E2. apply call_test_ok in E2.
  step_run H u3 w3 E3. apply tell_ok in E3. destruct E3 as [_ X3].
  step_run H outs1 w4 E4. apply liftR_ok in E4. destruct E4 as [E4 ->].
  step_run H b w5 E5. apply poll_ok in E5. destruct E5 as (Eb & Es & X5).
  exists size, o, outs1, w5. eexists. split.
  - eapply extends_trans; [exact X1|].
    eapply extends_trans; [exact E2|].
    eapply extends_trans; [exact X3|exact X5].
  - split; [reflexivity|]. split; [reflexivity|]. split; [exact E4|].
    rewrite Es, <- Eb. destruct b.
    + apply ret_ok in H. destruct H as [-> ->]. now split.
    + exact H.
Qed.

Lemma evaluate_batches_tail stateful indices labels items :
  forall k outs0 (w : world T) outs w',
    k <> 0 ->
    evaluate_batches stateful indices labels k items outs0 w = (Ok outs, w') ->
    exists evs,
      extends w w' evs /\
      length outs = length outs0 /\
      length (test_outputs evs) <= length items /\
      length (reported_sizes evs) = length (test_outputs evs) /\
      Forall (fun o => length o <= length outs0) (test_outputs evs) /\
      forall i,
        (is_in i stateful = true ->
         nth i outs fzero
         = match latest i (test_outputs evs) with
           | Some v => v
           | None => nth i outs0 fzero
           end) /\
        (is_in i stateful = false ->
         nth i outs fzero
         = weighted_sum_from i (nth i outs0 fzero) (reported_sizes evs)
                             (test_outputs evs)).
Proof.
  induction items as [|item rest IH]; intros k outs0 w outs w' Hk H.
  - apply ret_ok in H. destruct H as [-> ->]. exists [].
    split; [apply extends_refl|]. simpl. repeat split; auto.
  - apply evaluate_batches_cons in H.
    destruct H as (size & o & outs1 & w1 & evs1 & X1 & Ho & Hsz & Hu & H).
    unfold init_outs in Hu. rewrite (proj2 (Nat.eqb_neq k 0) Hk) in Hu.
    apply sample_accumulate in Hu. destruct Hu as (Hl1 & Hlo & Hn1).
    assert (Htail : exists evs2,
      extends w1 w' evs2 /\ length outs = length outs1 /\
      length (test_outputs evs2) <= length rest /\
      length (reported_sizes evs2) = length (test_outputs evs2) /\
      Forall (fun o => length o <= length outs1) (test_outputs evs2) /\
      forall i,
        (is_in i stateful = true ->
         nth i outs fzero
         = match latest i (test_outputs evs2) with
           | Some v => v
           | None => nth i outs1 fzero
           end) /\
        (is_in i stateful = false ->
         nth i outs fzero
         = weighted_sum_from i (nth i outs1 fzero) (reported_sizes evs2)
                             (test_outputs evs2))).
    { destruct (stop_evaluating (st w1)).
      - destruct H as [-> ->]. exists [].
        split; [apply extends_refl|]. simpl. repeat split; auto; lia.
      - apply IH in H; [exact H|lia]. }
    destruct Htail as (evs2 & X2 & Hl2 & Hle & Hrs & Hsh & Hn2).
    exists (evs1 ++ evs2). split; [eapply extends_trans; eassumption|].
    rewrite test_outputs_app, reported_sizes_app, Ho, Hsz. cbn [app length].
    split; [congruence|]. split; [lia|]. split; [now rewrite Hrs|]. split.
    { constructor; [lia|]. rewrite Hl1 in Hsh. exact Hsh. }
    intros i. destruct (Hn2 i) as [Hst Hns]. split.
    + intros Hs. rewrite latest_cons_case, (Hst Hs), Hn1, Hs. reflexivity.
    + intros Hs. rewrite weighted_sum_from_cons, (Hns Hs), Hn1, Hs.
      reflexivity.
Qed.

(** Without shuffling the generator needs integers and a batch size that
    is not zero, changes nothing, and has one item per batch. *)
Lemma get_batch_generator_unshuffled ins num_samples batch_size (w : world T)
  items w' :
  get_batch_generator ins num_samples batch_size ShuffleFalse w
  = (Ok items, w') ->
  exists n b,
    num_samples = Some n /\ batch_size = Some b /\ 0 < b /\ w' = w /\
    items = map (batch_ins_of ins) (batch_ids_of (seq 0 n)
              (map (fun i => (i * b, Nat.min n ((i + 1) * b)))
                   (seq 0 (ceil_div n b)))).
Proof.
  unfold get_batch_generator, shuffled_index_array. intros H.
  destruct num_samples as [n|]; [|discriminate].
  destruct batch_size as [b|]; [|discriminate].
  run_monad. destruct b as [|b']; [discriminate|].
  injection H as <- <-. exists n, (S b'). repeat split. lia.
Qed.

(** What [evaluate_loop] does before and after its loop, in sample
    mode. *)
Lemma evaluate_loop_samples_run ins batch_size verbose (w : world T) outs w' :
  evaluate_loop ins batch_size verbose None w = (Ok outs, w') ->
  exists num_samples labels indices w0 evs0 items raw,
    check_num_samples ins batch_size None "steps" = Ok num_samples /\
    extends w w0 evs0 /\ test_outputs evs0 = [] /\ reported_sizes evs0 = [] /\
    get_batch_generator ins num_samples batch_size ShuffleFalse w0
    = (Ok items, w0) /\
    evaluate_batches (stateful_at w) indices labels 0 items [] w0
    = (Ok raw, w') /\
    divide_outs (stateful_at w) raw num_samples = Ok outs.
Proof.
  unfold evaluate_loop, stateful_at. intros H.
  step_run H stateful w1 E1.
  assert (Hpre : exists e1, extends w w1 e1 /\ test_outputs e1 = [] /\
            reported_sizes e1 = [] /\
            stateful
            = if has_metrics
              then stateful_metric_indices
                     (metrics_names (snd (notify ResetStates (st w))))
              else []).
  { destruct has_metrics.
    - step_run E1 u wa Ea. apply tell_ok in Ea. destruct Ea as [Hst Xa].
      step_run E1 names wb Eb. apply read_ok in Eb. destruct Eb as [-> ->].
      apply ret_ok in E1. destruct E1 as [-> ->].
      eexists. split; [exact Xa|]. split; [reflexivity|].
      split; [reflexivity|]. now rewrite Hst.
    - apply ret_ok in E1. destruct E1 as [-> ->].
      exists []. split; [apply extends_refl|]. now repeat split. }
  destruct Hpre as (e1 & X1 & Ht1 & Hr1 & ->).
  step_run H num_samples w2 E2. apply liftR_ok in E2. destruct E2 as [Hn ->].
  step_run H names w3 E3. apply read_ok in E3. destruct E3 as [-> ->].
  step_run H u4 w4 E4. apply tell_ok in E4. destruct E4 as [_ X4].
  step_run H u5 w5 E5. apply tell_ok in E5. destruct E5 as [_ X5].
  step_run H u6 w6 E6. apply tell_ok in E6. destruct E6 as [_ X6].
  step_run H u7 w7 E7. apply write_ok in E7. destruct E7 as [_ X7].
  step_run H u8 w8 E8. apply tell_ok in E8. destruct E8 as [_ X8].
  step_run H items w9 E9.
  destruct (get_batch_generator_unshuffled _ _ _ _ E9)
    as (n & b & _ & _ & _ & -> & _).
  step_run H raw w10 E10. apply liftR_ok in H. destruct H as [H ->].
  eexists num_samples, _, _, w8, _, items, raw.
  split; [exact Hn|]. split.
  - eapply extends_trans; [exact X1|].
    eapply extends_trans; [exact X4|].
    eapply extends_trans; [exact X5|].
    eapply extends_trans; [exact X6|].
    eapply extends_trans; [exact X7|exact X8].
  - rewrite test_outputs_app, reported_sizes_app, Ht1, Hr1.
    split; [reflexivity|]. split; [reflexivity|].
    split; [exact E9|]. split; [exact E10|exact H].
Qed.

(** Sample mode, stopped or not: the outputs that are not stateful are
    the sums of what the batches that ran returned, each times the size
    of its batch, divided by [num_samples]; the stateful ones are the
    latest values. *)
Lemma evaluate_batches_sum ins batch_size verbose n (w : world T) outs w' :
  check_num_samples ins batch_size None "steps" = Ok (Some n) ->
  evaluate_loop ins batch_size verbose None w = (Ok outs, w') ->
  let batch_outs := test_outputs (new_events w w') in
  let sizes := reported_sizes (new_events w w') in
  length sizes = length batch_outs /\
  forall i, i < length outs ->
    if is_in i (stateful_at w)
    then latest i batch_outs = Some (nth i outs fzero)
    else nth i outs fzero
         = fdiv (weighted_sum i sizes batch_outs) (float_of_nat n).
Proof.
  intros Hcheck H. apply evaluate_loop_samples_run in H.
  destruct H as (num_samples & labels & indices & w0 & evs0 & items & raw
                 & Hn & X0 & Ht0 & Hr0 & Hgen & Hloop & Hdiv).
  rewrite Hcheck in Hn. injection Hn as <-.
  apply divide_outs_spec in Hdiv. destruct Hdiv as [Hlen Hdiv].
  destruct items as [|item rest].
  { apply ret_ok in Hloop. destruct Hloop as [-> ->].
    cbv zeta. rewrite (extends_new_events X0), Ht0, Hr0. simpl in *.
    split; [reflexivity|]. intros i Hi. lia. }
  apply evaluate_batches_cons in Hloop.
  destruct Hloop as (size & o & outs1 & w1 & evs1 & X1 & Ho & Hsz & Hu & Hrest).
  apply sample_accumulate in Hu. destruct Hu as (Hl1 & _ & Hn1).
  unfold init_outs in Hl1, Hn1. cbn [Nat.eqb app] in Hl1, Hn1.
  rewrite length_map in Hl1.
  assert (Htail : exists evs2,
    extends w1 w' evs2 /\ length raw = length outs1 /\
    length (reported_sizes evs2) = length (test_outputs evs2) /\
    forall i,
      (is_in i (stateful_at w) = true ->
       nth i raw fzero
       = match latest i (test_outputs evs2) with
         | Some v => v
         | None => nth i outs1 fzero
         end) /\
      (is_in i (stateful_at w) = false ->
       nth i raw fzero
       = weighted_sum_from i (nth i outs1 fzero) (reported_sizes evs2)
                           (test_outputs evs2))).
  { destruct (stop_evaluating (st w1)).
    - destruct Hrest as [-> ->]. exists [].
      split; [apply extends_refl|]. simpl. repeat split; auto.
    - apply evaluate_batches_tail in Hrest; [|lia].
      destruct Hrest as (evs2 & X2 & Hl2 & _ & Hrs & _ & Hn2).
      exists evs2. repeat split; auto; apply Hn2. }
  destruct Htail as (evs2 & X2 & Hl2 & Hrs & Hn2).
  pose proof (extends_trans X0 (extends_trans X1 X2)) as X.
  cbv zeta. rewrite (extends_new_events X).
  rewrite !test_outputs_app, !reported_sizes_app, Ht0, Hr0, Ho, Hsz.
  cbn [app length]. split; [now rewrite Hrs|].
  intros i Hi. specialize (Hdiv i ltac:(lia)).
  destruct (Hn2 i) as [Hst Hns]. specialize (Hn1 i).
  assert (Hio : (i <? length o) = true) by (apply Nat.ltb_lt; lia).
  rewrite Hio in Hn1.
  destruct (is_in i (stateful_at w)) eqn:Es.
  - apply latest_found; [now apply Nat.ltb_lt|].
    rewrite Hdiv, (Hst eq_refl), Hn1. reflexivity.
  - destruct Hdiv as [_ ->]. unfold weighted_sum.
    rewrite weighted_sum_from_cons, Hio, (Hns eq_refl), Hn1, nth_zeros.
    reflexivity.
Qed.


End EvaluateBatches.



(** Four steps declared, two run, each returning 5: the loss is
    10/4 = 5/2, not 10/2. *)
Lemma early_stop_still_divides_by_steps_witness :
  evaluate_loop (C := scripted fives_stopped) (Some [samples 8]) None 0
                (Some 4) fresh_world
  = (Ok (returned fives_stopped_run), snd fives_stopped_run) /\
  length (test_outputs (new_events fresh_world (snd fives_stopped_run))) = 2 /\
  2 < 4 /\
  nth 0 (returned fives_stopped_run) fzero
  = fdiv (float_of_nat 5) (float_of_nat 2) /\
  stop_evaluating (st (snd fives_stopped_run)) = true /\
  forall i, i < length (returned fives_stopped_run) ->
    is_in i (stateful_at (C := scripted fives_stopped) fresh_world) = false ->
    nth i (returned fives_stopped_run) fzero
    = fdiv (plain_sum i (test_outputs
                           (new_events fresh_world (snd fives_stopped_run))))
           (float_of_nat 4).
Proof.
  split; [reflexivity|]. split; [reflexivity|]. split; [lia|].
  split; [reflexivity|].
  exact (@early_stop_still_divides_by_steps nat (scripted fives_stopped)
           (Some [samples 8]) None 0 4 2 fresh_world
           (returned fives_stopped_run) (snd fives_stopped_run)
           eq_refl eq_refl ltac:(lia)).
Defined.

(** The sums are binary64 sums.  Two batches of 3 samples whose metric
    is 0.1 and 0.2: the loss is what the products, the additions and the
    division round to, 0.15000000000000002, which is not the binary64
    number nearest to 15/100. *)
Example weighted_average_is_rounded :
  evaluate_loop (C := scripted tenths) (Some [samples 6]) (Some 3) 0 None
                fresh_world
  = (Ok (returned tenths_run), snd tenths_run) /\
  returned tenths_run
  = [fdiv (fadd (fadd fzero (fmul tenth (float_of_nat 3)))
                (fmul two_tenths (float_of_nat 3)))
          (float_of_nat 6)] /\
  PrimFloat.eqb (nth 0 (returned tenths_run) fzero)
                (fdiv (float_of_nat 15) (float_of_nat 100)) = false.
Proof.
  split; [reflexivity|]. split; vm_compute; reflexivity.
Qed.

(** And they overflow: two steps returning [1e308] give an infinity. *)
Example average_overflows :
  evaluate_loop (C := scripted huge) (Some [samples 8]) None 0 (Some 2)
                fresh_world
  = (Ok (returned huge_run), snd huge_run) /\
  returned huge_run = [PrimFloat.infinity] /\
  returned huge_run
  = [fdiv (plain_sum 0 [[ten_to_308]; [ten_to_308]]) (float_of_nat 2)].
Proof.
  split; [reflexivity|]. split; reflexivity.
Qed.

(** A number of steps too large for a float: the division raises. *)
Example division_by_huge_steps_raises :
  divide_outs [] [fzero] (Some (Z.to_nat (10 ^ 400))) = Raise OverflowError.
Proof.
  unfold divide_outs, divide_one. cbn [length seq combine mapR fst snd is_in existsb].
  destruct (Z.to_nat (10 ^ 400)) eqn:E.
  - apply (f_equal Z.of_nat) in E. rewrite Z2Nat.id in E by (vm_compute; discriminate).
    vm_compute in E. discriminate E.
  - rewrite <- E. unfold float_of_int, float_of_nat.
    rewrite Z2Nat.id by (vm_compute; discriminate). reflexivity.
Qed.

(** ** The validation check of [fit_loop] *)

Lemma has_shape_shape0 (x : pyval) :
  has_shape x = true -> exists n, shape0_of x = Ok n.
Proof.
  destruct x as [q|a|[n|] g]; simpl; intros H; try discriminate; eauto.
Qed.

Section ValidationCheck.

Context {T : Type} {C : Collaborators T}.

Lemma print_train_on_run verbose ins val_ins (w : world T) :
  print_train_on verbose ins val_ins w
  = (Ok tt, mkWorld (st w) (trace w ++ train_on_message verbose ins val_ins)).
Proof.
  assert (Hnil : (Ok tt, w) = (Ok tt, mkWorld (st w) (trace w ++ [])))
    by (rewrite app_nil_r; now destruct w).
  unfold print_train_on, train_on_message.
  destruct ins as [[|x xs]|]; try exact Hnil.
  destruct val_ins as [[|v vs]|]; try exact Hnil.
  destruct (0 <? verbose); simpl; try exact Hnil.
  destruct (has_shape x) eqn:Hx; simpl; try exact Hnil.
  destruct (has_shape v) eqn:Hv; simpl; try exact Hnil.
  destruct (has_shape_shape0 x Hx) as [n ->].
  destruct (has_shape_shape0 v Hv) as [m ->].
  reflexivity.
Qed.

(** C4, as the code has it.  A call with a validation step count that is
    not zero and no [steps_per_epoch], or with validation data, no
    validation step count (or zero) and a [steps_per_epoch] that is not
    zero, raises a [ValueError]; the store is as it was, and nothing
    happened before but, with [verbose] and validation data, the printing
    of the message with the sample counts. *)
Theorem fit_validation_check_fails_fast ins batch_size epochs verbose val_ins
  shuffle initial_epoch steps_per_epoch validation_steps (w : world T) :
  rejected_validation_setup val_ins steps_per_epoch validation_steps ->
  exists msg w',
    fit_loop ins batch_size epochs verbose val_ins shuffle initial_epoch
             steps_per_epoch validation_steps w
    = (Raise (ValueError msg), w') /\
    st w' = st w /\
    new_events w w'
    = (if truthy_bundle val_ins then train_on_message verbose ins val_ins
       else []) /\
    (verbose = 0 -> w' = w).
Proof.
  intros Hrej. unfold fit_loop, check_validation, bind at 1 2.
  assert (Hnew : forall evs,
            new_events w (mkWorld (st w) (trace w ++ evs)) = evs).
  { intros evs. now apply extends_new_events. }
  assert (Hquiet : forall i v, verbose = 0 -> train_on_message verbose i v = [])
    by (intros i v ->; unfold train_on_message; simpl;
        destruct i as [[|? ?]|]; auto; destruct v as [[|? ?]|]; auto).
  destruct (truthy_bundle val_ins) eqn:Hval.
  - unfold bind at 1. rewrite print_train_on_run. unfold ret at 1.
    set (w1 := mkWorld (st w) (trace w ++ train_on_message verbose ins val_ins)).
    assert (Hw1 : verbose = 0 -> w1 = w).
    { intros Hv. subst w1. rewrite (Hquiet _ _ Hv), app_nil_r.
      now destruct w. }
    destruct Hrej as [[Hv Hs]|(Hv & _ & Hs)]; rewrite Hv.
    + subst steps_per_epoch. exists validation_steps_error, w1.
      repeat split; auto. apply Hnew.
    + rewrite Hs. exists steps_per_epoch_error, w1.
      repeat split; auto. apply Hnew.
  - unfold ret at 1.
    destruct Hrej as [[Hv Hs]|(_ & Hb & _)]; [|congruence].
    rewrite Hv. subst steps_per_epoch. exists validation_steps_error, w.
    repeat split; auto. unfold new_events. apply skipn_all.
Qed.

End ValidationCheck.

Lemma fit_validation_check_fails_fast_witness :
  rejected_validation_setup (Some [samples 2]) None (Some 3) /\
  exists msg w',
    fit_loop (C := scripted quiet) (Some [samples 4]) (Some 2) 1 1
             (Some [samples 2]) ShuffleFalse 0 None (Some 3) fresh_world
    = (Raise (ValueError msg), w') /\
    st w' = st fresh_world /\
    new_events fresh_world w'
    = (if truthy_bundle (Some [samples 2])
       then train_on_message 1 (Some [samples 4]) (Some [samples 2])
       else []) /\
    (1 = 0 -> w' = fresh_world).
Proof.
  assert (H : rejected_validation_setup (Some [samples 2]) None (Some 3))
    by (left; split; reflexivity).
  split; [exact H|].
  exact (@fit_validation_check_fails_fast nat (scripted quiet)
           (Some [samples 4]) (Some 2) 1 1 (Some [samples 2]) ShuffleFalse 0
           None (Some 3) fresh_world H).
Defined.

(** The claim as the spec states it fails: the default [verbose] call
    with validation data and [validation_steps] without
    [steps_per_epoch] prints before it raises. *)
Lemma fit_validation_check_counterexample :
  ~ (forall (T : Type) (C : Collaborators T) ins batch_size epochs verbose
            val_ins shuffle initial_epoch steps_per_epoch validation_steps
            (w : world T),
        invalid_validation_setup val_ins steps_per_epoch validation_steps ->
        exists msg,
          fit_loop ins batch_size epochs verbose val_ins shuffle initial_epoch
                   steps_per_epoch validation_steps w
          = (Raise (ValueError msg), w)).
Proof.
  intros H.
  destruct (H nat (scripted quiet) (Some [samples 4]) (Some 2) 1 1
              (Some [samples 2]) ShuffleFalse 0 None (Some 3) fresh_world)
    as [msg Hrun].
  - left. split; [discriminate|reflexivity].
  - vm_compute in Hrun. discriminate Hrun.
Qed.

(** ** Traces and automata *)

Lemma run_steps_app {Q} (step : Q -> event -> option Q) q e1 e2 :
  run_steps step q (e1 ++ e2)
  = match run_steps step q e1 with
    | Some q1 => run_steps step q1 e2
    | None => None
    end.
Proof.
  revert q. induction e1 as [|e t IH]; intros q; simpl; auto.
  destruct (step q e); auto.
Qed.

Section Moves.

Context {T : Type} {Q : Type} (step : Q -> event -> option Q).

Lemma moves_ret {A} q (a : A) (post : A -> Q -> Prop) :
  post a q -> moves (T := T) step q (ret a) post.
Proof.
  intros Hp w r w' H. injection H as <- <-. exists [], q.
  split; [apply extends_refl|]. split; [reflexivity|].
  intros a' Ha. now injection Ha as <-.
Qed.

Lemma moves_bind {A B} q (m : M T A) (k : A -> M T B) post1 post2 :
  moves step q m post1 ->
  (forall a q1, post1 a q1 -> moves step q1 (k a) post2) ->
  moves step q (bind m k) post2.
Proof.
  intros Hm Hk w r w' H. unfold bind in H.
  destruct (m w) as [[a|e] w1] eqn:E.
  - destruct (Hm _ _ _ E) as (e1 & q1 & X1 & R1 & P1).
    destruct (Hk a q1 (P1 a eq_refl) _ _ _ H) as (e2 & q2 & X2 & R2 & P2).
    exists (e1 ++ e2), q2. split; [eapply extends_trans; eassumption|].
    split; [now rewrite run_steps_app, R1|exact P2].
  - injection H as <- <-.
    destruct (Hm _ _ _ E) as (e1 & q1 & X1 & R1 & _).
    exists e1, q1. split; [exact X1|]. split; [exact R1|]. discriminate.
Qed.

Lemma moves_weaken {A} q (m : M T A) (post post' : A -> Q -> Prop) :
  moves step q m post -> (forall a q', post a q' -> post' a q') ->
  moves step q m post'.
Proof.
  intros Hm Hw w r w' H. destruct (Hm _ _ _ H) as (evs & q' & X & R & P).
  exists evs, q'. repeat split; auto.
Qed.

(** A computation that adds no event leaves the automaton where it is. *)
Lemma moves_silent {A} q (m : M T A) :
  (forall w r w', m w = (r, w') -> trace w' = trace w) ->
  moves step q m (fun _ q' => q' = q).
Proof.
  intros Hs w r w' H. exists [], q. split.
  - unfold extends. rewrite (Hs _ _ _ H). now rewrite app_nil_r.
  - now split.
Qed.

(** A computation that adds one event, whatever it returns. *)
Lemma moves_one {A} q q' (m : M T A) (e : A -> event) :
  (forall w r w', m w = (r, w') ->
     exists x, trace w' = trace w ++ [x] /\
               step q x = Some q' /\ forall a, r = Ok a -> x = e a) ->
  moves step q m (fun _ p => p = q').
Proof.
  intros Hs w r w' H. destruct (Hs _ _ _ H) as (x & Hx & Hq & _).
  exists [x], q'. split; [exact Hx|]. simpl. rewrite Hq. now split.
Qed.

End Moves.

Section Primitives.

Context {T : Type} {C : Collaborators T} {Q : Type}
        (step : Q -> event -> option Q).

Lemma moves_liftR {A} q (r : result A) :
  moves (T := T) step q (liftR r) (fun _ q' => q' = q).
Proof. apply moves_silent. intros w r' w' H. now injection H as _ <-. Qed.

Lemma moves_read {A} q (f : store T -> A) :
  moves step q (read f) (fun _ q' => q' = q).
Proof. apply moves_silent. intros w r' w' H. now injection H as _ <-. Qed.

Lemma moves_write q (f : store T -> store T) :
  moves step q (write f) (fun _ q' => q' = q).
Proof. apply moves_silent. intros w r' w' H. now injection H as _ <-. Qed.

Lemma moves_as_int q (x : option nat) :
  moves (T := T) step q (as_int x) (fun _ q' => q' = q).
Proof.
  apply moves_silent. intros w r' w' H.
  destruct x; now injection H as _ <-.
Qed.

Lemma moves_random_shuffle {A} q (l : list A) :
  moves step q (random_shuffle l) (fun _ q' => q' = q).
Proof.
  apply moves_silent. intros w r' w'. unfold random_shuffle.
  destruct (np_random_shuffle l (ext (st w))). intros H.
  now injection H as _ <-.
Qed.

Lemma moves_tell q q' n :
  step q (EvNotify n) = Some q' ->
  moves step q (tell n) (fun _ p => p = q').
Proof.
  intros Hq w r w'. unfold tell. destruct (notify n (st w)) as [r0 s].
  intros H. injection H as <- <-. exists [EvNotify n], q'.
  split; [reflexivity|]. simpl. rewrite Hq. now split.
Qed.

Lemma moves_call_train q ins :
  (forall r, step q (EvTrain ins r) = Some q) ->
  moves step q (call_train ins) (fun _ p => p = q).
Proof.
  intros Hq w r w'. unfold call_train.
  destruct (train_function ins (st w)) as [r0 s].
  intros H. injection H as <- <-. exists [EvTrain ins r0], q.
  split; [reflexivity|]. simpl. rewrite Hq. now split.
Qed.

Lemma moves_call_test q ins :
  (forall r, step q (EvTest ins r) = Some q) ->
  moves step q (call_test ins) (fun _ p => p = q).
Proof.
  intros Hq w r w'. unfold call_test.
  destruct (test_function ins (st w)) as [r0 s].
  intros H. injection H as <- <-. exists [EvTest ins r0], q.
  split; [reflexivity|]. simpl. rewrite Hq. now split.
Qed.

Lemma moves_emit q q' e :
  step q e = Some q' -> moves (T := T) step q (emit e) (fun _ p => p = q').
Proof.
  intros Hq w r w' H. injection H as <- <-. exists [e], q'.
  split; [reflexivity|]. simpl. rewrite Hq. now split.
Qed.

(** Reading a stop flag: the state reached is the one the value read
    leads to. *)
Lemma moves_poll q site (f : store T -> bool) (next : bool -> Q) :
  (forall b, step q (EvPoll site b) = Some (next b)) ->
  moves step q (poll site f) (fun b p => p = next b).
Proof.
  intros Hq w r w' H. injection H as <- <-.
  exists [EvPoll site (f (st w))], (next (f (st w))).
  split; [reflexivity|]. simpl. rewrite Hq. split; [reflexivity|].
  intros a Ha. now injection Ha as <-.
Qed.

(** The generator adds no event. *)
Lemma moves_get_batch_generator q ins num_samples batch_size shuffle :
  moves step q (get_batch_generator ins num_samples batch_size shuffle)
        (fun _ p => p = q).
Proof.
  unfold get_batch_generator, shuffled_index_array.
  apply moves_bind with (post1 := fun _ p => p = q).
  - eapply moves_bind; [apply moves_as_int|]. intros n ? ->.
    destruct shuffle.
    + now apply moves_ret.
    + apply moves_random_shuffle.
    + eapply moves_bind; [apply moves_as_int|]. intros b ? ->.
      unfold batch_shuffle. destruct b.
      * apply moves_silent. intros w r w' H. now injection H as _ <-.
      * eapply moves_bind; [apply moves_random_shuffle|]. intros l ? ->.
        now apply moves_ret.
  - intros index_array ? ->.
    eapply moves_bind; [apply moves_as_int|]. intros n ? ->.
    eapply moves_bind; [apply moves_as_int|]. intros b ? ->.
    eapply moves_bind; [apply moves_liftR|]. intros batches ? ->.
    now apply moves_ret.
Qed.

End Primitives.

(** Runs the first computation of a sequence in a state it keeps. *)
Ltac keep q tac :=
  apply moves_bind with (post1 := fun _ reached => reached = q);
  [tac | let x := fresh "x" in let s := fresh "s" in let E := fresh "E" in
         intros x s E; subst s].

Section ValidationPass.

Context {T : Type} {C : Collaborators T} {Q : Type}
        (step : Q -> event -> option Q) (q : Q).

Hypothesis validation_keeps :
  forall e, validation_event e = true -> step q e = Some q.

Lemma moves_evaluate_steps stateful ins labels steps_left :
  forall outs,
    moves step q (evaluate_steps stateful ins labels steps_left outs)
          (fun _ p => p = q).
Proof.
  induction steps_left as [|s rest IH]; intros outs; simpl.
  - now apply moves_ret.
  - keep q ltac:(apply moves_tell; now apply validation_keeps).
    keep q ltac:(apply moves_call_test; intros; now apply validation_keeps).
    keep q ltac:(apply moves_tell; now apply validation_keeps).
    keep q ltac:(apply moves_liftR).
    keep q ltac:(apply moves_poll with (next := fun _ => q);
                 intros; now apply validation_keeps).
    match goal with |- context [if ?b then _ else _] => destruct b end.
    + now apply moves_ret.
    + apply IH.
Qed.

Lemma moves_evaluate_batches stateful indices labels items :
  forall k outs,
    moves step q (evaluate_batches stateful indices labels k items outs)
          (fun _ p => p = q).
Proof.
  induction items as [|item rest IH]; intros k outs; simpl.
  - now apply moves_ret.
  - keep q ltac:(apply moves_liftR).
    keep q ltac:(apply moves_liftR).
    keep q ltac:(apply moves_tell; now apply validation_keeps).
    keep q ltac:(apply moves_liftR).
    keep q ltac:(apply moves_call_test; intros; now apply validation_keeps).
    keep q ltac:(apply moves_tell; now apply validation_keeps).
    keep q ltac:(apply moves_liftR).
    keep q ltac:(apply moves_poll with (next := fun _ => q);
                 intros; now apply validation_keeps).
    match goal with |- context [if ?b then _ else _] => destruct b end.
    + now apply moves_ret.
    + apply IH.
Qed.

(** All [evaluate_loop] does is validation events. *)
Lemma moves_evaluate_loop ins batch_size verbose steps :
  moves step q (evaluate_loop ins batch_size verbose steps) (fun _ p => p = q).
Proof.
  unfold evaluate_loop.
  keep q ltac:(idtac).
  { destruct has_metrics.
    - keep q ltac:(apply moves_tell; now apply validation_keeps).
      keep q ltac:(apply moves_read).
      now apply moves_ret.
    - now apply moves_ret. }
  keep q ltac:(apply moves_liftR).
  keep q ltac:(apply moves_read).
  keep q ltac:(apply moves_tell; now apply validation_keeps).
  keep q ltac:(apply moves_tell; now apply validation_keeps).
  keep q ltac:(apply moves_tell; now apply validation_keeps).
  keep q ltac:(apply moves_write).
  keep q ltac:(apply moves_tell; now apply validation_keeps).
  destruct steps as [steps|].
  - keep q ltac:(apply moves_evaluate_steps).
    apply moves_liftR.
  - keep q ltac:(apply moves_get_batch_generator).
    keep q ltac:(apply moves_evaluate_batches).
    apply moves_liftR.
Qed.

End ValidationPass.

(** ** The stop flag in [fit_loop] *)

Section MovesWith.

Context {T : Type} {C : Collaborators T} {Q : Type}
        (step : Q -> event -> option Q) (inv : Q -> bool -> Prop).

Lemma with_ret {A} q (a : A) (post : A -> Q -> Prop) :
  post a q -> moves_with (T := T) step inv q (ret a) post.
Proof.
  intros Hp w r w' Hi H. injection H as <- <-. exists [], q.
  split; [apply extends_refl|]. split; [reflexivity|]. split; [exact Hi|].
  intros a' Ha. now injection Ha as <-.
Qed.

Lemma with_raise {A} q (e : exn) (post : A -> Q -> Prop) :
  moves_with (T := T) step inv q (raise e) post.
Proof.
  intros w r w' Hi H. injection H as <- <-. exists [], q.
  split; [apply extends_refl|]. split; [reflexivity|]. split; [exact Hi|].
  discriminate.
Qed.

Lemma with_bind {A B} q (m : M T A) (k : A -> M T B) post1 post2 :
  moves_with step inv q m post1 ->
  (forall a q1, post1 a q1 -> moves_with step inv q1 (k a) post2) ->
  moves_with step inv q (bind m k) post2.
Proof.
  intros Hm Hk w r w' Hi H. unfold bind in H.
  destruct (m w) as [[a|e] w1] eqn:E.
  - destruct (Hm _ _ _ Hi E) as (e1 & q1 & X1 & R1 & I1 & P1).
    destruct (Hk a q1 (P1 a eq_refl) _ _ _ I1 H)
      as (e2 & q2 & X2 & R2 & I2 & P2).
    exists (e1 ++ e2), q2. split; [eapply extends_trans; eassumption|].
    split; [now rewrite run_steps_app, R1|]. now split.
  - injection H as <- <-.
    destruct (Hm _ _ _ Hi E) as (e1 & q1 & X1 & R1 & I1 & _).
    exists e1, q1. split; [exact X1|]. split; [exact R1|].
    split; [exact I1|]. discriminate.
Qed.

Lemma with_weaken {A} q (m : M T A) (post post' : A -> Q -> Prop) :
  moves_with step inv q m post -> (forall a q', post a q' -> post' a q') ->
  moves_with step inv q m post'.
Proof.
  intros Hm Hw w r w' Hi H.
  destruct (Hm _ _ _ Hi H) as (evs & q' & X & R & I & P).
  exists evs, q'. repeat split; auto.
Qed.

(** A computation that adds no event and leaves [stop_training] as it
    is. *)
Lemma with_quiet {A} q (m : M T A) :
  (forall w r w', m w = (r, w') ->
     trace w' = trace w /\
     stop_training (st w') = stop_training (st w)) ->
  moves_with step inv q m (fun _ q' => q' = q).
Proof.
  intros Hs w r w' Hi H. destruct (Hs _ _ _ H) as [Ht Hf].
  exists [], q. split.
  - unfold extends. rewrite Ht. now rewrite app_nil_r.
  - split; [reflexivity|]. split; [now rewrite Hf|]. reflexivity.
Qed.

Lemma with_liftR {A} q (r : result A) :
  moves_with (T := T) step inv q (liftR r) (fun _ p => p = q).
Proof.
  apply with_quiet. intros w r' w' H. now injection H as _ <-.
Qed.

Lemma with_read {A} q (f : store T -> A) :
  moves_with step inv q (read f) (fun _ p => p = q).
Proof.
  apply with_quiet. intros w r' w' H. now injection H as _ <-.
Qed.

Lemma with_as_int q (x : option nat) :
  moves_with (T := T) step inv q (as_int x) (fun _ p => p = q).
Proof.
  apply with_quiet. intros w r' w' H.
  destruct x; now injection H as _ <-.
Qed.

Lemma with_random_shuffle {A} q (l : list A) :
  moves_with step inv q (random_shuffle l) (fun _ p => p = q).
Proof.
  apply with_quiet. intros w r' w'. unfold random_shuffle.
  destruct (np_random_shuffle l (ext (st w))). intros H.
  now injection H as _ <-.
Qed.

(** A write that leaves [stop_training] as it is. *)
Lemma with_write q (f : store T -> store T) :
  (forall s, stop_training (f s) = stop_training s) ->
  moves_with step inv q (write f) (fun _ p => p = q).
Proof.
  intros Hf. apply with_quiet. intros w r' w' H.
  injection H as _ <-. simpl. now split.
Qed.

(** [callback_model.stop_training = False] *)
Lemma with_clear_flag q :
  inv q false ->
  moves_with (T := T) step inv q (write (set_stop_training false))
             (fun _ p => p = q).
Proof.
  intros Hq w r w' Hi H. injection H as <- <-. exists [], q.
  split; [unfold extends; simpl; now rewrite app_nil_r|].
  split; [reflexivity|]. split; [exact Hq|reflexivity].
Qed.

Lemma with_tell q q' n :
  step q (EvNotify n) = Some q' ->
  (forall s, inv q (stop_training s) ->
             inv q' (stop_training (snd (notify n s)))) ->
  moves_with step inv q (tell n) (fun _ p => p = q').
Proof.
  intros Hq Hn w r w' Hi. unfold tell.
  pose proof (Hn (st w) Hi) as Hi'.
  destruct (notify n (st w)) as [r0 s].
  intros H. injection H as <- <-. exists [EvNotify n], q'.
  split; [reflexivity|]. simpl. rewrite Hq. now repeat split.
Qed.

Lemma with_call_train q q' ins :
  (forall r, step q (EvTrain ins r) = Some q') ->
  (forall s, inv q (stop_training s) ->
             inv q' (stop_training (snd (train_function ins s)))) ->
  moves_with step inv q (call_train ins) (fun _ p => p = q').
Proof.
  intros Hq Hn w r w' Hi. unfold call_train.
  pose proof (Hn (st w) Hi) as Hi'.
  destruct (train_function ins (st w)) as [r0 s].
  intros H. injection H as <- <-. exists [EvTrain ins r0], q'.
  split; [reflexivity|]. simpl. rewrite Hq. now repeat split.
Qed.

Lemma with_call_test q q' ins :
  (forall r, step q (EvTest ins r) = Some q') ->
  (forall s, inv q (stop_training s) ->
             inv q' (stop_training (snd (test_function ins s)))) ->
  moves_with step inv q (call_test ins) (fun _ p => p = q').
Proof.
  intros Hq Hn w r w' Hi. unfold call_test.
  pose proof (Hn (st w) Hi) as Hi'.
  destruct (test_function ins (st w)) as [r0 s].
  intros H. injection H as <- <-. exists [EvTest ins r0], q'.
  split; [reflexivity|]. simpl. rewrite Hq. now repeat split.
Qed.

(** Reading a stop flag: what is read depends on the store, which the
    invariant speaks of. *)
Lemma with_poll q site (f : store T -> bool) (post : bool -> Q -> Prop) :
  (forall s, inv q (stop_training s) ->
     exists q', step q (EvPoll site (f s)) = Some q' /\
                inv q' (stop_training s) /\ post (f s) q') ->
  moves_with step inv q (poll site f) post.
Proof.
  intros Hq w r w' Hi H. injection H as <- <-.
  destruct (Hq (st w) Hi) as (q' & Hs & Hi' & Hp).
  exists [EvPoll site (f (st w))], q'.
  split; [reflexivity|]. simpl. rewrite Hs. split; [reflexivity|].
  split; [exact Hi'|]. intros a Ha. now injection Ha as <-.
Qed.

(** The generator adds no event and draws random numbers at most. *)
Lemma with_get_batch_generator q ins num_samples batch_size shuffle :
  moves_with step inv q
             (get_batch_generator ins num_samples batch_size shuffle)
             (fun _ p => p = q).
Proof.
  unfold get_batch_generator, shuffled_index_array.
  apply with_bind with (post1 := fun _ p => p = q).
  - eapply with_bind; [apply with_as_int|]. intros n ? ->.
    destruct shuffle.
    + now apply with_ret.
    + apply with_random_shuffle.
    + eapply with_bind; [apply with_as_int|]. intros b ? ->.
      unfold batch_shuffle. destruct b.
      * apply with_raise.
      * eapply with_bind; [apply with_random_shuffle|]. intros l ? ->.
        now apply with_ret.
  - intros index_array ? ->.
    eapply with_bind; [apply with_as_int|]. intros n ? ->.
    eapply with_bind; [apply with_as_int|]. intros b ? ->.
    eapply with_bind; [apply with_liftR|]. intros batches ? ->.
    now apply with_ret.
Qed.

End MovesWith.

(** Runs the first computation of a sequence in a state it keeps. *)
Ltac hold q tac :=
  apply with_bind with (post1 := fun _ reached => reached = q);
  [tac | let x := fresh "x" in let s := fresh "s" in let E := fresh "E" in
         intros x s E; subst s].

Section ValidationPassWith.

Context {T : Type} {C : Collaborators T} {Q : Type}
        (step : Q -> event -> option Q) (inv : Q -> bool -> Prop) (q : Q).

Hypothesis validation_keeps :
  forall e, validation_event e = true -> step q e = Some q.

Hypothesis notify_keeps :
  forall n s, inv q (stop_training s) ->
              inv q (stop_training (snd (notify n s))).

Hypothesis test_keeps :
  forall ins s, inv q (stop_training s) ->
                inv q (stop_training (snd (test_function ins s))).

Lemma with_evaluate_steps stateful ins labels steps_left :
  forall outs,
    moves_with step inv q (evaluate_steps stateful ins labels steps_left outs)
               (fun _ p => p = q).
Proof.
  induction steps_left as [|s rest IH]; intros outs; simpl.
  - now apply with_ret.
  - hold q ltac:(apply with_tell;
                 [now apply validation_keeps|apply notify_keeps]).
    hold q ltac:(apply with_call_test;
                 [intros; now apply validation_keeps|apply test_keeps]).
    hold q ltac:(apply with_tell;
                 [now apply validation_keeps|apply notify_keeps]).
    hold q ltac:(apply with_liftR).
    hold q ltac:(apply with_poll; intros s0 Hs0; exists q;
                 split; [now apply validation_keeps|now split]).
    match goal with |- context [if ?b then _ else _] => destruct b end.
    + now apply with_ret.
    + apply IH.
Qed.

Lemma with_evaluate_batches stateful indices labels items :
  forall k outs,
    moves_with step inv q
               (evaluate_batches stateful indices labels k items outs)
               (fun _ p => p = q).
Proof.
  induction items as [|item rest IH]; intros k outs; simpl.
  - now apply with_ret.
  - hold q ltac:(apply with_liftR).
    hold q ltac:(apply with_liftR).
    hold q ltac:(apply with_tell;
                 [now apply validation_keeps|apply notify_keeps]).
    hold q ltac:(apply with_liftR).
    hold q ltac:(apply with_call_test;
                 [intros; now apply validation_keeps|apply test_keeps]).
    hold q ltac:(apply with_tell;
                 [now apply validation_keeps|apply notify_keeps]).
    hold q ltac:(apply with_liftR).
    hold q ltac:(apply with_poll; intros s0 Hs0; exists q;
                 split; [now apply validation_keeps|now split]).
    match goal with |- context [if ?b then _ else _] => destruct b end.
    + now apply with_ret.
    + apply IH.
Qed.

(** All [evaluate_loop] does is validation events, and it writes
    [stop_evaluating] only. *)
Lemma with_evaluate_loop ins batch_size verbose steps :
  moves_with step inv q (evaluate_loop ins batch_size verbose steps)
             (fun _ p => p = q).
Proof.
  unfold evaluate_loop.
  hold q ltac:(idtac).
  { destruct has_metrics.
    - hold q ltac:(apply with_tell;
                   [now apply validation_keeps|apply notify_keeps]).
      hold q ltac:(apply with_read).
      now apply with_ret.
    - now apply with_ret. }
  hold q ltac:(apply with_liftR).
  hold q ltac:(apply with_read).
  hold q ltac:(apply with_tell;
               [now apply validation_keeps|apply notify_keeps]).
  hold q ltac:(apply with_tell;
               [now apply validation_keeps|apply notify_keeps]).
  hold q ltac:(apply with_tell;
               [now apply validation_keeps|apply notify_keeps]).
  hold q ltac:(apply with_write; reflexivity).
  hold q ltac:(apply with_tell;
               [now apply validation_keeps|apply notify_keeps]).
  destruct steps as [steps|].
  - hold q ltac:(apply with_evaluate_steps).
    apply with_liftR.
  - hold q ltac:(apply with_get_batch_generator).
    hold q ltac:(apply with_evaluate_batches).
    apply with_liftR.
Qed.

End ValidationPassWith.

Lemma running_step kept sets e :
  exists p, stop_step kept sets Running e = Some p /\
            (p = Running \/ p = FlagSet).
Proof.
  destruct e as [|n| | | |]; simpl; eauto.
  destruct n; simpl; eauto. destruct (sets index logs); eauto.
Qed.

Lemma running_validation kept sets e :
  validation_event e = true -> stop_step kept sets Running e = Some Running.
Proof.
  destruct e as [|n| | | |site b]; simpl; auto.
  destruct n; simpl; auto; discriminate.
Qed.

Lemma halted_validation kept sets e :
  validation_event e = true ->
  stop_step kept sets BatchesHalted e = Some BatchesHalted.
Proof.
  intros H. unfold stop_step. rewrite H.
  destruct e as [|n| | | |]; auto. destruct n; auto; discriminate.
Qed.

Section FitStops.

Context {T : Type} {C : Collaborators T}.

Variable kept : bool.
Variable sets : nat -> dict -> bool.

Hypothesis observer_sets : sets_flag sets.
Hypothesis nothing_clears : kept = true -> flag_kept C.

(** The end of a batch of the training: the notification, then the
    reading of the flag, which finds it set when the notification set
    it. *)
Lemma with_batch_end index logs (rest : M T unit) :
  moves_with (stop_step kept sets) (flag_in kept) Running rest (fun _ p => batches_done p) ->
  moves_with (stop_step kept sets) (flag_in kept) Running
    (tell (OnFitBatchEnd index logs) ;;
     stop <- poll AfterFitBatch (@stop_training T) ;;
     if stop then ret tt else rest)
    (fun _ p => batches_done p).
Proof.
  intros Hrest.
  apply with_bind
    with (post1 := fun (_ : unit) p =>
                     p = if sets index logs then FlagSet else Running).
  { apply with_tell; [reflexivity|]. intros s _.
    destruct (sets index logs) eqn:E; [|exact I].
    now apply observer_sets. }
  intros u p ->. destruct (sets index logs).
  - apply with_bind
      with (post1 := fun (b : bool) p => b = true /\ p = BatchesHalted).
    + apply with_poll. intros s Hs. simpl in Hs. exists BatchesHalted.
      rewrite Hs. split; [reflexivity|].
      split; [intros _; reflexivity|now split].
    + intros b p [-> ->]. apply with_ret. now right.
  - apply with_bind with (post1 := fun (_ : bool) p => p = Running).
    + apply with_poll. intros s _. exists Running. now repeat split.
    + intros [|] p ->.
      * apply with_ret. now left.
      * exact Hrest.
Qed.

Lemma with_fit_steps ins labels steps_left :
  moves_with (stop_step kept sets) (flag_in kept) Running (fit_steps ins labels steps_left)
             (fun _ p => batches_done p).
Proof.
  induction steps_left as [|s rest IH]; simpl.
  - apply with_ret. now left.
  - hold Running ltac:(apply with_tell; [reflexivity|intros; exact I]).
    hold Running ltac:(apply with_call_train;
                       [reflexivity|intros; exact I]).
    now apply with_batch_end.
Qed.

Lemma with_fit_batches indices labels items :
  forall k,
    moves_with (stop_step kept sets) (flag_in kept) Running (fit_batches indices labels k items)
               (fun _ p => batches_done p).
Proof.
  induction items as [|item rest IH]; intros k; simpl.
  - apply with_ret. now left.
  - hold Running ltac:(apply with_liftR).
    hold Running ltac:(apply with_liftR).
    hold Running ltac:(apply with_tell; [reflexivity|intros; exact I]).
    hold Running ltac:(apply with_liftR).
    hold Running ltac:(apply with_call_train;
                       [reflexivity|intros; exact I]).
    apply with_batch_end. apply IH.
Qed.

(** The validation pass changes nothing to where the training stands. *)
Lemma with_validation (p : phase) (do_validation : bool) val_ins batch_size
  steps labels (epoch_logs : dict) :
  batches_done p ->
  moves_with (stop_step kept sets) (flag_in kept) p
        (if do_validation then
           val_outs <- evaluate_loop val_ins batch_size 0 steps ;;
           ret (log_outputs "val_" labels val_outs epoch_logs)
         else ret epoch_logs)
        (fun _ p' => p' = p).
Proof.
  intros Hp. destruct do_validation; [|now apply with_ret].
  hold p ltac:(idtac).
  - apply with_evaluate_loop.
    + destruct Hp as [-> | ->];
        [apply running_validation|apply halted_validation].
    + destruct Hp as [-> | ->]; simpl; auto.
      intros n s Hs Hk. apply (proj1 (nothing_clears Hk)). now apply Hs.
    + destruct Hp as [-> | ->]; simpl; auto.
      intros ins s Hs Hk. apply (proj2 (nothing_clears Hk)). now apply Hs.
  - now apply with_ret.
Qed.

Lemma with_fit_epoch_body ins val_ins batch_size shuffle steps_per_epoch
  validation_steps do_validation num_train_samples labels indices :
  moves_with (stop_step kept sets) (flag_in kept) Running
        (fit_epoch_body ins val_ins batch_size shuffle steps_per_epoch
                        validation_steps do_validation num_train_samples
                        labels indices)
        (fun _ p => batches_done p).
Proof.
  unfold fit_epoch_body. destruct steps_per_epoch as [steps|].
  - eapply with_bind; [apply with_fit_steps|].
    intros u p Hp. eapply with_weaken; [now apply with_validation|].
    intros _ ? ->. exact Hp.
  - hold Running ltac:(apply with_get_batch_generator).
    eapply with_bind; [apply with_fit_batches|].
    intros u p Hp. eapply with_weaken; [now apply with_validation|].
    intros _ ? ->. exact Hp.
Qed.

Lemma with_fit_epochs ins val_ins batch_size shuffle steps_per_epoch
  validation_steps do_validation num_train_samples labels indices epochs_left :
  moves_with (stop_step kept sets) (flag_in kept) Running
        (fit_epochs ins val_ins batch_size shuffle steps_per_epoch
                    validation_steps do_validation num_train_samples labels
                    indices epochs_left)
        (fun _ p => epochs_done p).
Proof.
  induction epochs_left as [|epoch rest IH]; simpl.
  - apply with_ret. now left.
  - hold Running ltac:(apply with_tell; [reflexivity|intros; exact I]).
    hold Running ltac:(apply with_tell; [reflexivity|intros; exact I]).
    eapply with_bind; [apply with_fit_epoch_body|].
    intros epoch_logs p Hp.
    apply with_bind
      with (post1 := fun (_ : unit) p' => p' = Running \/ p' = EpochEnding).
    { destruct Hp as [-> | ->].
      - eapply with_weaken.
        + apply with_tell with (q' := Running); [reflexivity|intros; exact I].
        + intros _ ? ->. now left.
      - eapply with_weaken.
        + apply with_tell with (q' := EpochEnding); [reflexivity|].
          simpl. intros s Hs Hk.
          apply (proj1 (nothing_clears Hk)). now apply Hs.
        + intros _ ? ->. now right. }
    intros u p' Hp'.
    apply with_bind
      with (post1 := fun (b : bool) p =>
                       (b = true /\ epochs_done p) \/
                       (b = false /\ p = Running)).
    + apply with_poll. intros s Hs. destruct Hp' as [-> | ->].
      * exists Running. split; [reflexivity|]. split; [exact I|].
        destruct (stop_training s); [left|right]; split; auto. now left.
      * simpl in Hs. destruct (stop_training s) eqn:Ef.
        -- exists Halted. split; [reflexivity|]. split; [exact I|].
           left. split; [reflexivity|now right].
        -- destruct kept eqn:Ek.
           ++ specialize (Hs eq_refl). discriminate.
           ++ exists Running. simpl. split; [reflexivity|].
              split; [exact I|]. right. now split.
    + intros b p'' [[-> Hd] | [-> ->]].
      * now apply with_ret.
      * exact IH.
Qed.

Lemma with_check_validation verbose ins val_ins steps_per_epoch
  validation_steps :
  moves_with (T := T) (stop_step kept sets) (flag_in kept) Running
        (check_validation verbose ins val_ins steps_per_epoch validation_steps)
        (fun _ p => p = Running).
Proof.
  unfold check_validation.
  hold Running ltac:(idtac).
  { destruct (truthy_bundle val_ins); [|now apply with_ret].
    hold Running ltac:(idtac); [|now apply with_ret].
    intros w r w' Hi H. rewrite print_train_on_run in H. injection H as <- <-.
    exists (train_on_message verbose ins val_ins), Running.
    split; [reflexivity|]. split; [|now split].
    unfold train_on_message.
    destruct ins as [[|x ?]|]; auto. destruct val_ins as [[|v ?]|]; auto.
    destruct ((0 <? verbose) && has_shape x && has_shape v); auto.
    destruct (shape0_of x); auto. destruct (shape0_of v); auto. }
  destruct (truthy_int validation_steps).
  - destruct steps_per_epoch; [now apply with_ret|apply with_raise].
  - match goal with |- context [if ?b then _ else _] => destruct b end;
      [|now apply with_ret].
    destruct (truthy_int steps_per_epoch);
      [apply with_raise|now apply with_ret].
Qed.

Lemma with_fit_loop ins batch_size epochs verbose val_ins shuffle
  initial_epoch steps_per_epoch validation_steps :
  moves_with (stop_step kept sets) (flag_in kept) Running
        (fit_loop ins batch_size epochs verbose val_ins shuffle initial_epoch
                  steps_per_epoch validation_steps)
        (fun _ p => epochs_done p).
Proof.
  unfold fit_loop.
  hold Running ltac:(apply with_check_validation).
  hold Running ltac:(apply with_liftR).
  hold Running ltac:(apply with_read).
  hold Running ltac:(idtac).
  { match goal with |- context [if ?b then _ else _] => destruct b end.
    - hold Running ltac:(apply with_write; reflexivity). now apply with_ret.
    - now apply with_ret. }
  hold Running ltac:(apply with_tell; [reflexivity|intros; exact I]).
  hold Running ltac:(apply with_tell; [reflexivity|intros; exact I]).
  hold Running ltac:(apply with_tell; [reflexivity|intros; exact I]).
  hold Running ltac:(apply with_tell; [reflexivity|intros; exact I]).
  hold Running ltac:(apply with_clear_flag; exact I).
  hold Running ltac:(apply with_tell; [reflexivity|intros; exact I]).
  eapply with_bind; [apply with_fit_epochs|].
  intros u p [-> | ->].
  - eapply with_weaken.
    + apply with_tell with (q' := Running); [reflexivity|intros; exact I].
    + intros _ ? ->. now left.
  - eapply with_weaken.
    + apply with_tell with (q' := Halted); [reflexivity|intros; exact I].
    + intros _ ? ->. now right.
Qed.

(** The trace of a run of [fit_loop] is one the automaton accepts, and a
    run that returns does not end in between. *)
Lemma fit_loop_accepted ins batch_size epochs verbose val_ins shuffle
  initial_epoch steps_per_epoch validation_steps (w : world T) :
  exists p,
    run_steps (stop_step kept sets) Running
      (new_events w
         (snd (fit_loop ins batch_size epochs verbose val_ins shuffle
                        initial_epoch steps_per_epoch validation_steps w)))
    = Some p /\
    (is_ok (fst (fit_loop ins batch_size epochs verbose val_ins shuffle
                          initial_epoch steps_per_epoch validation_steps w))
     = true ->
     epochs_done p).
Proof.
  destruct (fit_loop ins batch_size epochs verbose val_ins shuffle initial_epoch
                     steps_per_epoch validation_steps w) as [r w'] eqn:E.
  pose proof (@with_fit_loop ins batch_size epochs verbose val_ins shuffle
                initial_epoch steps_per_epoch validation_steps) as Hm.
  destruct (Hm w r w' I E) as (evs & p & X & R & _ & P).
  exists p. simpl. rewrite (extends_new_events X). split; [exact R|].
  intros Hok. destruct r as [u|e]; [|discriminate]. exact (P u eq_refl).
Qed.

End FitStops.

(** *** What an accepted trace looks like *)

(** A batch-end notification that sets the flag is accepted in the phase
    [Running] only, and leads to [FlagSet]. *)
Lemma setting_notification kept sets q i logs q' :
  sets i logs = true ->
  stop_step kept sets q (EvNotify (OnFitBatchEnd i logs)) = Some q' ->
  q = Running /\ q' = FlagSet.
Proof.
  intros Hs. destruct q; simpl; try discriminate.
  rewrite Hs. intros H. injection H as <-. now split.
Qed.

(** From [BatchesHalted] on: the validation pass, and then, if anything,
    the call of [on_epoch_end]. *)
Lemma halted_run kept sets post :
  forall p,
    run_steps (stop_step kept sets) BatchesHalted post = Some p ->
    exists mid rest,
      post = mid ++ rest /\
      forallb validation_event mid = true /\
      match rest with
      | [] => p = BatchesHalted
      | e :: _ =>
          exists epoch epoch_logs, e = EvNotify (OnEpochEnd epoch epoch_logs)
      end.
Proof.
  induction post as [|e post IH]; intros p H.
  - simpl in H. injection H as <-. exists [], []. now repeat split.
  - cbn [run_steps] in H.
    destruct (validation_event e) eqn:Ev.
    + rewrite halted_validation in H by assumption.
      destruct (IH p H) as (mid & rest & -> & Hmid & Hrest).
      exists (e :: mid), rest. split; [reflexivity|]. split; [|exact Hrest].
      simpl. now rewrite Ev.
    + exists [], (e :: post). split; [reflexivity|]. split; [reflexivity|].
      destruct (stop_step kept sets BatchesHalted e) eqn:E; [|discriminate].
      unfold stop_step in E. rewrite Ev in E.
      destruct e as [|n| | | |]; try discriminate.
      destruct n; try discriminate. eauto.
Qed.

(** When nothing clears the flag, no batch and no new epoch after the
    flag was set. *)
Lemma stopped_run sets post :
  forall q p,
    q <> Running ->
    run_steps (stop_step true sets) q post = Some p ->
    p <> Running /\ forall e, In e post -> batch_event e = false.
Proof.
  induction post as [|e post IH]; intros q p Hq H.
  - simpl in H. injection H as <-. split; [exact Hq|]. intros e [].
  - cbn [run_steps] in H. destruct (stop_step true sets q e) as [q1|] eqn:E;
      [|discriminate].
    assert (Hstep : q1 <> Running /\ batch_event e = false).
    { destruct q; [congruence| | | |]; simpl in E.
      - destruct e as [| | | | |[| | |] [|]]; try discriminate.
        injection E as <-. now split.
      - destruct e as [|n| | | |site b]; simpl in E;
          try (destruct n; simpl in E); try (destruct site; simpl in E);
          try discriminate; injection E as <-; now split.
      - destruct e as [| | | | |[| | |] [|]]; try discriminate.
        injection E as <-. now split.
      - destruct e as [|n| | | |]; try discriminate.
        destruct n; try discriminate. injection E as <-. now split. }
    destruct Hstep as [Hq1 He].
    destruct (IH q1 p Hq1 H) as [Hp Hpost].
    split; [exact Hp|]. intros e' [<- | Hin]; auto.
Qed.

Section StopClaim.

Context {T : Type} {C : Collaborators T}.


End StopClaim.

(** The scripted callbacks set [stop_training] at the end of the batches
    the script picks, and nothing of the scripted collaborators clears
    it. *)
Lemma scripted_sets_flag (sc : script) :
  sets_flag (C := scripted sc) (fun i _ => stop_fit_at sc i).
Proof.
  intros i logs s H. simpl. now rewrite H.
Qed.

Lemma scripted_flag_kept (sc : script) : flag_kept (scripted sc).
Proof.
  split.
  - intros n s H. destruct n; simpl; auto;
      match goal with |- context [if ?b then _ else _] => destruct b end;
      auto.
  - intros ins s H. exact H.
Qed.

Lemma resuming_sets_flag (sc : script) :
  sets_flag (C := resuming sc) (fun i _ => stop_fit_at sc i).
Proof.
  intros i logs s H. simpl. now rewrite H.
Qed.



(** ** Writing the outputs of the predict loop *)

Lemma predict_outputs_app (e1 e2 : list event) :
  predict_outputs (e1 ++ e2) = predict_outputs e1 ++ predict_outputs e2.
Proof.
  induction e1 as [|e t IH]; simpl; auto.
  destruct e as [| | | | ins [o|x] |]; simpl; now rewrite IH.
Qed.

Lemma same_trailing_eq (a b : ndarray) :
  same_trailing a b = true -> trailing a = trailing b.
Proof.
  unfold same_trailing.
  destruct (list_eq_dec Nat.eq_dec (trailing a) (trailing b)); auto.
  discriminate.
Qed.

Lemma same_dtype_eq (a b : ndarray) :
  same_dtype a b = true -> dtype a = dtype b.
Proof.
  unfold same_dtype.
  destruct (dtype_eq_dec (dtype a) (dtype b)); auto. discriminate.
Qed.

Lemma firstn_prefix_len {A} (p q : list A) (n : nat) :
  length p = n -> firstn n (p ++ q) = p.
Proof.
  intros <-. rewrite firstn_app, firstn_all, Nat.sub_diag. simpl.
  apply app_nil_r.
Qed.

Lemma skipn_prefix_len {A} (p q : list A) (n : nat) :
  length p = n -> skipn n (p ++ q) = q.
Proof.
  intros <-. rewrite skipn_app, skipn_all, Nat.sub_diag. reflexivity.
Qed.

(** *** Broadcasting *)

Lemma length_chunks {A} (c b : nat) (l : list A) : length (chunks c b l) = c.
Proof.
  revert l. induction c as [|c IH]; intros l; simpl; auto.
Qed.

Lemma chunks_sized {A} (c b : nat) :
  forall l : list A,
    c * b <= length l -> Forall (fun r => length r = b) (chunks c b l).
Proof.
  induction c as [|c IH]; intros l H; simpl; constructor.
  - apply firstn_length_le. simpl in H. lia.
  - apply IH. rewrite length_skipn. simpl in H. lia.
Qed.

Lemma chunks_concat {A} (rs : list (list A)) (b : nat) :
  Forall (fun r => length r = b) rs -> chunks (length rs) b (concat rs) = rs.
Proof.
  induction 1 as [|r rs Hr Hrs IH]; simpl; auto.
  rewrite firstn_prefix_len, skipn_prefix_len by assumption.
  now rewrite IH.
Qed.

Lemma length_concat_sized {A} (rs : list (list A)) (b : nat) :
  Forall (fun r => length r = b) rs -> length (concat rs) = length rs * b.
Proof.
  induction 1 as [|r rs Hr Hrs IH]; simpl; auto.
  rewrite length_app, IH, Hr. reflexivity.
Qed.

Lemma mapR_id {A} (f : A -> result A) (l : list A) :
  Forall (fun x => f x = Ok x) l -> mapR f l = Ok l.
Proof.
  induction 1 as [|x l Hx Hl IH]; simpl; auto.
  now rewrite Hx, IH.
Qed.

(** Data that has the shape of the target is taken as it is. *)
Lemma broadcast_data_same {A} (s : list nat) :
  forall data : list A,
    length data = size_of s -> broadcast_data s s data = Ok data.
Proof.
  induction s as [|d s IH]; intros data H; simpl; auto.
  simpl in H.
  rewrite mapR_id.
  - rewrite Nat.eqb_refl, concat_chunks. f_equal. apply firstn_all2. lia.
  - pose proof (@chunks_sized A d (size_of s) data ltac:(lia)) as Hc.
    revert Hc. apply Forall_impl. intros c Hc. now apply IH.
Qed.

Lemma align_shape_same (vs : list nat) (n : nat) :
  length vs = n -> align_shape vs n = Some vs.
Proof.
  intros <-. destruct vs as [|d vs]; simpl.
  - reflexivity.
  - rewrite Nat.leb_refl, Nat.sub_diag. reflexivity.
Qed.

Lemma well_shaped_rows (v : ndarray) :
  well_shaped v = true ->
  Forall (fun r => length r = size_of (trailing v)) (rows v).
Proof.
  unfold well_shaped. intros H. apply Forall_forall. intros r Hr.
  rewrite forallb_forall in H. apply Nat.eqb_eq. now apply H.
Qed.

(** A value that has the shape of the slice is stored row for row. *)
Lemma broadcast_rows_same (v : ndarray) :
  well_shaped v = true ->
  broadcast_rows v (length (rows v)) (trailing v) = Ok (rows v).
Proof.
  intros H. apply well_shaped_rows in H. unfold broadcast_rows.
  rewrite align_shape_same by reflexivity.
  unfold shape. rewrite broadcast_data_same.
  - now rewrite chunks_concat.
  - simpl. now apply length_concat_sized.
Qed.

Lemma broadcast_rows_length (v : ndarray) n row_shape rs :
  broadcast_rows v n row_shape = Ok rs -> length rs = n.
Proof.
  unfold broadcast_rows.
  destruct (align_shape _ _); [|discriminate].
  destruct (broadcast_data _ _ _); [|discriminate].
  intros H. injection H as <-. apply length_chunks.
Qed.

Section SliceAssignment.

Context {T : Type} {C : Collaborators T}.

Lemma length_cast_rows from to (rs : list (list scalar)) :
  length (cast_rows from to rs) = length rs.
Proof.
  unfold cast_rows. destruct (dtype_eq_dec from to); [reflexivity|].
  apply length_map.
Qed.

Lemma cast_rows_same d (rs : list (list scalar)) : cast_rows d d rs = rs.
Proof.
  unfold cast_rows. now destruct (dtype_eq_dec d d).
Qed.

Lemma stored_rows_length (a v : ndarray) n rs :
  stored_rows a n v = Ok rs -> length rs = n.
Proof.
  unfold stored_rows.
  destruct (broadcast_rows v n (trailing a)) as [rs0|] eqn:E; [|discriminate].
  intros H. injection H as <-. rewrite length_cast_rows.
  now apply broadcast_rows_length in E.
Qed.

(** What is stored depends on the array by its dtype and the shape of
    its rows. *)
Lemma stored_rows_like (a a' v : ndarray) n :
  dtype a' = dtype a -> trailing a' = trailing a ->
  stored_rows a' n v = stored_rows a n v.
Proof.
  unfold stored_rows. now intros -> ->.
Qed.

(** A value cut for the slice is stored as it is. *)
Lemma stored_rows_fits (a v : ndarray) n :
  fits a n v = true -> stored_rows a n v = Ok (rows v).
Proof.
  unfold fits. intros H.
  apply andb_prop in H. destruct H as [H Hw].
  apply andb_prop in H. destruct H as [H Hn].
  apply andb_prop in H. destruct H as [Hd Ht].
  apply same_dtype_eq in Hd. apply same_trailing_eq in Ht.
  apply Nat.eqb_eq in Hn. subst n.
  unfold stored_rows. rewrite Ht, broadcast_rows_same by assumption.
  now rewrite Hd, cast_rows_same.
Qed.

(** A slice assignment keeps the dtype, the shape and the rows before
    the slice, and puts in the slice what numpy stores for the value. *)
Lemma assign_slice_spec (a v a' : ndarray) (s e : nat) :
  assign_slice a s e v = Ok a' -> s <= e ->
  dtype a' = dtype a /\
  trailing a' = trailing a /\
  length (rows a') = length (rows a) /\
  firstn s (rows a') = firstn s (rows a) /\
  stored_rows a (Nat.min e (length (rows a)) - Nat.min s (length (rows a))) v
  = Ok (py_slice (rows a') s (Nat.min e (length (rows a)))).
Proof.
  unfold assign_slice. intros H Hse.
  destruct (stored_rows a _ v) as [rs|] eqn:Es; [|discriminate].
  pose proof (stored_rows_length _ _ _ Es) as Hv.
  injection H as <-. simpl.
  split; [reflexivity|]. split; [reflexivity|].
  destruct (Nat.le_gt_cases s (length (rows a))) as [Hs|Hs].
  - rewrite (Nat.min_l s) in * by assumption.
    assert (Hf : length (firstn s (rows a)) = s)
      by (now apply firstn_length_le).
    split; [|split].
    + rewrite !length_app, Hf, Hv, length_skipn. lia.
    + now apply firstn_prefix_len.
    + f_equal. unfold py_slice. rewrite skipn_prefix_len by exact Hf.
      symmetry. now apply firstn_prefix_len.
  - assert (Hnil : rs = []) by (apply length_zero_iff_nil; lia).
    rewrite Hnil. simpl. rewrite !Nat.min_r by lia.
    rewrite firstn_all, skipn_all, app_nil_r.
    split; [reflexivity|]. split; [reflexivity|].
    unfold py_slice. replace (length (rows a) - s) with 0 by lia.
    reflexivity.
Qed.

Lemma store_outs_spec (start size : nat) (batch_outs : list ndarray) :
  forall j0 outs outs',
    store_outs start size j0 batch_outs outs = Ok outs' ->
    length outs' = length outs /\
    (batch_outs <> [] -> j0 + length batch_outs <= length outs) /\
    forall j,
      if (j0 <=? j) && (j <? j0 + length batch_outs)
      then assign_slice (nth j outs empty_array) start (start + size)
                        (nth (j - j0) batch_outs empty_array)
           = Ok (nth j outs' empty_array)
      else nth j outs' empty_array = nth j outs empty_array.
Proof.
  induction batch_outs as [|o t IH]; intros j0 outs outs' H; simpl in H.
  - injection H as <-. split; [reflexivity|]. split; [congruence|].
    intros j. simpl. rewrite Nat.add_0_r.
    destruct (Nat.leb_spec j0 j), (Nat.ltb_spec j j0); simpl; auto; lia.
  - destruct (nth_error outs j0) as [a|] eqn:Ej; [|discriminate].
    pose proof (nth_error_lt _ _ Ej) as Hj.
    destruct (assign_slice a start (start + size) o) as [a'|] eqn:Ea;
      [|discriminate].
    apply IH in H. destruct H as (Hl & Hb & Hn).
    rewrite length_list_set in Hl, Hb.
    split; [exact Hl|]. split.
    + intros _. destruct t as [|o' t'].
      * simpl. lia.
      * specialize (Hb ltac:(discriminate)). simpl in *. lia.
    + intros j. specialize (Hn j). rewrite nth_list_set in Hn.
      simpl length.
      destruct (Nat.leb_spec (S j0) j), (Nat.ltb_spec j (S j0 + length t));
        destruct (Nat.leb_spec j0 j), (Nat.ltb_spec j (j0 + S (length t)));
        destruct (Nat.eqb_spec j j0), (Nat.ltb_spec j0 (length outs));
        simpl in *; try lia; auto.
      * replace (j - j0) with (S (j - S j0)) by lia. exact Hn.
      * subst j. rewrite Nat.sub_diag. simpl.
        rewrite (nth_error_nth_eq _ _ empty_array Ej), Hn. exact Ea.
Qed.

End SliceAssignment.

Lemma take_rows_length {A} (rs : list A) (ids : list nat) rs' :
  take_rows rs ids = Some rs' -> length rs' = length ids.
Proof.
  revert rs'. induction ids as [|i t IH]; simpl; intros rs' H.
  - now injection H as <-.
  - destruct (nth_error rs i); [|discriminate].
    destruct (take_rows rs t); [|discriminate].
    injection H as <-. simpl. f_equal. now apply IH.
Qed.

(** When the first input is a numpy array, the size of a batch is the
    length of its index array. *)
Lemma array_batch_size (x : ndarray) (rest : list pyval) ids batch_ins :
  batch_ins_of (Some (PArray x :: rest)) ids = Ok batch_ins ->
  get_batch_size batch_ins = Ok (length ids).
Proof.
  unfold batch_ins_of. intros H.
  destruct (slice_ins (Some (PArray x :: rest)) ids) as [l|e] eqn:Es;
    [|destruct e; discriminate].
  injection H as <-. unfold slice_ins in Es.
  assert (Hhead : forall l' sliced,
            slice_arrays (PArray x :: l') ids = Ok sliced ->
            exists y ys, sliced = PArray y :: ys /\ length (rows y) = length ids).
  { intros l' sliced. unfold slice_arrays. simpl.
    destruct (take_rows (rows x) ids) as [rs|] eqn:Et; [|discriminate].
    destruct (mapR _ l'); [|discriminate].
    intros Hs. injection Hs as <-. eexists _, _. split; [reflexivity|].
    simpl. now apply take_rows_length in Et. }
  destruct rest as [|r rest'].
  - simpl in Es. destruct (Hhead _ _ Es) as (y & ys & -> & Hy).
    simpl. now rewrite Hy.
  - change (last (map Some (PArray x :: r :: rest')) None)
      with (last (map Some (r :: rest')) None) in Es.
    destruct (last (map Some (r :: rest')) None) as [flag|]; [|discriminate].
    destruct (is_float flag).
    + change (removelast (PArray x :: r :: rest'))
        with (PArray x :: removelast (r :: rest')) in Es.
      destruct (slice_arrays (PArray x :: removelast (r :: rest')) ids)
        as [sliced|] eqn:E2; [|discriminate].
      injection Es as <-.
      destruct (Hhead _ _ E2) as (y & ys & -> & Hy). simpl. now rewrite Hy.
    + destruct (Hhead _ _ Es) as (y & ys & -> & Hy). simpl. now rewrite Hy.
Qed.

Lemma py_slice_same_prefix {A} (l l' : list A) (m s e : nat) :
  firstn m l = firstn m l' -> e <= m -> py_slice l s e = py_slice l' s e.
Proof.
  intros H He. unfold py_slice.
  rewrite !(firstn_skipn_comm (e - s) s).
  destruct (Nat.le_gt_cases s e) as [Hs|Hs].
  - replace (s + (e - s)) with (Nat.min e m) by lia.
    rewrite <- !firstn_firstn. now rewrite H.
  - replace (e - s) with 0 by lia. rewrite Nat.add_0_r.
    rewrite !skipn_all2; auto; rewrite length_firstn; lia.
Qed.

Section PredictBatches.

Context {T : Type} {C : Collaborators T}.

(** One turn of the sample loop of [predict_loop] that did not raise. *)
Lemma predict_batches_cons indices n b k item rest outs0 (w : world T)
  outs w' :
  predict_batches indices (Some n) (Some b) k (item :: rest) outs0 w
  = (Ok outs, w') ->
  exists batch_ins size o outs1 w1 evs,
    item = Ok batch_ins /\ get_batch_size batch_ins = Ok size /\
    extends w w1 evs /\ predict_outputs evs = [o] /\
    store_outs (k * b) size 0 o
               (if k =? 0
                then outs0 ++ map (fun x => np_zeros n (trailing x) (dtype x)) o
                else outs0)
    = Ok outs1 /\
    if stop_predicting (st w1) then outs = outs1 /\ w' = w1
    else predict_batches indices (Some n) (Some b) (S k) rest outs1 w1
         = (Ok outs, w').
Proof.
  intros H. simpl in H.
  step_run H batch_ins w0 E0. apply liftR_ok in E0. destruct E0 as [Hitem ->].
  step_run H size w0 E0. apply liftR_ok in E0. destruct E0 as [Hsize ->].
  step_run H u1 w1 E1. apply tell_ok in E1. destruct E1 as [_ X1].
  step_run H dense w1' E1'. apply liftR_ok in E1'. destruct E1' as [_ ->].
  step_run H o w2 E2. apply call_predict_ok in E2.
  step_run H u3 w3 E3. apply tell_ok in E3. destruct E3 as [_ X3].
  step_run H outs_i w4 E4.
  assert (Hinit : outs_i = (if k =? 0
                            then outs0 ++ map (fun x => np_zeros n (trailing x) (dtype x)) o
                            else outs0) /\ w4 = w3).
  { destruct (k =? 0).
    - destruct o as [|o1 o'].
      + apply ret_ok in E4. destruct E4 as [-> ->]. simpl.
        now rewrite app_nil_r.
      + run_monad. now injection E4 as <- <-.
    - apply ret_ok in E4. destruct E4 as [-> ->]. now split. }
  destruct Hinit as [-> ->].
  step_run H outs1 w5 E5.
  assert (Hstore : store_outs (k * b) size 0 o
                     (if k =? 0
                      then outs0 ++ map (fun x => np_zeros n (trailing x) (dtype x)) o
                      else outs0) = Ok outs1 /\ w5 = w3).
  { destruct o as [|o1 o'].
    - apply ret_ok in E5. destruct E5 as [-> ->]. now split.
    - run_monad. now injection E5 as -> <-. }
  destruct Hstore as [Hstore ->].
  step_run H stop w6 E6. apply poll_ok in E6. destruct E6 as (Eb & Es & X6).
  exists batch_ins, size, o, outs1, w6. eexists.
  split; [exact Hitem|]. split; [exact Hsize|]. split.
  - eapply extends_trans; [exact X1|].
    eapply extends_trans; [exact E2|].
    eapply extends_trans; [exact X3|exact X6].
  - split; [reflexivity|]. split; [exact Hstore|].
    rewrite Es, <- Eb. destruct stop.
    + apply ret_ok in H. destruct H as [-> ->]. now split.
    + exact H.
Qed.

(** What one turn at batch [k] does to the arrays, when the batch has
    the size of its index range. *)
Lemma store_batch n b k (o outs0 outs1 : list ndarray) :
  store_outs (k * b) (Nat.min n ((k + 1) * b) - k * b) 0 o outs0 = Ok outs1 ->
  Forall (fun a => length (rows a) = n) outs0 ->
  length outs1 = length outs0 /\ length o <= length outs0 /\
  Forall (fun a => length (rows a) = n) outs1 /\
  forall j, j < length outs0 ->
    dtype (nth j outs1 empty_array) = dtype (nth j outs0 empty_array) /\
    trailing (nth j outs1 empty_array) = trailing (nth j outs0 empty_array) /\
    firstn (k * b) (rows (nth j outs1 empty_array))
    = firstn (k * b) (rows (nth j outs0 empty_array)) /\
    (j < length o ->
     stored_rows (nth j outs0 empty_array) (Nat.min n ((k + 1) * b) - k * b)
                 (nth j o empty_array)
     = Ok (py_slice (rows (nth j outs1 empty_array)) (k * b)
                    (Nat.min n ((k + 1) * b)))).
Proof.
  intros H HF. apply store_outs_spec in H. destruct H as (Hl & Hb & Hn).
  assert (Hlo : length o <= length outs0).
  { destruct o; [simpl; lia|]. specialize (Hb ltac:(discriminate)). lia. }
  assert (Hrows : forall j, j < length outs0 ->
                    length (rows (nth j outs0 empty_array)) = n).
  { intros j Hj. rewrite Forall_forall in HF. apply HF, nth_In, Hj. }
  assert (Hall : forall j, j < length outs0 ->
    length (rows (nth j outs1 empty_array)) = n /\
    dtype (nth j outs1 empty_array) = dtype (nth j outs0 empty_array) /\
    trailing (nth j outs1 empty_array) = trailing (nth j outs0 empty_array) /\
    firstn (k * b) (rows (nth j outs1 empty_array))
    = firstn (k * b) (rows (nth j outs0 empty_array)) /\
    (j < length o ->
     stored_rows (nth j outs0 empty_array) (Nat.min n ((k + 1) * b) - k * b)
                 (nth j o empty_array)
     = Ok (py_slice (rows (nth j outs1 empty_array)) (k * b)
                    (Nat.min n ((k + 1) * b))))).
  { intros j Hj. specialize (Hn j). simpl in Hn. rewrite Nat.sub_0_r in Hn.
    destruct (Nat.ltb_spec j (length o)) as [Hjo|Hjo].
    - apply assign_slice_spec in Hn; [|lia].
      destruct Hn as (Hd & Ht & Hlen & Hfirst & Hslice).
      rewrite (Hrows j Hj) in Hlen, Hslice.
      replace (Nat.min (k * b + (Nat.min n ((k + 1) * b) - k * b)) n)
        with (Nat.min n ((k + 1) * b)) in Hslice by lia.
      replace (Nat.min n ((k + 1) * b) - Nat.min (k * b) n)
        with (Nat.min n ((k + 1) * b) - k * b) in Hslice by lia.
      repeat split; auto; congruence.
    - rewrite Hn. repeat split; auto; lia. }
  split; [exact Hl|]. split; [exact Hlo|]. split.
  - apply Forall_forall. intros a Ha.
    destruct (In_nth _ _ empty_array Ha) as (j & Hj & <-).
    apply Hall. lia.
  - intros j Hj. destruct (Hall j Hj) as (_ & H0 & H1 & H2 & H3). auto.
Qed.

Lemma predict_batches_tail indices n b items :
  forall k outs0 (w : world T) outs w',
    k <> 0 ->
    batch_sized n b k items ->
    Forall (fun a => length (rows a) = n) outs0 ->
    predict_batches indices (Some n) (Some b) k items outs0 w = (Ok outs, w') ->
    exists evs,
      extends w w' evs /\
      length outs = length outs0 /\
      length (predict_outputs evs) <= length items /\
      Forall (fun o => length o <= length outs0) (predict_outputs evs) /\
      forall j, j < length outs0 ->
        dtype (nth j outs empty_array) = dtype (nth j outs0 empty_array) /\
        trailing (nth j outs empty_array) = trailing (nth j outs0 empty_array) /\
        length (rows (nth j outs empty_array)) = n /\
        firstn (k * b) (rows (nth j outs empty_array))
        = firstn (k * b) (rows (nth j outs0 empty_array)) /\
        forall i o, nth_error (predict_outputs evs) i = Some o ->
          j < length o ->
          stored_rows (nth j outs0 empty_array)
                      (Nat.min n ((k + i + 1) * b) - (k + i) * b)
                      (nth j o empty_array)
          = Ok (py_slice (rows (nth j outs empty_array)) ((k + i) * b)
                         (Nat.min n ((k + i + 1) * b))).
Proof.
  induction items as [|item rest IH]; intros k outs0 w outs w' Hk Hsz HF H.
  - apply ret_ok in H. destruct H as [-> ->]. exists [].
    split; [apply extends_refl|]. simpl. repeat split; auto.
    + rewrite Forall_forall in HF. apply HF, nth_In. assumption.
    + intros [|i] o Hi; discriminate.
  - apply predict_batches_cons in H.
    destruct H as (batch_ins & size & o & outs1 & w1 & evs1 & Hitem & Hsize
                   & X1 & Ho & Hstore & H).
    rewrite (proj2 (Nat.eqb_neq k 0) Hk) in Hstore.
    pose proof (Hsz 0 batch_ins ltac:(simpl; now f_equal)) as Hs0.
    rewrite Nat.add_0_r in Hs0. rewrite Hsize in Hs0. injection Hs0 as ->.
    apply store_batch in Hstore; [|exact HF].
    destruct Hstore as (Hl1 & Hlo & HF1 & Hn1).
    assert (Htail : exists evs2,
      extends w1 w' evs2 /\ length outs = length outs1 /\
      length (predict_outputs evs2) <= length rest /\
      Forall (fun o => length o <= length outs1) (predict_outputs evs2) /\
      forall j, j < length outs1 ->
        dtype (nth j outs empty_array) = dtype (nth j outs1 empty_array) /\
        trailing (nth j outs empty_array) = trailing (nth j outs1 empty_array) /\
        length (rows (nth j outs empty_array)) = n /\
        firstn (S k * b) (rows (nth j outs empty_array))
        = firstn (S k * b) (rows (nth j outs1 empty_array)) /\
        forall i o, nth_error (predict_outputs evs2) i = Some o ->
          j < length o ->
          stored_rows (nth j outs1 empty_array)
                      (Nat.min n ((S k + i + 1) * b) - (S k + i) * b)
                      (nth j o empty_array)
          = Ok (py_slice (rows (nth j outs empty_array)) ((S k + i) * b)
                         (Nat.min n ((S k + i + 1) * b)))).
    { destruct (stop_predicting (st w1)).
      - destruct H as [-> ->]. exists [].
        split; [apply extends_refl|]. simpl. split; [reflexivity|].
        split; [lia|]. split; [constructor|]. intros j Hj.
        split; [reflexivity|]. split; [reflexivity|]. split.
        { rewrite Forall_forall in HF1. apply HF1, nth_In. assumption. }
        split; [reflexivity|]. intros [|i] o' Hi; discriminate.
      - apply IH in H; auto.
        intros i bi Hi. specialize (Hsz (S i) bi Hi).
        rewrite Hsz. do 2 f_equal; f_equal; lia. }
    destruct Htail as (evs2 & X2 & Hl2 & Hle & Hsh & Hn2).
    exists (evs1 ++ evs2). split; [eapply extends_trans; eassumption|].
    rewrite predict_outputs_app, Ho. simpl.
    split; [congruence|]. split; [lia|]. split.
    { constructor; [lia|]. rewrite Hl1 in Hsh. exact Hsh. }
    intros j Hj.
    destruct (Hn1 j Hj) as (Hd1 & Ht1 & Hf1 & Hs1).
    destruct (Hn2 j ltac:(lia)) as (Hd2 & Ht2 & Hlen2 & Hf2 & Hs2).
    assert (Hfk : firstn (k * b) (rows (nth j outs empty_array))
                  = firstn (k * b) (rows (nth j outs1 empty_array))).
    { replace (k * b) with (Nat.min (k * b) (S k * b)) by lia.
      rewrite <- !firstn_firstn. now rewrite Hf2. }
    split; [congruence|]. split; [congruence|]. split; [exact Hlen2|].
    split; [congruence|].
    intros [|i] o' Hi Hjo.
    + injection Hi as <-. rewrite Nat.add_0_r.
      rewrite (py_slice_same_prefix _ _ _ Hf2) by lia.
      now apply Hs1.
    + replace (k + S i) with (S k + i) by lia.
      rewrite <- (stored_rows_like _ _ _ _ Hd1 Ht1). now apply Hs2.
Qed.

End PredictBatches.

Lemma map_seq_nth {A B} (l : list A) (g : nat -> B) (f : A -> B) :
  forall s,
    (forall i x, nth_error l i = Some x -> g (s + i) = f x) ->
    map g (seq s (length l)) = map f l.
Proof.
  induction l as [|x l IH]; intros s H; simpl; auto.
  f_equal.
  - rewrite <- (Nat.add_0_r s). now apply H.
  - apply IH. intros i y Hi. replace (S s + i) with (s + S i) by lia.
    now apply H.
Qed.

Lemma length_py_slice_seq (n s e : nat) :
  e <= n -> length (py_slice (seq 0 n) s e) = e - s.
Proof.
  intros H. unfold py_slice.
  rewrite length_firstn, length_skipn, length_seq. lia.
Qed.

(** The items of the generator over array data have the sizes of the
    index ranges. *)
Lemma generator_batch_sized (x : ndarray) (rest : list pyval) (n b : nat) :
  batch_sized n b 0
    (map (batch_ins_of (Some (PArray x :: rest)))
         (batch_ids_of (seq 0 n)
            (map (fun i => (i * b, Nat.min n ((i + 1) * b)))
                 (seq 0 (ceil_div n b))))).
Proof.
  intros i batch_ins Hi. unfold batch_ids_of in Hi.
  rewrite !map_map in Hi. rewrite nth_error_map in Hi.
  destruct (nth_error (seq 0 (ceil_div n b)) i) as [k|] eqn:Ek; [|discriminate].
  assert (k = i).
  { pose proof (nth_error_lt _ _ Ek) as Hlt. rewrite length_seq in Hlt.
    rewrite (nth_error_nth' _ 0) in Ek by (now rewrite length_seq).
    rewrite seq_nth in Ek by assumption. now injection Ek. }
  subst k. simpl in Hi. injection Hi as Hi.
  apply array_batch_size in Hi. rewrite Hi.
  rewrite length_py_slice_seq by lia. reflexivity.
Qed.

(** The array [np.zeros] made for output [j] of the first batch. *)
Lemma nth_zeros_made (n j : nat) (o : list ndarray) :
  j < length o ->
  nth j (map (fun a => np_zeros n (trailing a) (dtype a)) o) empty_array
  = np_zeros n (trailing (nth j o empty_array)) (dtype (nth j o empty_array)).
Proof.
  intros Hj.
  rewrite (nth_indep _ empty_array
             (np_zeros n (trailing empty_array) (dtype empty_array)))
    by (rewrite length_map; exact Hj).
  apply (map_nth (fun a => np_zeros n (trailing a) (dtype a))).
Qed.

Section PredictLoop.

Context {T : Type} {C : Collaborators T}.

(** What [predict_loop] does before its loop, in sample mode. *)
Lemma predict_loop_samples_run ins batch_size verbose (w : world T) outs w' :
  predict_loop ins batch_size verbose None w = (Ok outs, w') ->
  exists num_samples indices w0 evs0 items,
    check_num_samples ins batch_size None "steps" = Ok num_samples /\
    extends w w0 evs0 /\ predict_outputs evs0 = [] /\
    get_batch_generator ins num_samples batch_size ShuffleFalse w0
    = (Ok items, w0) /\
    predict_batches indices num_samples batch_size 0 items [] w0
    = (Ok outs, w').
Proof.
  unfold predict_loop. intros H.
  step_run H num_samples w2 E2. apply liftR_ok in E2. destruct E2 as [Hn ->].
  step_run H u4 w4 E4. apply tell_ok in E4. destruct E4 as [_ X4].
  step_run H u5 w5 E5. apply tell_ok in E5. destruct E5 as [_ X5].
  step_run H u6 w6 E6. apply tell_ok in E6. destruct E6 as [_ X6].
  step_run H u7 w7 E7. apply write_ok in E7. destruct E7 as [_ X7].
  step_run H u8 w8 E8. apply tell_ok in E8. destruct E8 as [_ X8].
  step_run H items w9 E9.
  destruct (get_batch_generator_unshuffled _ _ _ _ E9)
    as (n & b & _ & _ & _ & -> & _).
  eexists num_samples, _, w8, _, items.
  split; [exact Hn|]. split.
  - eapply extends_trans; [exact X4|].
    eapply extends_trans; [exact X5|].
    eapply extends_trans; [exact X6|].
    eapply extends_trans; [exact X7|exact X8].
  - split; [reflexivity|]. split; [exact E9|exact H].
Qed.

(** C5.  A sample-mode run over array data in which every batch was
    predicted returns arrays of [num_samples] rows with the dtype and the
    trailing shape of the outputs of the first batch.  The output of
    batch [k] is written to the rows from [k * batch_size] on: they hold
    what numpy stores for it, the output broadcast to the slice and cast
    to the dtype of the array, which is the output itself when it has
    that dtype and the shape of the slice.  The slices of the batches
    make up the whole array, so an array all batches wrote to has no
    row left as [np.zeros] made it: when the outputs are cut for their
    slices it is the outputs put end to end. *)
Theorem predict_outputs_are_assembled (x : ndarray) (rest : list pyval)
  b verbose n (w : world T) outs w' :
  check_num_samples (Some (PArray x :: rest)) (Some b) None "steps"
  = Ok (Some n) ->
  predict_loop (Some (PArray x :: rest)) (Some b) verbose None w
  = (Ok outs, w') ->
  length (predict_outputs (new_events w w')) = ceil_div n b ->
  forall j, j < length outs ->
    let batch_outs := predict_outputs (new_events w w') in
    let out := nth j outs empty_array in
    let first := nth j (hd [] batch_outs) empty_array in
    let lo := fun k => k * b in
    let hi := fun k => Nat.min n ((k + 1) * b) in
    dtype out = dtype first /\
    trailing out = trailing first /\
    length (rows out) = n /\
    (forall k o, nth_error batch_outs k = Some o -> j < length o ->
       stored_rows out (hi k - lo k) (nth j o empty_array)
       = Ok (py_slice (rows out) (lo k) (hi k)) /\
       (fits out (hi k - lo k) (nth j o empty_array) = true ->
        py_slice (rows out) (lo k) (hi k) = rows (nth j o empty_array))) /\
    rows out
    = concat (map (fun k => py_slice (rows out) (lo k) (hi k))
                  (seq 0 (length batch_outs))) /\
    (Forall (fun o => j < length o) batch_outs ->
     (forall k o, nth_error batch_outs k = Some o ->
        fits out (hi k - lo k) (nth j o empty_array) = true) ->
     rows out = concat (map (fun o => rows (nth j o empty_array)) batch_outs)).
Proof.
  intros Hcheck H Hall j Hj.
  apply predict_loop_samples_run in H.
  destruct H as (num_samples & indices & w0 & evs0 & items & Hn & X0 & Hp0
                 & Hgen & Hloop).
  rewrite Hcheck in Hn. injection Hn as <-.
  destruct (get_batch_generator_unshuffled _ _ _ _ Hgen)
    as (n' & b' & En & Eb & Hb & _ & Hitems).
  injection En as <-. injection Eb as <-.
  pose proof (generator_batch_sized x rest n b) as Hsz.
  rewrite <- Hitems in Hsz. clear Hitems Hgen.
  destruct items as [|item items'].
  { apply ret_ok in Hloop. destruct Hloop as [-> ->]. simpl in Hj. lia. }
  apply predict_batches_cons in Hloop.
  destruct Hloop as (batch_ins & size & o & outs1 & w1 & evs1 & Hitem & Hsize
                     & X1 & Ho & Hstore & Hrest).
  pose proof (Hsz 0 batch_ins ltac:(simpl; now f_equal)) as Hs0.
  rewrite Hsize in Hs0. injection Hs0 as ->.
  change (0 =? 0) with true in Hstore. cbv iota in Hstore.
  change (store_outs (0 * b) (Nat.min n ((0 + 1) * b) - 0 * b) 0 o
                     (map (fun a => np_zeros n (trailing a) (dtype a)) o)
          = Ok outs1)
    in Hstore.
  apply store_batch in Hstore.
  2:{ apply Forall_forall. intros a Ha. apply in_map_iff in Ha.
      destruct Ha as (a0 & <- & _). simpl. apply repeat_length. }
  rewrite length_map in Hstore. destruct Hstore as (Hl1 & _ & HF1 & Hn1).
  assert (Htail : exists evs2,
    extends w1 w' evs2 /\ length outs = length outs1 /\
    forall j, j < length outs1 ->
      dtype (nth j outs empty_array) = dtype (nth j outs1 empty_array) /\
      trailing (nth j outs empty_array) = trailing (nth j outs1 empty_array) /\
      length (rows (nth j outs empty_array)) = n /\
      firstn (1 * b) (rows (nth j outs empty_array))
      = firstn (1 * b) (rows (nth j outs1 empty_array)) /\
      forall i o, nth_error (predict_outputs evs2) i = Some o ->
        j < length o ->
        stored_rows (nth j outs1 empty_array)
                    (Nat.min n ((1 + i + 1) * b) - (1 + i) * b)
                    (nth j o empty_array)
        = Ok (py_slice (rows (nth j outs empty_array)) ((1 + i) * b)
                       (Nat.min n ((1 + i + 1) * b)))).
  { destruct (stop_predicting (st w1)).
    - destruct Hrest as [-> ->]. exists [].
      split; [apply extends_refl|]. split; [reflexivity|]. intros j' Hj'.
      split; [reflexivity|]. split; [reflexivity|]. split.
      { rewrite Forall_forall in HF1. apply HF1, nth_In. assumption. }
      split; [reflexivity|]. intros [|i] o' Hi; discriminate.
    - apply predict_batches_tail in Hrest; auto.
      + destruct Hrest as (evs2 & X2 & Hl2 & _ & _ & Hn2).
        exists evs2. repeat split; auto; apply Hn2; assumption.
      + intros i bi Hi. specialize (Hsz (S i) bi Hi).
        rewrite Hsz. do 2 f_equal; f_equal; lia. }
  destruct Htail as (evs2 & X2 & Hl2 & Hn2).
  pose proof (extends_trans X0 (extends_trans X1 X2)) as X.
  cbv zeta. rewrite (extends_new_events X) in *.
  rewrite !predict_outputs_app, Hp0, Ho in *. simpl app in *. simpl hd.
  assert (Hj1 : j < length outs1) by lia.
  assert (Hjo : j < length o) by lia.
  destruct (Hn1 j Hjo) as (Hd1 & Ht1 & _ & Hs1).
  specialize (Hs1 Hjo).
  destruct (Hn2 j Hj1) as (Hd2 & Ht2 & Hlen2 & Hf2 & Hs2).
  rewrite (@nth_zeros_made n j o Hjo) in Hd1, Ht1. simpl in Hd1, Ht1.
  assert (Hd : dtype (nth j outs empty_array) = dtype (nth j o empty_array))
    by congruence.
  assert (Ht : trailing (nth j outs empty_array)
               = trailing (nth j o empty_array)) by congruence.
  assert (Hslices : forall k o',
            nth_error (o :: predict_outputs evs2) k = Some o' ->
            j < length o' ->
            stored_rows (nth j outs empty_array)
                        (Nat.min n ((k + 1) * b) - k * b)
                        (nth j o' empty_array)
            = Ok (py_slice (rows (nth j outs empty_array)) (k * b)
                           (Nat.min n ((k + 1) * b)))).
  { intros [|k] o' Hk Hjo'.
    - injection Hk as <-.
      rewrite (py_slice_same_prefix _ _ _ Hf2) by lia.
      rewrite <- Hs1. apply stored_rows_like.
      + rewrite (@nth_zeros_made n j o Hjo). simpl. exact Hd.
      + rewrite (@nth_zeros_made n j o Hjo). simpl. exact Ht.
    - transitivity (stored_rows (nth j outs1 empty_array)
                      (Nat.min n ((1 + k + 1) * b) - (1 + k) * b)
                      (nth j o' empty_array));
        [now apply stored_rows_like|exact (Hs2 k o' Hk Hjo')]. }
  set (R := rows (nth j outs empty_array)) in *.
  assert (Hcover : R = concat (map (fun k => py_slice R (k * b)
                                              (Nat.min n ((k + 1) * b)))
                                   (seq 0 (length (o :: predict_outputs evs2))))).
  { rewrite <- Hlen2. rewrite concat_batch_slices.
    symmetry. apply firstn_all2. rewrite Hall, Hlen2.
    apply (ceil_div_bounds n Hb). }
  split; [exact Hd|]. split; [exact Ht|]. split; [exact Hlen2|]. split.
  { intros k o' Hk Hjo'. split; [now apply Hslices|].
    intros Hfit. apply stored_rows_fits in Hfit.
    rewrite (Hslices k o' Hk Hjo') in Hfit. now injection Hfit. }
  split; [exact Hcover|].
  intros Hevery Hfits. rewrite Hcover at 1. f_equal.
  apply map_seq_nth. intros i o' Hi. simpl.
  assert (Hjo' : j < length o').
  { rewrite Forall_forall in Hevery. apply Hevery.
    eapply nth_error_In. exact Hi. }
  specialize (Hfits i o' Hi). apply stored_rows_fits in Hfits.
  rewrite (Hslices i o' Hi Hjo') in Hfits. now injection Hfits.
Qed.

End PredictLoop.

(** Ten samples in batches of four, each prediction of shape (batch, 2):
    the result has shape (10, 2) and is the three outputs end to end. *)
Lemma predict_outputs_are_assembled_witness :
  check_num_samples (Collaborators := scripted predicting)
                    (Some [samples 10]) (Some 4) None "steps" = Ok (Some 10) /\
  predict_loop (C := scripted predicting) (Some [samples 10]) (Some 4) 0 None
               fresh_world
  = (Ok (returned predict_run), snd predict_run) /\
  length (predict_outputs (new_events fresh_world (snd predict_run)))
  = ceil_div 10 4 /\
  0 < length (returned predict_run) /\
  shape (nth 0 (returned predict_run) empty_array) = [10; 2] /\
  Forall (fun o => 0 < length o)
         (predict_outputs (new_events fresh_world (snd predict_run))) /\
  (forall k o,
     nth_error (predict_outputs (new_events fresh_world (snd predict_run))) k
     = Some o ->
     fits (nth 0 (returned predict_run) empty_array)
          (Nat.min 10 ((k + 1) * 4) - k * 4) (nth 0 o empty_array) = true) /\
  rows (nth 0 (returned predict_run) empty_array)
  = concat (map (fun o => rows (nth 0 o empty_array))
                (predict_outputs (new_events fresh_world (snd predict_run)))).
Proof.
  assert (Hevery : Forall (fun o => 0 < length o)
            (predict_outputs (new_events fresh_world (snd predict_run))))
    by (repeat constructor).
  assert (Hfits : forall k o,
     nth_error (predict_outputs (new_events fresh_world (snd predict_run))) k
     = Some o ->
     fits (nth 0 (returned predict_run) empty_array)
          (Nat.min 10 ((k + 1) * 4) - k * 4) (nth 0 o empty_array) = true).
  { intros [|[|[|k]]] o Hk; try (injection Hk as <-; reflexivity).
    destruct k; discriminate Hk. }
  split; [reflexivity|]. split; [reflexivity|]. split; [reflexivity|].
  split; [repeat constructor|]. split; [reflexivity|].
  split; [exact Hevery|]. split; [exact Hfits|].
  exact (proj2 (proj2 (proj2 (proj2 (proj2
           (@predict_outputs_are_assembled nat (scripted predicting)
              (column (seq 0 10)) [] 4 0 10
              fresh_world (returned predict_run) (snd predict_run)
              eq_refl eq_refl eq_refl 0 (Nat.lt_0_succ 0))))))
         Hevery Hfits).
Defined.

(** The buffer has the dtype of the first batch, and a later output of
    another dtype is cast to it: [int64] outputs [[1], [1]] followed by
    [float64] outputs [[0.5], [0.7]] give the [int64] array
    [[1], [1], [0], [0]]. *)
Example later_outputs_are_cast :
  predict_loop (C := scripted mixed) (Some [samples 4]) (Some 2) 0 None
               fresh_world
  = (Ok (returned mixed_run), snd mixed_run) /\
  returned mixed_run
  = [mkArray int64 [1] [[SInt 1]; [SInt 1]; [SInt 0]; [SInt 0]]].
Proof.
  split; reflexivity.
Qed.

(** An output of one row is broadcast to the rows of its batch. *)
Example single_row_is_broadcast :
  predict_loop (C := scripted one_row) (Some [samples 4]) (Some 2) 0 None
               fresh_world
  = (Ok (returned one_row_run), snd one_row_run) /\
  returned one_row_run = [column [7; 7; 7; 7]].
Proof.
  split; reflexivity.
Qed.

(** An output of three rows does not go into a slice of two: numpy
    raises. *)
Example wrong_row_count_raises :
  predict_loop (C := scripted three_rows) (Some [samples 4]) (Some 2) 0 None
               fresh_world
  = three_rows_run /\
  fst three_rows_run = Raise (ValueError could_not_broadcast).
Proof.
  split; reflexivity.
Qed.

(** * Further properties *)

(** ** Batches of array data, without shuffling *)

Lemma skipn_cons_nth {A} (l : list A) (s : nat) (x : A) :
  nth_error l s = Some x -> skipn s l = x :: skipn (S s) l.
Proof.
  revert l. induction s as [|s IH]; intros [|y l] H; simpl in *;
    try discriminate.
  - now injection H as ->.
  - now apply IH.
Qed.

(** Rows taken at consecutive positions are a slice. *)
Lemma take_rows_seq {A} (rs : list A) (m s : nat) :
  s + m <= length rs -> take_rows rs (seq s m) = Some (firstn m (skipn s rs)).
Proof.
  revert s. induction m as [|m IH]; intros s H; simpl.
  - reflexivity.
  - destruct (nth_error rs s) as [r|] eqn:E.
    + rewrite IH by lia. rewrite (skipn_cons_nth _ _ E). reflexivity.
    + apply nth_error_None in E. lia.
Qed.

Lemma py_slice_seq (n s e : nat) :
  e <= n -> py_slice (seq 0 n) s e = seq s (e - s).
Proof.
  intros H. unfold py_slice. rewrite skipn_seq. apply firstn_seq_le. lia.
Qed.

Lemma mapR_all_ok {A B} (f : A -> result B) (g : A -> B) (l : list A) :
  (forall x, In x l -> f x = Ok (g x)) -> mapR f l = Ok (map g l).
Proof.
  induction l as [|x l IH]; intros H; simpl.
  - reflexivity.
  - rewrite (H x (or_introl eq_refl)), IH; auto.
    intros y Hy. apply H. now right.
Qed.

Lemma last_of_arrays (xs : list ndarray) :
  xs <> [] ->
  exists x, last (map Some (map PArray xs)) None = Some (PArray x).
Proof.
  induction xs as [|x xs IH]; intros H; [congruence|].
  destruct xs as [|y ys].
  - now exists x.
  - destruct IH as [z Hz]; [discriminate|]. exists z. exact Hz.
Qed.

(** The slice of array inputs at the index range of a batch. *)
Lemma slice_arrays_range (xs : list ndarray) (n s e : nat) :
  xs <> [] -> s <= e -> e <= n ->
  Forall (fun x => n <= length (rows x)) xs ->
  batch_ins_of (Some (map PArray xs)) (py_slice (seq 0 n) s e)
  = Ok (map (fun x => PArray (mkArray (dtype x) (trailing x)
                                      (py_slice (rows x) s e))) xs).
Proof.
  intros Hne Hse Hen HF. unfold batch_ins_of, slice_ins.
  destruct (last_of_arrays Hne) as [z ->]. simpl is_float. cbv iota.
  unfold slice_arrays. rewrite py_slice_seq by assumption.
  rewrite mapR_all_ok
    with (g := fun v => match v with
                        | PArray x =>
                            PArray (mkArray (dtype x) (trailing x)
                                      (py_slice (rows x) s e))
                        | _ => v
                        end).
  - now rewrite map_map.
  - intros v Hv. apply in_map_iff in Hv. destruct Hv as (x & <- & Hx).
    rewrite Forall_forall in HF. specialize (HF x Hx). simpl.
    rewrite take_rows_seq by lia. reflexivity.
Qed.

Section Unshuffled.

Context {T : Type} {C : Collaborators T}.

(** X1.  Without shuffling, over arrays of at least [num_samples] rows, batch
    [k] holds of every array the rows from [k * batch_size] up to
    [(k + 1) * batch_size], or up to [num_samples] for the last batch, in
    their order; no slicing raises; and the batches of an array put end
    to end are its first [num_samples] rows. *)
Theorem unshuffled_batches_are_consecutive_rows (xs : list ndarray) (n b : nat)
  (w : world T) :
  0 < b -> xs <> [] -> Forall (fun x => n <= length (rows x)) xs ->
  get_batch_generator (Some (map PArray xs)) (Some n) (Some b) ShuffleFalse w
  = (Ok (map (fun k =>
                Ok (map (fun x =>
                           PArray (mkArray (dtype x) (trailing x)
                                     (py_slice (rows x) (k * b)
                                               (Nat.min n ((k + 1) * b)))))
                        xs))
             (seq 0 (ceil_div n b))), w) /\
  forall x, In x xs ->
    concat (map (fun k => py_slice (rows x) (k * b) (Nat.min n ((k + 1) * b)))
                (seq 0 (ceil_div n b)))
    = firstn n (rows x).
Proof.
  intros Hb Hne HF. split.
  - unfold get_batch_generator, shuffled_index_array. run_monad.
    rewrite make_batches_pos by assumption. do 2 f_equal.
    unfold batch_ids_of. rewrite !map_map. apply map_ext_in.
    intros k Hk. cbn [fst snd]. apply in_seq in Hk.
    pose proof (ceil_div_bounds n Hb) as [_ U].
    assert (Hkb : k * b < n) by nia.
    apply slice_arrays_range; auto; lia.
  - intros x Hx. rewrite Forall_forall in HF. specialize (HF x Hx).
    pose proof (concat_batch_slices (firstn n (rows x)) b (ceil_div n b)) as E.
    rewrite length_firstn, Nat.min_l in E by assumption.
    rewrite firstn_firstn in E.
    rewrite Nat.min_r in E by apply (ceil_div_bounds n Hb).
    rewrite <- E. f_equal. apply map_ext. intros k.
    apply py_slice_same_prefix with (m := n); [|lia].
    now rewrite firstn_firstn, Nat.min_id.
Qed.

(** X2.  An exception of the slicing that is not a [TypeError] (an index out
    of range, an empty [ins]) leaves the generator as it is: the batches
    before it have been yielded, and it is what the consumer gets. *)
Theorem other_slicing_errors_pass_unchanged (ins : bundle) (n b : nat) shuffle
  (w : world T) index_array w' batches pre batch_ids post e :
  shuffled_index_array (Some n) (Some b) shuffle w = (Ok index_array, w') ->
  make_batches n b = Ok batches ->
  batch_ids_of index_array batches = pre ++ batch_ids :: post ->
  raised (map (batch_ins_of ins) pre) = None ->
  slice_ins ins batch_ids = Raise e ->
  (forall msg, e <> TypeError msg) ->
  exists items,
    get_batch_generator ins (Some n) (Some b) shuffle w = (Ok items, w') /\
    raised items = Some e /\
    length (yielded items) = length pre.
Proof.
  intros E Hm Hids Hpre Hslice Hnot.
  exists (map (batch_ins_of ins) (batch_ids_of index_array batches)).
  split.
  - unfold get_batch_generator, bind. rewrite E. run_monad. now rewrite Hm.
  - assert (Hitem : batch_ins_of ins batch_ids = Raise e).
    { unfold batch_ins_of. rewrite Hslice.
      destruct e; try reflexivity. now destruct (Hnot msg). }
    rewrite Hids, map_app. simpl. rewrite Hitem. split.
    + now rewrite raised_app.
    + rewrite yielded_until_raise by assumption. apply length_map.
Qed.

End Unshuffled.

Lemma unshuffled_batches_are_consecutive_rows_witness :
  0 < 2 /\ [column (seq 0 5)] <> [] /\
  Forall (fun x => 5 <= length (rows x))
         [column (seq 0 5)] /\
  get_batch_generator (C := scripted quiet) (Some [samples 5]) (Some 5) (Some 2)
                      ShuffleFalse fresh_world
  = (Ok [Ok [PArray (column [0; 1])];
         Ok [PArray (column [2; 3])];
         Ok [PArray (column [4])]], fresh_world).
Proof.
  assert (Hne : [column (seq 0 5)] <> [])
    by discriminate.
  assert (HF : Forall (fun x => 5 <= length (rows x))
                      [column (seq 0 5)])
    by (repeat constructor).
  split; [lia|]. split; [exact Hne|]. split; [exact HF|].
  exact (proj1 (@unshuffled_batches_are_consecutive_rows nat (scripted quiet)
                  [column (seq 0 5)] 5 2
                  fresh_world (Nat.lt_0_succ 1) Hne HF)).
Defined.

(** Four samples asked of an array of three: the second batch raises
    [IndexError], as it is. *)
Lemma other_slicing_errors_pass_unchanged_witness :
  shuffled_index_array (C := scripted quiet) (Some 4) (Some 2) ShuffleFalse
                       fresh_world = (Ok [0; 1; 2; 3], fresh_world) /\
  make_batches 4 2 = Ok [(0, 2); (2, 4)] /\
  batch_ids_of [0; 1; 2; 3] [(0, 2); (2, 4)] = [[0; 1]] ++ [2; 3] :: [] /\
  raised (map (batch_ins_of (Some [samples 3])) [[0; 1]]) = None /\
  slice_ins (Some [samples 3]) [2; 3] = Raise IndexError /\
  (forall msg, IndexError <> TypeError msg) /\
  exists items,
    get_batch_generator (C := scripted quiet) (Some [samples 3]) (Some 4)
                        (Some 2) ShuffleFalse fresh_world
    = (Ok items, fresh_world) /\
    raised items = Some IndexError /\
    length (yielded items) = length [[0; 1]].
Proof.
  assert (Hnot : forall msg, IndexError <> TypeError msg) by discriminate.
  repeat (split; [reflexivity|]). split; [exact Hnot|].
  exact (@other_slicing_errors_pass_unchanged nat (scripted quiet)
           (Some [samples 3]) 4 2 ShuffleFalse fresh_world [0; 1; 2; 3]
           fresh_world [(0, 2); (2, 4)] [[0; 1]] [2; 3] [] IndexError
           eq_refl eq_refl eq_refl eq_refl eq_refl Hnot).
Defined.

(** ** The result of [evaluate_loop], whatever ran *)

Section EvaluateShape.

Context {T : Type} {C : Collaborators T}.

Lemma evaluate_steps_shape ins batch_size verbose steps (w : world T) outs w' :
  evaluate_loop ins batch_size verbose (Some steps) w = (Ok outs, w') ->
  let batch_outs := test_outputs (new_events w w') in
  length batch_outs <= steps /\
  length outs = length (hd [] batch_outs) /\
  Forall (fun o => length o <= length outs) batch_outs.
Proof.
  intros H. apply evaluate_loop_steps_run in H.
  destruct H as (labels & w0 & evs0 & raw & X0 & Ht0 & Hloop & Hdiv).
  apply divide_outs_spec in Hdiv. destruct Hdiv as [Hlen _].
  destruct steps as [|steps'].
  - apply ret_ok in Hloop. destruct Hloop as [-> ->].
    cbv zeta. rewrite (extends_new_events X0), Ht0. simpl in *.
    repeat split; auto.
  - rewrite <- cons_seq in Hloop. apply evaluate_steps_cons in Hloop.
    destruct Hloop as (o & outs1 & w1 & evs1 & X1 & Ho & Hu & Hrest).
    apply step_accumulate in Hu. destruct Hu as (Hl1 & _ & _).
    unfold init_outs in Hl1. simpl in Hl1. rewrite length_map in Hl1.
    assert (Htail : exists evs2,
      extends w1 w' evs2 /\ length raw = length outs1 /\
      length (test_outputs evs2) <= steps' /\
      Forall (fun o => length o <= length outs1) (test_outputs evs2)).
    { destruct (stop_evaluating (st w1)).
      - destruct Hrest as [-> ->]. exists [].
        split; [apply extends_refl|]. simpl. repeat split; auto; lia.
      - apply evaluate_steps_tail in Hrest.
        + destruct Hrest as (evs2 & X2 & Hl2 & Hle & _ & _ & Hsh & _).
          rewrite length_seq in Hle. exists evs2. repeat split; auto.
        + apply Forall_forall. intros s Hs. apply in_seq in Hs. lia. }
    destruct Htail as (evs2 & X2 & Hl2 & Hle & Hsh).
    pose proof (extends_trans X0 (extends_trans X1 X2)) as X.
    cbv zeta. rewrite (extends_new_events X).
    rewrite !test_outputs_app, Ht0, Ho. simpl.
    split; [lia|]. split; [lia|]. constructor; [lia|].
    eapply Forall_impl; [|exact Hsh]. simpl. intros a Ha. lia.
Qed.

(** Sample mode, stopped or not.  The loop got its batches, so
    [num_samples] and [batch_size] are integers; each output that is not
    stateful is the sum over the batches that ran of the output times
    the size of the batch, divided by [num_samples]. *)
Lemma evaluate_batches_shape ins batch_size verbose (w : world T) outs w' :
  evaluate_loop ins batch_size verbose None w = (Ok outs, w') ->
  exists n b,
    check_num_samples ins batch_size None "steps" = Ok (Some n) /\
    batch_size = Some b /\ 0 < b /\
    let batch_outs := test_outputs (new_events w w') in
    let sizes := reported_sizes (new_events w w') in
    length batch_outs <= ceil_div n b /\
    length outs = length (hd [] batch_outs) /\
    Forall (fun o => length o <= length outs) batch_outs /\
    forall i, i < length outs ->
      if is_in i (stateful_at w)
      then latest i batch_outs = Some (nth i outs fzero)
      else nth i outs fzero
           = fdiv (weighted_sum i sizes batch_outs) (float_of_nat n).
Proof.
  intros H0. pose proof H0 as H. apply evaluate_loop_samples_run in H.
  destruct H as (num_samples & labels & indices & w0 & evs0 & items & raw
                 & Hn & X0 & Ht0 & Hr0 & Hgen & Hloop & Hdiv).
  destruct (get_batch_generator_unshuffled _ _ _ _ Hgen)
    as (n & b & -> & -> & Hb & _ & Hitems).
  exists n, b. split; [exact Hn|]. split; [reflexivity|]. split; [exact Hb|].
  pose proof (evaluate_batches_sum _ _ _ _ Hn H0) as [_ Hsum].
  cbv zeta in *.
  assert (Hcount : length items = ceil_div n b).
  { rewrite Hitems. unfold batch_ids_of.
    now rewrite !length_map, length_seq. }
  clear Hitems Hgen.
  apply divide_outs_spec in Hdiv. destruct Hdiv as [Hlen _].
  split; [|split; [|split; [|exact Hsum]]]; clear Hsum.
  all: destruct items as [|item rest];
    [ apply ret_ok in Hloop; destruct Hloop as [-> ->];
      rewrite (extends_new_events X0), Ht0; simpl in *;
      first [lia | exact Hlen | constructor] |].
  all: apply evaluate_batches_cons in Hloop;
    destruct Hloop as (size & o & outs1 & w1 & evs1 & X1 & Ho & Hsz & Hu & Hrest);
    apply sample_accumulate in Hu; destruct Hu as (Hl1 & _ & _);
    unfold init_outs in Hl1; cbn [Nat.eqb app] in Hl1;
    rewrite length_map in Hl1;
    assert (Htail : exists evs2,
      extends w1 w' evs2 /\ length raw = length outs1 /\
      length (test_outputs evs2) <= length rest /\
      Forall (fun o => length o <= length outs1) (test_outputs evs2));
    [ destruct (stop_evaluating (st w1));
      [ destruct Hrest as [-> ->]; exists [];
        split; [apply extends_refl|]; simpl; split; [reflexivity|];
        split; [lia|constructor]
      | apply evaluate_batches_tail in Hrest; [|lia];
        destruct Hrest as (evs2 & X2 & Hl2 & Hle & _ & Hsh & _);
        exists evs2; repeat split; auto ]
    | destruct Htail as (evs2 & X2 & Hl2 & Hle & Hsh);
      pose proof (extends_trans X0 (extends_trans X1 X2)) as X;
      rewrite (extends_new_events X);
      rewrite !test_outputs_app, Ht0, Ho;
      simpl app; simpl hd; simpl length in * ].
  - lia.
  - lia.
  - constructor; [lia|].
    eapply Forall_impl; [|exact Hsh]. simpl. intros a Ha. lia.
Qed.

(** X3.  The list [evaluate_loop] returns has one entry per output of the
    first batch, whatever the number of metric names, and none when no
    batch ran; no batch of a run that returns gave more outputs than the
    first, for then the loop raises [IndexError]. *)
Theorem evaluate_result_arity ins batch_size verbose steps (w : world T)
  outs w' :
  evaluate_loop ins batch_size verbose steps w = (Ok outs, w') ->
  let batch_outs := test_outputs (new_events w w') in
  length outs = length (hd [] batch_outs) /\
  Forall (fun o => length o <= length outs) batch_outs.
Proof.
  intros H. destruct steps as [steps|].
  - now apply evaluate_steps_shape in H.
  - apply evaluate_batches_shape in H.
    destruct H as (n & b & _ & _ & _ & H). cbv zeta in *. tauto.
Qed.

(** X4.  With [steps = 0], or with no sample, a run that returns has called
    the test function not once and returns the empty list. *)
Theorem evaluate_nothing_to_do ins batch_size verbose steps (w : world T)
  outs w' :
  evaluate_loop ins batch_size verbose steps w = (Ok outs, w') ->
  steps = Some 0 \/
  (steps = None /\
   check_num_samples ins batch_size None "steps" = Ok (Some 0)) ->
  outs = [] /\ test_outputs (new_events w w') = [].
Proof.
  intros H Hzero.
  assert (Hshape : length (test_outputs (new_events w w')) = 0 /\
                   length outs
                   = length (hd [] (test_outputs (new_events w w')))).
  { destruct Hzero as [-> | [-> Hn]].
    - apply evaluate_steps_shape in H. destruct H as (Hle & Hl & _).
      split; [lia|exact Hl].
    - apply evaluate_batches_shape in H.
      destruct H as (n & b & Hn' & _ & Hb & Hle & Hl & _).
      rewrite Hn in Hn'. injection Hn' as <-.
      rewrite ceil_div_zero in Hle by assumption.
      split; [lia|exact Hl]. }
  destruct Hshape as [Hnone Hl]. apply length_zero_iff_nil in Hnone.
  split; [|exact Hnone].
  rewrite Hnone in Hl. now apply length_zero_iff_nil.
Qed.

(** X5.  However many batches ran, an output that is not stateful is divided
    by the whole [num_samples]: after an early stop the result is the
    weighted sum over the batches that ran divided by the number of all
    samples, not of the samples seen. *)
Theorem sample_evaluation_divides_by_num_samples ins b verbose n (w : world T)
  outs w' :
  check_num_samples ins (Some b) None "steps" = Ok (Some n) ->
  evaluate_loop ins (Some b) verbose None w = (Ok outs, w') ->
  length (test_outputs (new_events w w')) <= ceil_div n b /\
  forall i, i < length outs -> is_in i (stateful_at w) = false ->
    nth i outs fzero
    = fdiv (weighted_sum i (reported_sizes (new_events w w'))
                         (test_outputs (new_events w w')))
           (float_of_nat n).
Proof.
  intros Hcheck H. apply evaluate_batches_shape in H.
  destruct H as (n' & b' & Hn & Eb & _ & Hle & _ & _ & Hsum).
  rewrite Hcheck in Hn. injection Hn as <-. injection Eb as <-.
  split; [exact Hle|]. intros i Hi Hs. specialize (Hsum i Hi).
  now rewrite Hs in Hsum.
Qed.

End EvaluateShape.

(** The 4 steps of 5: two outputs per step, two entries returned. *)
Lemma evaluate_result_arity_witness :
  evaluate_loop (C := scripted fives) (Some [samples 8]) None 0 (Some 4)
                fresh_world
  = (Ok (returned fives_run), snd fives_run) /\
  length (returned fives_run) = 2 /\
  length (returned fives_run)
  = length (hd [] (test_outputs (new_events fresh_world (snd fives_run)))) /\
  Forall (fun o => length o <= length (returned fives_run))
         (test_outputs (new_events fresh_world (snd fives_run))).
Proof.
  split; [reflexivity|]. split; [reflexivity|].
  exact (@evaluate_result_arity nat (scripted fives) (Some [samples 8]) None 0
           (Some 4) fresh_world (returned fives_run) (snd fives_run) eq_refl).
Defined.

Lemma evaluate_nothing_to_do_witness :
  evaluate_loop (C := scripted fives) (Some [samples 8]) None 0 (Some 0)
                fresh_world
  = (Ok (returned no_step_run), snd no_step_run) /\
  (Some 0 = Some 0 \/
   (Some 0 = None /\
    check_num_samples (Collaborators := scripted fives) (Some [samples 8])
                      None None "steps" = Ok (Some 0))) /\
  returned no_step_run = [] /\
  test_outputs (new_events fresh_world (snd no_step_run)) = [].
Proof.
  split; [reflexivity|]. split; [left; reflexivity|].
  exact (@evaluate_nothing_to_do nat (scripted fives) (Some [samples 8]) None 0
           (Some 0) fresh_world (returned no_step_run) (snd no_step_run)
           eq_refl (or_introl eq_refl)).
Defined.

(** Five samples, the evaluation stopped after the first batch of three,
    which returned 10: the loss is 10*3/5 = 6, not 10. *)
Lemma sample_evaluation_divides_by_num_samples_witness :
  check_num_samples (Collaborators := scripted ten_twenty_stopped)
                    (Some [samples 5]) (Some 3) None "steps" = Ok (Some 5) /\
  evaluate_loop (C := scripted ten_twenty_stopped) (Some [samples 5]) (Some 3)
                0 None fresh_world
  = (Ok (returned ten_twenty_stopped_run), snd ten_twenty_stopped_run) /\
  length (test_outputs (new_events fresh_world (snd ten_twenty_stopped_run)))
  = 1 /\
  nth 0 (returned ten_twenty_stopped_run) fzero = float_of_nat 6 /\
  length (test_outputs (new_events fresh_world (snd ten_twenty_stopped_run)))
  <= ceil_div 5 3 /\
  forall i, i < length (returned ten_twenty_stopped_run) ->
    is_in i (stateful_at (C := scripted ten_twenty_stopped) fresh_world)
    = false ->
    nth i (returned ten_twenty_stopped_run) fzero
    = fdiv (weighted_sum i
              (reported_sizes
                 (new_events fresh_world (snd ten_twenty_stopped_run)))
              (test_outputs
                 (new_events fresh_world (snd ten_twenty_stopped_run))))
           (float_of_nat 5).
Proof.
  split; [reflexivity|]. split; [reflexivity|]. split; [reflexivity|].
  split; [reflexivity|].
  exact (@sample_evaluation_divides_by_num_samples nat
           (scripted ten_twenty_stopped) (Some [samples 5]) 3 0 5 fresh_world
           (returned ten_twenty_stopped_run) (snd ten_twenty_stopped_run)
           eq_refl eq_refl).
Defined.

(** ** The order of the calls *)

(** Runs the first computation of a sequence, which leads to [q']. *)
Ltac go q' tac :=
  apply moves_bind with (post1 := fun _ reached => reached = q');
  [tac | let x := fresh "x" in let s := fresh "s" in let E := fresh "E" in
         intros x s E; subst s].

Lemma batches_over_last k planned b e :
  batches_over planned b = true -> batch_step k planned b e = None.
Proof.
  destruct b as [i| | | | |]; simpl; try discriminate; auto.
  destruct planned as [n|]; [|discriminate]. intros H.
  apply Nat.eqb_eq in H. subst n.
  destruct (batch_begin k e); auto.
  unfold below. now rewrite Nat.ltb_irrefl, andb_false_r.
Qed.

Lemma pass_over_last k planned p e :
  pass_over planned p = true -> pass_step k planned p e = None.
Proof.
  destruct p; simpl; try discriminate. intros H.
  now rewrite batches_over_last.
Qed.

Section ProtocolPrimitives.

Context {T : Type} {C : Collaborators T} {Q : Type}
        (step : Q -> event -> option Q).

Lemma moves_fail {A} q (e : exn) (post : A -> Q -> Prop) :
  moves (T := T) step q (raise e) post.
Proof.
  intros w r w' H. injection H as <- <-. exists [], q.
  split; [apply extends_refl|]. split; [reflexivity|]. discriminate.
Qed.

(** A result, returned or raised, with its value. *)
Lemma moves_liftR_value {A} q (r : result A) :
  moves (T := T) step q (liftR r) (fun a q' => q' = q /\ r = Ok a).
Proof.
  intros w r' w' H. injection H as <- <-. exists [], q.
  split; [apply extends_refl|]. split; [reflexivity|]. now split.
Qed.

Lemma moves_compute_train q ins (next : bool -> Q) :
  (forall r, step q (EvTrain ins r) = Some (next (is_ok r))) ->
  moves step q (call_train ins) (fun _ p => p = next true).
Proof.
  intros Hq w r w'. unfold call_train.
  destruct (train_function ins (st w)) as [r0 s].
  intros H. injection H as <- <-. exists [EvTrain ins r0], (next (is_ok r0)).
  split; [reflexivity|]. simpl. rewrite Hq. split; [reflexivity|].
  intros a ->. reflexivity.
Qed.

Lemma moves_compute_test q ins (next : bool -> Q) :
  (forall r, step q (EvTest ins r) = Some (next (is_ok r))) ->
  moves step q (call_test ins) (fun _ p => p = next true).
Proof.
  intros Hq w r w'. unfold call_test.
  destruct (test_function ins (st w)) as [r0 s].
  intros H. injection H as <- <-. exists [EvTest ins r0], (next (is_ok r0)).
  split; [reflexivity|]. simpl. rewrite Hq. split; [reflexivity|].
  intros a ->. reflexivity.
Qed.

Lemma moves_compute_predict q ins (next : bool -> Q) :
  (forall r, step q (EvPredict ins r) = Some (next (is_ok r))) ->
  moves step q (call_predict ins) (fun _ p => p = next true).
Proof.
  intros Hq w r w'. unfold call_predict.
  destruct (predict_function ins (st w)) as [r0 s].
  intros H. injection H as <- <-. exists [EvPredict ins r0], (next (is_ok r0)).
  split; [reflexivity|]. simpl. rewrite Hq. split; [reflexivity|].
  intros a ->. reflexivity.
Qed.

(** The generator adds no event; when it gives its batches the sample
    count and the batch size are integers, and there are
    [ceil(num_samples / batch_size)] items. *)
Lemma moves_generator_count q ins num_samples batch_size shuffle :
  moves step q (get_batch_generator ins num_samples batch_size shuffle)
        (fun items p =>
           p = q /\
           exists n b, num_samples = Some n /\ batch_size = Some b /\
                       length items = ceil_div n b).
Proof.
  intros w r w' H.
  destruct (@moves_get_batch_generator T C Q step q ins num_samples batch_size
              shuffle w r w' H) as (evs & q' & X & R & P).
  exists evs, q'. split; [exact X|]. split; [exact R|].
  intros items ->. split; [now apply (P items)|].
  clear X R P. unfold get_batch_generator, bind in H.
  destruct (shuffled_index_array num_samples batch_size shuffle w)
    as [[index_array|e] w1]; [|discriminate].
  destruct num_samples as [n|]; [|discriminate].
  destruct batch_size as [b|]; [|discriminate].
  run_monad. destruct b as [|b']; [discriminate|].
  simpl in H. injection H as <- _. exists n, (S b').
  split; [reflexivity|]. split; [reflexivity|].
  unfold batch_ids_of. now rewrite !length_map, length_seq.
Qed.

End ProtocolPrimitives.

Section BatchProtocol.

Context {T : Type} {C : Collaborators T} {Q : Type}
        (step : Q -> event -> option Q) (inj : batch_phase -> Q) (N : nat).

Section OfKind.

Variable k : loop_kind.
Hypothesis inside : embeds (batch_step k (Some N)) step inj.

Lemma begin_step i e :
  i < N -> batch_begin k e = Some i -> step (inj (Expect i)) e = Some (inj (Begun i)).
Proof.
  intros Hi He. apply inside. simpl. rewrite He, Nat.eqb_refl.
  now apply Nat.ltb_lt in Hi as ->.
Qed.

Lemma compute_step i e ok :
  computed k e = Some ok ->
  step (inj (Begun i)) e = Some (inj (if ok then Computed i else Failed)).
Proof. intros He. apply inside. simpl. rewrite He. now destruct ok. Qed.

Lemma end_step i e :
  batch_end k e = Some i -> step (inj (Computed i)) e = Some (inj (Ended i)).
Proof. intros He. apply inside. simpl. now rewrite He, Nat.eqb_refl. Qed.

Lemma flag_step i e b :
  flag_read k e = Some b ->
  step (inj (Ended i)) e = Some (inj (if b then Stopped else Expect (S i))).
Proof. intros He. apply inside. simpl. rewrite He. now destruct b. Qed.

End OfKind.

Section TrainingBatches.

Hypothesis inside : embeds (batch_step Training (Some N)) step inj.

Lemma protocol_fit_steps ins labels m :
  forall i, i + m = N ->
    moves step (inj (Expect i)) (fit_steps ins labels (seq i m))
          (fun _ p => left_batches inj N p).
Proof.
  induction m as [|m IH]; intros i Hi; simpl.
  - apply moves_ret. right. f_equal. f_equal. lia.
  - go (inj (Begun i))
       ltac:(apply moves_tell; apply (begin_step inside); [lia|reflexivity]).
    go (inj (Computed i))
       ltac:(apply moves_compute_train
               with (next := fun ok : bool =>
                               inj (if ok then Computed i else Failed));
             intros r; now apply (compute_step inside)).
    go (inj (Ended i))
       ltac:(apply moves_tell; now apply (end_step inside)).
    apply moves_bind
      with (post1 := fun (b : bool) p =>
                       p = inj (if b then Stopped else Expect (S i))).
    + apply moves_poll
        with (next := fun b : bool => inj (if b then Stopped else Expect (S i))).
      intros b. now apply (flag_step inside).
    + intros [|] p ->.
      * apply moves_ret. now left.
      * apply IH. lia.
Qed.

Lemma protocol_fit_batches indices labels items :
  forall i, i + length items = N ->
    moves step (inj (Expect i)) (fit_batches indices labels i items)
          (fun _ p => left_batches inj N p).
Proof.
  induction items as [|item rest IH]; intros i Hi; simpl in *.
  - apply moves_ret. right. f_equal. f_equal. lia.
  - keep (inj (Expect i)) ltac:(apply moves_liftR).
    keep (inj (Expect i)) ltac:(apply moves_liftR).
    go (inj (Begun i))
       ltac:(apply moves_tell; apply (begin_step inside); [lia|reflexivity]).
    keep (inj (Begun i)) ltac:(apply moves_liftR).
    go (inj (Computed i))
       ltac:(apply moves_compute_train
               with (next := fun ok : bool =>
                               inj (if ok then Computed i else Failed));
             intros r; now apply (compute_step inside)).
    go (inj (Ended i))
       ltac:(apply moves_tell; now apply (end_step inside)).
    apply moves_bind
      with (post1 := fun (b : bool) p =>
                       p = inj (if b then Stopped else Expect (S i))).
    + apply moves_poll
        with (next := fun b : bool => inj (if b then Stopped else Expect (S i))).
      intros b. now apply (flag_step inside).
    + intros [|] p ->.
      * apply moves_ret. now left.
      * apply IH. lia.
Qed.

End TrainingBatches.

Section EvaluatingBatches.

Hypothesis inside : embeds (batch_step Evaluating (Some N)) step inj.

Lemma protocol_evaluate_steps stateful ins labels m :
  forall i outs, i + m = N ->
    moves step (inj (Expect i))
          (evaluate_steps stateful ins labels (seq i m) outs)
          (fun _ p => left_batches inj N p).
Proof.
  induction m as [|m IH]; intros i outs Hi; simpl.
  - apply moves_ret. right. f_equal. f_equal. lia.
  - go (inj (Begun i))
       ltac:(apply moves_tell; apply (begin_step inside); [lia|reflexivity]).
    go (inj (Computed i))
       ltac:(apply moves_compute_test
               with (next := fun ok : bool =>
                               inj (if ok then Computed i else Failed));
             intros r; now apply (compute_step inside)).
    go (inj (Ended i))
       ltac:(apply moves_tell; now apply (end_step inside)).
    keep (inj (Ended i)) ltac:(apply moves_liftR).
    apply moves_bind
      with (post1 := fun (b : bool) p =>
                       p = inj (if b then Stopped else Expect (S i))).
    + apply moves_poll
        with (next := fun b : bool => inj (if b then Stopped else Expect (S i))).
      intros b. now apply (flag_step inside).
    + intros [|] p ->.
      * apply moves_ret. now left.
      * apply IH. lia.
Qed.

Lemma protocol_evaluate_batches stateful indices labels items :
  forall i outs, i + length items = N ->
    moves step (inj (Expect i))
          (evaluate_batches stateful indices labels i items outs)
          (fun _ p => left_batches inj N p).
Proof.
  induction items as [|item rest IH]; intros i outs Hi; simpl in *.
  - apply moves_ret. right. f_equal. f_equal. lia.
  - keep (inj (Expect i)) ltac:(apply moves_liftR).
    keep (inj (Expect i)) ltac:(apply moves_liftR).
    go (inj (Begun i))
       ltac:(apply moves_tell; apply (begin_step inside); [lia|reflexivity]).
    keep (inj (Begun i)) ltac:(apply moves_liftR).
    go (inj (Computed i))
       ltac:(apply moves_compute_test
               with (next := fun ok : bool =>
                               inj (if ok then Computed i else Failed));
             intros r; now apply (compute_step inside)).
    go (inj (Ended i))
       ltac:(apply moves_tell; now apply (end_step inside)).
    keep (inj (Ended i)) ltac:(apply moves_liftR).
    apply moves_bind
      with (post1 := fun (b : bool) p =>
                       p = inj (if b then Stopped else Expect (S i))).
    + apply moves_poll
        with (next := fun b : bool => inj (if b then Stopped else Expect (S i))).
      intros b. now apply (flag_step inside).
    + intros [|] p ->.
      * apply moves_ret. now left.
      * apply IH. lia.
Qed.

End EvaluatingBatches.

Section PredictingBatches.

Hypothesis inside : embeds (batch_step Predicting (Some N)) step inj.

Lemma protocol_predict_steps ins m :
  forall i outs, i + m = N ->
    moves step (inj (Expect i)) (predict_steps ins (seq i m) outs)
          (fun _ p => left_batches inj N p).
Proof.
  induction m as [|m IH]; intros i outs Hi; simpl.
  - apply moves_ret. right. f_equal. f_equal. lia.
  - go (inj (Begun i))
       ltac:(apply moves_tell; apply (begin_step inside); [lia|reflexivity]).
    go (inj (Computed i))
       ltac:(apply moves_compute_predict
               with (next := fun ok : bool =>
                               inj (if ok then Computed i else Failed));
             intros r; now apply (compute_step inside)).
    go (inj (Ended i))
       ltac:(apply moves_tell; now apply (end_step inside)).
    keep (inj (Ended i)) ltac:(apply moves_liftR).
    apply moves_bind
      with (post1 := fun (b : bool) p =>
                       p = inj (if b then Stopped else Expect (S i))).
    + apply moves_poll
        with (next := fun b : bool => inj (if b then Stopped else Expect (S i))).
      intros b. now apply (flag_step inside).
    + intros [|] p ->.
      * apply moves_ret. now left.
      * apply IH. lia.
Qed.

Lemma protocol_predict_batches indices num_samples batch_size items :
  forall i outs, i + length items = N ->
    moves step (inj (Expect i))
          (predict_batches indices num_samples batch_size i items outs)
          (fun _ p => left_batches inj N p).
Proof.
  induction items as [|item rest IH]; intros i outs Hi; simpl in *.
  - apply moves_ret. right. f_equal. f_equal. lia.
  - keep (inj (Expect i)) ltac:(apply moves_liftR).
    keep (inj (Expect i)) ltac:(apply moves_liftR).
    go (inj (Begun i))
       ltac:(apply moves_tell; apply (begin_step inside); [lia|reflexivity]).
    keep (inj (Begun i)) ltac:(apply moves_liftR).
    go (inj (Computed i))
       ltac:(apply moves_compute_predict
               with (next := fun ok : bool =>
                               inj (if ok then Computed i else Failed));
             intros r; now apply (compute_step inside)).
    go (inj (Ended i))
       ltac:(apply moves_tell; now apply (end_step inside)).
    keep (inj (Ended i)) ltac:(idtac).
    { destruct (i =? 0); [|now apply moves_ret].
      match goal with |- context [match ?b with [] => _ | _ => _ end] =>
        destruct b end; [now apply moves_ret|].
      keep (inj (Ended i)) ltac:(apply moves_as_int). now apply moves_ret. }
    keep (inj (Ended i)) ltac:(idtac).
    { match goal with |- context [match ?b with [] => _ | _ => _ end] =>
        destruct b end; [now apply moves_ret|].
      keep (inj (Ended i)) ltac:(apply moves_as_int). apply moves_liftR. }
    apply moves_bind
      with (post1 := fun (b : bool) p =>
                       p = inj (if b then Stopped else Expect (S i))).
    + apply moves_poll
        with (next := fun b : bool => inj (if b then Stopped else Expect (S i))).
      intros b. now apply (flag_step inside).
    + intros [|] p ->.
      * apply moves_ret. now left.
      * apply IH. lia.
Qed.

End PredictingBatches.

End BatchProtocol.

Section PassProtocol.

Context {T : Type} {C : Collaborators T} {Q : Type}
        (step : Q -> event -> option Q) (inj : pass_phase -> Q).

Lemma embeds_batches k planned :
  embeds (pass_step k planned) step inj ->
  embeds (batch_step k planned) step (fun b => inj (InBatches b)).
Proof. intros H b e b' Hb. apply H. simpl. now rewrite Hb. Qed.

Lemma left_batches_pass N planned p :
  planned = Some N ->
  left_batches (fun b => inj (InBatches b)) N p -> left_pass inj planned p.
Proof. intros HN [-> | ->]; [now left|right; now exists N]. Qed.

Lemma protocol_evaluate_loop ins batch_size verbose steps :
  embeds (pass_step Evaluating (planned_batches ins batch_size steps "steps"))
         step inj ->
  moves step (inj PassStart) (evaluate_loop ins batch_size verbose steps)
        (fun _ p => left_pass inj (planned_batches ins batch_size steps "steps") p).
Proof.
  intros inside. unfold evaluate_loop.
  apply moves_bind
    with (post1 := fun _ p => p = inj PassStart \/ p = inj PassReset).
  { destruct has_metrics.
    - go (inj PassReset) ltac:(apply moves_tell; now apply inside).
      keep (inj PassReset) ltac:(apply moves_read).
      apply moves_ret. now right.
    - apply moves_ret. now left. }
  intros stateful p0 Hp0.
  apply moves_bind
    with (post1 := fun a p =>
                     p = p0 /\ check_num_samples ins batch_size steps "steps" = Ok a).
  { apply moves_liftR_value. }
  intros num_samples p [-> Hn].
  keep p0 ltac:(apply moves_read).
  go (inj PassListed)
     ltac:(destruct Hp0 as [-> | ->]; apply moves_tell; now apply inside).
  go (inj PassModelSet) ltac:(apply moves_tell; now apply inside).
  go (inj PassParamsSet) ltac:(apply moves_tell; now apply inside).
  keep (inj PassParamsSet) ltac:(apply moves_write).
  go (inj (InBatches (Expect 0))) ltac:(apply moves_tell; now apply inside).
  destruct steps as [steps|].
  - eapply moves_bind.
    + apply protocol_evaluate_steps
        with (inj := fun b => inj (InBatches b)) (N := steps);
        [now apply embeds_batches|reflexivity].
    + intros outs p Hp. eapply moves_weaken; [apply moves_liftR|].
      intros a ? ->. now apply left_batches_pass with (N := steps).
  - apply moves_bind
      with (post1 := fun items p =>
              p = inj (InBatches (Expect 0)) /\
              exists n b, num_samples = Some n /\ batch_size = Some b /\
                          length items = ceil_div n b).
    { apply moves_generator_count. }
    intros items p (-> & n & b & -> & -> & Hlen).
    assert (HN : planned_batches ins (Some b) None "steps"
                 = Some (ceil_div n b)).
    { unfold planned_batches. now rewrite Hn. }
    rewrite HN in *.
    eapply moves_bind.
    + apply protocol_evaluate_batches
        with (inj := fun b => inj (InBatches b)) (N := ceil_div n b);
        [now apply embeds_batches|exact Hlen].
    + intros outs p Hp. eapply moves_weaken; [apply moves_liftR|].
      intros a ? ->. now apply left_batches_pass with (N := ceil_div n b).
Qed.

Lemma protocol_predict_loop ins batch_size verbose steps :
  embeds (pass_step Predicting (planned_batches ins batch_size steps "steps"))
         step inj ->
  moves step (inj PassStart) (predict_loop ins batch_size verbose steps)
        (fun _ p => left_pass inj (planned_batches ins batch_size steps "steps") p).
Proof.
  intros inside. unfold predict_loop.
  apply moves_bind
    with (post1 := fun a p =>
                     p = inj PassStart /\
                     check_num_samples ins batch_size steps "steps" = Ok a).
  { apply moves_liftR_value. }
  intros num_samples p [-> Hn].
  go (inj PassListed) ltac:(apply moves_tell; now apply inside).
  go (inj PassModelSet) ltac:(apply moves_tell; now apply inside).
  go (inj PassParamsSet) ltac:(apply moves_tell; now apply inside).
  keep (inj PassParamsSet) ltac:(apply moves_write).
  go (inj (InBatches (Expect 0))) ltac:(apply moves_tell; now apply inside).
  destruct steps as [steps|].
  - eapply moves_bind.
    + apply protocol_predict_steps
        with (inj := fun b => inj (InBatches b)) (N := steps);
        [now apply embeds_batches|reflexivity].
    + intros outs p Hp. eapply moves_weaken; [apply moves_liftR|].
      intros a ? ->. now apply left_batches_pass with (N := steps).
  - apply moves_bind
      with (post1 := fun items p =>
              p = inj (InBatches (Expect 0)) /\
              exists n b, num_samples = Some n /\ batch_size = Some b /\
                          length items = ceil_div n b).
    { apply moves_generator_count. }
    intros items p (-> & n & b & -> & -> & Hlen).
    assert (HN : planned_batches ins (Some b) None "steps"
                 = Some (ceil_div n b)).
    { unfold planned_batches. now rewrite Hn. }
    rewrite HN in *.
    eapply moves_weaken.
    + apply protocol_predict_batches
        with (inj := fun b => inj (InBatches b)) (N := ceil_div n b);
        [now apply embeds_batches|exact Hlen].
    + intros outs p Hp. now apply left_batches_pass with (N := ceil_div n b).
Qed.

End PassProtocol.

Lemma embeds_itself {P} (step : P -> event -> option P) :
  embeds step step (fun p => p).
Proof. now intros p e p'. Qed.

Section PassOrder.

Context {T : Type} {C : Collaborators T}.

(** X6.  In every run of [evaluate_loop], returning or raising, the calls
    come in this order: the stateful metrics are reset, the callback
    list is made, given the model and the parameters, then its
    [validation_data]; then for each batch [on_evaluate_batch_begin],
    the test function, [on_evaluate_batch_end] and the reading of
    [stop_evaluating], the batch indices counting from 0.  A batch whose
    test function raised gets no [on_evaluate_batch_end]; nothing
    follows a flag read set; no more batches begin than [steps], or
    than the batches of the samples.  A run that returns has read the
    flag set or done all those batches. *)
Theorem evaluate_loop_follows_protocol ins batch_size verbose steps
  (w : world T) :
  let planned := planned_batches ins batch_size steps "steps" in
  exists p,
    run_steps (pass_step Evaluating planned) PassStart
      (new_events w (snd (evaluate_loop ins batch_size verbose steps w)))
    = Some p /\
    (is_ok (fst (evaluate_loop ins batch_size verbose steps w)) = true ->
     p = InBatches Stopped \/
     exists N, planned = Some N /\ p = InBatches (Expect N)).
Proof.
  intros planned.
  destruct (evaluate_loop ins batch_size verbose steps w) as [r w'] eqn:E.
  pose proof (@protocol_evaluate_loop T C pass_phase
                (pass_step Evaluating planned) (fun p => p) ins batch_size
                verbose steps (embeds_itself _)) as Hm.
  destruct (Hm w r w' E) as (evs & p & X & R & P).
  exists p. simpl. rewrite (extends_new_events X). split; [exact R|].
  intros Hok. destruct r as [a|e]; [|discriminate]. exact (P a eq_refl).
Qed.

(** X7.  In every run of [predict_loop], returning or raising, the calls
    come in this order: the callback list is made, given the model and
    the parameters, then its [validation_data] (no metric is reset);
    then for each batch [on_predict_batch_begin], the predict function,
    [on_predict_batch_end] and the reading of [stop_predicting], the
    batch indices counting from 0.  A batch whose predict function
    raised gets no [on_predict_batch_end]; nothing follows a flag read
    set; no more batches begin than [steps], or than the batches of the
    samples.  A run that returns has read the flag set or done all those
    batches. *)
Theorem predict_loop_follows_protocol ins batch_size verbose steps
  (w : world T) :
  let planned := planned_batches ins batch_size steps "steps" in
  exists p,
    run_steps (pass_step Predicting planned) PassStart
      (new_events w (snd (predict_loop ins batch_size verbose steps w)))
    = Some p /\
    (is_ok (fst (predict_loop ins batch_size verbose steps w)) = true ->
     p = InBatches Stopped \/
     exists N, planned = Some N /\ p = InBatches (Expect N)).
Proof.
  intros planned.
  destruct (predict_loop ins batch_size verbose steps w) as [r w'] eqn:E.
  pose proof (@protocol_predict_loop T C pass_phase
                (pass_step Predicting planned) (fun p => p) ins batch_size
                verbose steps (embeds_itself _)) as Hm.
  destruct (Hm w r w' E) as (evs & p & X & R & P).
  exists p. simpl. rewrite (extends_new_events X). split; [exact R|].
  intros Hok. destruct r as [a|e]; [|discriminate]. exact (P a eq_refl).
Qed.

End PassOrder.

(** ** The order of the calls of [fit_loop] *)

Lemma pass_step_leaves_start k planned p e p' :
  pass_step k planned p e = Some p' -> p' <> PassStart.
Proof.
  destruct p; simpl.
  - destruct e as [|n| | | |]; try discriminate.
    destruct n; try discriminate.
    + intros H. injection H as <-. discriminate.
    + destruct k; try discriminate. intros H. injection H as <-. discriminate.
  - destruct e as [|n| | | |]; try discriminate.
    destruct n; try discriminate. intros H. injection H as <-. discriminate.
  - destruct e as [|n| | | |]; try discriminate.
    destruct n; try discriminate. intros H. injection H as <-. discriminate.
  - destruct e as [|n| | | |]; try discriminate.
    destruct n; try discriminate. intros H. injection H as <-. discriminate.
  - destruct e as [|n| | | |]; try discriminate.
    destruct n; try discriminate. intros H. injection H as <-. discriminate.
  - destruct (batch_step k planned b e); simpl; [|discriminate].
    intros H. injection H as <-. discriminate.
Qed.

Section FitProtocol.

Context {T : Type} {C : Collaborators T}.

Variable pl : plan.

Lemma protocol_print_train_on verbose ins val_ins :
  moves (T := T) (fit_step pl) FitStart (print_train_on verbose ins val_ins)
        (fun _ p => p = FitStart \/ p = FitAnnounced).
Proof.
  intros w r w' H. rewrite print_train_on_run in H. injection H as <- <-.
  assert (Hm : train_on_message verbose ins val_ins = [] \/
               exists n m, train_on_message verbose ins val_ins = [EvPrint n m]).
  { unfold train_on_message.
    destruct ins as [[|x ?]|]; auto. destruct val_ins as [[|v ?]|]; auto.
    destruct ((0 <? verbose) && has_shape x && has_shape v); auto.
    destruct (shape0_of x); auto. destruct (shape0_of v); auto.
    right. eauto. }
  destruct Hm as [Hm | (n & m & Hm)]; rewrite Hm.
  - exists [], FitStart. split; [|split; auto]. unfold extends. simpl.
    reflexivity.
  - exists [EvPrint n m], FitAnnounced. split; [reflexivity|]. split; auto.
Qed.

Lemma protocol_check_validation verbose ins val_ins steps_per_epoch
  validation_steps :
  moves (T := T) (fit_step pl) FitStart
        (check_validation verbose ins val_ins steps_per_epoch validation_steps)
        (fun do_validation p =>
           (p = FitStart \/ p = FitAnnounced) /\
           do_validation
           = truthy_int validation_steps || truthy_bundle val_ins).
Proof.
  unfold check_validation.
  apply moves_bind
    with (post1 := fun dv p => (p = FitStart \/ p = FitAnnounced) /\
                               dv = truthy_bundle val_ins).
  { destruct (truthy_bundle val_ins).
    - eapply moves_bind; [apply protocol_print_train_on|].
      intros u p Hp. now apply moves_ret.
    - apply moves_ret. auto. }
  intros dv p [Hp ->].
  destruct (truthy_int validation_steps).
  - destruct steps_per_epoch; [|apply moves_fail].
    apply moves_ret. auto.
  - destruct (truthy_bundle val_ins); [|apply moves_ret; auto].
    destruct (truthy_int steps_per_epoch); [apply moves_fail|].
    apply moves_ret. auto.
Qed.

Variables (ins val_ins : bundle) (batch_size : option nat)
          (shuffle : shuffle_mode) (steps_per_epoch validation_steps : option nat)
          (do_validation : bool) (num_train_samples : option nat)
          (labels : list string) (indices : list nat).

Hypothesis counted :
  check_num_samples ins batch_size steps_per_epoch "steps_per_epoch"
  = Ok num_train_samples.
Hypothesis batches_planned :
  epoch_batches pl
  = planned_batches ins batch_size steps_per_epoch "steps_per_epoch".
Hypothesis validation_planned :
  validation_batches pl
  = match steps_per_epoch with
    | Some _ => planned_batches val_ins None validation_steps "steps"
    | None => planned_batches val_ins batch_size None "steps"
    end.
Hypothesis validation_decided : validating pl = do_validation.

Lemma embeds_training epoch : 
  embeds (batch_step Training (epoch_batches pl)) (fit_step pl) (Batches epoch).
Proof. intros b e b' Hb. simpl. now rewrite Hb. Qed.

(** The validation pass starts where the batches were left. *)
Lemma embeds_validation epoch b :
  batches_over (epoch_batches pl) b = true -> validating pl = true ->
  embeds (pass_step Evaluating (validation_batches pl)) (fit_step pl)
         (fun p => match p with
                   | PassStart => Batches epoch b
                   | _ => Validating epoch p
                   end).
Proof.
  intros Hover Hval p e p' Hp.
  pose proof (pass_step_leaves_start _ _ _ _ Hp) as Hne.
  assert (Hinj : match p' with
                 | PassStart => Batches epoch b
                 | _ => Validating epoch p'
                 end = Validating epoch p') by (destruct p'; congruence).
  rewrite Hinj. destruct p; unfold fit_step; try (now rewrite Hp).
  rewrite (batches_over_last Training _ _ e Hover), Hover, Hval.
  now rewrite Hp.
Qed.

Lemma protocol_validation epoch b val_batch_size val_steps (epoch_logs : dict) :
  batches_over (epoch_batches pl) b = true ->
  validation_batches pl = planned_batches val_ins val_batch_size val_steps "steps" ->
  moves (fit_step pl) (Batches epoch b)
        (if do_validation then
           val_outs <- evaluate_loop val_ins val_batch_size 0 val_steps ;;
           ret (log_outputs "val_" labels val_outs epoch_logs)
         else ret epoch_logs)
        (fun _ p => forall logs,
           fit_step pl p (EvNotify (OnEpochEnd epoch logs))
           = Some (EpochEnded epoch)).
Proof.
  intros Hover Hplanned. destruct do_validation eqn:Ed.
  - eapply moves_bind.
    + apply protocol_evaluate_loop
        with (inj := fun p => match p with
                              | PassStart => Batches epoch b
                              | _ => Validating epoch p
                              end).
      rewrite <- Hplanned. now apply embeds_validation.
    + intros val_outs p Hp. apply moves_ret. intros logs.
      rewrite <- Hplanned in Hp.
      assert (Hp' : exists pp, p = Validating epoch pp /\
                               pass_over (validation_batches pl) pp = true).
      { destruct Hp as [-> | (N & HN & ->)].
        - now exists (InBatches Stopped).
        - exists (InBatches (Expect N)). split; [reflexivity|].
          simpl. rewrite HN. apply Nat.eqb_refl. }
      destruct Hp' as (pp & -> & Hpp). simpl.
      rewrite (pass_over_last Evaluating _ _ _ Hpp), Hpp.
      now rewrite Nat.eqb_refl.
  - apply moves_ret. intros logs. simpl.
    rewrite (batches_over_last Training _ _ _ Hover), Hover.
    rewrite validation_decided. simpl. now rewrite Nat.eqb_refl.
Qed.

Lemma left_batches_over epoch N p :
  epoch_batches pl = Some N -> left_batches (Batches epoch) N p ->
  exists b, p = Batches epoch b /\ batches_over (epoch_batches pl) b = true.
Proof.
  intros HN [-> | ->].
  - now exists Stopped.
  - exists (Expect N). split; [reflexivity|]. simpl. rewrite HN.
    apply Nat.eqb_refl.
Qed.

Lemma protocol_fit_epoch_body epoch :
  moves (fit_step pl) (Batches epoch (Expect 0))
        (fit_epoch_body ins val_ins batch_size shuffle steps_per_epoch
                        validation_steps do_validation num_train_samples
                        labels indices)
        (fun _ p => forall logs,
           fit_step pl p (EvNotify (OnEpochEnd epoch logs))
           = Some (EpochEnded epoch)).
Proof.
  unfold fit_epoch_body. destruct steps_per_epoch as [steps|].
  - assert (HN : epoch_batches pl = Some steps) by now rewrite batches_planned.
    eapply moves_bind.
    + apply protocol_fit_steps with (inj := Batches epoch) (N := steps);
        [rewrite <- HN; apply embeds_training|reflexivity].
    + intros u p Hp.
      destruct (left_batches_over HN Hp) as (b & -> & Hover).
      now apply protocol_validation.
  - apply moves_bind
      with (post1 := fun items p =>
              p = Batches epoch (Expect 0) /\
              exists n b, num_train_samples = Some n /\ batch_size = Some b /\
                          length items = ceil_div n b).
    { apply moves_generator_count. }
    intros items p (-> & n & b & En & Eb & Hlen).
    assert (HN : epoch_batches pl = Some (ceil_div n b)).
    { rewrite batches_planned. unfold planned_batches.
      now rewrite counted, En, Eb. }
    eapply moves_bind.
    + apply protocol_fit_batches
        with (inj := Batches epoch) (N := ceil_div n b);
        [rewrite <- HN; apply embeds_training|exact Hlen].
    + intros u p Hp.
      destruct (left_batches_over HN Hp) as (b' & -> & Hover).
      now apply protocol_validation.
Qed.

Lemma protocol_fit_epochs m :
  forall epoch, epoch + m = Nat.max epoch (last_epoch pl) ->
    moves (fit_step pl) (Between epoch)
          (fit_epochs ins val_ins batch_size shuffle steps_per_epoch
                      validation_steps do_validation num_train_samples labels
                      indices (seq epoch m))
          (fun _ p => fit_step pl p (EvNotify OnTrainEnd) = Some Finished).
Proof.
  induction m as [|m IH]; intros epoch He; simpl.
  - apply moves_ret. simpl.
    assert (Hlt : (epoch <? last_epoch pl) = false) by (apply Nat.ltb_ge; lia).
    now rewrite Hlt.
  - assert (Hlt : (epoch <? last_epoch pl) = true) by (apply Nat.ltb_lt; lia).
    go (EpochReset epoch) ltac:(apply moves_tell; simpl; now rewrite Hlt).
    go (Batches epoch (Expect 0))
       ltac:(apply moves_tell; simpl; now rewrite Nat.eqb_refl).
    eapply moves_bind; [apply protocol_fit_epoch_body|].
    intros epoch_logs p Hp.
    go (EpochEnded epoch) ltac:(apply moves_tell; apply Hp).
    apply moves_bind
      with (post1 := fun (b : bool) p =>
                       p = if b then Stopping else Between (S epoch)).
    + apply moves_poll
        with (next := fun b : bool => if b then Stopping else Between (S epoch)).
      now intros [|].
    + intros [|] p' ->.
      * now apply moves_ret.
      * apply IH. lia.
Qed.

End FitProtocol.

Section FitOrder.

Context {T : Type} {C : Collaborators T}.

Lemma protocol_fit_loop ins batch_size epochs verbose val_ins shuffle
  initial_epoch steps_per_epoch validation_steps :
  moves (fit_step (fit_plan ins batch_size epochs val_ins initial_epoch
                            steps_per_epoch validation_steps))
        FitStart
        (fit_loop ins batch_size epochs verbose val_ins shuffle initial_epoch
                  steps_per_epoch validation_steps)
        (fun _ p => p = Finished).
Proof.
  set (pl := fit_plan ins batch_size epochs val_ins initial_epoch
                      steps_per_epoch validation_steps).
  unfold fit_loop.
  eapply moves_bind; [apply protocol_check_validation|].
  intros do_validation p0 [Hp0 Hdv].
  apply moves_bind
    with (post1 := fun a p =>
            p = p0 /\
            check_num_samples ins batch_size steps_per_epoch "steps_per_epoch"
            = Ok a).
  { apply moves_liftR_value. }
  intros num_train_samples p [-> Hn].
  keep p0 ltac:(apply moves_read).
  keep p0 ltac:(idtac).
  { destruct do_validation.
    - keep p0 ltac:(apply moves_write). now apply moves_ret.
    - now apply moves_ret. }
  go FitListed ltac:(destruct Hp0 as [-> | ->]; now apply moves_tell).
  go FitModelSet ltac:(now apply moves_tell).
  go FitParamsSet ltac:(now apply moves_tell).
  go FitBegun ltac:(now apply moves_tell).
  keep FitBegun ltac:(apply moves_write).
  go (Between initial_epoch) ltac:(now apply moves_tell).
  eapply moves_bind.
  - apply protocol_fit_epochs with (pl := pl); auto. simpl. lia.
  - intros u p Hp. eapply moves_weaken; [apply moves_tell; exact Hp|].
    now intros _ ? ->.
Qed.

(** X8.  In every run of [fit_loop], returning or raising, the calls come in
    this order.  The message is printed, if it is; the callback list is
    made, given the model and the parameters; [on_train_begin]; the
    callbacks get their [validation_data].  Then the epochs, numbered
    from [initial_epoch] and below [epochs]: the stateful metrics are
    reset, [on_epoch_begin]; the batches, each
    [on_fit_batch_begin], the train function, [on_fit_batch_end] and the
    reading of [stop_training], their indices counting from 0 and below
    the planned number; when the flag is read set or the planned
    batches are done, the validation pass, complete and in the order of
    [evaluate_loop], if and only if validation is on; then
    [on_epoch_end] with the number of the epoch, and the flag is read
    again.  [on_train_end] is called once, when the flag was read set
    after [on_epoch_end] or no epoch is left, and is the last call.  A
    run that returns has called [on_train_end]. *)
Theorem fit_loop_follows_protocol ins batch_size epochs verbose val_ins shuffle
  initial_epoch steps_per_epoch validation_steps (w : world T) :
  exists p,
    run_steps (fit_step (fit_plan ins batch_size epochs val_ins initial_epoch
                                  steps_per_epoch validation_steps))
      FitStart
      (new_events w
         (snd (fit_loop ins batch_size epochs verbose val_ins shuffle
                        initial_epoch steps_per_epoch validation_steps w)))
    = Some p /\
    (is_ok (fst (fit_loop ins batch_size epochs verbose val_ins shuffle
                          initial_epoch steps_per_epoch validation_steps w))
     = true ->
     p = Finished).
Proof.
  destruct (fit_loop ins batch_size epochs verbose val_ins shuffle initial_epoch
                     steps_per_epoch validation_steps w) as [r w'] eqn:E.
  pose proof (@protocol_fit_loop ins batch_size epochs verbose val_ins shuffle
                initial_epoch steps_per_epoch validation_steps) as Hm.
  destruct (Hm w r w' E) as (evs & p & X & R & P).
  exists p. simpl. rewrite (extends_new_events X). split; [exact R|].
  intros Hok. destruct r as [u|e]; [|discriminate]. exact (P u eq_refl).
Qed.

End FitOrder.

(** ** The number of the calls *)

Lemma compute_calls_cons k e evs :
  compute_calls k (e :: evs)
  = (if is_compute k e then 1 else 0) + compute_calls k evs.
Proof. unfold compute_calls. simpl. now destruct (is_compute k e). Qed.

Lemma batch_bound_le N b : batch_valid N b -> batch_bound N b <= N.
Proof. destruct b; simpl; lia. Qed.

Lemma pass_bound_le N p : pass_valid N p -> pass_bound N p <= N.
Proof. destruct p; simpl; try lia. apply batch_bound_le. Qed.

Ltac read_step :=
  repeat match goal with
         | H : (if ?c then _ else _) = Some _ |- _ =>
             destruct c eqn:?; try discriminate H
         | H : Some _ = Some _ |- _ => injection H as <-
         | H : None = Some _ |- _ => discriminate H
         | H : _ && _ = true |- _ => apply andb_prop in H; destruct H
         | H : (_ <? _) = true |- _ => apply Nat.ltb_lt in H
         | H : (_ <? _) = false |- _ => apply Nat.ltb_ge in H
         | H : (_ =? _) = true |- _ => apply Nat.eqb_eq in H; subst
         end.

(** One move of the batches: the bound grows by the call made, and by
    no more unless the flag is read set or the compute function
    raises. *)
Lemma batch_step_bound k N b e b1 :
  batch_valid N b -> batch_step k (Some N) b e = Some b1 ->
  batch_valid N b1 /\
  batch_bound N b + (if is_compute k e then 1 else 0) <= batch_bound N b1 /\
  (is_stop k e = false -> b1 <> Failed ->
   batch_bound N b + (if is_compute k e then 1 else 0) = batch_bound N b1).
Proof.
  unfold is_compute, is_stop.
  destruct b; intros Hv H; simpl in H;
    destruct k; destruct e as [|n|? r|? r|? r|site flag];
    try destruct n; try destruct site; try destruct flag; try destruct r;
    simpl in *; try discriminate H; read_step; simpl;
    repeat split; try lia; try congruence.
Qed.

Lemma pass_step_bound k N p e p1 :
  pass_valid N p -> pass_step k (Some N) p e = Some p1 ->
  pass_valid N p1 /\
  pass_bound N p + (if is_compute k e then 1 else 0) <= pass_bound N p1 /\
  (is_stop k e = false -> p1 <> InBatches Failed ->
   pass_bound N p + (if is_compute k e then 1 else 0) = pass_bound N p1).
Proof.
  destruct p as [| | | | |b].
  1-5: intros _ H; unfold is_compute; simpl in H;
       destruct e as [|n| | | |]; try discriminate H;
       destruct n; try discriminate H; destruct k; try discriminate H;
       injection H as <-; simpl; repeat split; lia.
  intros Hv H. simpl in H.
  destruct (batch_step k (Some N) b e) as [b1|] eqn:Eb; [|discriminate].
  injection H as <-. simpl.
  destruct (batch_step_bound k N b e Hv Eb) as (V & L & X).
  split; [exact V|]. split; [exact L|]. intros Hs Hf. apply X; congruence.
Qed.

Lemma pass_run_bound k N evs :
  forall p p', pass_valid N p ->
    run_steps (pass_step k (Some N)) p evs = Some p' ->
    pass_valid N p' /\
    pass_bound N p + compute_calls k evs <= pass_bound N p' /\
    (stop_read k evs = false -> p' <> InBatches Failed ->
     pass_bound N p + compute_calls k evs = pass_bound N p').
Proof.
  induction evs as [|e t IH]; intros p p' Hv H; simpl in H.
  - injection H as <-. unfold compute_calls. simpl.
    repeat split; auto; lia.
  - destruct (pass_step k (Some N) p e) as [p1|] eqn:E1; [|discriminate].
    destruct (pass_step_bound k N p e Hv E1) as (V1 & L1 & X1).
    destruct (IH p1 p' V1 H) as (V & L & X).
    rewrite compute_calls_cons. split; [exact V|]. split; [lia|].
    simpl. intros Hs Hf. apply orb_false_iff in Hs. destruct Hs as [Hs1 Hs2].
    assert (Hp1 : p1 <> InBatches Failed).
    { intros ->. destruct t; simpl in H; [|discriminate].
      injection H as <-. now apply Hf. }
    specialize (X1 Hs1 Hp1). specialize (X Hs2 Hf). lia.
Qed.

Section PassCounts.

Context {T : Type} {C : Collaborators T}.

(** X9.  [evaluate_loop] calls the test function once per batch and no more
    than the planned number of times; a run that returns without having
    read [stop_evaluating] set has called it exactly that many times:
    [steps] times, or once per batch of the samples. *)
Theorem evaluate_loop_calls_per_batch ins batch_size verbose steps N
  (w : world T) :
  planned_batches ins batch_size steps "steps" = Some N ->
  let run := evaluate_loop ins batch_size verbose steps w in
  let evs := new_events w (snd run) in
  compute_calls Evaluating evs <= N /\
  (is_ok (fst run) = true -> stop_read Evaluating evs = false ->
   compute_calls Evaluating evs = N).
Proof.
  intros HN. cbv zeta.
  destruct (evaluate_loop ins batch_size verbose steps w) as [r w'] eqn:E.
  pose proof (@protocol_evaluate_loop T C pass_phase
                (pass_step Evaluating
                   (planned_batches ins batch_size steps "steps"))
                (fun p => p) ins batch_size verbose steps (embeds_itself _))
    as Hm.
  destruct (Hm w r w' E) as (evs & p & X & R & P).
  simpl. rewrite (extends_new_events X). rewrite HN in R, P.
  destruct (pass_run_bound Evaluating N evs PassStart I R) as (V & L & Q).
  simpl in L, Q. pose proof (pass_bound_le N p V) as Hle.
  split; [lia|]. intros Hok Hs.
  destruct r as [a|e]; [|discriminate].
  destruct (P a eq_refl) as [-> | (N' & HN' & ->)].
  - apply Q; [exact Hs|discriminate].
  - injection HN' as <-. apply Q; [exact Hs|discriminate].
Qed.

(** X10.  [predict_loop] calls the predict function once per batch and no
    more than the planned number of times; a run that returns without
    having read [stop_predicting] set has called it exactly that many
    times: [steps] times, or once per batch of the samples. *)
Theorem predict_loop_calls_per_batch ins batch_size verbose steps N
  (w : world T) :
  planned_batches ins batch_size steps "steps" = Some N ->
  let run := predict_loop ins batch_size verbose steps w in
  let evs := new_events w (snd run) in
  compute_calls Predicting evs <= N /\
  (is_ok (fst run) = true -> stop_read Predicting evs = false ->
   compute_calls Predicting evs = N).
Proof.
  intros HN. cbv zeta.
  destruct (predict_loop ins batch_size verbose steps w) as [r w'] eqn:E.
  pose proof (@protocol_predict_loop T C pass_phase
                (pass_step Predicting
                   (planned_batches ins batch_size steps "steps"))
                (fun p => p) ins batch_size verbose steps (embeds_itself _))
    as Hm.
  destruct (Hm w r w' E) as (evs & p & X & R & P).
  simpl. rewrite (extends_new_events X). rewrite HN in R, P.
  destruct (pass_run_bound Predicting N evs PassStart I R) as (V & L & Q).
  simpl in L, Q. pose proof (pass_bound_le N p V) as Hle.
  split; [lia|]. intros Hok Hs.
  destruct r as [a|e]; [|discriminate].
  destruct (P a eq_refl) as [-> | (N' & HN' & ->)].
  - apply Q; [exact Hs|discriminate].
  - injection HN' as <-. apply Q; [exact Hs|discriminate].
Qed.

End PassCounts.

#[local] Arguments Nat.sub : simpl never.

Lemma next_epoch_bound f e N : f <= e -> (S e - f) * N = (e - f) * N + N.
Proof. intros H. replace (S e - f) with (S (e - f)) by lia. simpl. lia. Qed.

Lemma epochs_bound_le f e last N :
  e <= last -> (e - f) * N <= (last - f) * N.
Proof. intros H. apply Nat.mul_le_mono_r. lia. Qed.

Lemma batches_over_bound N b :
  batches_over (Some N) b = true -> batch_bound N b = N.
Proof.
  destruct b; simpl; try discriminate; auto.
  intros H. now apply Nat.eqb_eq in H.
Qed.

Lemma pass_step_not_training planned p e p1 :
  pass_step Evaluating planned p e = Some p1 -> is_compute Training e = false.
Proof.
  unfold is_compute. destruct e; simpl; try reflexivity.
  intros H. destruct p as [| | | | |b]; simpl in H; try discriminate.
  destruct b; simpl in H; discriminate.
Qed.

Lemma epoch_end_bound pl epoch e p1 :
  first_epoch pl <= epoch < last_epoch pl ->
  epoch_end epoch e = Some p1 ->
  p1 = EpochEnded epoch /\ is_compute Training e = false.
Proof.
  intros Hv H. unfold epoch_end in H.
  destruct e as [|n| | | |]; try discriminate. destruct n; try discriminate.
  read_step. now split.
Qed.

Lemma fit_bound_le pl N p :
  fit_valid pl N p ->
  fit_bound pl N p <= (last_epoch pl - first_epoch pl) * N.
Proof.
  destruct p; simpl; try (intros; apply Nat.le_0_l); try (intros; apply Nat.le_refl).
  - intros H. apply Nat.mul_le_mono_r. lia.
  - intros H. apply Nat.mul_le_mono_r. lia.
  - intros [H Hb]. apply batch_bound_le in Hb.
    pose proof (@epochs_bound_le (first_epoch pl) (S epoch) (last_epoch pl) N
                  ltac:(lia)).
    rewrite next_epoch_bound in * by lia. lia.
  - intros H. apply epochs_bound_le. lia.
  - intros H. apply epochs_bound_le. lia.
Qed.

(** One move of [fit_loop]: the bound grows by the train call made, and
    by no more unless the flag is read set or the train function
    raises. *)
Lemma fit_step_bound pl N p e p1 :
  epoch_batches pl = Some N -> fit_valid pl N p ->
  fit_step pl p e = Some p1 ->
  fit_valid pl N p1 /\
  fit_bound pl N p + (if is_compute Training e then 1 else 0)
  <= fit_bound pl N p1 /\
  (is_training_stop e = false -> (forall epoch, p1 <> Batches epoch Failed) ->
   fit_bound pl N p + (if is_compute Training e then 1 else 0)
   = fit_bound pl N p1).
Proof.
  intros HN Hv H.
  destruct p as [| | | | | |epoch|epoch|epoch b|epoch pp|epoch| |].
  1-6: simpl in H; destruct e as [|n| | | |]; try discriminate H;
       try destruct n; try discriminate H; injection H as <-;
       unfold is_compute; simpl; repeat split; try lia;
       rewrite Nat.sub_diag; reflexivity.
  - simpl in H, Hv. destruct e as [|n| | | |]; try discriminate H.
    destruct n; try discriminate H; read_step; unfold is_compute; simpl.
    + repeat split; lia.
    + assert (Hd : epoch - first_epoch pl = last_epoch pl - first_epoch pl)
        by lia.
      rewrite Hd. repeat split; lia.
  - simpl in H, Hv. destruct e as [|n| | | |]; try discriminate H.
    destruct n; try discriminate H. read_step. unfold is_compute. simpl.
    repeat split; lia.
  - simpl in Hv. destruct Hv as [He Hb]. unfold fit_step in H.
    rewrite HN in H.
    destruct (batch_step Training (Some N) b e) as [b1|] eqn:Eb.
    + injection H as <-.
      destruct (batch_step_bound Training N b e Hb Eb) as (V & L & X).
      simpl. split; [now split|]. split; [lia|].
      intros Hs Hf. rewrite <- X; [lia| |intros ->; now apply (Hf epoch)].
      unfold is_stop. destruct e as [| | | | |site flag]; auto.
      destruct site; auto.
    + destruct (batches_over (Some N) b) eqn:Hover; [|discriminate].
      apply batches_over_bound in Hover.
      destruct (validating pl).
      * destruct (pass_step Evaluating (validation_batches pl) PassStart e)
          as [pp1|] eqn:Ep; [|discriminate].
        injection H as <-. rewrite (pass_step_not_training _ _ _ Ep).
        simpl. rewrite next_epoch_bound by lia. repeat split; lia.
      * destruct (epoch_end_bound pl e He H) as [-> ->].
        simpl. rewrite next_epoch_bound by lia. repeat split; lia.
  - simpl in Hv. unfold fit_step in H.
    destruct (pass_step Evaluating (validation_batches pl) pp e)
      as [pp1|] eqn:Ep.
    + injection H as <-. rewrite (pass_step_not_training _ _ _ Ep).
      simpl. repeat split; lia.
    + destruct (pass_over (validation_batches pl) pp); [|discriminate].
      destruct (epoch_end_bound pl e Hv H) as [-> ->].
      simpl. repeat split; lia.
  - simpl in H, Hv. destruct e as [| | | | |site flag]; try discriminate H.
    destruct site; try discriminate H. unfold is_compute.
    destruct flag; injection H as <-; simpl.
    + split; [exact I|]. split; [|discriminate].
      rewrite Nat.add_0_r. apply epochs_bound_le. lia.
    + repeat split; lia.
  - simpl in H. destruct e as [|n| | | |]; try discriminate H.
    destruct n; try discriminate H. injection H as <-.
    unfold is_compute. simpl. repeat split; lia.
  - discriminate.
Qed.

Lemma fit_run_bound pl N evs :
  epoch_batches pl = Some N ->
  forall p p', fit_valid pl N p ->
    run_steps (fit_step pl) p evs = Some p' ->
    fit_valid pl N p' /\
    fit_bound pl N p + compute_calls Training evs <= fit_bound pl N p' /\
    (training_stopped evs = false ->
     (forall epoch, p' <> Batches epoch Failed) ->
     fit_bound pl N p + compute_calls Training evs = fit_bound pl N p').
Proof.
  intros HN. induction evs as [|e t IH]; intros p p' Hv H; simpl in H.
  - injection H as <-. unfold compute_calls. simpl.
    repeat split; auto; lia.
  - destruct (fit_step pl p e) as [p1|] eqn:E1; [|discriminate].
    destruct (fit_step_bound pl p e HN Hv E1) as (V1 & L1 & X1).
    destruct (IH p1 p' V1 H) as (V & L & X).
    rewrite compute_calls_cons. split; [exact V|]. split; [lia|].
    simpl. intros Hs Hf. apply orb_false_iff in Hs. destruct Hs as [Hs1 Hs2].
    assert (Hp1 : forall epoch, p1 <> Batches epoch Failed).
    { intros epoch ->. destruct t; simpl in H; [|discriminate].
      injection H as <-. now apply (Hf epoch). }
    specialize (X1 Hs1 Hp1). specialize (X Hs2 Hf). lia.
Qed.

Section FitCounts.

Context {T : Type} {C : Collaborators T}.

(** X11.  [fit_loop] calls the train function once per batch, and no more
    than [epochs - initial_epoch] times the number of batches of an
    epoch; a run that returns without having read [stop_training] set
    has called it exactly that many times: every batch of every epoch
    was trained on once. *)
Theorem fit_loop_trains_every_batch ins batch_size epochs verbose val_ins
  shuffle initial_epoch steps_per_epoch validation_steps N (w : world T) :
  planned_batches ins batch_size steps_per_epoch "steps_per_epoch" = Some N ->
  let run := fit_loop ins batch_size epochs verbose val_ins shuffle
                      initial_epoch steps_per_epoch validation_steps w in
  let evs := new_events w (snd run) in
  compute_calls Training evs <= (epochs - initial_epoch) * N /\
  (is_ok (fst run) = true -> training_stopped evs = false ->
   compute_calls Training evs = (epochs - initial_epoch) * N).
Proof.
  intros HN. cbv zeta.
  destruct (fit_loop ins batch_size epochs verbose val_ins shuffle initial_epoch
                     steps_per_epoch validation_steps w) as [r w'] eqn:E.
  pose proof (@protocol_fit_loop T C ins batch_size epochs verbose val_ins
                shuffle initial_epoch steps_per_epoch validation_steps) as Hm.
  destruct (Hm w r w' E) as (evs & p & X & R & P).
  simpl. rewrite (extends_new_events X).
  set (pl := fit_plan ins batch_size epochs val_ins initial_epoch
                      steps_per_epoch validation_steps) in *.
  destruct (@fit_run_bound pl N evs HN FitStart p I R) as (V & L & Q).
  simpl in L, Q. pose proof (fit_bound_le pl N p V) as Hle. simpl in Hle.
  split; [lia|]. intros Hok Hs.
  destruct r as [a|e]; [|discriminate].
  rewrite (P a eq_refl) in Q. simpl in Q. apply Q; [exact Hs|discriminate].
Qed.

End FitCounts.

(** Five samples evaluated in batches of three: two batches planned, and
    two calls of the test function. *)
Lemma evaluate_loop_calls_per_batch_witness :
  planned_batches (C := scripted ten_twenty) (Some [samples 5]) (Some 3) None
                  "steps" = Some 2 /\
  compute_calls Evaluating
    (new_events fresh_world
       (snd (evaluate_loop (C := scripted ten_twenty) (Some [samples 5])
                           (Some 3) 0 None fresh_world))) <= 2 /\
  (is_ok (fst (evaluate_loop (C := scripted ten_twenty) (Some [samples 5])
                             (Some 3) 0 None fresh_world)) = true ->
   stop_read Evaluating
     (new_events fresh_world
        (snd (evaluate_loop (C := scripted ten_twenty) (Some [samples 5])
                            (Some 3) 0 None fresh_world))) = false ->
   compute_calls Evaluating
     (new_events fresh_world
        (snd (evaluate_loop (C := scripted ten_twenty) (Some [samples 5])
                            (Some 3) 0 None fresh_world))) = 2).
Proof.
  split; [reflexivity|].
  exact (@evaluate_loop_calls_per_batch nat (scripted ten_twenty)
           (Some [samples 5]) (Some 3) 0 None 2 fresh_world eq_refl).
Defined.

(** Ten samples predicted in batches of four: three batches planned. *)
Lemma predict_loop_calls_per_batch_witness :
  planned_batches (C := scripted predicting) (Some [samples 10]) (Some 4) None
                  "steps" = Some 3 /\
  compute_calls Predicting
    (new_events fresh_world
       (snd (predict_loop (C := scripted predicting) (Some [samples 10])
                          (Some 4) 0 None fresh_world))) <= 3 /\
  (is_ok (fst (predict_loop (C := scripted predicting) (Some [samples 10])
                            (Some 4) 0 None fresh_world)) = true ->
   stop_read Predicting
     (new_events fresh_world
        (snd (predict_loop (C := scripted predicting) (Some [samples 10])
                           (Some 4) 0 None fresh_world))) = false ->
   compute_calls Predicting
     (new_events fresh_world
        (snd (predict_loop (C := scripted predicting) (Some [samples 10])
                           (Some 4) 0 None fresh_world))) = 3).
Proof.
  split; [reflexivity|].
  exact (@predict_loop_calls_per_batch nat (scripted predicting)
           (Some [samples 10]) (Some 4) 0 None 3 fresh_world eq_refl).
Defined.

(** Epochs 1 and 2 over five samples in batches of two: three batches an
    epoch, six train steps. *)
Lemma fit_loop_trains_every_batch_witness :
  planned_batches (C := scripted fives) (Some [samples 5]) (Some 2) None
                  "steps_per_epoch" = Some 3 /\
  fit_loop (C := scripted fives) (Some [samples 5]) (Some 2) 3 0 None
           ShuffleTrue 1 None None fresh_world = plain_fit_run /\
  compute_calls Training (new_events fresh_world (snd plain_fit_run))
  <= (3 - 1) * 3 /\
  (is_ok (fst plain_fit_run) = true ->
   training_stopped (new_events fresh_world (snd plain_fit_run)) = false ->
   compute_calls Training (new_events fresh_world (snd plain_fit_run))
   = (3 - 1) * 3).
Proof.
  split; [reflexivity|]. split; [reflexivity|].
  exact (@fit_loop_trains_every_batch nat (scripted fives) (Some [samples 5])
           (Some 2) 3 0 None ShuffleTrue 1 None None 3 fresh_world eq_refl).
Defined.

(** ** Training without validation *)

Lemma training_step_not_test planned b e b1 :
  batch_step Training planned b e = Some b1 -> is_compute Evaluating e = false.
Proof.
  unfold is_compute. destruct e; simpl; try reflexivity.
  intros H. destruct b; simpl in H; discriminate.
Qed.

Lemma fit_step_without_validation pl p e p1 :
  validating pl = false ->
  (forall epoch pp, p <> Validating epoch pp) ->
  fit_step pl p e = Some p1 ->
  (forall epoch pp, p1 <> Validating epoch pp) /\
  is_compute Evaluating e = false.
Proof.
  intros Hval Hp H.
  destruct p as [| | | | | |epoch|epoch|epoch b|epoch pp|epoch| |].
  1-8: simpl in H; destruct e as [|n| | | |]; try discriminate H;
       try destruct n; try discriminate H; read_step;
       split; try discriminate; reflexivity.
  - unfold fit_step in H.
    destruct (batch_step Training (epoch_batches pl) b e) as [b1|] eqn:Eb.
    + injection H as <-. split; [discriminate|].
      exact (training_step_not_test _ _ _ Eb).
    + destruct (batches_over (epoch_batches pl) b); [|discriminate].
      rewrite Hval in H. unfold epoch_end in H.
      destruct e as [|n| | | |]; try discriminate H.
      destruct n; try discriminate H. read_step.
      split; [discriminate|reflexivity].
  - now contradiction (Hp epoch pp).
  - simpl in H. destruct e as [| | | | |site flag]; try discriminate H.
    destruct site; try discriminate H.
    destruct flag; injection H as <-; split; try discriminate; reflexivity.
  - simpl in H. destruct e as [|n| | | |]; try discriminate H.
    destruct n; try discriminate H. injection H as <-.
    split; [discriminate|reflexivity].
  - discriminate.
Qed.

Lemma fit_run_without_validation pl evs :
  validating pl = false ->
  forall p p', (forall epoch pp, p <> Validating epoch pp) ->
    run_steps (fit_step pl) p evs = Some p' ->
    forall ins r, ~ In (EvTest ins r) evs.
Proof.
  intros Hval. induction evs as [|e t IH]; intros p p' Hp H ins r; simpl in *.
  - tauto.
  - destruct (fit_step pl p e) as [p1|] eqn:E1; [|discriminate].
    destruct (fit_step_without_validation pl e Hval Hp E1) as [Hp1 He].
    intros [-> | Hin].
    + discriminate He.
    + exact (IH p1 p' Hp1 H ins r Hin).
Qed.

Section NoValidation.

Context {T : Type} {C : Collaborators T}.

(** X12.  With no validation data (or an empty list of it) and no
    [validation_steps] (or zero), no run of [fit_loop] calls the test
    function. *)
Theorem fit_without_validation_never_tests ins batch_size epochs verbose
  val_ins shuffle initial_epoch steps_per_epoch validation_steps
  (w : world T) :
  truthy_bundle val_ins = false -> truthy_int validation_steps = false ->
  forall test_ins r,
    ~ In (EvTest test_ins r)
         (new_events w
            (snd (fit_loop ins batch_size epochs verbose val_ins shuffle
                           initial_epoch steps_per_epoch validation_steps w))).
Proof.
  intros Hv Hs.
  destruct (fit_loop ins batch_size epochs verbose val_ins shuffle initial_epoch
                     steps_per_epoch validation_steps w) as [r w'] eqn:E.
  pose proof (@protocol_fit_loop T C ins batch_size epochs verbose val_ins
                shuffle initial_epoch steps_per_epoch validation_steps) as Hm.
  destruct (Hm w r w' E) as (evs & p & X & R & P).
  simpl. rewrite (extends_new_events X).
  eapply fit_run_without_validation; [| |exact R].
  - simpl. now rewrite Hv, Hs.
  - discriminate.
Qed.

End NoValidation.

Lemma fit_without_validation_never_tests_witness :
  fit_loop (C := scripted fives) (Some [samples 5]) (Some 2) 3 0 None
           ShuffleTrue 1 None None fresh_world = plain_fit_run /\
  forall test_ins r,
    ~ In (EvTest test_ins r) (new_events fresh_world (snd plain_fit_run)).
Proof.
  split; [reflexivity|].
  exact (@fit_without_validation_never_tests nat (scripted fives)
           (Some [samples 5]) (Some 2) 3 0 None ShuffleTrue 1 None None
           fresh_world eq_refl eq_refl).
Defined.

(** ** [predict_loop] in step mode *)

Ltac split_bounds :=
  repeat match goal with
         | |- context [?a <=? ?b] => destruct (Nat.leb_spec a b)
         | |- context [?a <? ?b] => destruct (Nat.ltb_spec a b)
         | |- context [?a =? ?b] => destruct (Nat.eqb_spec a b)
         end; simpl; try lia.

Lemma append_outs_spec batch_outs :
  forall i us us',
    append_outs i batch_outs us = Ok us' ->
    length us' = length us /\
    (batch_outs <> [] -> i + length batch_outs <= length us) /\
    forall j,
      nth j us' []
      = if (i <=? j) && (j <? i + length batch_outs)
        then nth j us [] ++ [nth (j - i) batch_outs empty_array]
        else nth j us [].
Proof.
  induction batch_outs as [|o t IH]; intros i us us' H; simpl in H.
  - injection H as <-. split; [reflexivity|]. split; [congruence|].
    intros j. simpl length. split_bounds; reflexivity.
  - destruct (nth_error us i) as [l|] eqn:En; [|discriminate].
    apply IH in H. destruct H as (Hl & Hb & Hn).
    rewrite length_list_set in Hl, Hb.
    pose proof (nth_error_lt _ _ En) as Hi.
    split; [exact Hl|]. split.
    + intros _. simpl length. destruct t as [|o' t'].
      * simpl. lia.
      * specialize (Hb ltac:(discriminate)). simpl in *. lia.
    + intros j. rewrite Hn, nth_list_set. simpl length.
      split_bounds; try reflexivity;
        try (replace (j - i) with (S (j - S i)) by lia; reflexivity);
        subst j; rewrite Nat.sub_diag; simpl; f_equal;
        symmetry; now apply nth_error_nth_eq.
Qed.

Lemma nth_map_nil {A B} (l : list A) j :
  nth j (map (fun _ => @nil B) l) [] = [].
Proof. revert j. induction l; intros [|j]; simpl; auto. Qed.

Lemma outputs_at_app j a b :
  outputs_at j (a ++ b) = outputs_at j a ++ outputs_at j b.
Proof. unfold outputs_at. apply flat_map_app. Qed.

Lemma outputs_at_one j (o : list ndarray) (l : list ndarray) :
  (if j <? length o then l ++ [nth j o empty_array] else l)
  = l ++ outputs_at j [o].
Proof.
  unfold outputs_at. simpl. rewrite app_nil_r.
  destruct (Nat.ltb_spec j (length o)) as [H|H].
  - destruct (nth_error o j) as [a|] eqn:En.
    + now rewrite (nth_error_nth_eq _ _ _ En).
    + apply nth_error_None in En. lia.
  - apply nth_error_None in H. rewrite H. now rewrite app_nil_r.
Qed.

Section PredictSteps.

Context {T : Type} {C : Collaborators T}.

(** One turn of the step loop that did not raise. *)
Lemma predict_steps_cons ins step rest us0 (w : world T) us w' :
  predict_steps ins (step :: rest) us0 w = (Ok us, w') ->
  exists o us1 w1 evs,
    extends w w1 evs /\ predict_outputs evs = [o] /\
    append_outs 0 o (if step =? 0 then us0 ++ map (fun _ => []) o else us0)
    = Ok us1 /\
    if stop_predicting (st w1) then us = us1 /\ w' = w1
    else predict_steps ins rest us1 w1 = (Ok us, w').
Proof.
  intros H. simpl in H.
  step_run H u1 w1 E1. apply tell_ok in E1. destruct E1 as [_ X1].
  step_run H o w2 E2. apply call_predict_ok in E2.
  step_run H u3 w3 E3. apply tell_ok in E3. destruct E3 as [_ X3].
  step_run H us1 w4 E4. apply liftR_ok in E4. destruct E4 as [E4 ->].
  step_run H b w5 E5. apply poll_ok in E5. destruct E5 as (Eb & Es & X5).
  exists o, us1, w5. eexists. split.
  - eapply extends_trans; [exact X1|].
    eapply extends_trans; [exact E2|].
    eapply extends_trans; [exact X3|exact X5].
  - split; [reflexivity|]. split; [exact E4|].
    rewrite Es, <- Eb. destruct b.
    + apply ret_ok in H. destruct H as [-> ->]. now split.
    + exact H.
Qed.

Lemma predict_steps_tail ins steps_left :
  forall us0 (w : world T) us w',
    Forall (fun s => s <> 0) steps_left ->
    predict_steps ins steps_left us0 w = (Ok us, w') ->
    exists evs,
      extends w w' evs /\
      length us = length us0 /\
      Forall (fun o => length o <= length us0) (predict_outputs evs) /\
      forall j, nth j us [] = nth j us0 [] ++ outputs_at j (predict_outputs evs).
Proof.
  induction steps_left as [|step rest IH]; intros us0 w us w' Hnz H.
  - apply ret_ok in H. destruct H as [-> ->]. exists [].
    split; [apply extends_refl|]. split; [reflexivity|].
    split; [constructor|]. intros j. simpl. now rewrite app_nil_r.
  - apply predict_steps_cons in H.
    destruct H as (o & us1 & w1 & evs1 & X1 & Ho & Ha & Hrest).
    inversion Hnz as [|? ? Hstep Hnz']. subst.
    apply Nat.eqb_neq in Hstep. rewrite Hstep in Ha.
    apply append_outs_spec in Ha. destruct Ha as (Hl1 & Hb1 & Hn1).
    assert (Hlo : length o <= length us0).
    { destruct o; [simpl; lia|]. specialize (Hb1 ltac:(discriminate)). lia. }
    assert (Hn1' : forall j, nth j us1 [] = nth j us0 [] ++ outputs_at j [o]).
    { intros j. rewrite Hn1, <- outputs_at_one. simpl.
      now rewrite Nat.sub_0_r. }
    destruct (stop_predicting (st w1)).
    + destruct Hrest as [-> ->]. exists evs1. split; [exact X1|].
      split; [exact Hl1|]. rewrite Ho. split; [now constructor|exact Hn1'].
    + apply IH in Hrest; [|exact Hnz'].
      destruct Hrest as (evs2 & X2 & Hl2 & Hsh & Hn2).
      exists (evs1 ++ evs2). split; [eapply extends_trans; eassumption|].
      split; [congruence|]. rewrite predict_outputs_app, Ho. split.
      * constructor; [exact Hlo|]. now rewrite <- Hl1.
      * intros j. rewrite Hn2, Hn1', <- app_assoc.
        now rewrite <- outputs_at_app.
Qed.

(** What [predict_loop] does before and after its loop, in step mode. *)
Lemma predict_loop_steps_run ins batch_size verbose steps (w : world T) outs w' :
  predict_loop ins batch_size verbose (Some steps) w = (Ok outs, w') ->
  exists w0 evs0 us,
    extends w w0 evs0 /\ predict_outputs evs0 = [] /\
    predict_steps ins (seq 0 steps) [] w0 = (Ok us, w') /\
    mapR np_concatenate us = Ok outs.
Proof.
  unfold predict_loop. intros H.
  step_run H num_samples w2 E2. apply liftR_ok in E2. destruct E2 as [Hn ->].
  step_run H u4 w4 E4. apply tell_ok in E4. destruct E4 as [_ X4].
  step_run H u5 w5 E5. apply tell_ok in E5. destruct E5 as [_ X5].
  step_run H u6 w6 E6. apply tell_ok in E6. destruct E6 as [_ X6].
  step_run H u7 w7 E7. apply write_ok in E7. destruct E7 as [_ X7].
  step_run H u8 w8 E8. apply tell_ok in E8. destruct E8 as [_ X8].
  step_run H us w9 E9. apply liftR_ok in H. destruct H as [H ->].
  eexists w8, _, us. split.
  - eapply extends_trans; [exact X4|].
    eapply extends_trans; [exact X5|].
    eapply extends_trans; [exact X6|].
    eapply extends_trans; [exact X7|exact X8].
  - split; [reflexivity|]. split; [exact E9|exact H].
Qed.

Lemma result_type_same (arrays : list ndarray) (d : np_dtype) :
  arrays <> [] -> Forall (fun a => dtype a = d) arrays ->
  result_type arrays = d.
Proof.
  destruct arrays as [|a t]; [congruence|]. intros _ H.
  inversion H as [|? ? Ha Ht]; subst. unfold result_type.
  replace (forallb (same_dtype a) t) with true; [reflexivity|].
  symmetry. apply forallb_forall. intros x Hx.
  rewrite Forall_forall in Ht. unfold same_dtype. rewrite (Ht x Hx).
  now destruct (dtype_eq_dec (dtype a) (dtype a)).
Qed.

(** Arrays of one dtype are concatenated as they are. *)
Lemma np_concatenate_same_dtype (arrays : list ndarray) out (d : np_dtype) :
  np_concatenate arrays = Ok out ->
  Forall (fun a => dtype a = d) arrays ->
  dtype out = d /\ rows out = concat (map rows arrays) /\
  Forall (fun a => trailing a = trailing out) arrays.
Proof.
  unfold np_concatenate. destruct arrays as [|a t]; [discriminate|].
  destruct (forallb (same_trailing a) t) eqn:Et; [|discriminate].
  intros H HF.
  pose proof (@result_type_same (a :: t) d ltac:(discriminate) HF) as Hr.
  cbv zeta in H. rewrite Hr in H. injection H as <-. cbn [dtype rows trailing].
  split; [reflexivity|]. split.
  - change (concat (map rows (a :: t))) with (rows a ++ concat (map rows t)).
    rewrite Forall_forall in HF. f_equal.
    + rewrite (HF a (or_introl eq_refl)). apply cast_rows_same.
    + f_equal. apply map_ext_in. intros x Hx.
      rewrite (HF x (or_intror Hx)). apply cast_rows_same.
  - constructor; [reflexivity|]. apply Forall_forall. intros x Hx.
    rewrite forallb_forall in Et. symmetry. now apply same_trailing_eq, Et.
Qed.

(** X13.  In step mode [predict_loop] returns one array per output of the
    first step, each the [np.concatenate] of the arrays the predict
    function returned for that output, in the order of the steps: the
    shapes agreed beyond the first axis and the rows are put end to end,
    as they are when the arrays have the same dtype, else cast to the
    dtype numpy promotes them to.  No step of a run that returns gave
    more outputs than the first, and a run of no step returns the empty
    list. *)
Theorem predict_steps_are_concatenated ins batch_size verbose steps
  (w : world T) outs w' :
  predict_loop ins batch_size verbose (Some steps) w = (Ok outs, w') ->
  let step_outs := predict_outputs (new_events w w') in
  length outs = length (hd [] step_outs) /\
  Forall (fun o => length o <= length outs) step_outs /\
  forall j, j < length outs ->
    np_concatenate (outputs_at j step_outs) = Ok (nth j outs empty_array) /\
    Forall (fun a => trailing a = trailing (nth j outs empty_array))
           (outputs_at j step_outs) /\
    forall d, Forall (fun a => dtype a = d) (outputs_at j step_outs) ->
      dtype (nth j outs empty_array) = d /\
      rows (nth j outs empty_array)
      = concat (map rows (outputs_at j step_outs)).
Proof.
  intros H.
  enough (Hmain :
    let step_outs := predict_outputs (new_events w w') in
    length outs = length (hd [] step_outs) /\
    Forall (fun o => length o <= length outs) step_outs /\
    forall j, j < length outs ->
      np_concatenate (outputs_at j step_outs) = Ok (nth j outs empty_array)).
  { cbv zeta in *. destruct Hmain as (H1 & H2 & H3).
    split; [exact H1|]. split; [exact H2|]. intros j Hj.
    specialize (H3 j Hj). split; [exact H3|]. split.
    - unfold np_concatenate in H3.
      destruct (outputs_at j (predict_outputs (new_events w w')))
        as [|a t]; [constructor|].
      destruct (forallb (same_trailing a) t) eqn:Et; [|discriminate].
      injection H3 as <-. cbn [trailing].
      constructor; [reflexivity|]. apply Forall_forall. intros x Hx.
      rewrite forallb_forall in Et. symmetry. now apply same_trailing_eq, Et.
    - intros d Hd.
      destruct (np_concatenate_same_dtype H3 Hd) as (Hd' & Hr & _).
      now split. }
  apply predict_loop_steps_run in H.
  destruct H as (w0 & evs0 & us & X0 & Hp0 & Hloop & Hcat).
  pose proof (mapR_length _ _ Hcat) as Hlen.
  assert (Hus : exists evs,
    extends w0 w' evs /\
    length us = length (hd [] (predict_outputs evs)) /\
    Forall (fun o => length o <= length us) (predict_outputs evs) /\
    forall j, nth j us [] = outputs_at j (predict_outputs evs)).
  { destruct steps as [|steps'].
    - apply ret_ok in Hloop. destruct Hloop as [-> ->]. exists [].
      split; [apply extends_refl|]. simpl. repeat split; auto.
      intros j. now destruct j.
    - rewrite <- cons_seq in Hloop. apply predict_steps_cons in Hloop.
      destruct Hloop as (o & us1 & w1 & evs1 & X1 & Ho & Ha & Hrest).
      simpl in Ha. apply append_outs_spec in Ha.
      destruct Ha as (Hl1 & _ & Hn1). rewrite length_map in Hl1.
      assert (Hn1' : forall j, nth j us1 [] = outputs_at j [o]).
      { intros j. rewrite Hn1, nth_map_nil, Nat.sub_0_r.
        exact (outputs_at_one j o []). }
      destruct (stop_predicting (st w1)).
      + destruct Hrest as [-> ->]. exists evs1. rewrite Ho. simpl.
        split; [exact X1|]. split; [exact Hl1|].
        split; [constructor; [lia|constructor]|exact Hn1'].
      + apply predict_steps_tail in Hrest.
        2:{ apply Forall_forall. intros s Hs. apply in_seq in Hs. lia. }
        destruct Hrest as (evs2 & X2 & Hl2 & Hsh & Hn2).
        exists (evs1 ++ evs2). rewrite predict_outputs_app, Ho. simpl.
        split; [eapply extends_trans; eassumption|].
        split; [congruence|]. split.
        * constructor; [lia|]. now rewrite Hl2.
        * intros j. rewrite Hn2, Hn1'. unfold outputs_at. simpl.
          now rewrite app_nil_r. }
  destruct Hus as (evs & X & Hl & Hsh & Hn).
  pose proof (extends_trans X0 X) as Xall.
  cbv zeta. rewrite (extends_new_events Xall), predict_outputs_app, Hp0.
  simpl. rewrite Hlen. split; [exact Hl|]. split; [exact Hsh|].
  intros j Hj. rewrite <- Hn.
  apply (mapR_nth _ _ [] empty_array (i := j) Hcat). lia.
Qed.

End PredictSteps.

(** The 4 steps over 8 samples: one array of 32 rows. *)
Lemma predict_steps_are_concatenated_witness :
  predict_loop (C := scripted predicting) (Some [samples 8]) None 0 (Some 4)
               fresh_world
  = (Ok (returned four_predictions), snd four_predictions) /\
  length (returned four_predictions) = 1 /\
  length (rows (nth 0 (returned four_predictions) empty_array)) = 32 /\
  let step_outs :=
    predict_outputs (new_events fresh_world (snd four_predictions)) in
  length (returned four_predictions) = length (hd [] step_outs) /\
  Forall (fun o => length o <= length (returned four_predictions)) step_outs /\
  forall j, j < length (returned four_predictions) ->
    np_concatenate (C := scripted predicting) (outputs_at j step_outs)
    = Ok (nth j (returned four_predictions) empty_array) /\
    Forall (fun a => trailing a
                     = trailing (nth j (returned four_predictions) empty_array))
           (outputs_at j step_outs) /\
    forall d, Forall (fun a => dtype a = d) (outputs_at j step_outs) ->
      dtype (nth j (returned four_predictions) empty_array) = d /\
      rows (nth j (returned four_predictions) empty_array)
      = concat (map rows (outputs_at j step_outs)).
Proof.
  split; [reflexivity|]. split; [reflexivity|]. split; [reflexivity|].
  exact (@predict_steps_are_concatenated nat (scripted predicting)
           (Some [samples 8]) None 0 4 fresh_world (returned four_predictions)
           (snd four_predictions) eq_refl).
Defined.

(** ** [predict_loop] in sample mode, stopped or not *)

Lemma skipn_further {A} (l l' : list A) (a c : nat) :
  a <= c -> skipn a l = skipn a l' -> skipn c l = skipn c l'.
Proof.
  intros Hac H. replace c with ((c - a) + a) by lia.
  rewrite <- !skipn_skipn. now rewrite H.
Qed.

Section PredictStopped.

Context {T : Type} {C : Collaborators T}.

Lemma assign_slice_suffix (a v a' : ndarray) (s e : nat) :
  assign_slice a s e v = Ok a' -> s <= e ->
  skipn (Nat.min e (length (rows a))) (rows a')
  = skipn (Nat.min e (length (rows a))) (rows a).
Proof.
  unfold assign_slice. intros H Hse.
  destruct (stored_rows a _ v) as [rs|] eqn:Es; [|discriminate].
  pose proof (stored_rows_length _ _ _ Es) as Hv.
  injection H as <-. simpl.
  set (hi := Nat.min e (length (rows a))) in *.
  set (lo := Nat.min s (length (rows a))) in *.
  assert (Hlo : length (firstn lo (rows a)) = lo).
  { apply firstn_length_le. unfold lo. lia. }
  rewrite app_assoc, skipn_app.
  rewrite skipn_all2 by (rewrite length_app, Hlo, Hv; unfold lo, hi; lia).
  rewrite length_app, Hlo, Hv.
  replace (hi - (lo + (hi - lo))) with 0 by (unfold lo, hi; lia).
  reflexivity.
Qed.

(** Writing batch [k] leaves the rows from [(k + 1) * b] on as they
    were. *)
Lemma store_batch_suffix n b k (o outs0 outs1 : list ndarray) :
  store_outs (k * b) (Nat.min n ((k + 1) * b) - k * b) 0 o outs0 = Ok outs1 ->
  Forall (fun a => length (rows a) = n) outs0 ->
  forall j,
    skipn ((k + 1) * b) (rows (nth j outs1 empty_array))
    = skipn ((k + 1) * b) (rows (nth j outs0 empty_array)).
Proof.
  intros H HF j. apply store_outs_spec in H. destruct H as (Hl & Hb & Hn).
  specialize (Hn j).
  destruct ((0 <=? j) && (j <? 0 + length o)) eqn:Ein; [|now rewrite Hn].
  apply andb_prop in Ein. destruct Ein as [_ Ein]. apply Nat.ltb_lt in Ein.
  assert (Hj : j < length outs0).
  { destruct o; [simpl in Ein; lia|]. specialize (Hb ltac:(discriminate)). lia. }
  assert (Hrows : length (rows (nth j outs0 empty_array)) = n).
  { rewrite Forall_forall in HF. apply HF, nth_In, Hj. }
  apply assign_slice_suffix in Hn; [|lia]. rewrite Hrows in Hn.
  eapply skipn_further; [|exact Hn]. lia.
Qed.

Lemma predict_batches_suffix indices n b items :
  forall k outs0 (w : world T) outs w',
    k <> 0 ->
    batch_sized n b k items ->
    Forall (fun a => length (rows a) = n) outs0 ->
    predict_batches indices (Some n) (Some b) k items outs0 w = (Ok outs, w') ->
    exists evs,
      extends w w' evs /\
      forall j,
        skipn ((k + length (predict_outputs evs)) * b)
              (rows (nth j outs empty_array))
        = skipn ((k + length (predict_outputs evs)) * b)
                (rows (nth j outs0 empty_array)).
Proof.
  induction items as [|item rest IH]; intros k outs0 w outs w' Hk Hsz HF H.
  - apply ret_ok in H. destruct H as [-> ->]. exists [].
    split; [apply extends_refl|]. reflexivity.
  - apply predict_batches_cons in H.
    destruct H as (batch_ins & size & o & outs1 & w1 & evs1 & Hitem & Hsize
                   & X1 & Ho & Hstore & H).
    rewrite (proj2 (Nat.eqb_neq k 0) Hk) in Hstore.
    pose proof (Hsz 0 batch_ins ltac:(simpl; now f_equal)) as Hs0.
    rewrite Nat.add_0_r in Hs0. rewrite Hsize in Hs0. injection Hs0 as ->.
    pose proof (store_batch_suffix _ _ _ Hstore HF) as Hsuf.
    apply store_batch in Hstore; [|exact HF].
    destruct Hstore as (Hl1 & Hlo & HF1 & Hn1).
    destruct (stop_predicting (st w1)).
    + destruct H as [-> ->]. exists evs1. split; [exact X1|].
      rewrite Ho. exact Hsuf.
    + apply IH in H; auto.
      * destruct H as (evs2 & X2 & Hs2).
        exists (evs1 ++ evs2). split; [eapply extends_trans; eassumption|].
        intros j. rewrite predict_outputs_app, Ho. simpl length.
        replace (k + S (length (predict_outputs evs2)))
          with (S k + length (predict_outputs evs2)) by lia.
        rewrite Hs2. eapply skipn_further; [|exact (Hsuf j)]. nia.
      * intros i bi Hi. specialize (Hsz (S i) bi Hi).
        rewrite Hsz. do 2 f_equal; f_equal; lia.
Qed.

(** X14.  A sample-mode prediction over array data that was stopped early
    returns arrays of [num_samples] rows all the same: the output of
    each batch that ran is written to its rows, from [k * batch_size]
    on, which hold what numpy stores for it (the output itself, when it
    has the dtype of the array and the shape of the slice), and the rows
    of the batches that did not run are left as [np.zeros] made them. *)
Theorem stopped_prediction_is_zero_padded (x : ndarray) (rest : list pyval)
  b verbose n (w : world T) outs w' :
  check_num_samples (Some (PArray x :: rest)) (Some b) None "steps"
  = Ok (Some n) ->
  predict_loop (Some (PArray x :: rest)) (Some b) verbose None w
  = (Ok outs, w') ->
  let batch_outs := predict_outputs (new_events w w') in
  forall j, j < length outs ->
    let out := nth j outs empty_array in
    let lo := fun k => k * b in
    let hi := fun k => Nat.min n ((k + 1) * b) in
    length (rows out) = n /\
    (forall k o, nth_error batch_outs k = Some o -> j < length o ->
       stored_rows out (hi k - lo k) (nth j o empty_array)
       = Ok (py_slice (rows out) (lo k) (hi k)) /\
       (fits out (hi k - lo k) (nth j o empty_array) = true ->
        py_slice (rows out) (lo k) (hi k) = rows (nth j o empty_array))) /\
    skipn (length batch_outs * b) (rows out)
    = skipn (length batch_outs * b)
            (rows (np_zeros n (trailing out) (dtype out))).
Proof.
  intros Hcheck H batch_outs j Hj. subst batch_outs.
  apply predict_loop_samples_run in H.
  destruct H as (num_samples & indices & w0 & evs0 & items & Hn & X0 & Hp0
                 & Hgen & Hloop).
  rewrite Hcheck in Hn. injection Hn as <-.
  destruct (get_batch_generator_unshuffled _ _ _ _ Hgen)
    as (n' & b' & En & Eb & Hb & _ & Hitems).
  injection En as <-. injection Eb as <-.
  pose proof (generator_batch_sized x rest n b) as Hsz.
  rewrite <- Hitems in Hsz. clear Hitems Hgen.
  destruct items as [|item items'].
  { apply ret_ok in Hloop. destruct Hloop as [-> ->]. simpl in Hj. lia. }
  apply predict_batches_cons in Hloop.
  destruct Hloop as (batch_ins & size & o & outs1 & w1 & evs1 & Hitem & Hsize
                     & X1 & Ho & Hstore & Hrest).
  pose proof (Hsz 0 batch_ins ltac:(simpl; now f_equal)) as Hs0.
  rewrite Hsize in Hs0. injection Hs0 as ->.
  change (0 =? 0) with true in Hstore. cbv iota in Hstore.
  change (store_outs (0 * b) (Nat.min n ((0 + 1) * b) - 0 * b) 0 o
                     (map (fun a => np_zeros n (trailing a) (dtype a)) o)
          = Ok outs1)
    in Hstore.
  assert (HF0 : Forall (fun a => length (rows a) = n)
                       (map (fun a => np_zeros n (trailing a) (dtype a)) o)).
  { apply Forall_forall. intros a Ha. apply in_map_iff in Ha.
    destruct Ha as (a0 & <- & _). simpl. apply repeat_length. }
  pose proof (store_batch_suffix _ _ _ Hstore HF0) as Hsuf1.
  apply store_batch in Hstore; [|exact HF0].
  rewrite length_map in Hstore. destruct Hstore as (Hl1 & _ & HF1 & Hn1).
  assert (Htail : exists evs2,
    extends w1 w' evs2 /\ length outs = length outs1 /\
    (forall j, j < length outs1 ->
      dtype (nth j outs empty_array) = dtype (nth j outs1 empty_array) /\
      trailing (nth j outs empty_array) = trailing (nth j outs1 empty_array) /\
      length (rows (nth j outs empty_array)) = n /\
      firstn (1 * b) (rows (nth j outs empty_array))
      = firstn (1 * b) (rows (nth j outs1 empty_array)) /\
      forall i o, nth_error (predict_outputs evs2) i = Some o ->
        j < length o ->
        stored_rows (nth j outs1 empty_array)
                    (Nat.min n ((1 + i + 1) * b) - (1 + i) * b)
                    (nth j o empty_array)
        = Ok (py_slice (rows (nth j outs empty_array)) ((1 + i) * b)
                       (Nat.min n ((1 + i + 1) * b)))) /\
    forall j,
      skipn ((1 + length (predict_outputs evs2)) * b)
            (rows (nth j outs empty_array))
      = skipn ((1 + length (predict_outputs evs2)) * b)
              (rows (nth j outs1 empty_array))).
  { destruct (stop_predicting (st w1)).
    - destruct Hrest as [-> ->]. exists [].
      split; [apply extends_refl|]. split; [reflexivity|]. split.
      + intros j' Hj'. split; [reflexivity|]. split; [reflexivity|]. split.
        { rewrite Forall_forall in HF1. apply HF1, nth_In. assumption. }
        split; [reflexivity|]. intros [|i] o' Hi; discriminate.
      + reflexivity.
    - assert (Hsz' : batch_sized n b 1 items').
      { intros i bi Hi. specialize (Hsz (S i) bi Hi).
        rewrite Hsz. do 2 f_equal; f_equal; lia. }
      pose proof Hrest as Hrest'.
      apply predict_batches_tail in Hrest; auto.
      apply predict_batches_suffix in Hrest'; auto.
      destruct Hrest as (evs2 & X2 & Hl2 & _ & _ & Hn2).
      destruct Hrest' as (evs2' & X2' & Hs2).
      assert (evs2' = evs2).
      { unfold extends in X2, X2'. rewrite X2 in X2'.
        now apply app_inv_head in X2'. }
      subst evs2'. exists evs2. repeat split; auto; apply Hn2; assumption. }
  destruct Htail as (evs2 & X2 & Hl2 & Hn2 & Hs2).
  pose proof (extends_trans X0 (extends_trans X1 X2)) as X.
  cbv zeta. rewrite (extends_new_events X) in *.
  rewrite !predict_outputs_app, Hp0, Ho in *. simpl app in *.
  assert (Hj1 : j < length outs1) by lia.
  assert (Hjo : j < length o) by lia.
  destruct (Hn1 j Hjo) as (Hd1 & Ht1 & _ & Hs1).
  specialize (Hs1 Hjo).
  destruct (Hn2 j Hj1) as (Hd2 & Ht2 & Hlen2 & Hf2 & Hsl2).
  pose proof (@nth_zeros_made n j o Hjo) as Hzero.
  rewrite Hzero in Hd1, Ht1. simpl in Hd1, Ht1.
  assert (Hd : dtype (nth j outs empty_array) = dtype (nth j o empty_array))
    by congruence.
  assert (Ht : trailing (nth j outs empty_array)
               = trailing (nth j o empty_array)) by congruence.
  assert (Hslices : forall k o',
            nth_error (o :: predict_outputs evs2) k = Some o' ->
            j < length o' ->
            stored_rows (nth j outs empty_array)
                        (Nat.min n ((k + 1) * b) - k * b)
                        (nth j o' empty_array)
            = Ok (py_slice (rows (nth j outs empty_array)) (k * b)
                           (Nat.min n ((k + 1) * b)))).
  { intros [|k] o' Hk Hjo'.
    - injection Hk as <-.
      rewrite (py_slice_same_prefix _ _ _ Hf2) by lia.
      rewrite <- Hs1. apply stored_rows_like.
      + rewrite Hzero. simpl. exact Hd.
      + rewrite Hzero. simpl. exact Ht.
    - transitivity (stored_rows (nth j outs1 empty_array)
                      (Nat.min n ((1 + k + 1) * b) - (1 + k) * b)
                      (nth j o' empty_array));
        [now apply stored_rows_like|exact (Hsl2 k o' Hk Hjo')]. }
  split; [exact Hlen2|]. split.
  - intros k o' Hk Hjo'. split; [now apply Hslices|].
    intros Hfit. apply stored_rows_fits in Hfit.
    rewrite (Hslices k o' Hk Hjo') in Hfit. now injection Hfit.
  - simpl length.
    change (S (length (predict_outputs evs2)))
      with (1 + length (predict_outputs evs2)).
    rewrite Hs2, Hd, Ht, <- Hzero.
    eapply skipn_further; [|exact (Hsuf1 j)]. nia.
Qed.

End PredictStopped.

(** Ten samples in batches of four, stopped after the first batch: rows
    0 to 3 are predicted, rows 4 to 9 are zero. *)
Lemma stopped_prediction_is_zero_padded_witness :
  check_num_samples (Collaborators := scripted predicting_stopped)
                    (Some [samples 10]) (Some 4) None "steps" = Ok (Some 10) /\
  predict_loop (C := scripted predicting_stopped) (Some [samples 10]) (Some 4)
               0 None fresh_world
  = (Ok (returned stopped_predict_run), snd stopped_predict_run) /\
  length (predict_outputs (new_events fresh_world (snd stopped_predict_run)))
  = 1 /\
  skipn 4 (rows (nth 0 (returned stopped_predict_run) empty_array))
  = repeat [SFloat fzero; SFloat fzero] 6 /\
  forall j, j < length (returned stopped_predict_run) ->
    length (rows (nth j (returned stopped_predict_run) empty_array)) = 10 /\
    (forall k o,
       nth_error
         (predict_outputs (new_events fresh_world (snd stopped_predict_run))) k
       = Some o ->
       j < length o ->
       stored_rows (C := scripted predicting_stopped)
                   (nth j (returned stopped_predict_run) empty_array)
                   (Nat.min 10 ((k + 1) * 4) - k * 4) (nth j o empty_array)
       = Ok (py_slice (rows (nth j (returned stopped_predict_run) empty_array))
                      (k * 4) (Nat.min 10 ((k + 1) * 4))) /\
       (fits (nth j (returned stopped_predict_run) empty_array)
             (Nat.min 10 ((k + 1) * 4) - k * 4) (nth j o empty_array) = true ->
        py_slice (rows (nth j (returned stopped_predict_run) empty_array))
                 (k * 4) (Nat.min 10 ((k + 1) * 4))
        = rows (nth j o empty_array))) /\
    skipn (length (predict_outputs
                     (new_events fresh_world (snd stopped_predict_run))) * 4)
          (rows (nth j (returned stopped_predict_run) empty_array))
    = skipn (length (predict_outputs
                       (new_events fresh_world (snd stopped_predict_run))) * 4)
            (rows (np_zeros 10
                     (trailing
                        (nth j (returned stopped_predict_run) empty_array))
                     (dtype
                        (nth j (returned stopped_predict_run) empty_array)))).
Proof.
  split; [reflexivity|]. split; [reflexivity|]. split; [reflexivity|].
  split; [reflexivity|].
  exact (@stopped_prediction_is_zero_padded nat (scripted predicting_stopped)
           (column (seq 0 10)) [] 4 0 10
           fresh_world (returned stopped_predict_run)
           (snd stopped_predict_run) eq_refl eq_refl).
Defined.

(** ** What [fit_loop] does to [model.metrics_names] *)

Lemma keeps_ret {T A} (a : A) : keeps_names (T := T) (ret a).
Proof. intros w r w' H. now injection H as _ <-. Qed.

Lemma keeps_raise {T A} (e : exn) : keeps_names (T := T) (A := A) (raise e).
Proof. intros w r w' H. now injection H as _ <-. Qed.

Lemma keeps_liftR {T A} (x : result A) : keeps_names (T := T) (liftR x).
Proof. intros w r w' H. now injection H as _ <-. Qed.

Lemma keeps_read {T A} (f : store T -> A) : keeps_names (read f).
Proof. intros w r w' H. now injection H as _ <-. Qed.

Lemma keeps_poll {T} site (f : store T -> bool) : keeps_names (poll site f).
Proof. intros w r w' H. now injection H as _ <-. Qed.

Lemma keeps_bind {T A B} (m : M T A) (k : A -> M T B) :
  keeps_names m -> (forall a, keeps_names (k a)) -> keeps_names (bind m k).
Proof.
  intros Hm Hk w r w' H. unfold bind in H.
  destruct (m w) as [[a|e] w1] eqn:E.
  - rewrite (Hk a _ _ _ H). exact (Hm _ _ _ E).
  - injection H as _ <-. exact (Hm _ _ _ E).
Qed.

Ltac keeps_step tac := apply keeps_bind; [tac|intros ?].

Section NamesKept.

Context {T : Type} {C : Collaborators T}.

Hypothesis kept : names_kept C.

Lemma keeps_tell n : keeps_names (tell n).
Proof.
  intros w r w'. unfold tell. pose proof (proj1 kept n (st w)) as Hk.
  destruct (notify n (st w)) as [r0 s]. intros H. now injection H as _ <-.
Qed.

Lemma keeps_call_train ins : keeps_names (call_train ins).
Proof.
  intros w r w'. unfold call_train.
  pose proof (proj1 (proj2 kept) ins (st w)) as Hk.
  destruct (train_function ins (st w)) as [r0 s]. intros H.
  now injection H as _ <-.
Qed.

Lemma keeps_call_test ins : keeps_names (call_test ins).
Proof.
  intros w r w'. unfold call_test.
  pose proof (proj2 (proj2 kept) ins (st w)) as Hk.
  destruct (test_function ins (st w)) as [r0 s]. intros H.
  now injection H as _ <-.
Qed.

Lemma keeps_as_int (x : option nat) : keeps_names (T := T) (as_int x).
Proof. destruct x; [apply keeps_ret|apply keeps_raise]. Qed.

Lemma keeps_random_shuffle {A} (l : list A) : keeps_names (random_shuffle l).
Proof.
  intros w r w'. unfold random_shuffle.
  destruct (np_random_shuffle l (ext (st w))). intros H.
  now injection H as _ <-.
Qed.

Lemma keeps_get_batch_generator ins num_samples batch_size shuffle :
  keeps_names (get_batch_generator ins num_samples batch_size shuffle).
Proof.
  unfold get_batch_generator, shuffled_index_array.
  keeps_step ltac:(idtac).
  { keeps_step ltac:(apply keeps_as_int). destruct shuffle.
    - apply keeps_ret.
    - apply keeps_random_shuffle.
    - keeps_step ltac:(apply keeps_as_int). unfold batch_shuffle.
      destruct a0; [apply keeps_raise|].
      keeps_step ltac:(apply keeps_random_shuffle). apply keeps_ret. }
  keeps_step ltac:(apply keeps_as_int).
  keeps_step ltac:(apply keeps_as_int).
  keeps_step ltac:(apply keeps_liftR). apply keeps_ret.
Qed.

Lemma keeps_evaluate_steps stateful ins labels steps_left :
  forall outs, keeps_names (evaluate_steps stateful ins labels steps_left outs).
Proof.
  induction steps_left as [|s rest IH]; intros outs; simpl.
  - apply keeps_ret.
  - keeps_step ltac:(apply keeps_tell).
    keeps_step ltac:(apply keeps_call_test).
    keeps_step ltac:(apply keeps_tell).
    keeps_step ltac:(apply keeps_liftR).
    keeps_step ltac:(apply keeps_poll).
    match goal with |- context [if ?b then _ else _] => destruct b end;
      [apply keeps_ret|apply IH].
Qed.

Lemma keeps_evaluate_batches stateful indices labels items :
  forall k outs,
    keeps_names (evaluate_batches stateful indices labels k items outs).
Proof.
  induction items as [|item rest IH]; intros k outs; simpl.
  - apply keeps_ret.
  - keeps_step ltac:(apply keeps_liftR).
    keeps_step ltac:(apply keeps_liftR).
    keeps_step ltac:(apply keeps_tell).
    keeps_step ltac:(apply keeps_liftR).
    keeps_step ltac:(apply keeps_call_test).
    keeps_step ltac:(apply keeps_tell).
    keeps_step ltac:(apply keeps_liftR).
    keeps_step ltac:(apply keeps_poll).
    match goal with |- context [if ?b then _ else _] => destruct b end;
      [apply keeps_ret|apply IH].
Qed.

(** [evaluate_loop] writes a stop flag and nothing else. *)
Lemma keeps_evaluate_loop ins batch_size verbose steps :
  keeps_names (evaluate_loop ins batch_size verbose steps).
Proof.
  unfold evaluate_loop.
  keeps_step ltac:(idtac).
  { destruct has_metrics; [|apply keeps_ret].
    keeps_step ltac:(apply keeps_tell).
    keeps_step ltac:(apply keeps_read). apply keeps_ret. }
  keeps_step ltac:(apply keeps_liftR).
  keeps_step ltac:(apply keeps_read).
  keeps_step ltac:(apply keeps_tell).
  keeps_step ltac:(apply keeps_tell).
  keeps_step ltac:(apply keeps_tell).
  keeps_step ltac:(intros w r w' H; now injection H as _ <-).
  keeps_step ltac:(apply keeps_tell).
  destruct steps.
  - keeps_step ltac:(apply keeps_evaluate_steps). apply keeps_liftR.
  - keeps_step ltac:(apply keeps_get_batch_generator).
    keeps_step ltac:(apply keeps_evaluate_batches). apply keeps_liftR.
Qed.

Lemma keeps_fit_steps ins labels steps_left :
  keeps_names (fit_steps ins labels steps_left).
Proof.
  induction steps_left as [|s rest IH]; simpl.
  - apply keeps_ret.
  - keeps_step ltac:(apply keeps_tell).
    keeps_step ltac:(apply keeps_call_train).
    keeps_step ltac:(apply keeps_tell).
    keeps_step ltac:(apply keeps_poll).
    match goal with |- context [if ?b then _ else _] => destruct b end;
      [apply keeps_ret|apply IH].
Qed.

Lemma keeps_fit_batches indices labels items :
  forall k, keeps_names (fit_batches indices labels k items).
Proof.
  induction items as [|item rest IH]; intros k; simpl.
  - apply keeps_ret.
  - keeps_step ltac:(apply keeps_liftR).
    keeps_step ltac:(apply keeps_liftR).
    keeps_step ltac:(apply keeps_tell).
    keeps_step ltac:(apply keeps_liftR).
    keeps_step ltac:(apply keeps_call_train).
    keeps_step ltac:(apply keeps_tell).
    keeps_step ltac:(apply keeps_poll).
    match goal with |- context [if ?b then _ else _] => destruct b end;
      [apply keeps_ret|apply IH].
Qed.

Lemma keeps_fit_epoch_body ins val_ins batch_size shuffle steps_per_epoch
  validation_steps do_validation num_train_samples labels indices :
  keeps_names (fit_epoch_body ins val_ins batch_size shuffle steps_per_epoch
                              validation_steps do_validation num_train_samples
                              labels indices).
Proof.
  unfold fit_epoch_body. destruct steps_per_epoch.
  - keeps_step ltac:(apply keeps_fit_steps).
    destruct do_validation; [|apply keeps_ret].
    keeps_step ltac:(apply keeps_evaluate_loop). apply keeps_ret.
  - keeps_step ltac:(apply keeps_get_batch_generator).
    keeps_step ltac:(apply keeps_fit_batches).
    destruct do_validation; [|apply keeps_ret].
    keeps_step ltac:(apply keeps_evaluate_loop). apply keeps_ret.
Qed.

Lemma keeps_fit_epochs ins val_ins batch_size shuffle steps_per_epoch
  validation_steps do_validation num_train_samples labels indices epochs_left :
  keeps_names (fit_epochs ins val_ins batch_size shuffle steps_per_epoch
                          validation_steps do_validation num_train_samples
                          labels indices epochs_left).
Proof.
  induction epochs_left as [|epoch rest IH]; simpl.
  - apply keeps_ret.
  - keeps_step ltac:(apply keeps_tell).
    keeps_step ltac:(apply keeps_tell).
    keeps_step ltac:(apply keeps_fit_epoch_body).
    keeps_step ltac:(apply keeps_tell).
    keeps_step ltac:(apply keeps_poll).
    match goal with |- context [if ?b then _ else _] => destruct b end;
      [apply keeps_ret|apply IH].
Qed.

(** X15.  [model.metrics_names] is the list [fit_loop] extends in place: when
    the callbacks and the model leave it alone, a call that returns
    after a training with validation leaves it with the [val_] names
    appended, for the next call to find; without validation it is left
    as it was. *)
Theorem fit_with_validation_extends_metrics_names ins batch_size epochs verbose
  val_ins shuffle initial_epoch steps_per_epoch validation_steps
  (w : world T) u w' :
  fit_loop ins batch_size epochs verbose val_ins shuffle initial_epoch
           steps_per_epoch validation_steps w = (Ok u, w') ->
  metrics_names (st w')
  = if truthy_int validation_steps || truthy_bundle val_ins
    then metrics_names (st w)
         ++ map (String.append "val_") (metrics_names (st w))
    else metrics_names (st w).
Proof.
  unfold fit_loop. intros H.
  step_run H do_validation w1 E1.
  assert (Hdv : do_validation
                = truthy_int validation_steps || truthy_bundle val_ins).
  { destruct (@protocol_check_validation T
                (fit_plan ins batch_size epochs val_ins initial_epoch
                          steps_per_epoch validation_steps)
                verbose ins val_ins steps_per_epoch validation_steps
                w _ _ E1) as (evs & p & _ & _ & P).
    exact (proj2 (P do_validation eq_refl)). }
  assert (Hs1 : st w1 = st w).
  { unfold check_validation in E1.
    step_run E1 dv w0 E0.
    assert (Hs0 : st w0 = st w).
    { destruct (truthy_bundle val_ins).
      - step_run E0 u0 w00 E00. rewrite print_train_on_run in E00.
        injection E00 as _ <-. apply ret_ok in E0. now destruct E0 as [_ ->].
      - apply ret_ok in E0. now destruct E0 as [_ ->]. }
    rewrite <- Hs0.
    destruct (truthy_int validation_steps).
    - destruct steps_per_epoch; [|discriminate].
      apply ret_ok in E1. now destruct E1 as [_ ->].
    - destruct dv.
      + destruct (truthy_int steps_per_epoch); [discriminate|].
        apply ret_ok in E1. now destruct E1 as [_ ->].
      + apply ret_ok in E1. now destruct E1 as [_ ->]. }
  step_run H num_train_samples w2 E2. apply liftR_ok in E2.
  destruct E2 as [_ ->].
  step_run H names w3 E3. apply read_ok in E3. destruct E3 as [-> ->].
  step_run H out_labels w4 E4.
  assert (Hs4 : metrics_names (st w4)
                = if do_validation
                  then metrics_names (st w)
                       ++ map (String.append "val_") (metrics_names (st w))
                  else metrics_names (st w)).
  { destruct do_validation.
    - step_run E4 u4 w40 E40. apply write_ok in E40. destruct E40 as [Hw _].
      apply ret_ok in E4. destruct E4 as [_ ->]. rewrite Hw, Hs1. reflexivity.
    - apply ret_ok in E4. destruct E4 as [_ ->]. now rewrite Hs1. }
  rewrite <- Hdv, <- Hs4.
  revert H. generalize w4 (Ok u : result unit) w'. clear - kept.
  change (keeps_names
    (tell (NewCallbackList verbose
             match steps_per_epoch with
             | Some _ => "steps"
             | None => "samples"
             end) ;;
     tell SetModel ;;
     tell (SetParams [("batch_size", ParamInt batch_size);
                      ("epochs", ParamInt (Some epochs));
                      ("steps", ParamInt steps_per_epoch);
                      ("samples", ParamInt num_train_samples);
                      ("val_steps", ParamInt validation_steps);
                      ("verbose", ParamInt (Some verbose));
                      ("do_validation", ParamBool do_validation);
                      ("metrics", ParamNames out_labels)]) ;;
     tell OnTrainBegin ;;
     write (set_stop_training false) ;;
     tell (SetValidationData val_ins) ;;
     fit_epochs ins val_ins batch_size shuffle steps_per_epoch validation_steps
                do_validation num_train_samples out_labels
                (get_sparse_conversion_indices ins false)
                (seq initial_epoch (epochs - initial_epoch)) ;;
     tell OnTrainEnd)%monad).
  keeps_step ltac:(apply keeps_tell).
  keeps_step ltac:(apply keeps_tell).
  keeps_step ltac:(apply keeps_tell).
  keeps_step ltac:(apply keeps_tell).
  keeps_step ltac:(intros w r w' H; now injection H as _ <-).
  keeps_step ltac:(apply keeps_tell).
  keeps_step ltac:(apply keeps_fit_epochs).
  apply keeps_tell.
Qed.

End NamesKept.

Lemma scripted_names_kept (sc : script) : names_kept (scripted sc).
Proof.
  split; [|split]; intros x s; try reflexivity.
  destruct x; simpl; try reflexivity.
  - now destruct (stop_fit_at sc index).
  - now destruct (stop_evaluate_at sc index).
  - now destruct (stop_predict_at sc index).
Qed.

(** The stopped training with validation: [loss] and [acc] have become
    four names. *)
Lemma fit_with_validation_extends_metrics_names_witness :
  fit_loop (C := scripted stop_at_first_batch) (Some [samples 4]) (Some 2) 2 0
           (Some [samples 2]) ShuffleFalse 0 None None fresh_world
  = (Ok tt, snd stopped_fit_run) /\
  metrics_names (st (snd stopped_fit_run))
  = ["loss"; "acc"; "val_loss"; "val_acc"] /\
  metrics_names (st (snd stopped_fit_run))
  = if truthy_int None || truthy_bundle (Some [samples 2])
    then metrics_names (st fresh_world)
         ++ map (String.append "val_") (metrics_names (st fresh_world))
    else metrics_names (st fresh_world).
Proof.
  split; [reflexivity|]. split; [reflexivity|].
  exact (@fit_with_validation_extends_metrics_names nat
           (scripted stop_at_first_batch)
           (scripted_names_kept stop_at_first_batch)
           (Some [samples 4]) (Some 2) 2 0 (Some [samples 2]) ShuffleFalse 0
           None None fresh_world tt (snd stopped_fit_run) eq_refl).
Defined.

(** ** The batch sizes [evaluate_loop] reports and weighs by *)

Lemma batch_sizes_sum n b m : list_sum (batch_sizes n b m) = Nat.min n (m * b).
Proof.
  unfold batch_sizes. induction m as [|m IH].
  - simpl. lia.
  - rewrite seq_S, map_app, list_sum_app, IH. simpl. nia.
Qed.

Section ReportedSizes.

Context {T : Type} {C : Collaborators T}.

Lemma evaluate_batches_sizes stateful indices labels n b items :
  forall k outs0 (w : world T) outs w',
    batch_sized n b k items ->
    evaluate_batches stateful indices labels k items outs0 w = (Ok outs, w') ->
    exists evs,
      extends w w' evs /\
      reported_sizes evs
      = map (fun i => Nat.min n ((k + i + 1) * b) - (k + i) * b)
            (seq 0 (length (test_outputs evs))).
Proof.
  induction items as [|item rest IH]; intros k outs0 w outs w' Hsz H.
  - apply ret_ok in H. destruct H as [-> ->]. exists [].
    split; [apply extends_refl|reflexivity].
  - simpl in H.
    step_run H batch_ins w0 E0. apply liftR_ok in E0. destruct E0 as [Hitem ->].
    step_run H size w0 E0. apply liftR_ok in E0. destruct E0 as [Hsize ->].
    step_run H u1 w1 E1. apply tell_ok in E1. destruct E1 as [_ X1].
    step_run H dense w1' E1'. apply liftR_ok in E1'. destruct E1' as [_ ->].
    step_run H o w2 E2. apply call_test_ok in E2.
    step_run H u3 w3 E3. apply tell_ok in E3. destruct E3 as [_ X3].
    step_run H outs1 w4 E4. apply liftR_ok in E4. destruct E4 as [E4 ->].
    step_run H stop w5 E5. apply poll_ok in E5. destruct E5 as (Eb & Es & X5).
    pose proof (Hsz 0 batch_ins ltac:(simpl; now f_equal)) as Hs0.
    rewrite Hsize in Hs0. injection Hs0 as ->.
    pose proof (extends_trans X1 (extends_trans E2 (extends_trans X3 X5)))
      as X.
    match type of X with
    | extends _ _ ?l =>
        assert (Hr1 : reported_sizes l
                      = [Nat.min n ((k + 0 + 1) * b) - (k + 0) * b])
          by reflexivity;
        assert (Ht1 : test_outputs l = [o]) by reflexivity;
        set (evs1 := l) in *
    end.
    clearbody evs1.
    destruct stop.
    + apply ret_ok in H. destruct H as [-> ->]. exists evs1.
      split; [exact X|]. now rewrite Hr1, Ht1.
    + apply IH in H.
      2:{ intros i bi Hi. specialize (Hsz (S i) bi Hi).
          rewrite Hsz. do 2 f_equal; f_equal; lia. }
      destruct H as (evs2 & X2 & Hr2).
      exists (evs1 ++ evs2). split; [eapply extends_trans; [exact X|exact X2]|].
      rewrite reported_sizes_app, test_outputs_app, Hr1, Ht1, Hr2.
      cbn [length app]. rewrite <- cons_seq. cbn [map app]. f_equal.
      rewrite <- seq_shift, map_map. apply map_ext.
      intros i. f_equal; f_equal; lia.
Qed.

(** X16.  Over array data the sample counts [evaluate_loop] gives to
    [on_evaluate_batch_begin], and weighs the outputs by, are the sizes
    of the consecutive batches, the last one smaller when the batch size
    does not divide the sample count; they add up to the samples seen,
    and over a whole evaluation to [num_samples]: the weighted sum
    divided by [num_samples] is then a weighted mean. *)
Theorem evaluation_weights_are_batch_sizes (x : ndarray) (rest : list pyval)
  b verbose n (w : world T) outs w' :
  check_num_samples (Some (PArray x :: rest)) (Some b) None "steps"
  = Ok (Some n) ->
  evaluate_loop (Some (PArray x :: rest)) (Some b) verbose None w
  = (Ok outs, w') ->
  let m := length (test_outputs (new_events w w')) in
  reported_sizes (new_events w w') = batch_sizes n b m /\
  list_sum (batch_sizes n b m) = Nat.min n (m * b) /\
  (m = ceil_div n b -> list_sum (batch_sizes n b m) = n).
Proof.
  intros Hcheck H.
  apply evaluate_loop_samples_run in H.
  destruct H as (num_samples & labels & indices & w0 & evs0 & items & raw
                 & Hn & X0 & Ht0 & Hr0 & Hgen & Hloop & Hdiv).
  rewrite Hcheck in Hn. injection Hn as <-.
  destruct (get_batch_generator_unshuffled _ _ _ _ Hgen)
    as (n' & b' & En & Eb & Hb & _ & Hitems).
  injection En as <-. injection Eb as <-.
  pose proof (generator_batch_sized x rest n b) as Hsz.
  rewrite <- Hitems in Hsz.
  apply (evaluate_batches_sizes _ _ _ _ _ Hsz) in Hloop.
  destruct Hloop as (evs & X & Hr).
  pose proof (extends_trans X0 X) as Xall.
  cbv zeta. rewrite (extends_new_events Xall).
  rewrite reported_sizes_app, test_outputs_app, Hr0, Ht0, Hr. simpl app.
  split.
  - unfold batch_sizes. apply map_ext. intros i. reflexivity.
  - split; [apply batch_sizes_sum|].
    intros Hm. rewrite batch_sizes_sum, Hm.
    pose proof (ceil_div_bounds n Hb). lia.
Qed.

End ReportedSizes.

(** Five samples in batches of three: the sizes are 3 and 2. *)
Lemma evaluation_weights_are_batch_sizes_witness :
  check_num_samples (Collaborators := scripted ten_twenty)
                    (Some [samples 5]) (Some 3) None "steps" = Ok (Some 5) /\
  evaluate_loop (C := scripted ten_twenty) (Some [samples 5]) (Some 3) 0 None
                fresh_world
  = (Ok (returned ten_twenty_run), snd ten_twenty_run) /\
  reported_sizes (new_events fresh_world (snd ten_twenty_run))
  = [3; 2] /\
  let m := length (test_outputs (new_events fresh_world (snd ten_twenty_run))) in
  reported_sizes (new_events fresh_world (snd ten_twenty_run))
  = batch_sizes 5 3 m /\
  list_sum (batch_sizes 5 3 m) = Nat.min 5 (m * 3) /\
  (m = ceil_div 5 3 -> list_sum (batch_sizes 5 3 m) = 5).
Proof.
  split; [reflexivity|]. split; [reflexivity|]. split; [reflexivity|].
  exact (@evaluation_weights_are_batch_sizes nat (scripted ten_twenty)
           (column (seq 0 5)) [] 3 0 5
           fresh_world (returned ten_twenty_run) (snd ten_twenty_run)
           eq_refl eq_refl).
Defined.

(** ** What the test and predict functions are given *)

Lemma test_inputs_app (e1 e2 : list event) :
  test_inputs (e1 ++ e2) = test_inputs e1 ++ test_inputs e2.
Proof.
  induction e1 as [|e t IH]; simpl; auto.
  destruct e; simpl; now rewrite IH.
Qed.

Lemma predict_inputs_app (e1 e2 : list event) :
  predict_inputs (e1 ++ e2) = predict_inputs e1 ++ predict_inputs e2.
Proof.
  induction e1 as [|e t IH]; simpl; auto.
  destruct e; simpl; now rewrite IH.
Qed.

(** Without shuffling, the items of the generator over arrays are the
    consecutive rows. *)
Lemma unshuffled_items (xs : list ndarray) (n b : nat) :
  0 < b -> xs <> [] -> Forall (fun x => n <= length (rows x)) xs ->
  map (batch_ins_of (Some (map PArray xs)))
      (batch_ids_of (seq 0 n)
         (map (fun i => (i * b, Nat.min n ((i + 1) * b)))
              (seq 0 (ceil_div n b))))
  = map (fun k => Ok (batch_rows xs n b k)) (seq 0 (ceil_div n b)).
Proof.
  intros Hb Hne HF. unfold batch_ids_of. rewrite !map_map.
  apply map_ext_in. intros k Hk. cbn [fst snd]. apply in_seq in Hk.
  pose proof (ceil_div_bounds n Hb) as [_ U].
  assert (Hkb : k * b < n) by nia.
  apply slice_arrays_range; auto; lia.
Qed.

Section ComputeInputs.

Context {T : Type} {C : Collaborators T}.

Lemma evaluate_batches_inputs stateful labels (f : nat -> list pyval) m :
  forall k outs0 (w : world T) outs w',
    evaluate_batches stateful [] labels k
      (map (fun i => Ok (f i)) (seq k m)) outs0 w = (Ok outs, w') ->
    exists evs,
      extends w w' evs /\
      test_inputs evs
      = map (fun i => Some (f i)) (seq k (length (test_outputs evs))).
Proof.
  induction m as [|m IH]; intros k outs0 w outs w' H.
  - apply ret_ok in H. destruct H as [-> ->]. exists [].
    split; [apply extends_refl|reflexivity].
  - rewrite <- cons_seq in H. cbn [map] in H. simpl evaluate_batches in H.
    step_run H batch_ins w0 E0. apply liftR_ok in E0. destruct E0 as [Hitem ->].
    injection Hitem as <-.
    step_run H size w0 E0. apply liftR_ok in E0. destruct E0 as [_ ->].
    step_run H u1 w1 E1. apply tell_ok in E1. destruct E1 as [_ X1].
    step_run H dense w1' E1'. apply liftR_ok in E1'. destruct E1' as [Hd ->].
    simpl in Hd. injection Hd as <-.
    step_run H o w2 E2. apply call_test_ok in E2.
    step_run H u3 w3 E3. apply tell_ok in E3. destruct E3 as [_ X3].
    step_run H outs1 w4 E4. apply liftR_ok in E4. destruct E4 as [_ ->].
    step_run H stop w5 E5. apply poll_ok in E5. destruct E5 as (_ & _ & X5).
    pose proof (extends_trans X1 (extends_trans E2 (extends_trans X3 X5)))
      as X.
    match type of X with
    | extends _ _ ?l =>
        assert (Hi1 : test_inputs l = [Some (f k)]) by reflexivity;
        assert (Ht1 : test_outputs l = [o]) by reflexivity;
        set (evs1 := l) in *
    end.
    clearbody evs1.
    destruct stop.
    + apply ret_ok in H. destruct H as [-> ->]. exists evs1.
      split; [exact X|]. now rewrite Hi1, Ht1.
    + apply IH in H. destruct H as (evs2 & X2 & Hi2).
      exists (evs1 ++ evs2). split; [eapply extends_trans; [exact X|exact X2]|].
      rewrite test_inputs_app, test_outputs_app, Hi1, Ht1, Hi2.
      cbn [length app]. now rewrite <- cons_seq.
Qed.

Lemma predict_batches_inputs num_samples batch_size (f : nat -> list pyval) m :
  forall k outs0 (w : world T) outs w',
    predict_batches [] num_samples batch_size k
      (map (fun i => Ok (f i)) (seq k m)) outs0 w = (Ok outs, w') ->
    exists evs,
      extends w w' evs /\
      predict_inputs evs
      = map (fun i => Some (f i)) (seq k (length (predict_outputs evs))).
Proof.
  induction m as [|m IH]; intros k outs0 w outs w' H.
  - apply ret_ok in H. destruct H as [-> ->]. exists [].
    split; [apply extends_refl|reflexivity].
  - rewrite <- cons_seq in H. cbn [map] in H. simpl predict_batches in H.
    step_run H batch_ins w0 E0. apply liftR_ok in E0. destruct E0 as [Hitem ->].
    injection Hitem as <-.
    step_run H size w0 E0. apply liftR_ok in E0. destruct E0 as [_ ->].
    step_run H u1 w1 E1. apply tell_ok in E1. destruct E1 as [_ X1].
    step_run H dense w1' E1'. apply liftR_ok in E1'. destruct E1' as [Hd ->].
    simpl in Hd. injection Hd as <-.
    step_run H o w2 E2. apply call_predict_ok in E2.
    step_run H u3 w3 E3. apply tell_ok in E3. destruct E3 as [_ X3].
    step_run H outs1 w4 E4.
    assert (Hw4 : w4 = w3).
    { destruct (k =? 0); [|apply ret_ok in E4; now destruct E4].
      destruct o; [apply ret_ok in E4; now destruct E4|].
      step_run E4 n0 w40 E40. destruct num_samples; [|discriminate].
      apply ret_ok in E40. destruct E40 as [_ ->].
      apply ret_ok in E4. now destruct E4. }
    subst w4.
    step_run H outs2 w5 E5.
    assert (Hw5 : w5 = w3).
    { destruct o; [apply ret_ok in E5; now destruct E5|].
      step_run E5 b0 w50 E50. destruct batch_size; [|discriminate].
      apply ret_ok in E50. destruct E50 as [_ ->].
      apply liftR_ok in E5. now destruct E5. }
    subst w5.
    step_run H stop w6 E6. apply poll_ok in E6. destruct E6 as (_ & _ & X6).
    pose proof (extends_trans X1 (extends_trans E2 (extends_trans X3 X6)))
      as X.
    match type of X with
    | extends _ _ ?l =>
        assert (Hi1 : predict_inputs l = [Some (f k)]) by reflexivity;
        assert (Ht1 : predict_outputs l = [o]) by reflexivity;
        set (evs1 := l) in *
    end.
    clearbody evs1.
    destruct stop.
    + apply ret_ok in H. destruct H as [-> ->]. exists evs1.
      split; [exact X|]. now rewrite Hi1, Ht1.
    + apply IH in H. destruct H as (evs2 & X2 & Hi2).
      exists (evs1 ++ evs2). split; [eapply extends_trans; [exact X|exact X2]|].
      rewrite predict_inputs_app, predict_outputs_app, Hi1, Ht1, Hi2.
      cbn [length app]. now rewrite <- cons_seq.
Qed.

(** What [evaluate_loop] does before its loop in sample mode, with the
    indices of the inputs it converts. *)
Lemma evaluate_loop_samples_prefix ins batch_size verbose (w : world T)
  outs w' :
  evaluate_loop ins batch_size verbose None w = (Ok outs, w') ->
  exists stateful labels num_samples w0 evs0 items raw,
    check_num_samples ins batch_size None "steps" = Ok num_samples /\
    extends w w0 evs0 /\ test_inputs evs0 = [] /\ test_outputs evs0 = [] /\
    get_batch_generator ins num_samples batch_size ShuffleFalse w0
    = (Ok items, w0) /\
    evaluate_batches stateful (get_sparse_conversion_indices ins false) labels
                     0 items [] w0
    = (Ok raw, w').
Proof.
  unfold evaluate_loop. intros H.
  step_run H stateful w1 E1.
  assert (Hpre : exists e1, extends w w1 e1 /\ test_inputs e1 = [] /\
                            test_outputs e1 = []).
  { destruct has_metrics.
    - step_run E1 u wa Ea. apply tell_ok in Ea. destruct Ea as [_ Xa].
      step_run E1 names wb Eb. apply read_ok in Eb. destruct Eb as [_ ->].
      apply ret_ok in E1. destruct E1 as [_ ->].
      eexists. split; [exact Xa|]. now split.
    - apply ret_ok in E1. destruct E1 as [_ ->].
      exists []. split; [apply extends_refl|]. now split. }
  destruct Hpre as (e1 & X1 & Hi1 & Ht1).
  step_run H num_samples w2 E2. apply liftR_ok in E2. destruct E2 as [Hn ->].
  step_run H names w3 E3. apply read_ok in E3. destruct E3 as [_ ->].
  step_run H u4 w4 E4. apply tell_ok in E4. destruct E4 as [_ X4].
  step_run H u5 w5 E5. apply tell_ok in E5. destruct E5 as [_ X5].
  step_run H u6 w6 E6. apply tell_ok in E6. destruct E6 as [_ X6].
  step_run H u7 w7 E7. apply write_ok in E7. destruct E7 as [_ X7].
  step_run H u8 w8 E8. apply tell_ok in E8. destruct E8 as [_ X8].
  step_run H items w9 E9.
  destruct (get_batch_generator_unshuffled _ _ _ _ E9)
    as (n & b & _ & _ & _ & -> & _).
  step_run H raw w10 E10. apply liftR_ok in H. destruct H as [_ ->].
  eexists stateful, _, num_samples, w8, _, items, raw.
  split; [exact Hn|]. split.
  - eapply extends_trans; [exact X1|].
    eapply extends_trans; [exact X4|].
    eapply extends_trans; [exact X5|].
    eapply extends_trans; [exact X6|].
    eapply extends_trans; [exact X7|exact X8].
  - rewrite !test_inputs_app, !test_outputs_app, Hi1, Ht1.
    split; [reflexivity|]. split; [reflexivity|]. split; [exact E9|exact E10].
Qed.

Lemma predict_loop_samples_prefix ins batch_size verbose (w : world T)
  outs w' :
  predict_loop ins batch_size verbose None w = (Ok outs, w') ->
  exists num_samples w0 evs0 items,
    check_num_samples ins batch_size None "steps" = Ok num_samples /\
    extends w w0 evs0 /\ predict_inputs evs0 = [] /\
    predict_outputs evs0 = [] /\
    get_batch_generator ins num_samples batch_size ShuffleFalse w0
    = (Ok items, w0) /\
    predict_batches (get_sparse_conversion_indices ins true) num_samples
                    batch_size 0 items [] w0
    = (Ok outs, w').
Proof.
  unfold predict_loop. intros H.
  step_run H num_samples w2 E2. apply liftR_ok in E2. destruct E2 as [Hn ->].
  step_run H u4 w4 E4. apply tell_ok in E4. destruct E4 as [_ X4].
  step_run H u5 w5 E5. apply tell_ok in E5. destruct E5 as [_ X5].
  step_run H u6 w6 E6. apply tell_ok in E6. destruct E6 as [_ X6].
  step_run H u7 w7 E7. apply write_ok in E7. destruct E7 as [_ X7].
  step_run H u8 w8 E8. apply tell_ok in E8. destruct E8 as [_ X8].
  step_run H items w9 E9.
  destruct (get_batch_generator_unshuffled _ _ _ _ E9)
    as (n & b & _ & _ & _ & -> & _).
  eexists num_samples, w8, _, items.
  split; [exact Hn|]. split.
  - eapply extends_trans; [exact X4|].
    eapply extends_trans; [exact X5|].
    eapply extends_trans; [exact X6|].
    eapply extends_trans; [exact X7|exact X8].
  - split; [reflexivity|]. split; [reflexivity|]. split; [exact E9|exact H].
Qed.

(** X17.  Over arrays of at least [num_samples] rows none of which is
    converted to dense, a sample-mode [evaluate_loop] that returns has
    called the test function on the consecutive batches of rows, batch
    after batch from the first: call [k] got, of every array, the rows
    from [k * batch_size] up to [(k + 1) * batch_size] or to
    [num_samples]. *)
Theorem evaluate_loop_tests_consecutive_rows (xs : list ndarray) b verbose n
  (w : world T) outs w' :
  check_num_samples (Some (map PArray xs)) (Some b) None "steps"
  = Ok (Some n) ->
  xs <> [] -> Forall (fun x => n <= length (rows x)) xs ->
  get_sparse_conversion_indices (Some (map PArray xs)) false = [] ->
  evaluate_loop (Some (map PArray xs)) (Some b) verbose None w
  = (Ok outs, w') ->
  test_inputs (new_events w w')
  = map (fun k => Some (batch_rows xs n b k))
        (seq 0 (length (test_outputs (new_events w w')))).
Proof.
  intros Hcheck Hne HF Hsparse H.
  apply evaluate_loop_samples_prefix in H.
  destruct H as (stateful & labels & num_samples & w0 & evs0 & items & raw
                 & Hn & X0 & Hi0 & Ht0 & Hgen & Hloop).
  rewrite Hcheck in Hn. injection Hn as <-. rewrite Hsparse in Hloop.
  destruct (get_batch_generator_unshuffled _ _ _ _ Hgen)
    as (n' & b' & En & Eb & Hb & _ & Hitems).
  injection En as <-. injection Eb as <-.
  rewrite unshuffled_items in Hitems by assumption. subst items.
  apply evaluate_batches_inputs in Hloop. destruct Hloop as (evs & X & Hi).
  pose proof (extends_trans X0 X) as Xall.
  rewrite (extends_new_events Xall).
  now rewrite test_inputs_app, test_outputs_app, Hi0, Ht0, Hi.
Qed.

(** X18.  Over arrays of at least [num_samples] rows none of which is
    converted to dense, a sample-mode [predict_loop] that returns has
    called the predict function on the consecutive batches of rows:
    call [k] got, of every array, the rows from [k * batch_size] up to
    [(k + 1) * batch_size] or to [num_samples], the rows its output is
    stored at. *)
Theorem predict_loop_predicts_consecutive_rows (xs : list ndarray) b verbose n
  (w : world T) outs w' :
  check_num_samples (Some (map PArray xs)) (Some b) None "steps"
  = Ok (Some n) ->
  xs <> [] -> Forall (fun x => n <= length (rows x)) xs ->
  get_sparse_conversion_indices (Some (map PArray xs)) true = [] ->
  predict_loop (Some (map PArray xs)) (Some b) verbose None w
  = (Ok outs, w') ->
  predict_inputs (new_events w w')
  = map (fun k => Some (batch_rows xs n b k))
        (seq 0 (length (predict_outputs (new_events w w')))).
Proof.
  intros Hcheck Hne HF Hsparse H.
  apply predict_loop_samples_prefix in H.
  destruct H as (num_samples & w0 & evs0 & items & Hn & X0 & Hi0 & Ht0
                 & Hgen & Hloop).
  rewrite Hcheck in Hn. injection Hn as <-. rewrite Hsparse in Hloop.
  destruct (get_batch_generator_unshuffled _ _ _ _ Hgen)
    as (n' & b' & En & Eb & Hb & _ & Hitems).
  injection En as <-. injection Eb as <-.
  rewrite unshuffled_items in Hitems by assumption. subst items.
  apply predict_batches_inputs in Hloop. destruct Hloop as (evs & X & Hi).
  pose proof (extends_trans X0 X) as Xall.
  rewrite (extends_new_events Xall).
  now rewrite predict_inputs_app, predict_outputs_app, Hi0, Ht0, Hi.
Qed.

End ComputeInputs.

(** Five samples in batches of three: the test function got rows 0 to 2,
    then rows 3 and 4. *)
Lemma evaluate_loop_tests_consecutive_rows_witness :
  check_num_samples (Collaborators := scripted ten_twenty)
                    (Some [samples 5]) (Some 3) None "steps" = Ok (Some 5) /\
  evaluate_loop (C := scripted ten_twenty) (Some [samples 5]) (Some 3) 0 None
                fresh_world
  = (Ok (returned ten_twenty_run), snd ten_twenty_run) /\
  test_inputs (new_events fresh_world (snd ten_twenty_run))
  = [Some [PArray (column [0; 1; 2])];
     Some [PArray (column [3; 4])]] /\
  test_inputs (new_events fresh_world (snd ten_twenty_run))
  = map (fun k => Some (batch_rows
                          [column (seq 0 5)]
                          5 3 k))
        (seq 0 (length (test_outputs
                          (new_events fresh_world (snd ten_twenty_run))))).
Proof.
  split; [reflexivity|]. split; [reflexivity|]. split; [reflexivity|].
  refine (@evaluate_loop_tests_consecutive_rows nat (scripted ten_twenty)
            [column (seq 0 5)] 3 0 5
            fresh_world (returned ten_twenty_run) (snd ten_twenty_run)
            eq_refl _ _ eq_refl eq_refl).
  - discriminate.
  - repeat constructor.
Defined.

(** Ten samples in batches of four, stopped after the first batch: the
    predict function got rows 0 to 3. *)
Lemma predict_loop_predicts_consecutive_rows_witness :
  check_num_samples (Collaborators := scripted predicting_stopped)
                    (Some [samples 10]) (Some 4) None "steps" = Ok (Some 10) /\
  predict_loop (C := scripted predicting_stopped) (Some [samples 10]) (Some 4)
               0 None fresh_world
  = (Ok (returned stopped_predict_run), snd stopped_predict_run) /\
  predict_inputs (new_events fresh_world (snd stopped_predict_run))
  = [Some [PArray (column [0; 1; 2; 3])]] /\
  predict_inputs (new_events fresh_world (snd stopped_predict_run))
  = map (fun k => Some (batch_rows
                          [column (seq 0 10)]
                          10 4 k))
        (seq 0 (length (predict_outputs
                          (new_events fresh_world (snd stopped_predict_run))))).
Proof.
  split; [reflexivity|]. split; [reflexivity|]. split; [reflexivity|].
  refine (@predict_loop_predicts_consecutive_rows nat
            (scripted predicting_stopped)
            [column (seq 0 10)] 4 0 10
            fresh_world (returned stopped_predict_run)
            (snd stopped_predict_run) eq_refl _ _ eq_refl eq_refl).
  - discriminate.
  - repeat constructor.
Defined.

(** ** What the train function is given *)

Lemma train_inputs_app (e1 e2 : list event) :
  train_inputs (e1 ++ e2) = train_inputs e1 ++ train_inputs e2.
Proof.
  induction e1 as [|e t IH]; simpl; auto.
  destruct e; simpl; now rewrite IH.
Qed.

Lemma no_train_run evs :
  forall q q', run_steps no_train_step q evs = Some q' -> train_inputs evs = [].
Proof.
  induction evs as [|e t IH]; intros q q' H; simpl in *; auto.
  destruct e; simpl in H; try discriminate; eauto.
Qed.

Lemma train_on_message_trains_nothing verbose ins val_ins :
  train_inputs (train_on_message verbose ins val_ins) = [].
Proof.
  unfold train_on_message.
  destruct ins as [[|x ?]|]; auto. destruct val_ins as [[|v ?]|]; auto.
  destruct ((0 <? verbose) && has_shape x && has_shape v); auto.
  destruct (shape0_of x); auto. destruct (shape0_of v); auto.
Qed.

Section TrainInputs.

Context {T : Type} {C : Collaborators T}.

(** The validation pass trains on nothing. *)
Lemma evaluate_loop_trains_nothing ins batch_size verbose steps (w : world T)
  r w' :
  evaluate_loop ins batch_size verbose steps w = (r, w') ->
  exists evs, extends w w' evs /\ train_inputs evs = [].
Proof.
  intros H.
  assert (Hk : forall e, validation_event e = true ->
                         no_train_step tt e = Some tt).
  { intros e He. destruct e; try reflexivity. discriminate. }
  pose proof (@moves_evaluate_loop T C unit no_train_step tt Hk ins batch_size
                verbose steps) as Hm.
  destruct (Hm w r w' H) as (evs & q' & X & R & _).
  exists evs. split; [exact X|]. exact (no_train_run _ _ R).
Qed.

Lemma check_validation_trains_nothing verbose ins val_ins steps_per_epoch
  validation_steps (w : world T) do_validation w' :
  check_validation verbose ins val_ins steps_per_epoch validation_steps w
  = (Ok do_validation, w') ->
  exists evs, extends w w' evs /\ train_inputs evs = [].
Proof.
  unfold check_validation. intros H.
  step_run H dv w0 E0.
  assert (H0 : exists evs, extends w w0 evs /\ train_inputs evs = []).
  { destruct (truthy_bundle val_ins).
    - step_run E0 u0 w00 E00. rewrite print_train_on_run in E00.
      injection E00 as _ <-. apply ret_ok in E0. destruct E0 as [_ ->].
      exists (train_on_message verbose ins val_ins).
      split; [reflexivity|apply train_on_message_trains_nothing].
    - apply ret_ok in E0. destruct E0 as [_ ->]. exists [].
      split; [apply extends_refl|reflexivity]. }
  assert (Hw : w' = w0).
  { destruct (truthy_int validation_steps).
    - destruct steps_per_epoch; [|discriminate].
      apply ret_ok in H. now destruct H.
    - destruct dv.
      + destruct (truthy_int steps_per_epoch); [discriminate|].
        apply ret_ok in H. now destruct H.
      + apply ret_ok in H. now destruct H. }
  now subst w'.
Qed.

(** The batch loop trains on the items of the generator, from the first,
    as they are when no input is converted to dense. *)
Lemma fit_batches_inputs labels items :
  forall k (w : world T) u w',
    fit_batches [] labels k items w = (Ok u, w') ->
    exists evs fed,
      extends w w' evs /\ train_inputs evs = map Some fed /\
      length fed <= length items /\
      map Ok fed = firstn (length fed) items.
Proof.
  induction items as [|item rest IH]; intros k w u w' H.
  - apply ret_ok in H. destruct H as [_ ->]. exists [], [].
    split; [apply extends_refl|]. now repeat split.
  - simpl in H.
    step_run H batch_ins w0 E0. apply liftR_ok in E0. destruct E0 as [-> ->].
    step_run H size w0 E0. apply liftR_ok in E0. destruct E0 as [_ ->].
    step_run H u1 w1 E1. apply tell_ok in E1. destruct E1 as [_ X1].
    step_run H dense w1' E1'. apply liftR_ok in E1'. destruct E1' as [Hd ->].
    simpl in Hd. injection Hd as <-.
    step_run H o w2 E2. apply call_train_ok in E2.
    step_run H u3 w3 E3. apply tell_ok in E3. destruct E3 as [_ X3].
    step_run H stop w5 E5. apply poll_ok in E5. destruct E5 as (_ & _ & X5).
    pose proof (extends_trans X1 (extends_trans E2 (extends_trans X3 X5)))
      as X.
    match type of X with
    | extends _ _ ?l =>
        assert (Hi1 : train_inputs l = [Some batch_ins]) by reflexivity;
        set (evs1 := l) in *
    end.
    clearbody evs1.
    destruct stop.
    + apply ret_ok in H. destruct H as [_ ->]. exists evs1, [batch_ins].
      split; [exact X|]. split; [exact Hi1|]. simpl. split; [lia|reflexivity].
    + apply IH in H. destruct H as (evs2 & fed & X2 & Hi2 & Hl & Hf).
      exists (evs1 ++ evs2), (batch_ins :: fed).
      split; [eapply extends_trans; [exact X|exact X2]|].
      rewrite train_inputs_app, Hi1, Hi2. split; [reflexivity|].
      simpl. split; [lia|]. now rewrite Hf.
Qed.

Variables (ins val_ins : bundle) (n b : nat) (shuffle : shuffle_mode)
          (validation_steps : option nat) (do_validation : bool)
          (labels : list string).

Hypothesis permutes : shuffle_permutes C.

Lemma fit_epoch_body_inputs (w : world T) logs w' :
  fit_epoch_body ins val_ins (Some b) shuffle None validation_steps
                 do_validation (Some n) labels [] w = (Ok logs, w') ->
  exists evs fed,
    extends w w' evs /\ train_inputs evs = map Some fed /\
    epoch_of_batches ins n b fed.
Proof.
  unfold fit_epoch_body. intros H.
  step_run H items w1 E1.
  assert (Hb : 0 < b).
  { destruct (@moves_generator_count T C unit no_train_step tt ins (Some n)
                (Some b) shuffle w _ _ E1) as (evs & q & _ & _ & P).
    destruct b; [|lia]. exfalso. clear P.
    unfold get_batch_generator, bind in E1.
    destruct (shuffled_index_array (Some n) (Some 0) shuffle w)
      as [[index_array|e] w0]; [|discriminate].
    run_monad. discriminate. }
  destruct (get_batch_generator_run ins n shuffle w permutes Hb)
    as (index_array & batches & w1' & Hmk & Hperm & Hsame & _ & Hgen).
  rewrite Hgen in E1. injection E1 as <- <-.
  step_run H u2 w2 E2. apply fit_batches_inputs in E2.
  destruct E2 as (evs2 & fed & X2 & Hi2 & Hl & Hf).
  assert (Hv : exists evs3, extends w2 w' evs3 /\ train_inputs evs3 = []).
  { destruct do_validation.
    - step_run H val_outs w3 E3. apply ret_ok in H. destruct H as [_ ->].
      eapply evaluate_loop_trains_nothing. exact E3.
    - apply ret_ok in H. destruct H as [_ ->]. exists [].
      split; [apply extends_refl|reflexivity]. }
  destruct Hv as (evs3 & X3 & Hi3).
  exists (evs2 ++ evs3), fed. split.
  - unfold extends in *. destruct Hsame as [Ht _].
    rewrite X3, X2, Ht. now rewrite app_assoc.
  - rewrite train_inputs_app, Hi2, Hi3, app_nil_r. split; [reflexivity|].
    exists index_array, batches. split; [exact Hperm|]. split; [exact Hmk|].
    unfold batch_ids_of in *. rewrite !length_map in Hl. split; [exact Hl|].
    rewrite Hf. now rewrite firstn_map.
Qed.

Lemma fit_epochs_inputs epochs_left :
  forall (w : world T) u w',
    fit_epochs ins val_ins (Some b) shuffle None validation_steps do_validation
               (Some n) labels [] epochs_left w = (Ok u, w') ->
    exists evs feds,
      extends w w' evs /\ train_inputs evs = map Some (concat feds) /\
      length feds <= length epochs_left /\
      Forall (epoch_of_batches ins n b) feds.
Proof.
  induction epochs_left as [|epoch rest IH]; intros w u w' H.
  - apply ret_ok in H. destruct H as [_ ->]. exists [], [].
    split; [apply extends_refl|]. now repeat split.
  - simpl in H.
    step_run H u1 w1 E1. apply tell_ok in E1. destruct E1 as [_ X1].
    step_run H u2 w2 E2. apply tell_ok in E2. destruct E2 as [_ X2].
    step_run H logs w3 E3. apply fit_epoch_body_inputs in E3.
    destruct E3 as (evs3 & fed & X3 & Hi3 & Hfed).
    step_run H u4 w4 E4. apply tell_ok in E4. destruct E4 as [_ X4].
    step_run H stop w5 E5. apply poll_ok in E5. destruct E5 as (_ & _ & X5).
    pose proof (extends_trans X1 (extends_trans X2 (extends_trans X3
                  (extends_trans X4 X5)))) as X.
    match type of X with
    | extends _ _ ?l =>
        assert (Hi : train_inputs l = map Some fed)
          by (simpl; rewrite train_inputs_app, Hi3; simpl;
              now rewrite app_nil_r);
        set (evs1 := l) in *
    end.
    clearbody evs1.
    destruct stop.
    + apply ret_ok in H. destruct H as [_ ->]. exists evs1, [fed].
      split; [exact X|]. simpl. rewrite app_nil_r.
      split; [exact Hi|]. split; [lia|]. now constructor.
    + apply IH in H. destruct H as (evs2 & feds & X' & Hi2 & Hl & HF).
      exists (evs1 ++ evs2), (fed :: feds).
      split; [eapply extends_trans; [exact X|exact X']|].
      rewrite train_inputs_app, Hi, Hi2. simpl. rewrite map_app.
      split; [reflexivity|]. split; [lia|]. now constructor.
Qed.

End TrainInputs.

Section TrainingData.

Context {T : Type} {C : Collaborators T}.


End TrainingData.

